(* ===== verification/_CoqProject ===== *)
-Q . S2P
Prelude.v
Locks.v
MemoryMap.v
FrameAlloc.v
ObjectAlloc.v
Events.v
Timer.v
Graphics.v
FrameBuffer.v
FontData.v
Font.v
Window.v
Console.v
Task.v
Paging.v
Rings.v
Dma.v
Bitfield.v
Pci.v
Usbd.v
ByteMem.v
Elf.v
Handover.v
Runtime.v
Transfer.v
Service.v
Descriptors.v
TaskStart.v
Asm.v
Acpi.v
Xhci.v
InitDevice.v
Desktop.v
Kernel.v
Driver.v
HeapInit.v
Bringup.v
Reports.v
LockOrder.v
