(* ===== verification/Prelude.v ===== *)
(** * mknm_os: a verified model of a small operating system kernel

    mknm_os is a 64-bit kernel in Rust with its own UEFI boot loader. The loader
    (bootloader/src) reads the kernel's ELF file, places its segments and hands over the
    frame buffer, the UEFI memory map and the ACPI root. The kernel (kernel/src) builds an
    identity page table, a frame allocator from the memory map and a heap on top of it; it
    scans the PCI buses for an xHCI controller, talks to it through rings of transfer
    request blocks, and runs a main loop that handles messages queued by interrupt
    handlers. A timer interrupt drives timeouts and the round-robin task switch; output
    goes to a text console, a window among others, composed on the screen by layers.

    ** Conventions

    A function of the source is a definition of (nearly) the same name. Code runs in
    [outcome]: [Ret], a [panic] with its cause, or [OutOfFuel]. The kernel is built with
    overflow checks, so [+], [-] and [*] on machine integers are checked
    ([usize_add], [i32_sub], ...) and panic outside the width, while [as] casts wrap
    ([as_u], [as_s]). Integers are [Z]; indexing ([vget], [vset]) panics out of range, and
    raw pointer reads that leave their buffer are [Panic Undefined]. [for] loops are [foldM]
    over the iterated list. Other loops are [loop] with fuel; [loop_total] and its variants
    ask for a measure, and each theorem about such a loop shows that the fuel given
    suffices (the number of frames, the size of the free list, the number of bytes, timers,
    ring slots or devices), or holds for every fuel above a stated bound.
    Third-party crates are type classes or parameters with the documented laws: the
    [BinaryHeap] contract [MaxHeap], the TRB accessors [TrbOps], the [Bitfield] accessors;
    so are the interfaces between components ([EventSink], [PixelWriter] with [Canvas]),
    whose instances discharge the laws.

    ** Files, in dependency order

    - Prelude: outcomes, machine integers, slices, little-endian bytes, loops, hint
      database [kernel].
    - Locks (memory_manager.rs: SingleMutex, SpinMutex, SpinRwLock, LazyInit): step
      relations over atomic operations; mutual exclusion under every interleaving.
    - MemoryMap (memory_map.rs): the descriptor iterator over the firmware's buffer;
      it terminates and yields exactly the encoded descriptors.
    - FrameAlloc (memory_manager.rs: BitMapMemoryManager): first-fit allocation on a bitmap;
      exact results, disjointness of live blocks, initial state from the memory map, and the
      inputs that make it panic or refuse.
    - ObjectAlloc (memory_manager.rs: FreeList, PageHeader, ObjectAllocator): the heap;
      the invariant ties intrusive free lists, live blocks and frames together; alloc is
      total, aligned, and live allocations never overlap in any history.
    - Events (main.rs: MessageQueue): the ring buffer refines a bounded FIFO; [EventSink].
    - Timer (timer.rs): tick handles exactly the due timers in order and re-arms the
      task timer; the resulting switch period.
    - Graphics, FrameBuffer, FontData, Font (graphic/graphics.rs, frame_buffer.rs, font.rs):
      drawing verified against the [Canvas] laws of one pixel write, pixel-exact block
      copies and overlapping moves, the font table and text.
    - Window (graphic/buffered.rs, window.rs): double buffering and composition of layers.
    - Console (console.rs): printing refines a terminal, with every pixel in step with
      the text, across scrolling.
    - Task (task.rs): the context switch as its instruction sequence on a processor model,
      and the round-robin scheduler: full state saved and restored, fairness.
    - Paging (paging.rs): the page table, and the processor's walk through it.
    - Rings (usb/ring/ring.rs, event.rs, command.rs): the producer and consumer
      protocol against the host controller on the other side of the ring.
    - Dma (the buffers of usb/ring/ring.rs, event.rs, usb/device.rs and usb/class): what the
      controller is given the addresses of: aligned, inside one page, as long as the
      transfers, and what of that the layouts asked for alone do not promise.
    - Bitfield, Pci (pci.rs, asm/mod.rs): the recursive bus scan over arbitrary device
      contents, MSI programming.
    - Usbd (usb/usbd.rs, constructors of usb/class): reading a device's configuration,
      parsing its descriptors, the tree of interfaces; what a device can make go wrong.
    - ByteMem, Elf (bootloader/src/elf.rs and load_kernel of main.rs): memory as bytes;
      parsing and loading.
    - Handover (bootloader/src/main.rs, frame_buffer.rs, memory_map.rs): the boot loader's
      main over a firmware record, and the kernel reading back what it left.
    - Runtime (usb/runtime.rs, on_xhc_interrupt of usb/mod.rs): channels, the executor and
      its run loop; [Interleaving] runs senders and polls atomic step by atomic step.
    - Transfer (usb/ring/transfer.rs, event.rs): control requests as their stages,
      interrupt transfers, and the dispatch of completion events.
    - Service (usb/mod.rs: on_xhc_interrupt): Rings, Transfer and Runtime as one system: one
      interrupt takes every event off the ring and runs every task it makes ready.
    - Descriptors (segment.rs, interrupt.rs): both tables, as the processor reads them.
    - TaskStart (KernelMain2): the context built for task B and the first switch to it.
    - Asm (the assembly of segment.rs, interrupt.rs, paging.rs, main.rs, asm/mod.rs): the
      routines as instruction sequences on a processor with byte memory; the tables set up
      through them are the tables of Descriptors.
    - Acpi (acpi.rs, the APIC registers of timer.rs): table validation, and waiting on a
      counter that wraps around.
    - Xhci (usb/xhci.rs, device.rs, util.rs): taking over, resetting and starting the
      controller, and the memory it is given on the heap of ObjectAlloc.
    - InitDevice (usb/action/init_device.rs): the port state machine; addressing a device
      through command ring, heap and transfer rings.
    - Desktop (main.rs, mouse.rs, taskB.rs, graphic/mod.rs): cursor, windows and what the
      two tasks draw, on the layers of Window.
    - Kernel (main.rs): the main loop, both interrupt handlers, timers and message queue as
      one transition system; the choice of the controller among the PCI devices.
    - Driver (usb/usbd.rs: the driver task): configuring a device from its first byte to its
      mouse or keyboard driver, with the requests the device gets, and the polling loops.
    - HeapInit (memory_manager.rs: init_allocators, run_allocator_tests): MemoryMap,
      FrameAlloc and ObjectAlloc composed, with the self-test run at every start: six free
      frames are enough and needed, as one page of each class has room for the test.
    - Bringup (usb/mod.rs, initialize_xhci, init_event_ring): Pci, Xhci, Rings, Transfer and
      Runtime composed; the order of everything written to the controller.
    - Reports (usb/class/key.rs, the reports of mouse.rs and keyboard.rs): the bytes of a
      device as typed values; which byte contents Rust's types do not allow.
    - LockOrder (main.rs and everything it calls): every lock, every [LazyInit] and the
      interrupt flag, through start-up, main loop, USB tasks, task B and both handlers; a
      checker on the reduced programs, its soundness for all traces, and the absence of
      deadlock under every interleaving of the two tasks and the handlers.

    ** Groups of theorems

    Running out of memory is stated by counting: [n_free] is the number of frames that can
    still be given out one by one, [unserved] says when the heap refuses a request, and the
    theorems that can fail for want of memory bound the frames that rule it out.

    Memory: [live_blocks_disjoint], [live_allocations_disjoint], [alloc_total],
    [allocate_first_fit], [new_at_correct], [allocators_initialised],
    [setup_identity_maps], [dma_buffers_safe]; lemmas [load_kernel_places_segments] and
    [for_entries_roundtrip]. Boot and tables: [boot_loader_hands_over], [tables_installed],
    [acpi_finds_fadt], lemma [handlers_installed]. Control and concurrency:
    [locks_never_deadlock], [switch_context_swaps], [task_b_starts], [round_robin_fair],
    [tick_handles_due_timers], [periodic_timers_survive], [no_lost_wakeup],
    [spin_mutex_exclusive], [spin_rwlock_exclusive], [wait_millis_waits]. Queues and
    devices: [queue_refines_fifo], [producer_ring_delivers], [events_dispatched],
    [interrupt_serves_all], [control_request_stages], [find_xhc_device_finds],
    [configure_msi_programs], [controller_brought_up], [device_addressed],
    [device_configured], [reports_well_typed]; lemmas [read_config_parses] and
    [hid_polled_forever]. Screen: [copy_blits], [move_rect_overlap_safe],
    [draw_composes_layers], [put_string_shows_text], [initialize_windows_shows],
    [pointer_clamped]. Limits of the code: [big_controllers_fail],
    [construct_configuration_hangs], and among the lemmas [command_ring_exhausts],
    [hotplug_first_only], [panic_in_print_waits], [alloc_2048_fails],
    [allocate_oversized_panics], [task_switch_every_third_tick], [tick_never_shown],
    [wait_can_hang], [lost_timer], [halts_with_message], [bad_interface_number].

    ** Hardware and other parties

    Devices are inputs. Configuration space, memory-mapped tables and port reads are
    parameters about which nothing is assumed beyond what a theorem states; a register that
    is polled is the sequence of values successive reads return, and a theorem about a
    polling loop asks that the awaited value arrives after some number of reads below
    the fuel. The host controller is the other side of each ring: a step of the ring's
    transition system, free to act at any time. Futures of the executor are a parameter:
    what a poll does. In the USB stack, code between two await points is one
    step: there is one executor, run from the main loop.

    ** Not modelled

    Memory orderings weaker than sequential consistency; faults, privilege checks and the
    hidden parts of segment registers; what the firmware does when the boot loader leaves
    its services; printing and dump functions; the encodings of
    blocks and contexts, which the xhci crate has. LockOrder has the order of the calls in
    KernelMain2 with their locks, initialisations and interrupt flag, and the other files
    what each of them computes; one state that carries all of it from the boot loader's
    jump to the main loop is not there. usb/context.rs is not part of the module tree and
    never compiled.
    Planned next: KernelMain2 as a function over that joint state, composed of
    [boot_loader_hands_over], [allocators_initialised], [initialize_windows_shows],
    [tables_installed], [acpi_finds_fadt], [find_xhc_device_finds],
    [configure_msi_programs] and [controller_brought_up]; the tasks of InitDevice and
    Driver as clients of Service. *)

From Stdlib Require Export ZArith Lia.
From stdpp Require Export base numbers list option relations gmap.

Declare Scope outcome_scope.
Delimit Scope outcome_scope with outcome.

#[global] Open Scope Z_scope.

(** ** Outcomes of Rust code

    The kernel is built with [cargo build] (run_qemu.sh), i.e. with overflow
    checks: an arithmetic overflow, an out-of-range index, a failed assertion
    or an [unwrap] of nothing stops the kernel in its panic handler.  [Undefined]
    marks reads that leave the object they start in (raw pointers). *)
Inductive panic :=
  | Overflow
  | IndexOutOfBounds
  | AssertFailed
  | UnwrapNone
  | ExplicitPanic
  | Undefined.

Inductive outcome (A : Type) :=
  | Ret (a : A)
  | Panic (p : panic)
  | OutOfFuel.
Arguments Ret {A} a.
Arguments Panic {A} p.
Arguments OutOfFuel {A}.

#[export] Instance panic_eq_dec : EqDecision panic.
Proof. solve_decision. Defined.

#[export] Instance outcome_ret : MRet outcome := λ A a, Ret a.
#[export] Instance outcome_bind : MBind outcome := λ A B f m,
  match m with
  | Ret a => f a
  | Panic p => Panic p
  | OutOfFuel => OutOfFuel
  end.
#[export] Instance outcome_fmap : FMap outcome := λ A B f m,
  match m with
  | Ret a => Ret (f a)
  | Panic p => Panic p
  | OutOfFuel => OutOfFuel
  end.

(** [assert!], [unwrap] and [expect]. *)
Definition assert_ (b : bool) : outcome () :=
  if b then Ret () else Panic AssertFailed.

Definition unwrap {A} (o : option A) : outcome A :=
  match o with Some a => Ret a | None => Panic UnwrapNone end.

Lemma bind_Ret {A B} (a : A) (f : A → outcome B) : (Ret a ≫= f) = f a.
Proof. done. Qed.

Lemma Ret_inj {A} (a b : A) : Ret a = Ret b → a = b.
Proof. by intros [= ->]. Qed.

Lemma bind_Ret_inv {A B} (m : outcome A) (f : A → outcome B) b :
  (m ≫= f) = Ret b → ∃ a, m = Ret a ∧ f a = Ret b.
Proof. destruct m; simpl; intros H; simplify_eq; eauto. Qed.

Lemma fmap_Ret_inv {A B} (m : outcome A) (f : A → B) b :
  (f <$> m) = Ret b → ∃ a, m = Ret a ∧ b = f a.
Proof. destruct m; simpl; intros H; simplify_eq; eauto. Qed.

Lemma bind_assoc {A B C} (m : outcome A) (f : A → outcome B) (g : B → outcome C) :
  ((m ≫= f) ≫= g) = (m ≫= λ a, f a ≫= g).
Proof. by destruct m. Qed.

(** Splits every [_ ≫= _ = Ret _] hypothesis into its steps. *)
Ltac inv_outcome :=
  repeat match goal with
  | H : (_ ≫= _) = Ret _ |- _ =>
      let a := fresh "a" in let H1 := fresh "Hs" in
      apply bind_Ret_inv in H as (a & H1 & H)
  | H : (_ <$> _) = Ret _ |- _ =>
      let a := fresh "a" in let H1 := fresh "Hs" in
      apply fmap_Ret_inv in H as (a & H1 & H)
  | H : Ret _ = Ret _ |- _ => injection H as H
  | H : mret _ = Ret _ |- _ => injection H as H
  | H : Panic _ = Ret _ |- _ => discriminate H
  | H : OutOfFuel = Ret _ |- _ => discriminate H
  end.

(** ** Machine integers

    A w-bit integer is a [Z] in range; [+], [-], [*] are checked, [as] casts wrap. *)
Definition chk_u (w z : Z) : outcome Z :=
  if (0 <=? z) && (z <? 2 ^ w) then Ret z else Panic Overflow.
Definition chk_s (w z : Z) : outcome Z :=
  if (- 2 ^ (w - 1) <=? z) && (z <? 2 ^ (w - 1)) then Ret z else Panic Overflow.

Definition usize_add (a b : Z) : outcome Z := chk_u 64 (a + b).
Definition usize_sub (a b : Z) : outcome Z := chk_u 64 (a - b).
Definition usize_mul (a b : Z) : outcome Z := chk_u 64 (a * b).
Definition u32_add (a b : Z) : outcome Z := chk_u 32 (a + b).
Definition u32_sub (a b : Z) : outcome Z := chk_u 32 (a - b).
Definition u32_mul (a b : Z) : outcome Z := chk_u 32 (a * b).
Definition i32_add (a b : Z) : outcome Z := chk_s 32 (a + b).
Definition i32_sub (a b : Z) : outcome Z := chk_s 32 (a - b).
Definition i32_neg (a : Z) : outcome Z := chk_s 32 (- a).

(** [z as uN] and [z as iN]. *)
Definition as_u (w z : Z) : Z := z mod 2 ^ w.
Definition as_s (w z : Z) : Z := (z + 2 ^ (w - 1)) mod 2 ^ w - 2 ^ (w - 1).

Definition in_u (w z : Z) : Prop := 0 ≤ z < 2 ^ w.
Definition in_s (w z : Z) : Prop := - 2 ^ (w - 1) ≤ z < 2 ^ (w - 1).

Create HintDb kernel.

Lemma chk_u_ok w z : 0 ≤ z < 2 ^ w → chk_u w z = Ret z.
Proof.
  intros [H1 H2]. unfold chk_u.
  by rewrite (proj2 (Z.leb_le _ _) H1), (proj2 (Z.ltb_lt _ _) H2).
Qed.

Lemma chk_u_overflow w z : ¬ (0 ≤ z < 2 ^ w) → chk_u w z = Panic Overflow.
Proof.
  intros H. unfold chk_u. destruct (Z.leb_spec 0 z), (Z.ltb_spec z (2 ^ w)); simpl;
    try done; lia.
Qed.

Lemma chk_u_inv w z r : chk_u w z = Ret r → r = z ∧ 0 ≤ z < 2 ^ w.
Proof.
  unfold chk_u. destruct (Z.leb_spec 0 z), (Z.ltb_spec z (2 ^ w)); simpl;
    intros ?; simplify_eq; lia.
Qed.

Lemma chk_s_ok w z : in_s w z → chk_s w z = Ret z.
Proof.
  intros [H1 H2]. unfold chk_s.
  by rewrite (proj2 (Z.leb_le _ _) H1), (proj2 (Z.ltb_lt _ _) H2).
Qed.

Lemma chk_s_inv w z r : chk_s w z = Ret r → r = z ∧ in_s w z.
Proof.
  unfold chk_s, in_s.
  destruct (Z.leb_spec (- 2 ^ (w - 1)) z), (Z.ltb_spec z (2 ^ (w - 1))); simpl;
    intros ?; simplify_eq; lia.
Qed.

Lemma usize_add_ok a b : 0 ≤ a + b < 2 ^ 64 → usize_add a b = Ret (a + b).
Proof. apply chk_u_ok. Qed.
Lemma usize_sub_ok a b : 0 ≤ a - b < 2 ^ 64 → usize_sub a b = Ret (a - b).
Proof. apply chk_u_ok. Qed.
Lemma usize_mul_ok a b : 0 ≤ a * b < 2 ^ 64 → usize_mul a b = Ret (a * b).
Proof. apply chk_u_ok. Qed.
Lemma i32_add_ok a b : - 2 ^ 31 ≤ a + b < 2 ^ 31 → i32_add a b = Ret (a + b).
Proof. apply (chk_s_ok 32). Qed.
Lemma i32_sub_ok a b : - 2 ^ 31 ≤ a - b < 2 ^ 31 → i32_sub a b = Ret (a - b).
Proof. apply (chk_s_ok 32). Qed.
Lemma i32_neg_ok a : - 2 ^ 31 ≤ - a < 2 ^ 31 → i32_neg a = Ret (- a).
Proof. apply (chk_s_ok 32). Qed.

Lemma as_u_small w z : 0 ≤ z < 2 ^ w → as_u w z = z.
Proof. apply Z.mod_small. Qed.

Lemma as_s_small w z : 0 < w → in_s w z → as_s w z = z.
Proof.
  unfold as_s, in_s. intros Hw H.
  assert (2 ^ w = 2 * 2 ^ (w - 1)) by (rewrite <- Z.pow_succ_r by lia; f_equal; lia).
  rewrite Z.mod_small by lia. lia.
Qed.

(** ** Arrays and slices, indexed by [usize] *)
Abbreviation zlen l := (Z.of_nat (length l)).

Definition vget {A} (l : list A) (i : Z) : outcome A :=
  if 0 <=? i then
    match l !! Z.to_nat i with Some x => Ret x | None => Panic IndexOutOfBounds end
  else Panic IndexOutOfBounds.

Definition vset {A} (l : list A) (i : Z) (x : A) : outcome (list A) :=
  if (0 <=? i) && (i <? zlen l) then Ret (<[Z.to_nat i := x]> l)
  else Panic IndexOutOfBounds.

Lemma vget_ok {A} (l : list A) i x :
  0 ≤ i → l !! Z.to_nat i = Some x → vget l i = Ret x.
Proof. intros Hi Hl. unfold vget. by rewrite (proj2 (Z.leb_le _ _) Hi), Hl. Qed.

Lemma vget_inv {A} (l : list A) i x :
  vget l i = Ret x → 0 ≤ i < zlen l ∧ l !! Z.to_nat i = Some x.
Proof.
  unfold vget. destruct (Z.leb_spec 0 i); [|done].
  destruct (l !! Z.to_nat i) eqn:E; [|done]. intros [= ->].
  apply lookup_lt_Some in E as ?. split; [lia|done].
Qed.

Lemma vget_range {A} (l : list A) i :
  0 ≤ i < zlen l → ∃ x, vget l i = Ret x ∧ l !! Z.to_nat i = Some x.
Proof.
  intros H. destruct (lookup_lt_is_Some_2 l (Z.to_nat i)) as [x Hx]; [lia|].
  exists x. split; [apply vget_ok; [lia|done]|done].
Qed.

Lemma vget_oob {A} (l : list A) i : zlen l ≤ i → vget l i = Panic IndexOutOfBounds.
Proof.
  intros H. unfold vget. rewrite (proj2 (Z.leb_le _ _)) by lia.
  by rewrite lookup_ge_None_2 by lia.
Qed.

Lemma vset_ok {A} (l : list A) i x :
  0 ≤ i < zlen l → vset l i x = Ret (<[Z.to_nat i := x]> l).
Proof.
  intros [H1 H2]. unfold vset.
  by rewrite (proj2 (Z.leb_le _ _) H1), (proj2 (Z.ltb_lt _ _) H2).
Qed.

Lemma vset_inv {A} (l : list A) i x l' :
  vset l i x = Ret l' → 0 ≤ i < zlen l ∧ l' = <[Z.to_nat i := x]> l.
Proof.
  unfold vset. destruct (Z.leb_spec 0 i), (Z.ltb_spec i (zlen l)); simpl;
    intros ?; simplify_eq; split; [lia|done].
Qed.

(** ** Bytes: little-endian integers inside a byte buffer *)
Fixpoint le_combine (l : list Z) : Z :=
  match l with [] => 0 | b :: l => b + 256 * le_combine l end.

Fixpoint le_split (n : nat) (z : Z) : list Z :=
  match n with O => [] | S n => z mod 256 :: le_split n (z / 256) end.

(** Reads an [n]-byte integer through a raw pointer into [buf]. *)
Definition read_le (buf : list Z) (off n : Z) : outcome Z :=
  if (0 <=? off) && (off + n <=? zlen buf)
  then Ret (le_combine (take (Z.to_nat n) (drop (Z.to_nat off) buf)))
  else Panic Undefined.

Lemma length_le_split n z : length (le_split n z) = n.
Proof. revert z; induction n; intros; simpl; auto. Qed.

Lemma le_combine_split n z : le_combine (le_split n z) = z mod 256 ^ Z.of_nat n.
Proof.
  revert z; induction n as [|n IH]; intros z; cbn [le_split le_combine].
  { by rewrite Z.mod_1_r. }
  rewrite IH, Nat2Z.inj_succ, Z.pow_succ_r by lia.
  rewrite Z.rem_mul_r by lia. lia.
Qed.

Lemma le_combine_app l1 l2 :
  le_combine (l1 ++ l2) = le_combine l1 + 256 ^ zlen l1 * le_combine l2.
Proof.
  induction l1 as [|b l1 IH]; cbn [app le_combine length]; [rewrite Z.pow_0_r; lia|].
  rewrite IH, Nat2Z.inj_succ, Z.pow_succ_r by lia. lia.
Qed.

(** Skipping what stands before the field, and reading the field itself. *)
Lemma read_le_skip pre buf off k n :
  zlen pre = k → 0 ≤ k ≤ off → read_le (pre ++ buf) off n = read_le buf (off - k) n.
Proof.
  intros Hk Ho. unfold read_le. rewrite length_app.
  rewrite drop_app_ge by lia.
  replace (Z.to_nat off - length pre)%nat with (Z.to_nat (off - k)) by lia.
  rewrite !(proj2 (Z.leb_le 0 _)) by lia.
  destruct (Z.leb_spec (off + n) (Z.of_nat (length pre + length buf)));
    destruct (Z.leb_spec (off - k + n) (zlen buf)); done || lia.
Qed.

Lemma read_le_head z post k n :
  k = Z.of_nat n → 0 ≤ z < 256 ^ k → read_le (le_split n z ++ post) 0 k = Ret z.
Proof.
  intros -> Hz. unfold read_le.
  rewrite !length_app, length_le_split, Nat2Z.id.
  rewrite !(proj2 (Z.leb_le _ _)) by lia.
  change (drop (Z.to_nat 0) ?l) with l. cbn [andb].
  rewrite take_app_length' by (by rewrite length_le_split).
  by rewrite le_combine_split, Z.mod_small.
Qed.

(** ** Loops

    [for x in l { s = f(s, x) }] and [loop { ... break r ... }]; [loop] is fuelled
    and every use comes with a measure that shows the fuel to be enough. *)
Fixpoint foldM {S A} (f : S → A → outcome S) (l : list A) (s : S) : outcome S :=
  match l with
  | [] => Ret s
  | x :: l => s' ← f s x; foldM f l s'
  end.

(** The indices of [a..b]. *)
Definition range (a b : Z) : list Z := seqZ a (b - a).

Fixpoint loop {S R} (fuel : nat) (body : S → outcome (S + R)) (s : S) : outcome R :=
  match fuel with
  | O => OutOfFuel
  | Datatypes.S fuel =>
      r ← body s;
      match r with inl s' => loop fuel body s' | inr r => Ret r end
  end.

Lemma foldM_app {S A} (f : S → A → outcome S) l1 l2 s :
  foldM f (l1 ++ l2) s = (foldM f l1 s ≫= foldM f l2).
Proof.
  revert s; induction l1 as [|x l1 IH]; intros s; simpl; [done|].
  destruct (f s x); simpl; auto.
Qed.

(** A state invariant indexed by how many elements have been processed. *)
Lemma foldM_inv {S A} (I : nat → S → Prop) (f : S → A → outcome S) l s :
  I 0%nat s →
  (∀ i x s, l !! i = Some x → I i s → ∃ s', f s x = Ret s' ∧ I (i + 1)%nat s') →
  ∃ s', foldM f l s = Ret s' ∧ I (length l) s'.
Proof.
  revert I s; induction l as [|x l IH]; intros I s H0 HS; simpl; [eauto|].
  destruct (HS 0%nat x s) as (s' & -> & H1); [done..|]. simpl.
  destruct (IH (λ i, I (Datatypes.S i)) s') as (s'' & -> & H2); [done| |eauto].
  intros i y t Hy Ht. destruct (HS (Datatypes.S i) y t) as (t' & ? & ?); eauto.
Qed.

(** What holds of every state a successful [foldM] goes through. *)
Lemma foldM_inv_partial {S A} (I : nat → S → Prop) (f : S → A → outcome S) l s s' :
  I 0%nat s →
  (∀ i x s s', l !! i = Some x → I i s → f s x = Ret s' → I (i + 1)%nat s') →
  foldM f l s = Ret s' → I (length l) s'.
Proof.
  revert I s; induction l as [|x l IH]; intros I s H0 HS; simpl; [by intros [= <-]|].
  intros H; inv_outcome. eapply (IH (λ i, I (Datatypes.S i)) a); eauto.
  - by apply (HS 0%nat x s a).
  - intros i y t t' Hy Ht Hf. by apply (HS (Datatypes.S i) y t t').
Qed.

Lemma range_lookup a b i x :
  range a b !! i = Some x → x = a + Z.of_nat i ∧ a ≤ x < b.
Proof. unfold range. intros [? ?]%lookup_seqZ. lia. Qed.

Lemma range_length a b : length (range a b) = Z.to_nat (b - a).
Proof. apply length_seqZ. Qed.

(** Total correctness of [loop] from an invariant and a decreasing measure. *)
Lemma loop_total {S R} (I : S → Prop) (Q : R → Prop) (m : S → nat)
    (body : S → outcome (S + R)) fuel s :
  (∀ s, I s → ∃ o, body s = Ret o ∧
     match o with inl s' => I s' ∧ (m s' < m s)%nat | inr r => Q r end) →
  I s → (m s < fuel)%nat → ∃ r, loop fuel body s = Ret r ∧ Q r.
Proof.
  intros Hb. revert s. induction fuel as [|fuel IH]; intros s Hs Hm; [lia|]. simpl.
  destruct (Hb s Hs) as ([s'|r] & -> & HQ); simpl; [|eauto].
  apply IH; [by apply HQ|lia].
Qed.

(** A loop whose measure decreases does not run out of fuel, whatever it returns. *)
Lemma loop_terminates {S R} (I : S → Prop) (m : S → nat)
    (body : S → outcome (S + R)) fuel s :
  (∀ s, I s → body s ≠ OutOfFuel) →
  (∀ s s', I s → body s = Ret (inl s') → I s' ∧ (m s' < m s)%nat) →
  I s → (m s < fuel)%nat → loop fuel body s ≠ OutOfFuel.
Proof.
  intros Hf Hb. revert s. induction fuel as [|fuel IH]; intros s Hs Hm; [lia|]. simpl.
  specialize (Hf s Hs). destruct (body s) as [[s'|r]|p|] eqn:E; simpl; try done.
  destruct (Hb s s' Hs E). apply IH; [done|lia].
Qed.

(** How a loop ends, panics included. *)
Lemma loop_ends {S R} (I : S → Prop) (Q : outcome R → Prop) (m : S → nat)
    (body : S → outcome (S + R)) fuel s :
  (∀ s, I s → match body s with
     | Ret (inl s') => I s' ∧ (m s' < m s)%nat
     | Ret (inr r) => Q (Ret r)
     | Panic p => Q (Panic p)
     | OutOfFuel => False
     end) →
  I s → (m s < fuel)%nat → Q (loop fuel body s).
Proof.
  intros Hb. revert s. induction fuel as [|fuel IH]; intros s Hs Hm; [lia|]. simpl.
  specialize (Hb s Hs). destruct (body s) as [[s'|r]|p|]; simpl; try done.
  apply IH; [by apply Hb|lia].
Qed.

(** More fuel never changes a result. *)
Lemma loop_mono {S R} (body : S → outcome (S + R)) f1 f2 s r :
  loop f1 body s = Ret r → (f1 ≤ f2)%nat → loop f2 body s = Ret r.
Proof.
  revert f2 s; induction f1 as [|f1 IH]; intros f2 s; simpl; [done|].
  destruct f2 as [|f2]; [lia|]. simpl. intros H Hle. inv_outcome. rewrite Hs; simpl.
  destruct a; [apply IH; [done|lia]|done].
Qed.

Create Rewrite HintDb kernel.
#[export] Hint Rewrite @bind_Ret : kernel.
#[export] Hint Rewrite chk_u_ok usize_add_ok usize_sub_ok usize_mul_ok
  i32_add_ok i32_sub_ok i32_neg_ok using lia : kernel.

(** Runs the checked arithmetic whose bounds [lia] can see. *)
Ltac step := repeat (simpl; autorewrite with kernel).

Lemma elem_of_option_list {A} (x : A) o : x ∈ option_list o ↔ o = Some x.
Proof. destruct o as [y|]; simpl; [rewrite list_elem_of_singleton; naive_solver|by rewrite elem_of_nil]. Qed.
