(* ===== verification/Locks.v ===== *)
(** memory_manager.rs, SingleMutex / SpinMutex / SpinRwLock / LazyInit: the locks behind
    every shared structure of the kernel.

    The spinning locks are step relations: a state is the shared atomic variable and
    the program point of each thread (or interrupt handler), and one step is one atomic
    operation of one thread. Interleavings are sequentially consistent; the orderings
    [Acquire]/[Release]/[Relaxed] are not modelled. [hlt] between two attempts only
    waits. *)

From S2P Require Import Prelude.

(** ** SingleMutex *)

Record SingleMutex := { single_locked : bool }.

Definition SingleMutex_INIT : SingleMutex := {| single_locked := false |}.

Definition single_lock (self : SingleMutex) : outcome SingleMutex :=
  _ ← assert_ (negb (single_locked self));
  Ret {| single_locked := true |}.

Definition single_try_lock (self : SingleMutex) : outcome (SingleMutex * bool) :=
  self ← single_lock self;
  Ret (self, true).

Definition single_unlock (self : SingleMutex) : SingleMutex := {| single_locked := false |}.

(** ** Counting threads *)

Section counting.
Context {A : Type} (P : A → bool).

Definition count (l : list A) : Z := zlen (filter (λ a, P a = true) l).

Lemma count_cons a l : count (a :: l) = (if P a then 1 else 0) + count l.
Proof. unfold count. rewrite filter_cons. destruct (P a); simpl; lia. Qed.

Lemma count_nonneg l : 0 ≤ count l.
Proof. unfold count. lia. Qed.

(** One thread moves from [a] to [b]. *)
Lemma count_insert l i a b :
  l !! i = Some a →
  count (<[i := b]> l) = count l - (if P a then 1 else 0) + (if P b then 1 else 0).
Proof.
  revert i; induction l as [|c l IH]; intros [|i] H; simpl in H; simplify_eq; simpl.
  - rewrite !count_cons. lia.
  - rewrite !count_cons, (IH i H). lia.
Qed.

Lemma count_pos l i a : l !! i = Some a → P a = true → 0 < count l.
Proof.
  revert i; induction l as [|c l IH]; intros [|i] H HP; simpl in H; simplify_eq;
    rewrite count_cons; pose proof (count_nonneg l).
  - rewrite HP. lia.
  - specialize (IH i H HP). destruct (P c); lia.
Qed.

(** Two different threads at counted points. *)
Lemma count_two l i j a b :
  l !! i = Some a → l !! j = Some b → i ≠ j → P a = true → P b = true → 2 ≤ count l.
Proof.
  intros Hi Hj Hne Ha Hb.
  pose proof (count_insert l i a a Hi) as E. rewrite (list_insert_id _ _ _ Hi) in E.
  revert i j Hi Hj Hne E. induction l as [|c l IH]; intros [|i] [|j] Hi Hj Hne E;
    simpl in *; simplify_eq; rewrite count_cons.
  - rewrite Ha. pose proof (count_pos l j b Hj Hb). lia.
  - rewrite Hb. pose proof (count_pos l i a Hi Ha). lia.
  - assert (2 ≤ count l); [|destruct (P c); lia].
    apply (IH i j Hi Hj); [congruence|lia].
Qed.

Lemma count_le l : count l ≤ zlen l.
Proof. unfold count. pose proof (length_filter (λ a, P a = true) l). lia. Qed.

(** If anything is counted, some thread is at a counted point. *)
Lemma count_witness l : 0 < count l → ∃ i a, l !! i = Some a ∧ P a = true.
Proof.
  induction l as [|a l IH]; [done|]. rewrite count_cons. destruct (P a) eqn:E.
  - by exists 0%nat, a.
  - intros H. destruct IH as (i & b & ? & ?); [lia|]. by exists (S i), b.
Qed.

Lemma count_replicate n a : P a = false → count (replicate n a) = 0.
Proof.
  intros Ha. induction n as [|n IH]; [done|]. cbn [replicate]. by rewrite count_cons, Ha, IH.
Qed.

End counting.

(** ** SpinMutex *)

Module SpinMutex.

(** [Spinning]: inside [lock], before an attempt; [Trying]: inside [try_lock]. *)
Inductive pc := Idle | Spinning | Trying | Holding.

Record state := { locked : bool; threads : list pc }.

Definition INIT (n : nat) : state := {| locked := false; threads := replicate n Idle |}.

(** [self.locked.swap(true)] *)
Definition swap_true (locked : bool) : bool * bool := (true, locked).

(** One atomic operation of a thread at [pc]: the new value of [locked], the new
    program point. *)
Inductive tstep : bool → pc → bool → pc → Prop :=
  | lock_call l : tstep l Idle l Spinning
  | try_lock_call l : tstep l Idle l Trying
  (** [while self.locked.swap(true)] *)
  | lock_swap l : tstep l Spinning (swap_true l).1 (if (swap_true l).2 then Spinning else Holding)
  (** [!self.locked.swap(true)] *)
  | try_lock_swap l : tstep l Trying (swap_true l).1 (if negb (swap_true l).2 then Holding else Idle)
  (** [self.locked.store(false)]; the guard is dropped only by its holder. *)
  | unlock l : tstep l Holding false Idle.

Inductive step : state → state → Prop :=
  | thread_step s i p l' p' :
      threads s !! i = Some p → tstep (locked s) p l' p' →
      step s {| locked := l'; threads := <[i := p']> (threads s) |}.

Definition holds (p : pc) : bool := match p with Holding => true | _ => false end.

(** [locked] says whether someone is inside, and there is room for one. *)
Definition inv (s : state) : Prop :=
  count holds (threads s) = if locked s then 1 else 0.

Lemma inv_init n : inv (INIT n).
Proof. unfold inv, INIT. simpl. by apply count_replicate. Qed.

Lemma inv_step s s' : inv s → step s s' → inv s'.
Proof.
  unfold inv. intros Hi Hs. destruct Hs as [s i p l' p' Hp Ht]. simpl.
  pose proof (count_pos holds _ _ _ Hp) as Hpos. rewrite Hi in Hpos.
  rewrite (count_insert holds _ _ _ _ Hp), Hi.
  destruct Ht; simpl in *; destruct l; simpl; lia.
Qed.

Lemma inv_steps s s' : rtc step s s' → inv s → inv s'.
Proof. induction 1 as [|s1 s2 s3 Hs _ IH]; [done|]. intros. by apply IH, (inv_step s1). Qed.

End SpinMutex.

(** C17: mutual exclusion of [SpinMutex]. However the threads interleave their [lock],
    [try_lock] and [unlock] calls, no two threads hold the lock at the same time, and
    the lock variable is set exactly while a thread holds it; so a waiting thread whose
    turn comes when the lock is not held gets it. *)
Theorem spin_mutex_exclusive (n : nat) (s : SpinMutex.state) :
  rtc SpinMutex.step (SpinMutex.INIT n) s →
  (∀ i j, SpinMutex.threads s !! i = Some SpinMutex.Holding →
          SpinMutex.threads s !! j = Some SpinMutex.Holding → i = j) ∧
  (SpinMutex.locked s = true ↔ ∃ i, SpinMutex.threads s !! i = Some SpinMutex.Holding) ∧
  (∀ i, SpinMutex.threads s !! i = Some SpinMutex.Spinning →
     (∀ j, SpinMutex.threads s !! j ≠ Some SpinMutex.Holding) →
     ∃ s', SpinMutex.step s s' ∧ SpinMutex.threads s' !! i = Some SpinMutex.Holding).
Proof.
  intros Hr. pose proof (SpinMutex.inv_steps _ _ Hr (SpinMutex.inv_init n)) as Hi.
  unfold SpinMutex.inv in Hi.
  assert (SpinMutex.locked s = true → ∃ i, SpinMutex.threads s !! i = Some SpinMutex.Holding) as Hh.
  { intros Hl. rewrite Hl in Hi.
    destruct (count_witness SpinMutex.holds (SpinMutex.threads s)) as (i & p & ? & ?); [lia|].
    exists i. by destruct p. }
  split_and!.
  - intros i j H1 H2. destruct (decide (i = j)); [done|].
    pose proof (count_two SpinMutex.holds _ _ _ _ _ H1 H2 n0 eq_refl eq_refl).
    destruct (SpinMutex.locked s); lia.
  - split; [done|]. intros [i Hin]. pose proof (count_pos SpinMutex.holds _ _ _ Hin eq_refl).
    destruct (SpinMutex.locked s); [done|lia].
  - intros i Hin Hno. destruct (SpinMutex.locked s) eqn:El; [destruct (Hh eq_refl) as [j ?]; by destruct (Hno j)|].
    eexists. split; [eapply SpinMutex.thread_step; [exact Hin|apply SpinMutex.lock_swap]|].
    rewrite El. simpl. apply list_lookup_insert_eq. by eapply lookup_lt_Some.
Qed.

(** Two threads: the first gets the lock, the second has to wait. *)
Definition contended : SpinMutex.state :=
  {| SpinMutex.locked := true; SpinMutex.threads := [SpinMutex.Holding; SpinMutex.Spinning] |}.

Lemma contended_reachable : rtc SpinMutex.step (SpinMutex.INIT 2) contended.
Proof.
  eapply rtc_l; [eapply (SpinMutex.thread_step _ 0); [reflexivity|apply SpinMutex.lock_call]|].
  eapply rtc_l; [eapply (SpinMutex.thread_step _ 0); [reflexivity|apply SpinMutex.lock_swap]|].
  eapply rtc_l; [eapply (SpinMutex.thread_step _ 1); [reflexivity|apply SpinMutex.lock_call]|].
  eapply rtc_l; [eapply (SpinMutex.thread_step _ 1); [reflexivity|apply SpinMutex.lock_swap]|].
  apply rtc_refl.
Qed.

Lemma spin_mutex_exclusive_witness :
  SpinMutex.locked contended = true ↔
  ∃ i, SpinMutex.threads contended !! i = Some SpinMutex.Holding.
Proof. apply (spin_mutex_exclusive 2 contended contended_reachable). Defined.

(** ** SpinRwLock *)

Module SpinRwLock.

(** The points of [lock_exclusive] ([WLoad], [WCas]), [try_lock_exclusive] ([WTry]),
    [lock_shared] ([RLoad], [RCas]) and [try_lock_shared] ([RTryLoad], [RTryCas]); the
    shared ones hold the value [old] they loaded. *)
Inductive pc :=
  | Idle
  | WLoad | WCas | WTry
  | RLoad | RCas (old : Z)
  | RTryLoad | RTryCas (old : Z)
  | Writing | Reading | Panicked.

Record state := { cnt : Z; threads : list pc }.

Definition INIT (n : nat) : state := {| cnt := 0; threads := replicate n Idle |}.

(** [compare_exchange_weak(old, new)]: it may fail although the values agree. *)
Inductive cas_weak (old new : Z) : Z → Z → bool → Prop :=
  | cas_ok : cas_weak old new old new true
  | cas_fail c : cas_weak old new c c false.

Inductive tstep : Z → pc → Z → pc → Prop :=
  | lock_exclusive_call c : tstep c Idle c WLoad
  | lock_shared_call c : tstep c Idle c RLoad
  | try_lock_exclusive_call c : tstep c Idle c WTry
  | try_lock_shared_call c : tstep c Idle c RTryLoad
  (** [while self.count.load() != 0 { hlt }] *)
  | lock_exclusive_load c : tstep c WLoad c (if negb (c =? 0) then WLoad else WCas)
  (** [if compare_exchange_weak(0, 1).is_ok() { break }] *)
  | lock_exclusive_cas c c' ok :
      cas_weak 0 1 c c' ok → tstep c WCas c' (if ok then Writing else WLoad)
  | try_lock_exclusive_cas c c' ok :
      cas_weak 0 1 c c' ok → tstep c WTry c' (if ok then Writing else Idle)
  (** [let old = load(); if old != 1 && compare_exchange_weak(old, old + 2).is_ok()] *)
  | lock_shared_load c : tstep c RLoad c (if negb (c =? 1) then RCas c else RLoad)
  | lock_shared_cas c c' old new ok :
      usize_add old 2 = Ret new → cas_weak old new c c' ok →
      tstep c (RCas old) c' (if ok then Reading else RLoad)
  | lock_shared_overflow c old p :
      usize_add old 2 = Panic p → tstep c (RCas old) c Panicked
  | try_lock_shared_load c : tstep c RTryLoad c (if negb (c =? 1) then RTryCas c else Idle)
  | try_lock_shared_cas c c' old new ok :
      usize_add old 2 = Ret new → cas_weak old new c c' ok →
      tstep c (RTryCas old) c' (if ok then Reading else Idle)
  | try_lock_shared_overflow c old p :
      usize_add old 2 = Panic p → tstep c (RTryCas old) c Panicked
  (** [store(0)] and [fetch_sub(2)], which wraps *)
  | unlock_exclusive c : tstep c Writing 0 Idle
  | unlock_shared c : tstep c Reading (as_u 64 (c - 2)) Idle.

Inductive step : state → state → Prop :=
  | thread_step s i p c' p' :
      threads s !! i = Some p → tstep (cnt s) p c' p' →
      step s {| cnt := c'; threads := <[i := p']> (threads s) |}.

Definition writes (p : pc) : bool := match p with Writing => true | _ => false end.
Definition reads (p : pc) : bool := match p with Reading => true | _ => false end.

(** The value a thread loaded is one [cnt] can have had while it was not 1. *)
Definition pc_ok (n : nat) (p : pc) : Prop :=
  match p with
  | RCas old | RTryCas old => old ≠ 1 ∧ 0 ≤ old ≤ 2 * Z.of_nat n
  | Panicked => False
  | _ => True
  end.

(** The doc comment of [count]: 1 with a writer, 2n with n readers. *)
Definition count_ok (c : Z) (writers readers : Z) : Prop :=
  c = 1 ∧ writers = 1 ∧ readers = 0 ∨ c = 2 * readers ∧ writers = 0 ∧ 0 ≤ readers.

Record inv (n : nat) (s : state) : Prop := {
  inv_len : length (threads s) = n;
  inv_count : count_ok (cnt s) (count writes (threads s)) (count reads (threads s));
  inv_pc : ∀ i p, threads s !! i = Some p → pc_ok n p;
}.

Lemma rw_inv_init n : inv n (INIT n).
Proof.
  split; simpl.
  - apply length_replicate.
  - right. rewrite !count_replicate by done. lia.
  - intros i p [-> _]%lookup_replicate. done.
Qed.

Lemma tstep_ok n c p c' p' w r :
  2 * Z.of_nat n + 2 < 2 ^ 64 → tstep c p c' p' → pc_ok n p → count_ok c w r →
  r ≤ Z.of_nat n → (writes p = true → 0 < w) → (reads p = true → 0 < r) →
  pc_ok n p' ∧
  count_ok c' (w - (if writes p then 1 else 0) + (if writes p' then 1 else 0))
    (r - (if reads p then 1 else 0) + (if reads p' then 1 else 0)).
Proof.
  intros Hn Ht Hp Hc Hr Hw1 Hr1. unfold count_ok in *.
  destruct Ht as [c|c|c|c|c|c c' ok Hcas|c c' ok Hcas|c|c c' old new ok Ha Hcas|c old q Ha|c
    |c c' old new ok Ha Hcas|c old q Ha|c|c]; simpl in *; try lia.
  all: try (unfold usize_add in Ha; rewrite chk_u_ok in Ha by lia; simplify_eq).
  all: try (destruct Hcas; simpl; lia).
  - destruct (Z.eqb_spec c 0); simpl; lia.
  - destruct (Z.eqb_spec c 1); simpl; lia.
  - destruct (Z.eqb_spec c 1); simpl; lia.
  - specialize (Hr1 eq_refl). rewrite as_u_small; lia.
Qed.

Lemma rw_inv_step n s s' :
  2 * Z.of_nat n + 2 < 2 ^ 64 → inv n s → step s s' → inv n s'.
Proof.
  intros Hn [Hl Hc Hp] Hs. destruct Hs as [s i p c' p' Hi Ht].
  destruct (tstep_ok n (cnt s) p c' p' (count writes (threads s)) (count reads (threads s)) Hn Ht)
    as [Hp' Hc']; [by eapply Hp|done| | |  |].
  - pose proof (count_le reads (threads s)). lia.
  - intros. by eapply count_pos.
  - intros. by eapply count_pos.
  - split; simpl.
    + by rewrite length_insert.
    + rewrite !(count_insert _ _ _ _ _ Hi). done.
    + intros j q Hj. destruct (decide (i = j)) as [<-|].
      * rewrite list_lookup_insert_eq in Hj by (by eapply lookup_lt_Some). by simplify_eq.
      * rewrite list_lookup_insert_ne in Hj by done. by eapply Hp.
Qed.

Lemma rw_inv_steps n s s' :
  2 * Z.of_nat n + 2 < 2 ^ 64 → rtc step s s' → inv n s → inv n s'.
Proof. induction 2 as [|s1 s2 s3 Hs _ IH]; [done|]. intros. by apply IH, (rw_inv_step n s1). Qed.

End SpinRwLock.

(** C16: readers-writer exclusion of [SpinRwLock]. For any number of threads that fits
    the counter and any interleaving, spurious compare-exchange failures included: a
    writer excludes every other writer and every reader, the counter is 1 with a writer
    and twice the number of readers otherwise, as its comment says, and the arithmetic
    on it never overflows. *)
Theorem spin_rwlock_exclusive (n : nat) (s : SpinRwLock.state) :
  2 * Z.of_nat n + 2 < 2 ^ 64 → rtc SpinRwLock.step (SpinRwLock.INIT n) s →
  (∀ i j p, SpinRwLock.threads s !! i = Some SpinRwLock.Writing →
     SpinRwLock.threads s !! j = Some p → p = SpinRwLock.Writing ∨ p = SpinRwLock.Reading → i = j) ∧
  ((∃ i, SpinRwLock.threads s !! i = Some SpinRwLock.Writing) → SpinRwLock.cnt s = 1) ∧
  ((∀ i, SpinRwLock.threads s !! i ≠ Some SpinRwLock.Writing) →
     SpinRwLock.cnt s = 2 * count SpinRwLock.reads (SpinRwLock.threads s)) ∧
  (∀ i, SpinRwLock.threads s !! i ≠ Some SpinRwLock.Panicked).
Proof.
  intros Hn Hr. destruct (SpinRwLock.rw_inv_steps n _ _ Hn Hr (SpinRwLock.rw_inv_init n)) as [_ Hc Hp].
  unfold SpinRwLock.count_ok in Hc.
  pose proof (count_pos SpinRwLock.writes (SpinRwLock.threads s)) as Hw.
  pose proof (count_pos SpinRwLock.reads (SpinRwLock.threads s)) as Hrd.
  split_and!.
  - intros i j p Hi Hj [-> | ->]; specialize (Hw i _ Hi eq_refl).
    + destruct (decide (i = j)) as [|Hne]; [done|].
      pose proof (count_two SpinRwLock.writes _ _ _ _ _ Hi Hj Hne eq_refl eq_refl). lia.
    + specialize (Hrd j _ Hj eq_refl). lia.
  - intros [i Hi]. specialize (Hw i _ Hi eq_refl). lia.
  - intros Hno. destruct Hc as [(_ & Hw1 & _)|(-> & _ & _)]; [|done].
    destruct (count_witness SpinRwLock.writes (SpinRwLock.threads s)) as (i & p & Hi & Hpw); [lia|].
    destruct p; try done. by destruct (Hno i).
  - intros i Hi. by apply (Hp i) in Hi.
Qed.

(** A reader inside, a writer waiting for it. *)
Definition one_reader : SpinRwLock.state :=
  {| SpinRwLock.cnt := 2; SpinRwLock.threads := [SpinRwLock.Reading; SpinRwLock.WLoad] |}.

Lemma one_reader_reachable : rtc SpinRwLock.step (SpinRwLock.INIT 2) one_reader.
Proof.
  eapply rtc_l; [eapply (SpinRwLock.thread_step _ 0); [reflexivity|apply SpinRwLock.lock_shared_call]|].
  eapply rtc_l; [eapply (SpinRwLock.thread_step _ 0); [reflexivity|apply SpinRwLock.lock_shared_load]|].
  eapply rtc_l; [eapply (SpinRwLock.thread_step _ 0); [reflexivity|
    eapply SpinRwLock.lock_shared_cas; [reflexivity|apply SpinRwLock.cas_ok]]|].
  eapply rtc_l; [eapply (SpinRwLock.thread_step _ 1); [reflexivity|apply SpinRwLock.lock_exclusive_call]|].
  eapply rtc_l; [eapply (SpinRwLock.thread_step _ 1); [reflexivity|apply SpinRwLock.lock_exclusive_load]|].
  apply rtc_refl.
Qed.

Lemma spin_rwlock_exclusive_witness :
  SpinRwLock.cnt one_reader = 2 * count SpinRwLock.reads (SpinRwLock.threads one_reader).
Proof.
  apply (spin_rwlock_exclusive 2 one_reader); [vm_compute; reflexivity|exact one_reader_reachable|].
  by intros [|[|i]].
Defined.

(** ** LazyInit *)

(** [LazyInitVal]: [inner] is meaningful only once [init] is set. *)
Record LazyInitVal {T : Type} := { init : bool; inner : option T }.
Arguments LazyInitVal : clear implicits.

Definition LazyInitVal_new {T} : LazyInitVal T := {| init := false; inner := None |}.

(** [init_inplace(initializer)] and [init(content)]. *)
Definition lazy_init_inplace {T} (self : LazyInitVal T)
    (initializer : option T → option T) : outcome (LazyInitVal T) :=
  _ ← assert_ (negb (init self));
  Ret {| init := true; inner := initializer (inner self) |}.

Definition lazy_init {T} (self : LazyInitVal T) (content : T) : outcome (LazyInitVal T) :=
  _ ← assert_ (negb (init self));
  Ret {| init := true; inner := Some content |}.

(** [assume_init_ref] of memory that was never written is undefined. *)
Definition lazy_get {T} (self : LazyInitVal T) : outcome T :=
  _ ← assert_ (init self);
  match inner self with Some t => Ret t | None => Panic Undefined end.

(** A write through [get_mut]. *)
Definition lazy_update {T} (self : LazyInitVal T) (f : T → T) : outcome (LazyInitVal T) :=
  t ← lazy_get self;
  Ret {| init := init self; inner := Some (f t) |}.

(** The invariant of the source: [init] implies initialised. Every operation keeps it,
    and under it no access reads uninitialised memory. *)
Definition lazy_ok {T} (self : LazyInitVal T) : Prop :=
  init self = true → is_Some (inner self).

Lemma lazy_init_once {T} (self : LazyInitVal T) (t : T) :
  lazy_ok self →
  match lazy_init self t with
  | Ret self' => init self = false ∧ lazy_ok self' ∧ lazy_get self' = Ret t ∧
                 ∀ t', lazy_init self' t' = Panic AssertFailed
  | Panic p => p = AssertFailed ∧ init self = true
  | OutOfFuel => False
  end.
Proof. destruct self as [[] i]; intros Hok; simpl; [done|]. split_and!; try done. by exists t. Qed.

Lemma lazy_get_defined {T} (self : LazyInitVal T) :
  lazy_ok self → lazy_get self ≠ Panic Undefined.
Proof.
  destruct self as [[] i]; intros Hok; unfold lazy_get; simpl; [|done].
  destruct (Hok eq_refl) as [t Ht]. simpl in Ht. by rewrite Ht.
Qed.

Lemma lazy_update_ok {T} (self self' : LazyInitVal T) f :
  lazy_ok self → lazy_update self f = Ret self' → lazy_ok self'.
Proof. unfold lazy_update. intros Hok H. inv_outcome. subst. by exists (f a). Qed.
