(* ===== verification/MemoryMap.v ===== *)
(** memory_map.rs: the UEFI memory map handed over by the boot loader, a byte
    buffer that is walked descriptor by descriptor. *)

From S2P Require Import Prelude.

Inductive MemoryType :=
  | EfiReservedMemoryType
  | EfiLoaderCode
  | EfiLoaderData
  | EfiBootServicesCode
  | EfiBootServicesData
  | EfiRuntimeServicesCode
  | EfiRuntimeServicesData
  | EfiConventionalMemory
  | EfiUnusableMemory
  | EfiACPIReclaimMemory
  | EfiACPIMemoryNVS
  | EfiMemoryMappedIO
  | EfiMemoryMappedIOPortSpace
  | EfiPalCode
  | EfiPersistentMemory
  | EfiMaxMemoryType.

#[export] Instance MemoryType_eq_dec : EqDecision MemoryType.
Proof. solve_decision. Defined.

(** The discriminants of the [repr(u32)] enum, in declaration order. *)
Definition all_memory_types : list MemoryType :=
  [EfiReservedMemoryType; EfiLoaderCode; EfiLoaderData; EfiBootServicesCode;
   EfiBootServicesData; EfiRuntimeServicesCode; EfiRuntimeServicesData;
   EfiConventionalMemory; EfiUnusableMemory; EfiACPIReclaimMemory; EfiACPIMemoryNVS;
   EfiMemoryMappedIO; EfiMemoryMappedIOPortSpace; EfiPalCode; EfiPersistentMemory;
   EfiMaxMemoryType].

Definition memory_type_of_u32 (z : Z) : outcome MemoryType :=
  match all_memory_types !! Z.to_nat z with
  | Some t => Ret t
  | None => Panic Undefined
  end.

Definition memory_type_to_u32 (t : MemoryType) : Z :=
  match t with
  | EfiReservedMemoryType => 0 | EfiLoaderCode => 1 | EfiLoaderData => 2
  | EfiBootServicesCode => 3 | EfiBootServicesData => 4 | EfiRuntimeServicesCode => 5
  | EfiRuntimeServicesData => 6 | EfiConventionalMemory => 7 | EfiUnusableMemory => 8
  | EfiACPIReclaimMemory => 9 | EfiACPIMemoryNVS => 10 | EfiMemoryMappedIO => 11
  | EfiMemoryMappedIOPortSpace => 12 | EfiPalCode => 13 | EfiPersistentMemory => 14
  | EfiMaxMemoryType => 15
  end.

Record MemoryDescriptor := {
  type_ : MemoryType;
  physical_start : Z;
  virtual_start : Z;
  num_pages : Z;
  attribute : Z;
}.

#[export] Instance MemoryDescriptor_eq_dec : EqDecision MemoryDescriptor.
Proof. solve_decision. Defined.

Definition is_available (d : MemoryDescriptor) : bool :=
  match type_ d with
  | EfiBootServicesCode | EfiBootServicesData | EfiConventionalMemory => true
  | _ => false
  end.

Record MemoryMap := {
  buffer : list Z;
  map_key : Z;
  descriptor_size : Z;
}.

Record MemoryMapIter := { memmap : MemoryMap; seek : Z }.

Definition entries (m : MemoryMap) : MemoryMapIter := {| memmap := m; seek := 0 |}.

(** [transmute(&buffer[seek])]: a [repr(C)] MemoryDescriptor at that address
    (a [u32], four bytes of padding, four [u64]). *)
Definition MemoryDescriptor_at (buf : list Z) (off : Z) : outcome MemoryDescriptor :=
  t ← read_le buf off 4;
  ty ← memory_type_of_u32 t;
  ps ← read_le buf (off + 8) 8;
  vs ← read_le buf (off + 16) 8;
  np ← read_le buf (off + 24) 8;
  at_ ← read_le buf (off + 32) 8;
  Ret {| type_ := ty; physical_start := ps; virtual_start := vs;
         num_pages := np; attribute := at_ |}.

(** [Iterator::next] of MemoryMapIter. *)
Definition next (it : MemoryMapIter) : outcome (MemoryMapIter * option MemoryDescriptor) :=
  e ← usize_add (seek it) (descriptor_size (memmap it));
  if zlen (buffer (memmap it)) <? e then Ret (it, None)
  else
    _ ← vget (buffer (memmap it)) (seek it);
    desc ← MemoryDescriptor_at (buffer (memmap it)) (seek it);
    if attribute desc =? 0 then Ret (it, None)
    else
      seek' ← usize_add (seek it) (descriptor_size (memmap it));
      Ret ({| memmap := memmap it; seek := seek' |}, Some desc).

(** [for desc in map.entries() { s = f(s, desc) }]. *)
Definition for_entries {S} (fuel : nat) (f : S → MemoryDescriptor → outcome S)
    (m : MemoryMap) (s : S) : outcome S :=
  loop fuel (λ st,
    '(it, d) ← next st.1;
    match d with
    | None => Ret (inr st.2)
    | Some d => s' ← f st.2 d; Ret (inl (it, s'))
    end) (entries m, s).

(** ** The buffer UEFI produces for a list of descriptors *)
Definition encode_descriptor (d : MemoryDescriptor) : list Z :=
  le_split 4 (memory_type_to_u32 (type_ d)) ++ [0; 0; 0; 0] ++
  le_split 8 (physical_start d) ++ le_split 8 (virtual_start d) ++
  le_split 8 (num_pages d) ++ le_split 8 (attribute d).

Definition encode_entries (pad : list Z) (ds : list MemoryDescriptor) : list Z :=
  flat_map (λ d, encode_descriptor d ++ pad) ds.

Definition descriptor_ok (d : MemoryDescriptor) : Prop :=
  in_u 64 (physical_start d) ∧ in_u 64 (virtual_start d) ∧
  in_u 64 (num_pages d) ∧ in_u 64 (attribute d).

Lemma memory_type_roundtrip t : memory_type_of_u32 (memory_type_to_u32 t) = Ret t.
Proof. by destruct t. Qed.

Lemma memory_type_to_u32_range t : 0 ≤ memory_type_to_u32 t < 16.
Proof. destruct t; simpl; lia. Qed.

Lemma length_encode_descriptor d : length (encode_descriptor d) = 40%nat.
Proof. unfold encode_descriptor. by rewrite !length_app, !length_le_split. Qed.

Lemma MemoryDescriptor_at_encode pre d post :
  descriptor_ok d →
  MemoryDescriptor_at (pre ++ encode_descriptor d ++ post) (zlen pre) = Ret d.
Proof.
  intros (Hp & Hv & Hn & Ha). destruct d as [ty ps vs np at_]; cbn in Hp, Hv, Hn, Ha.
  unfold MemoryDescriptor_at, encode_descriptor; cbn [type_ physical_start virtual_start
    num_pages attribute].
  generalize (memory_type_roundtrip ty) (memory_type_to_u32_range ty).
  generalize (memory_type_to_u32 ty) as t; intros t Ht Hr.
  rewrite <- !app_assoc.
  rewrite !(read_le_skip pre _ _ _ _ eq_refl) by lia.
  replace (zlen pre - zlen pre) with 0 by lia.
  rewrite read_le_head by lia. rewrite bind_Ret, Ht, bind_Ret.
  rewrite !(Z.add_simpl_l (zlen pre)).
  rewrite !(read_le_skip (le_split 4 t) _ _ 4 _) by (rewrite ?length_le_split; lia).
  rewrite !(read_le_skip [0;0;0;0] _ _ 4 _) by (simpl; lia).
  rewrite read_le_head by (done || lia). rewrite bind_Ret.
  rewrite !(read_le_skip (le_split 8 ps) _ _ 8 _) by (rewrite ?length_le_split; lia).
  rewrite read_le_head by (done || lia). rewrite bind_Ret.
  rewrite !(read_le_skip (le_split 8 vs) _ _ 8 _) by (rewrite ?length_le_split; lia).
  rewrite read_le_head by (done || lia). rewrite bind_Ret.
  rewrite !(read_le_skip (le_split 8 np) _ _ 8 _) by (rewrite ?length_le_split; lia).
  by rewrite read_le_head by (done || lia).
Qed.

(** What may follow the last descriptor: too few bytes for another one, or a
    zero-filled entry. *)
Definition end_of_map (dsz : Z) (tail : list Z) : Prop :=
  zlen tail < dsz ∨
  ∃ d rest, tail = encode_descriptor d ++ rest ∧ descriptor_ok d ∧ attribute d = 0.

Section walk.
Context {S : Type} (f : S → MemoryDescriptor → outcome S).
Context (m : MemoryMap) (pad tail : list Z).
Hypothesis Hdsz : descriptor_size m = 40 + zlen pad.
Hypothesis Hsize : zlen (buffer m) + descriptor_size m < 2 ^ 64.
Hypothesis Htail : end_of_map (descriptor_size m) tail.

Lemma next_encoded pre d rest :
  buffer m = pre ++ (encode_descriptor d ++ pad) ++ rest →
  descriptor_ok d → attribute d ≠ 0 →
  next {| memmap := m; seek := zlen pre |} =
    Ret ({| memmap := m; seek := zlen (pre ++ encode_descriptor d ++ pad) |}, Some d).
Proof using Hdsz Hsize.
  intros Hb Hd Ha. unfold next; cbn [memmap seek].
  assert (zlen (buffer m) = zlen pre + descriptor_size m + zlen rest) as Hl.
  { rewrite Hb, !length_app, length_encode_descriptor. lia. }
  rewrite usize_add_ok by lia. rewrite bind_Ret.
  rewrite (proj2 (Z.ltb_ge _ _)) by lia.
  destruct (vget_range (buffer m) (zlen pre)) as (x & -> & _); [lia|].
  rewrite bind_Ret, Hb, <- app_assoc, MemoryDescriptor_at_encode by done.
  rewrite bind_Ret, (proj2 (Z.eqb_neq _ _) Ha), bind_Ret.
  do 3 f_equal. rewrite !length_app, length_encode_descriptor. lia.
Qed.

Lemma next_end pre :
  buffer m = pre ++ tail →
  next {| memmap := m; seek := zlen pre |} = Ret ({| memmap := m; seek := zlen pre |}, None).
Proof using Hdsz Hsize Htail.
  intros Hb. unfold next; cbn [memmap seek].
  assert (zlen (buffer m) = zlen pre + zlen tail) as Hl by (rewrite Hb, length_app; lia).
  rewrite usize_add_ok by lia. rewrite bind_Ret.
  destruct (Z.ltb_spec (zlen (buffer m)) (zlen pre + descriptor_size m)) as [|Hge]; [done|].
  destruct Htail as [?|(d & rest & -> & Hd & Ha)]; [lia|].
  destruct (vget_range (buffer m) (zlen pre)) as (x & -> & _).
  { rewrite Hl, !length_app, length_encode_descriptor. lia. }
  rewrite bind_Ret, Hb, MemoryDescriptor_at_encode, bind_Ret by done. by rewrite Ha.
Qed.

Lemma for_entries_from pre ds fuel s :
  buffer m = pre ++ encode_entries pad ds ++ tail →
  Forall (λ d, descriptor_ok d ∧ attribute d ≠ 0) ds →
  (length ds < fuel)%nat →
  loop fuel (λ st,
    '(it, d) ← next st.1;
    match d with
    | None => Ret (inr st.2)
    | Some d => s' ← f st.2 d; Ret (inl (it, s'))
    end) ({| memmap := m; seek := zlen pre |}, s) = foldM f ds s.
Proof using Hdsz Hsize Htail.
  revert pre fuel s. induction ds as [|d ds IH]; intros pre fuel s Hb HF Hfuel;
    (destruct fuel as [|fuel]; [simpl in *; lia|]).
  - cbn [loop fst snd]. rewrite next_end by (by rewrite Hb). done.
  - inversion HF as [|?? [Hd Ha] HF']; subst. cbn [loop fst snd foldM].
    erewrite next_encoded by (try done; rewrite Hb; simpl; by rewrite <- !app_assoc).
    rewrite bind_Ret. destruct (f s d) as [s'| |]; [rewrite !bind_Ret|done..].
    apply IH; [|done|simpl in *; lia].
    rewrite Hb. simpl. by rewrite <- !app_assoc.
Qed.
End walk.

Lemma for_entries_walk {S} (f : S → MemoryDescriptor → outcome S)
    (m : MemoryMap) pad tail ds fuel s :
  buffer m = encode_entries pad ds ++ tail →
  descriptor_size m = 40 + zlen pad →
  zlen (buffer m) + descriptor_size m < 2 ^ 64 →
  end_of_map (descriptor_size m) tail →
  Forall (λ d, descriptor_ok d ∧ attribute d ≠ 0) ds →
  (length ds < fuel)%nat →
  for_entries fuel f m s = foldM f ds s.
Proof. intros. by apply (for_entries_from f m pad tail) with (pre := []). Qed.

(** Walking the map visits exactly the descriptors the firmware wrote, in
    order, whatever the stride between them, and stops at a zero-filled entry or
    at the end of the buffer. *)
Lemma for_entries_roundtrip {S} (f : S → MemoryDescriptor → outcome S)
    (m : MemoryMap) pad tail ds fuel s :
  buffer m = encode_entries pad ds ++ tail →
  descriptor_size m = 40 + zlen pad →
  zlen (buffer m) + descriptor_size m < 2 ^ 64 →
  end_of_map (descriptor_size m) tail →
  Forall (λ d, descriptor_ok d ∧ attribute d ≠ 0) ds →
  (length ds < fuel)%nat →
  for_entries fuel f m s = foldM f ds s.
Proof. apply for_entries_walk. Qed.

(** The walk over any buffer ends, for every positive descriptor size: it never
    needs more than one step per byte. *)
Lemma for_entries_terminates {S} (f : S → MemoryDescriptor → outcome S)
    (m : MemoryMap) fuel s :
  (∀ s d, f s d ≠ OutOfFuel) →
  0 < descriptor_size m →
  (length (buffer m) + 1 < fuel)%nat →
  for_entries fuel f m s ≠ OutOfFuel.
Proof.
  intros Hf Hd Hfuel.
  apply (loop_terminates
    (λ st, memmap st.1 = m ∧ 0 ≤ seek st.1 ≤ zlen (buffer m))
    (λ st, Z.to_nat (zlen (buffer m) - seek st.1))); [..|simpl; split; [done|lia]|simpl; lia].
  - intros [it s'] _. simpl.
    assert (next it ≠ OutOfFuel) as Hn.
    { unfold next, usize_add, chk_u, vget, MemoryDescriptor_at, read_le, memory_type_of_u32.
      repeat (case_match; simpl; try done). }
    destruct (next it) as [[it' [d|]]| |]; try done.
    simpl. specialize (Hf s' d). by destruct (f s' d).
  - intros [it s1] [it' s2] [Hm Hs] H. simpl in *. inv_outcome.
    destruct a as [it2 [d|]]; inv_outcome; simplify_eq.
    unfold next in Hs0. inv_outcome.
    apply chk_u_inv in Hs2 as [-> ?].
    destruct (Z.ltb_spec (zlen (buffer (memmap it))) (seek it + descriptor_size (memmap it)));
      inv_outcome; simplify_eq.
    destruct (attribute _ =? 0); inv_outcome; simplify_eq.
    apply chk_u_inv in Hs4 as [-> ?]. simpl. split_and!; done || lia.
Qed.

Definition sample_descriptor : MemoryDescriptor :=
  {| type_ := EfiConventionalMemory; physical_start := 4096; virtual_start := 0;
     num_pages := 300; attribute := 15 |}.

Definition sample_map : MemoryMap :=
  {| buffer := encode_entries [9; 9] [sample_descriptor] ++ replicate 50 0;
     map_key := 1; descriptor_size := 42 |}.

Definition zero_descriptor : MemoryDescriptor :=
  {| type_ := EfiReservedMemoryType; physical_start := 0; virtual_start := 0;
     num_pages := 0; attribute := 0 |}.

Lemma for_entries_roundtrip_witness :
  for_entries 2 (λ s d, Ret (s + num_pages d)) sample_map 0 = Ret 300.
Proof.
  rewrite (for_entries_roundtrip _ sample_map [9; 9] (replicate 50 0) [sample_descriptor]).
  - reflexivity.
  - reflexivity.
  - reflexivity.
  - vm_compute. done.
  - right. exists zero_descriptor, (replicate 10 0). split; [reflexivity|].
    repeat split; vm_compute; done.
  - repeat constructor; vm_compute; done.
  - simpl. lia.
Defined.
