(* ===== verification/FrameAlloc.v ===== *)
(** memory_manager.rs, BitMapMemoryManager: the physical frame allocator, one bit
    per 4 KiB frame.  [used m f] is the abstract view of the bitmap. *)

From S2P Require Import Prelude MemoryMap.

Definition KB : Z := 1024.
Definition GB : Z := 1024 * 1024 * 1024.
Definition BYTES_PER_FRAME : Z := 4 * KB.
Definition UEFI_PAGE_SIZE : Z := 4 * KB.
Definition MAX_PHYSICAL_MEMORY_BYTES : Z := 128 * GB.
Definition FRAME_COUNT : Z := MAX_PHYSICAL_MEMORY_BYTES / BYTES_PER_FRAME.

(** In the kernel [alloc_map] is a [[u8; FRAME_COUNT / 8]]; the operations below
    work for every array length. *)
Record BitMapMemoryManager := {
  alloc_map : list Z;
  available_range : Z * Z;
}.

(** [!x] on a [u8]. *)
Definition not_u8 (x : Z) : Z := Z.lxor x 255.

Definition set_bit (m : BitMapMemoryManager) (frame : Z) (allocated : bool)
    : outcome BitMapMemoryManager :=
  let line_index := frame / 8 in
  let bit_index := frame mod 8 in
  line ← vget (alloc_map m) line_index;
  map ← vset (alloc_map m) line_index
    (if allocated then Z.lor line (Z.shiftl 1 bit_index)
     else Z.land line (not_u8 (Z.shiftl 1 bit_index)));
  Ret {| alloc_map := map; available_range := available_range m |}.

Definition get_bit (m : BitMapMemoryManager) (frame : Z) : outcome bool :=
  let line_index := frame / 8 in
  let bit_index := frame mod 8 in
  line ← vget (alloc_map m) line_index;
  Ret (negb (Z.land line (Z.shiftl 1 bit_index) =? 0)).

(** [for frame in from..from + n { self.set_bit(frame, v) }] *)
Definition set_bits (m : BitMapMemoryManager) (from n : Z) (v : bool)
    : outcome BitMapMemoryManager :=
  e ← usize_add from n;
  foldM (λ m frame, set_bit m frame v) (range from e) m.

Definition mark_allocated (m : BitMapMemoryManager) (from nframes : Z)
    : outcome BitMapMemoryManager := set_bits m from nframes true.

Definition free (m : BitMapMemoryManager) (start nframes : Z)
    : outcome BitMapMemoryManager := set_bits m start nframes false.

(** The inner [while] of [allocate]: how many frames from [start] are free,
    at most [nframes]. *)
Definition count_free (m : BitMapMemoryManager) (start nframes : Z) : outcome Z :=
  loop (S (Z.to_nat nframes)) (λ nfree,
    if nfree <? nframes then
      f ← usize_add start nfree;
      if f <? (available_range m).2 then
        used ← get_bit m f;
        if negb used then nfree' ← usize_add nfree 1; Ret (inl nfree')
        else Ret (inr nfree)
      else Ret (inr nfree)
    else Ret (inr nfree)) 0.

Definition allocate (m : BitMapMemoryManager) (nframes : Z)
    : outcome (BitMapMemoryManager * option Z) :=
  let r := available_range m in
  loop (S (Z.to_nat r.2)) (λ start,
    lim ← usize_sub r.2 nframes;
    if start <? lim then
      nfree ← count_free m start nframes;
      if nfree =? nframes then
        m' ← mark_allocated m start nframes; Ret (inr (m', Some start))
      else
        d ← usize_add nfree 1;
        start' ← usize_add start d;
        Ret (inl start')
    else Ret (inr (m, None))) r.1.

Definition get_frame_start (frame : Z) : outcome Z := usize_mul frame BYTES_PER_FRAME.

(** The body of the [for desc in map.entries()] loop of [new_at]. *)
Definition new_at_step (st : BitMapMemoryManager * Z) (desc : MemoryDescriptor)
    : outcome (BitMapMemoryManager * Z) :=
  let '(manager, available_end) := st in
  manager ← (if available_end <? physical_start desc then
               n ← usize_sub (physical_start desc) available_end;
               mark_allocated manager (available_end / BYTES_PER_FRAME) (n / BYTES_PER_FRAME)
             else Ret manager);
  bytes ← usize_mul (num_pages desc) UEFI_PAGE_SIZE;
  physical_end ← usize_add (physical_start desc) bytes;
  if is_available desc then Ret (manager, physical_end)
  else
    bytes ← usize_mul (num_pages desc) UEFI_PAGE_SIZE;
    manager ← mark_allocated manager (physical_start desc / BYTES_PER_FRAME)
                (bytes / BYTES_PER_FRAME);
    Ret (manager, available_end).

(** [new_at]: initialises the manager in place; [manager] is the memory at [ptr]. *)
Definition new_at (fuel : nat) (manager : BitMapMemoryManager) (map : MemoryMap)
    : outcome BitMapMemoryManager :=
  let manager := {| alloc_map := replicate (length (alloc_map manager)) 0;
                    available_range := available_range manager |} in
  '(manager, available_end) ← for_entries fuel new_at_step map (manager, 0);
  Ret {| alloc_map := alloc_map manager;
         available_range := (1, available_end / BYTES_PER_FRAME) |}.

(** ** Abstract view and invariant *)

Definition used (m : BitMapMemoryManager) (f : Z) : bool :=
  match alloc_map m !! Z.to_nat (f / 8) with
  | Some line => Z.testbit line (f mod 8)
  | None => false
  end.

Definition capacity (m : BitMapMemoryManager) : Z := 8 * zlen (alloc_map m).

(** The bitmap is an array of bytes; a well-formed manager also has a managed
    range inside it. *)
Record bits_ok (m : BitMapMemoryManager) : Prop := {
  wf_bytes : Forall (in_u 8) (alloc_map m);
  wf_capacity : capacity m < 2 ^ 63;
}.

Record wf (m : BitMapMemoryManager) : Prop := {
  wf_bits : bits_ok m;
  wf_start : 0 ≤ (available_range m).1;
  wf_end : (available_range m).2 ≤ capacity m;
}.

#[export] Hint Resolve wf_bits : kernel.

Lemma div8_range m f : 0 ≤ f < capacity m → 0 ≤ f / 8 < zlen (alloc_map m).
Proof. unfold capacity. intros. split; [apply Z.div_pos; lia|apply Z.div_lt_upper_bound; lia]. Qed.

Lemma land_bit_eqb a n :
  0 ≤ n → (Z.land a (Z.shiftl 1 n) =? 0) = negb (Z.testbit a n).
Proof.
  intros Hn. destruct (Z.testbit a n) eqn:E; simpl.
  - apply Z.eqb_neq. intros H0.
    assert (Z.testbit (Z.land a (Z.shiftl 1 n)) n = false) as H by (rewrite H0; apply Z.bits_0).
    rewrite Z.land_spec, Z.shiftl_spec, Z.sub_diag, E in H by lia. done.
  - apply Z.eqb_eq, Z.bits_inj'. intros k Hk.
    rewrite Z.land_spec, Z.shiftl_spec, Z.bits_0 by lia.
    destruct (Z.eq_dec k n) as [->|]; [by rewrite E|].
    destruct (Z.lt_decidable k n).
    + by rewrite (Z.testbit_neg_r 1), andb_false_r by lia.
    + change 1 with (2 ^ 0). rewrite Z.pow2_bits_false by lia. apply andb_false_r.
Qed.

Lemma get_bit_used m f : 0 ≤ f < capacity m → get_bit m f = Ret (used m f).
Proof.
  intros Hf. unfold get_bit, used.
  destruct (vget_range (alloc_map m) (f / 8)) as (line & -> & ->); [by apply div8_range|].
  rewrite bind_Ret, land_bit_eqb by (apply Z.mod_pos_bound; lia). by rewrite negb_involutive.
Qed.

(** The bit written by [set_bit], inside one byte. *)
Lemma set_line_bits line n k (v : bool) :
  0 ≤ n < 8 → 0 ≤ k < 8 →
  Z.testbit (if v then Z.lor line (Z.shiftl 1 n) else Z.land line (not_u8 (Z.shiftl 1 n))) k
    = if k =? n then v else Z.testbit line k.
Proof.
  intros Hn Hk. unfold not_u8. change 255 with (Z.ones 8).
  assert (Z.testbit (Z.shiftl 1 n) k = (k =? n)) as Hb.
  { rewrite Z.shiftl_1_l, Z.pow2_bits_eqb by lia. apply Z.eqb_sym. }
  destruct v; rewrite ?Z.lor_spec, ?Z.land_spec, ?Z.lxor_spec, Hb, ?Z.ones_spec_low by lia;
    destruct (k =? n), (Z.testbit line k); done.
Qed.

Lemma set_line_byte line n (v : bool) :
  0 ≤ n < 8 → in_u 8 line →
  in_u 8 (if v then Z.lor line (Z.shiftl 1 n) else Z.land line (not_u8 (Z.shiftl 1 n))).
Proof.
  unfold in_u. intros Hn Hl.
  assert (∀ z, 0 ≤ z → (∀ k, 8 ≤ k → Z.testbit z k = false) → 0 ≤ z < 2 ^ 8) as Hhigh.
  { intros z Hz Hb. split; [done|]. destruct (Z.lt_decidable z (2 ^ 8)); [done|].
    assert (8 ≤ Z.log2 z) by (apply Z.log2_le_pow2; lia).
    specialize (Hb (Z.log2 z) ltac:(lia)). rewrite Z.bit_log2 in Hb; [done|lia]. }
  assert (∀ k, 8 ≤ k → Z.testbit line k = false) as Hline.
  { intros k Hk. destruct (Z.eq_dec line 0) as [->|]; [apply Z.bits_0|].
    apply Z.bits_above_log2; [lia|]. apply Z.log2_lt_pow2; [lia|].
    apply Z.lt_le_trans with (2 ^ 8); [lia|]. apply Z.pow_le_mono_r; lia. }
  destruct v; apply Hhigh.
  - apply Z.lor_nonneg. split; [lia|]. apply Z.shiftl_nonneg. lia.
  - intros k Hk. rewrite Z.lor_spec, Hline by lia.
    rewrite Z.shiftl_1_l, Z.pow2_bits_false by lia. done.
  - apply Z.land_nonneg. lia.
  - intros k Hk. by rewrite Z.land_spec, Hline by lia.
Qed.

(** [same_shape]: nothing but bits has changed. *)
Definition same_shape (m m' : BitMapMemoryManager) : Prop :=
  available_range m' = available_range m ∧ length (alloc_map m') = length (alloc_map m).

#[export] Instance same_shape_preorder : PreOrder same_shape.
Proof. split; [done|]. intros m1 m2 m3 [? ?] [? ?]. split; congruence. Qed.

Lemma same_shape_capacity m m' : same_shape m m' → capacity m' = capacity m.
Proof. intros [_ H]. unfold capacity. by rewrite H. Qed.

Lemma wf_same_shape m m' : wf m → same_shape m m' → bits_ok m' → wf m'.
Proof.
  intros [Hb Hs He] Hsh Hb'. pose proof (same_shape_capacity _ _ Hsh) as Hc.
  destruct Hsh as [Hr _]. split; [done|by rewrite Hr|by rewrite Hr, Hc].
Qed.
#[export] Hint Resolve wf_same_shape : kernel.

Lemma set_bit_ok m f v :
  bits_ok m → 0 ≤ f < capacity m →
  ∃ m', set_bit m f v = Ret m' ∧ bits_ok m' ∧ same_shape m m' ∧
    ∀ g, 0 ≤ g → used m' g = if g =? f then v else used m g.
Proof.
  intros Hwf Hf. pose proof (div8_range m f Hf) as Hd.
  pose proof (Z.mod_pos_bound f 8) as Hm.
  destruct (vget_range (alloc_map m) (f / 8)) as (line & Hg & Hl); [done|].
  unfold set_bit. rewrite Hg, bind_Ret, vset_ok, bind_Ret by done.
  eexists; split; [done|]. split; [|split; [by split; [|apply length_insert]|]].
  - destruct Hwf as [Hby Hc]. split; simpl; unfold capacity; simpl; rewrite ?length_insert; try done.
    apply Forall_insert; [done|]. apply set_line_byte; [lia|].
    by eapply Forall_lookup_1.
  - intros g Hg0. unfold used; simpl.
    pose proof (Z.mod_pos_bound g 8 ltac:(lia)) as Hmg.
    destruct (Z.eq_dec (g / 8) (f / 8)) as [Heq|Hne].
    + rewrite Heq, list_lookup_insert_eq by lia. rewrite Hl, set_line_bits by lia.
      destruct (Z.eqb_spec (g mod 8) (f mod 8)) as [E|E], (Z.eqb_spec g f) as [E'|E'];
        subst; try done.
      exfalso. apply E'. rewrite (Z.div_mod g 8), (Z.div_mod f 8) by lia. congruence.
    + pose proof (Z.div_pos g 8 Hg0 ltac:(lia)).
      rewrite list_lookup_insert_ne by lia.
      destruct (Z.eqb_spec g f) as [->|]; done.
Qed.

(** Ranges of frames. *)
Definition in_block (s n f : Z) : bool := (s <=? f) && (f <? s + n).

Lemma in_blockP s n f : reflect (s ≤ f < s + n) (in_block s n f).
Proof.
  apply iff_reflect. unfold in_block. by rewrite andb_true_iff, Z.leb_le, Z.ltb_lt.
Qed.

Lemma set_bits_ok m s n v :
  bits_ok m → 0 ≤ s → 0 ≤ n → s + n ≤ capacity m →
  ∃ m', set_bits m s n v = Ret m' ∧ bits_ok m' ∧ same_shape m m' ∧
    ∀ g, 0 ≤ g → used m' g = if in_block s n g then v else used m g.
Proof.
  intros Hwf Hs Hn Hc. pose proof (wf_capacity _ Hwf).
  unfold set_bits. rewrite usize_add_ok, bind_Ret by lia.
  destruct (foldM_inv (λ i m', bits_ok m' ∧ same_shape m m' ∧
      ∀ g, 0 ≤ g → used m' g = if in_block s (Z.of_nat i) g then v else used m g)
    (λ m frame, set_bit m frame v) (range s (s + n)) m) as (m' & -> & H1 & H2 & H3).
  - split_and!; [done..|]. intros g Hg. destruct (in_blockP s (Z.of_nat 0) g); [lia|done].
  - intros i x m1 [-> Hx]%range_lookup (Hw & Hsh & Hu).
    destruct (set_bit_ok m1 (s + Z.of_nat i) v) as (m2 & -> & ? & ? & Hu'); [done| |].
    { rewrite (same_shape_capacity _ _ Hsh). lia. }
    exists m2. split_and!; [done..|by etrans|].
    intros g Hg. rewrite Hu', Hu by done.
    destruct (Z.eqb_spec g (s + Z.of_nat i)), (in_blockP s (Z.of_nat i) g),
      (in_blockP s (Z.of_nat (i + 1)) g); done || lia.
  - exists m'. split_and!; try done. intros g Hg. rewrite H3 by done.
    by rewrite range_length, Z2Nat.id, Z.add_simpl_l by lia.
Qed.

(** ** Allocation is first fit *)

(** Some frame of the block is in use. *)
Definition blocked (m : BitMapMemoryManager) (n s : Z) : Prop :=
  ∃ f, s ≤ f < s + n ∧ used m f = true.

Definition block_free (m : BitMapMemoryManager) (s n : Z) : Prop :=
  ∀ f, s ≤ f < s + n → used m f = false.

Lemma count_free_ok m s n :
  wf m → 0 ≤ s → 0 ≤ n → s + n ≤ (available_range m).2 →
  ∃ k, count_free m s n = Ret k ∧ 0 ≤ k ≤ n ∧ block_free m s k ∧
    (k < n → used m (s + k) = true).
Proof.
  intros Hwf Hs Hn Hr. pose proof (wf_capacity _ (wf_bits _ Hwf)). pose proof (wf_end _ Hwf).
  unfold count_free.
  apply (loop_total (λ k, 0 ≤ k ≤ n ∧ block_free m s k)
    (λ k, 0 ≤ k ≤ n ∧ block_free m s k ∧ (k < n → used m (s + k) = true))
    (λ k, Z.to_nat (n - k))); [| |lia].
  - intros k [Hk Hfree]. destruct (Z.ltb_spec k n).
    + rewrite (usize_add_ok s k), bind_Ret by lia. rewrite (proj2 (Z.ltb_lt _ _)) by lia.
      rewrite get_bit_used, bind_Ret by lia.
      destruct (used m (s + k)) eqn:Hu; simpl; [by exists (inr k)|].
      rewrite usize_add_ok, bind_Ret by lia. exists (inl (k + 1)).
      split_and!; try lia; [done|]. intros f Hf.
      destruct (Z.eq_dec f (s + k)) as [->|]; [done|]. apply Hfree. lia.
    + exists (inr k). split; [done|]. split_and!; try lia; done.
  - split; [lia|]. intros f Hf. lia.
Qed.

(** What [allocate] promises, as a relation between the maps before and after. *)
Definition allocate_post (m : BitMapMemoryManager) (n : Z) (m' : BitMapMemoryManager)
    (r : option Z) : Prop :=
  let '(lo, hi) := available_range m in
  match r with
  | Some s =>
      lo ≤ s < hi - n ∧ block_free m s n ∧ wf m' ∧ same_shape m m' ∧
      (∀ f, 0 ≤ f → used m' f = in_block s n f || used m f) ∧
      (∀ s', lo ≤ s' < s → blocked m n s')
  | None => m' = m ∧ ∀ s', lo ≤ s' < hi - n → blocked m n s'
  end.

Lemma allocate_ok m n :
  wf m → 0 ≤ n ≤ (available_range m).2 →
  ∃ m' r, allocate m n = Ret (m', r) ∧ allocate_post m n m' r.
Proof.
  intros Hwf Hn. pose proof (wf_capacity _ (wf_bits _ Hwf)). pose proof (wf_end _ Hwf).
  pose proof (wf_start _ Hwf).
  unfold allocate, allocate_post. destruct (available_range m) as [lo hi] eqn:Hr; simpl in *.
  enough (∃ mr, loop (S (Z.to_nat hi)) (λ start,
    lim ← usize_sub hi n;
    if start <? lim then
      nfree ← count_free m start n;
      if nfree =? n then m' ← mark_allocated m start n; Ret (inr (m', Some start))
      else d ← usize_add nfree 1; start' ← usize_add start d; Ret (inl start')
    else Ret (inr (m, None))) lo = Ret mr ∧ allocate_post m n mr.1 mr.2) as ([m' r] & E & HP).
  { exists m', r. split; [exact E|]. unfold allocate_post in HP. by rewrite Hr in HP. }
  apply (loop_total (λ s, lo ≤ s ∧ ∀ s', lo ≤ s' < s → blocked m n s') _
    (λ s, Z.to_nat (hi - s))); [|split; [done|lia]|lia].
  intros s [Hs Hbl]. rewrite usize_sub_ok, bind_Ret by lia.
  destruct (Z.ltb_spec s (hi - n)) as [Hlt|Hge].
  2:{ exists (inr (m, None)). split; [done|]. unfold allocate_post. rewrite Hr. simpl.
      split; [done|]. intros s' ?. apply Hbl. lia. }
  destruct (count_free_ok m s n) as (k & -> & Hk & Hf & Hu); [done|lia|lia|rewrite Hr; simpl; lia|].
  rewrite bind_Ret. destruct (Z.eqb_spec k n) as [->|].
  - destruct (set_bits_ok m s n true) as (m' & Hm & ? & ? & Hu'); [apply Hwf|lia..|].
    unfold mark_allocated. rewrite Hm, bind_Ret. exists (inr (m', Some s)). split; [done|].
    unfold allocate_post. rewrite Hr. simpl. split_and!; eauto with kernel; lia.
  - rewrite (usize_add_ok k 1), bind_Ret by lia. rewrite usize_add_ok, bind_Ret by lia.
    exists (inl (s + (k + 1))). split; [done|]. split; [|lia]. split; [lia|].
    intros s' Hs'. destruct (Z.lt_decidable s' s); [apply Hbl; lia|].
    exists (s + k). split; [lia|]. apply Hu. lia.
Qed.

(** C6: the frame allocator is first fit. On a well-formed map every request that
    fits below the end of the managed range returns; a block it hands out was
    entirely free, lies inside the range, is the first free one, and exactly its
    frames become used; it refuses only when every candidate start is blocked. *)
Theorem allocate_first_fit m n :
  wf m → 0 ≤ n ≤ (available_range m).2 →
  ∃ m' r, allocate m n = Ret (m', r) ∧ allocate_post m n m' r.
Proof. apply allocate_ok. Qed.

Definition demo_map : BitMapMemoryManager :=
  {| alloc_map := [7; 128]; available_range := (1, 16) |}.

Lemma demo_map_wf : wf demo_map.
Proof. repeat constructor; vm_compute; done. Qed.

Lemma allocate_first_fit_witness :
  ∃ m' r, allocate demo_map 4 = Ret (m', r) ∧ allocate_post demo_map 4 m' r.
Proof. apply allocate_first_fit; [exact demo_map_wf|vm_compute; done]. Defined.

Example allocate_demo :
  allocate demo_map 4 = Ret ({| alloc_map := [127; 128]; available_range := (1, 16) |}, Some 3).
Proof. reflexivity. Qed.

(** ** The refusal branches *)

Lemma allocate_oversized m n : (available_range m).2 < n → allocate m n = Panic Overflow.
Proof.
  intros Hn. unfold allocate. cbn [loop]. unfold usize_sub.
  by rewrite chk_u_overflow by lia.
Qed.

(** A request for more frames than the end of the managed range does not
    return [None]: the subtraction in the loop condition overflows and the kernel
    panics. *)
Lemma allocate_oversized_panics m n :
  (available_range m).2 < n →
  allocate m n = Panic Overflow.
Proof. apply allocate_oversized. Qed.

Lemma allocate_oversized_panics_witness :
  (available_range demo_map).2 < 17 ∧ allocate demo_map 17 = Panic Overflow.
Proof. split; [vm_compute; done|]. apply allocate_oversized_panics. vm_compute. done. Defined.

(** A request is refused exactly when every start below [end - nframes] is
    blocked. The block that ends at the end of the range is not a candidate: it is
    never handed out, even when it is the only free one. *)
Lemma allocate_refuses_iff m n :
  wf m → 0 ≤ n ≤ (available_range m).2 →
  allocate m n = Ret (m, None) ↔
  ∀ s, (available_range m).1 ≤ s < (available_range m).2 - n → blocked m n s.
Proof.
  intros Hwf Hn. destruct (allocate_ok m n Hwf Hn) as (m' & r & -> & HP).
  unfold allocate_post in HP. destruct (available_range m) as [lo hi]; simpl in *.
  split; [intros [= -> ->]; apply HP|]. intros Hbl.
  destruct r as [s|]; [|destruct HP as [-> _]; done].
  destruct HP as (Hs & Hfree & _). destruct (Hbl s Hs) as (f & Hf & Hu).
  by rewrite Hfree in Hu by done.
Qed.

(** ** Counting free frames *)

(** The frames a request can be given, those still free. The last frame of the range is
    not among them. *)
Definition free_frames (m : BitMapMemoryManager) : list Z :=
  filter (λ f, used m f = false) (range (available_range m).1 ((available_range m).2 - 1)).

Definition n_free (m : BitMapMemoryManager) : nat := length (free_frames m).

Lemma elem_of_free_frames m f :
  f ∈ free_frames m ↔ used m f = false ∧ (available_range m).1 ≤ f < (available_range m).2 - 1.
Proof. unfold free_frames, range. rewrite list_elem_of_filter, elem_of_seqZ. intuition lia. Qed.

Lemma NoDup_free_frames m : NoDup (free_frames m).
Proof. apply list.NoDup_filter, NoDup_seqZ. Qed.

(** A granted request takes its frames from the free ones and no others; a refused one
    takes none. *)
Lemma allocate_n_free m n m' r :
  wf m → 0 ≤ n ≤ (available_range m).2 → allocate_post m n m' r →
  n_free m = (n_free m' + match r with Some _ => Z.to_nat n | None => 0 end)%nat.
Proof.
  intros Hwf Hn HP. unfold allocate_post in HP. pose proof (wf_start _ Hwf) as Hlo.
  destruct r as [s|]; [|destruct (available_range m); destruct HP as [-> _]; lia].
  assert (free_frames m ≡ₚ free_frames m' ++ seqZ s n) as Hp.
  { apply NoDup_Permutation; [apply NoDup_free_frames| |].
    - apply list.NoDup_app. split_and!; [apply NoDup_free_frames| |apply NoDup_seqZ].
      intros f [Hf _]%elem_of_free_frames Hin%elem_of_seqZ.
      destruct (available_range m) as [lo hi]; simpl in *. destruct HP as (Hs & _ & _ & _ & Hu & _).
      rewrite Hu in Hf by lia. revert Hf. destruct (in_blockP s n f); [done|lia].
    - intros f. rewrite elem_of_app, !elem_of_free_frames, elem_of_seqZ.
      destruct (available_range m) as [lo hi] eqn:Er; simpl in *.
      destruct HP as (Hs & Hfree & _ & [-> _] & Hu & _). rewrite Er. simpl. split.
      + intros [Hf Hr]. rewrite Hu, Hf by lia. destruct (in_blockP s n f); [by right|left; by split].
      + intros [[Hf Hr]|Hf]; [|split; [by apply Hfree|lia]]. split; [|done].
        rewrite Hu in Hf by lia. by apply orb_false_iff in Hf as [_ ?]. }
  unfold n_free. rewrite Hp, length_app, length_seqZ. lia.
Qed.

Lemma blocked_none_free m :
  (∀ f, (available_range m).1 ≤ f < (available_range m).2 - 1 → blocked m 1 f) → n_free m = 0%nat.
Proof.
  intros Hbl. unfold n_free. destruct (free_frames m) as [|f l] eqn:El; [done|].
  assert (f ∈ free_frames m) as [Hf Hin]%elem_of_free_frames by (rewrite El; by left).
  destruct (Hbl f Hin) as (g & Hg & Hu). assert (g = f) as -> by lia. congruence.
Qed.

(** One frame: refused only if none is free. *)
Lemma allocate_one m :
  wf m → 1 ≤ (available_range m).2 →
  ∃ m' r, allocate m 1 = Ret (m', r) ∧ allocate_post m 1 m' r ∧
    match r with Some _ => n_free m = S (n_free m') | None => m' = m ∧ n_free m = 0%nat end.
Proof.
  intros Hwf Hhi. destruct (allocate_ok m 1 Hwf) as (m' & r & E & HP); [lia|].
  exists m', r. split; [done|]. split; [done|]. destruct r as [s|].
  - rewrite (allocate_n_free m 1 m' (Some s)) by (done || lia). lia.
  - unfold allocate_post in HP. destruct (available_range m) as [lo hi] eqn:Hr. destruct HP as [-> Hbl].
    split; [done|]. apply blocked_none_free. by rewrite Hr.
Qed.

(** Only the last frame (15) of the range is free. *)
Definition full_map : BitMapMemoryManager :=
  {| alloc_map := [255; 127]; available_range := (1, 16) |}.

Lemma full_map_wf : wf full_map.
Proof. repeat constructor; vm_compute; done. Qed.

Lemma allocate_refuses_iff_witness :
  block_free full_map 15 1 ∧ allocate full_map 1 = Ret (full_map, None).
Proof.
  split; [intros f Hf; assert (f = 15) as -> by lia; reflexivity|].
  apply allocate_refuses_iff; [exact full_map_wf|vm_compute; done|].
  simpl. intros s Hs. exists s. split; [lia|].
  assert (s ∈ seqZ 1 14) as Hin by (apply elem_of_seqZ; lia).
  assert (Forall (λ s, used full_map s = true) (seqZ 1 14)) as HF
    by (vm_compute; repeat constructor).
  by apply (proj1 (list.Forall_forall _ _) HF).
Defined.

(** ** Freeing *)

(** Two maps of the same shape with the same view are the same map. *)
Lemma byte_ext a b :
  in_u 8 a → in_u 8 b → (∀ k, 0 ≤ k < 8 → Z.testbit a k = Z.testbit b k) → a = b.
Proof.
  unfold in_u. intros Ha Hb H. apply Z.bits_inj'. intros k Hk.
  destruct (Z.lt_decidable k 8); [apply H; lia|].
  assert (∀ z, 0 ≤ z < 2 ^ 8 → Z.testbit z k = false) as Hz.
  { intros z Hz. rewrite <- (Z.mod_small z (2 ^ 8)) by done.
    apply Z.mod_pow2_bits_high. lia. }
  by rewrite !Hz.
Qed.

Lemma map_ext m1 m2 :
  bits_ok m1 → bits_ok m2 → same_shape m1 m2 → (∀ f, 0 ≤ f → used m1 f = used m2 f) → m1 = m2.
Proof.
  intros H1 H2 [Hr Hl] Hu. destruct m1 as [a1 r1], m2 as [a2 r2]; simpl in *.
  f_equal; [|done]. apply list_eq_same_length with (length a1); [done..|].
  intros i x y Hi Hx Hy.
  apply byte_ext; [by eapply Forall_lookup_1; [apply H1|]|by eapply Forall_lookup_1; [apply H2|]|].
  intros k Hk. specialize (Hu (8 * Z.of_nat i + k) ltac:(lia)). unfold used in Hu; simpl in Hu.
  replace ((8 * Z.of_nat i + k) / 8) with (Z.of_nat i) in Hu
    by (symmetry; rewrite Z.mul_comm, Z.div_add_l, Z.div_small; lia).
  rewrite (Z.mul_comm 8), Z.add_comm, Z_mod_plus_full, Z.mod_small in Hu by lia.
  by rewrite Nat2Z.id, Hx, Hy in Hu.
Qed.

(** Freeing a block that [allocate] just returned restores the bitmap exactly. *)
Lemma allocate_free_roundtrip m n m' s :
  wf m → 0 ≤ n ≤ (available_range m).2 →
  allocate m n = Ret (m', Some s) →
  free m' s n = Ret m.
Proof.
  intros Hwf Hn Ha. destruct (allocate_ok m n Hwf Hn) as (m1 & r & Ha' & HP).
  rewrite Ha in Ha'. simplify_eq. unfold allocate_post in HP.
  pose proof (wf_start _ Hwf). pose proof (wf_end _ Hwf).
  destruct (available_range m) as [lo hi] eqn:Hr; simpl in *.
  destruct HP as (Hs & Hfree & Hwf' & Hsh & Hu & _).
  destruct (set_bits_ok m1 s n false) as (m2 & Hm2 & Hw2 & Hsh2 & Hu2);
    [apply Hwf'|lia..|rewrite (same_shape_capacity _ _ Hsh); lia|].
  unfold free. rewrite Hm2. f_equal. apply map_ext; [done|apply Hwf| |].
  - destruct Hsh, Hsh2. split; congruence.
  - intros f Hf. rewrite Hu2, Hu by done.
    destruct (in_blockP s n f) as [Hb|]; simpl; [symmetry; by apply Hfree|done].
Qed.

(** ** Histories of allocations: a step relation over the blocks handed out *)

Definition state : Type := BitMapMemoryManager * list (Z * Z).

Inductive fstep : state → state → Prop :=
  | fstep_alloc m bs n m' s :
      0 ≤ n ≤ (available_range m).2 → allocate m n = Ret (m', Some s) →
      fstep (m, bs) (m', (s, n) :: bs)
  | fstep_refused m bs n m' :
      0 ≤ n ≤ (available_range m).2 → allocate m n = Ret (m', None) →
      fstep (m, bs) (m', bs)
  | fstep_free m bs1 s n bs2 m' :
      free m s n = Ret m' →
      fstep (m, bs1 ++ (s, n) :: bs2) (m', bs1 ++ bs2).

(** The frames of all live blocks. *)
Definition frames (bs : list (Z * Z)) : list Z := flat_map (λ b, seqZ b.1 b.2) bs.

Lemma elem_of_frame_block s n f : 0 ≤ n → (f ∈ seqZ s n ↔ in_block s n f = true).
Proof. intros Hn. rewrite elem_of_seqZ. by destruct (in_blockP s n f). Qed.

Lemma frames_split bs1 s n bs2 :
  frames (bs1 ++ (s, n) :: bs2) ≡ₚ seqZ s n ++ frames (bs1 ++ bs2).
Proof.
  unfold frames. rewrite !flat_map_app; simpl.
  rewrite !app_assoc. f_equiv. apply Permutation_app_comm.
Qed.

(** The invariant that ties a reachable state to the initial map [m0]. *)
Record owned_inv (m0 : BitMapMemoryManager) (st : state) : Prop := {
  own_wf : wf st.1;
  own_shape : same_shape m0 st.1;
  own_sizes : Forall (λ b, 0 ≤ b.1 ∧ 0 ≤ b.2 ∧ b.1 + b.2 ≤ capacity m0) st.2;
  own_nodup : NoDup (frames st.2);
  own_fresh : ∀ f, f ∈ frames st.2 →
    used m0 f = false ∧ (available_range m0).1 ≤ f < (available_range m0).2;
  own_used : ∀ f, 0 ≤ f → used st.1 f = used m0 f || bool_decide (f ∈ frames st.2);
}.

Lemma owned_inv_init m0 : wf m0 → owned_inv m0 (m0, []).
Proof.
  intros Hwf. split; simpl; try done.
  - constructor.
  - intros f Hf. by apply not_elem_of_nil in Hf.
  - intros f Hf. by destruct (used m0 f).
Qed.

Lemma owned_inv_alloc m0 m bs n m' s :
  owned_inv m0 (m, bs) → 0 ≤ n ≤ (available_range m).2 → allocate m n = Ret (m', Some s) →
  owned_inv m0 (m', (s, n) :: bs).
Proof.
  intros [Hwf Hsh Hsz Hnd Hfr Hu] Hn Ha; simpl in *.
  destruct (allocate_ok m n Hwf Hn) as (m1 & r & Ha' & HP). rewrite Ha in Ha'. simplify_eq.
  unfold allocate_post in HP. pose proof (wf_start _ Hwf). pose proof (wf_end _ Hwf) as He.
  rewrite (same_shape_capacity _ _ Hsh) in He.
  assert (available_range m = available_range m0) as Hr by apply Hsh. rewrite Hr in *.
  destruct (available_range m0) as [lo hi] eqn:Hr0; simpl in *.
  destruct HP as (Hs & Hfree & Hwf' & Hsh' & Hu' & _).
  assert (∀ f, f ∈ seqZ s n → used m0 f = false ∧ f ∉ frames bs) as Hnew.
  { intros f Hf%elem_of_seqZ. specialize (Hfree f Hf). rewrite Hu in Hfree by lia.
    apply orb_false_iff in Hfree as [? ?%bool_decide_eq_false_1]. done. }
  split; simpl; [done|by etrans|constructor; [simpl; lia|done]| | |].
  - apply list.NoDup_app. split_and!; [apply NoDup_seqZ|by apply Hnew|done].
  - rewrite Hr0. intros f [Hf|Hf]%elem_of_app; [|by apply Hfr].
    split; [by apply Hnew|]. apply elem_of_seqZ in Hf. simpl. lia.
  - intros f Hf. rewrite Hu', Hu by done.
    rewrite (bool_decide_ext (f ∈ seqZ s n ++ frames bs) (f ∈ seqZ s n ∨ f ∈ frames bs))
      by apply elem_of_app.
    rewrite bool_decide_or.
    rewrite (bool_decide_ext (f ∈ seqZ s n) (in_block s n f = true))
      by (apply elem_of_frame_block; lia).
    destruct (in_block s n f), (used m0 f); simpl; try done.
Qed.

Lemma owned_inv_free m0 m bs1 s n bs2 m' :
  owned_inv m0 (m, bs1 ++ (s, n) :: bs2) → free m s n = Ret m' →
  owned_inv m0 (m', bs1 ++ bs2).
Proof.
  intros [Hwf Hsh Hsz Hnd Hfr Hu] Hm; simpl in *.
  apply Forall_app in Hsz as [Hsz1 [Hsn Hsz2]%list.Forall_cons]. simpl in Hsn.
  pose proof (frames_split bs1 s n bs2) as Hp.
  destruct (set_bits_ok m s n false) as (m1 & Hm1 & Hwf1 & Hsh1 & Hu1);
    [apply Hwf|lia|lia|rewrite (same_shape_capacity _ _ Hsh); lia|].
  unfold free in Hm. rewrite Hm in Hm1. simplify_eq.
  rewrite Hp in Hnd. apply list.NoDup_app in Hnd as (_ & Hdis & Hnd).
  split; simpl; [by eauto with kernel|by etrans|by apply Forall_app|done| |].
  - intros f Hf. apply Hfr. rewrite Hp. apply elem_of_app. by right.
  - intros f Hf. rewrite Hu1, Hu by done.
    rewrite (bool_decide_ext (f ∈ frames (bs1 ++ (s, n) :: bs2))
      (f ∈ seqZ s n ∨ f ∈ frames (bs1 ++ bs2))) by (rewrite Hp; apply elem_of_app).
    rewrite bool_decide_or.
    rewrite (bool_decide_ext (f ∈ seqZ s n) (in_block s n f = true))
      by (apply elem_of_frame_block; lia).
    destruct (in_block s n f) eqn:E; simpl; [|done].
    apply elem_of_frame_block in E; [|lia].
    destruct (Hfr f) as [-> _]; [rewrite Hp; apply elem_of_app; by left|].
    by rewrite bool_decide_eq_false_2 by (by apply Hdis).
Qed.

(** C13: whatever sequence of allocations and frees has happened, no frame belongs
    to two live blocks, live blocks consist of frames that were free at the start
    and lie in the managed range, and the bitmap marks exactly the initially used
    frames and the frames of live blocks. *)
Theorem live_blocks_disjoint m0 m bs :
  wf m0 → rtc fstep (m0, []) (m, bs) → owned_inv m0 (m, bs).
Proof.
  intros Hwf. generalize (m, bs) as st. intros st Hrtc.
  pattern st. eapply (rtc_ind_r _ (m0, [])); [by apply owned_inv_init| |exact Hrtc].
  clear. intros st1 st2 _ Hstep HI. destruct Hstep as [m bs n m' s Hn Ha|m bs n m' Hn Ha|].
  - by eapply owned_inv_alloc.
  - destruct (allocate_ok m n (own_wf _ _ HI) Hn) as (m1 & r & Ha' & HP).
    rewrite Ha in Ha'. simplify_eq. unfold allocate_post in HP.
    destruct (available_range m). by destruct HP as [-> _].
  - by eapply owned_inv_free.
Qed.

Lemma live_blocks_disjoint_witness :
  owned_inv demo_map
    ({| alloc_map := [127; 129]; available_range := (1, 16) |}, [(8, 1); (3, 4)]) ∧ True.
Proof.
  split; [|exact I]. apply live_blocks_disjoint; [exact demo_map_wf|].
  eapply rtc_l; [apply (fstep_alloc _ _ 4); [vm_compute; done|reflexivity]|].
  eapply rtc_l; [apply (fstep_alloc _ _ 1); [vm_compute; done|reflexivity]|].
  eapply rtc_l; [apply (fstep_alloc _ _ 1); [vm_compute; done|reflexivity]|].
  eapply rtc_l; [apply (fstep_free _ [(8, 1)] 7 1); reflexivity|]. reflexivity.
Defined.

(** ** Initialisation from the firmware's memory map *)

Definition first_frame (d : MemoryDescriptor) : Z := physical_start d / BYTES_PER_FRAME.
Definition covers (d : MemoryDescriptor) (f : Z) : Prop :=
  first_frame d ≤ f < first_frame d + num_pages d.

(** Descriptors in address order, page aligned, not overlapping, below the
    capacity of the bitmap; [pos] is the first frame not yet described. *)
Fixpoint sorted_from (cap pos : Z) (ds : list MemoryDescriptor) : Prop :=
  match ds with
  | [] => True
  | d :: ds =>
      pos ≤ first_frame d ∧ physical_start d = first_frame d * BYTES_PER_FRAME ∧
      0 ≤ num_pages d ∧ first_frame d + num_pages d ≤ cap ∧
      sorted_from cap (first_frame d + num_pages d) ds
  end.

Lemma frame_mul_div k : k * BYTES_PER_FRAME / BYTES_PER_FRAME = k.
Proof. apply Z.div_mul. done. Qed.

(** The frame after the last available one. *)
Definition managed_end (ds : list MemoryDescriptor) : Z :=
  foldr Z.max 0 ((λ d, first_frame d + num_pages d) <$> filter (λ d, is_available d = true) ds).

Lemma managed_end_snoc ds d :
  managed_end (ds ++ [d]) =
    if is_available d then Z.max (managed_end ds) (first_frame d + num_pages d) else managed_end ds.
Proof.
  assert (∀ l x, 0 ≤ foldr Z.max 0 l ∧ foldr Z.max 0 (l ++ [x]) = Z.max (foldr Z.max 0 l) (Z.max x 0)) as Hm.
  { intros l x. induction l as [|y l [IH0 IH]]; simpl; lia. }
  unfold managed_end. rewrite filter_app, filter_cons, filter_nil.
  destruct (is_available d); [rewrite decide_True by done|rewrite decide_False, app_nil_r by done; done].
  rewrite fmap_app. cbn [fmap list_fmap]. destruct (Hm ((λ d, first_frame d + num_pages d) <$>
    filter (λ d, is_available d = true) ds) (first_frame d + num_pages d)) as [H0 ->]. lia.
Qed.

Lemma managed_end_ge ds d :
  d ∈ ds → is_available d = true → first_frame d + num_pages d ≤ managed_end ds.
Proof.
  intros Hd Ha. unfold managed_end. induction ds as [|x ds IH]; [by apply elem_of_nil in Hd|].
  rewrite filter_cons. apply elem_of_cons in Hd as [->|Hd].
  - rewrite decide_True by done. cbn. lia.
  - specialize (IH Hd). case_decide; cbn in *; lia.
Qed.

(** Loop invariant of [new_at]: [e] is the end (in frames) of the last available
    descriptor seen, [pos] the end of the last descriptor, [seen] those visited. *)
Record new_at_inv (seen : list MemoryDescriptor) (cap e pos : Z)
    (m : BitMapMemoryManager) : Prop := {
  na_wf : bits_ok m;
  na_cap : capacity m = cap;
  na_order : 0 ≤ e ≤ pos ∧ pos ≤ cap;
  na_below : ∀ f, 0 ≤ f < e →
    (used m f = false ↔ ∃ d, d ∈ seen ∧ is_available d = true ∧ covers d f);
  na_above : ∀ f, pos ≤ f → used m f = false;
  na_end : e = managed_end seen;
}.

Lemma elem_of_snoc {A} (x y : A) l : x ∈ l ++ [y] ↔ x ∈ l ∨ x = y.
Proof. by rewrite elem_of_app, list_elem_of_singleton. Qed.

(** After the gap [e..p) has been marked and the available descriptor [d] at
    frame [p] taken in. *)
Lemma new_at_inv_available seen cap e pos m d m' :
  new_at_inv seen cap e pos m →
  pos ≤ first_frame d → 0 ≤ num_pages d → first_frame d + num_pages d ≤ cap →
  is_available d = true → bits_ok m' → capacity m' = cap →
  (∀ f, 0 ≤ f → used m' f = if in_block e (first_frame d - e) f then true else used m f) →
  new_at_inv (seen ++ [d]) cap (first_frame d + num_pages d) (first_frame d + num_pages d) m'.
Proof.
  intros [Hwf Hcap [Ho1 Ho2] Hbel Habo He] Hpos Hnp Hle Hav Hwf' Hcap' Hu. pose proof (managed_end_ge seen) as Hend.
  split; try done; try lia.
  - intros f Hf. rewrite Hu by lia. destruct (in_blockP e (first_frame d - e) f) as [Hb|Hb].
    + split; [done|]. intros (d' & [Hd'| ->]%elem_of_snoc & Ha' & Hcov); exfalso;
        unfold covers in Hcov; [specialize (Hend _ Hd' Ha')|]; lia.
    + destruct (Z.lt_decidable f e) as [Hfe|Hfe].
      * rewrite Hbel by lia. split; intros (d' & Hd' & Ha' & Hcov).
        -- exists d'. rewrite elem_of_snoc. auto.
        -- apply elem_of_snoc in Hd' as [Hd'| ->]; [by exists d'|]. unfold covers in Hcov. lia.
      * rewrite Habo by lia. split; [intros _|done]. exists d.
        rewrite elem_of_snoc. unfold covers. split_and!; [by right|done|lia..].
  - intros f Hf. rewrite Hu by lia. destruct (in_blockP e (first_frame d - e) f); [lia|].
    apply Habo. lia.
  - rewrite managed_end_snoc, Hav. lia.
Qed.

(** After the gap and the frames of a reserved descriptor have been marked. *)
Lemma new_at_inv_reserved seen cap e pos m d m' :
  new_at_inv seen cap e pos m →
  pos ≤ first_frame d → 0 ≤ num_pages d → first_frame d + num_pages d ≤ cap →
  is_available d = false → bits_ok m' → capacity m' = cap →
  (∀ f, 0 ≤ f → used m' f =
     if in_block (first_frame d) (num_pages d) f then true
     else if in_block e (first_frame d - e) f then true else used m f) →
  new_at_inv (seen ++ [d]) cap e (first_frame d + num_pages d) m'.
Proof.
  intros [Hwf Hcap [Ho1 Ho2] Hbel Habo He] Hpos Hnp Hle Hav Hwf' Hcap' Hu. pose proof (managed_end_ge seen) as Hend.
  split; try done; try lia.
  - intros f Hf. rewrite Hu by lia.
    destruct (in_blockP (first_frame d) (num_pages d) f); [lia|].
    destruct (in_blockP e (first_frame d - e) f); [lia|].
    rewrite Hbel by lia. split; intros (d' & Hd' & Ha' & Hcov).
    + exists d'. rewrite elem_of_snoc. auto.
    + apply elem_of_snoc in Hd' as [Hd'| ->]; [by exists d'|congruence].
  - intros f Hf. rewrite Hu by lia.
    destruct (in_blockP (first_frame d) (num_pages d) f); [lia|].
    destruct (in_blockP e (first_frame d - e) f); [lia|]. apply Habo. lia.
  - by rewrite managed_end_snoc, Hav.
Qed.

(** Marking the gap before a descriptor, possibly empty. *)
Lemma new_at_gap m e p :
  bits_ok m → 0 ≤ e ≤ p → p ≤ capacity m → capacity m < 2 ^ 51 →
  ∃ m', (if e * BYTES_PER_FRAME <? p * BYTES_PER_FRAME then
      n ← usize_sub (p * BYTES_PER_FRAME) (e * BYTES_PER_FRAME);
      mark_allocated m (e * BYTES_PER_FRAME / BYTES_PER_FRAME) (n / BYTES_PER_FRAME)
    else Ret m) = Ret m' ∧ bits_ok m' ∧ same_shape m m' ∧
    ∀ f, 0 ≤ f → used m' f = if in_block e (p - e) f then true else used m f.
Proof.
  intros Hwf He Hp Hc. assert (BYTES_PER_FRAME = 4096) as HB by done.
  destruct (Z.ltb_spec (e * BYTES_PER_FRAME) (p * BYTES_PER_FRAME)).
  - rewrite usize_sub_ok, bind_Ret by lia. rewrite <- Z.mul_sub_distr_r, !frame_mul_div.
    apply set_bits_ok; [done|lia..].
  - exists m. split_and!; try done. intros f Hf. destruct (in_blockP e (p - e) f); [lia|done].
Qed.

Lemma new_at_step_ok seen cap e pos m d ds :
  new_at_inv seen cap e pos m → sorted_from cap pos (d :: ds) → cap < 2 ^ 51 →
  ∃ m' e',
    new_at_step (m, e * BYTES_PER_FRAME) d = Ret (m', e' * BYTES_PER_FRAME) ∧
    new_at_inv (seen ++ [d]) cap e' (first_frame d + num_pages d) m'.
Proof.
  intros HI (Hpos & Hps & Hnp & Hle & _) Hc. destruct (na_order _ _ _ _ _ HI) as [Ho1 Ho2].
  pose proof (na_cap _ _ _ _ _ HI) as Hcap.
  assert (BYTES_PER_FRAME = 4096) as HB by done.
  unfold new_at_step. rewrite Hps. change UEFI_PAGE_SIZE with BYTES_PER_FRAME.
  destruct (new_at_gap m e (first_frame d)) as (m1 & -> & Hwf1 & Hsh1 & Hu1);
    [apply HI|lia..|]. rewrite <- (same_shape_capacity _ _ Hsh1) in Hcap.
  rewrite bind_Ret, usize_mul_ok, bind_Ret by lia.
  rewrite usize_add_ok, bind_Ret by lia. rewrite <- Z.mul_add_distr_r.
  destruct (is_available d) eqn:Hav.
  - eexists m1, _. split; [done|]. by eapply new_at_inv_available.
  - rewrite bind_Ret, !frame_mul_div.
    destruct (set_bits_ok m1 (first_frame d) (num_pages d) true)
      as (m2 & Hm2 & Hwf2 & Hsh2 & Hu2); [done|lia..|].
    unfold mark_allocated. rewrite Hm2, bind_Ret. eexists m2, e. split; [done|].
    eapply new_at_inv_reserved; try done.
    + by rewrite (same_shape_capacity _ _ Hsh2).
    + intros f Hf. by rewrite Hu2, Hu1 by done.
Qed.

Lemma new_at_fold ds seen cap e pos m :
  new_at_inv seen cap e pos m → sorted_from cap pos ds → cap < 2 ^ 51 →
  ∃ m' e' pos', foldM new_at_step ds (m, e * BYTES_PER_FRAME) = Ret (m', e' * BYTES_PER_FRAME) ∧
    new_at_inv (seen ++ ds) cap e' pos' m'.
Proof.
  revert seen e pos m. induction ds as [|d ds IH]; intros seen e pos m HI Hs Hc.
  { exists m, e, pos. by rewrite app_nil_r. }
  destruct (new_at_step_ok seen cap e pos m d ds HI Hs Hc) as (m1 & e1 & E & HI1).
  cbn [foldM]. rewrite E, bind_Ret.
  destruct (IH (seen ++ [d]) e1 _ m1 HI1) as (m2 & e2 & p2 & H2 & HI2); [apply Hs|done|].
  exists m2, e2, p2. by rewrite <- app_assoc in HI2.
Qed.

Lemma new_at_inv_zero (m0 : BitMapMemoryManager) :
  capacity m0 < 2 ^ 51 →
  new_at_inv [] (capacity m0) 0 0
    {| alloc_map := replicate (length (alloc_map m0)) 0; available_range := available_range m0 |}.
Proof.
  intros Hc. unfold capacity in *. split; simpl; unfold capacity; simpl; try lia.
  - split; simpl; [by apply Forall_replicate|unfold capacity; simpl; rewrite length_replicate; lia].
  - by rewrite length_replicate.
  - intros f Hf. unfold used; simpl. destruct (_ !! _) eqn:E; [|done].
    apply lookup_replicate in E as [-> _]. apply Z.bits_0.
  - done.
Qed.

(** What [new_at] makes of the firmware's map. *)
Lemma new_at_ok (m0 : BitMapMemoryManager) (map : MemoryMap) pad tail ds fuel :
  buffer map = encode_entries pad ds ++ tail →
  descriptor_size map = 40 + zlen pad →
  zlen (buffer map) + descriptor_size map < 2 ^ 64 →
  end_of_map (descriptor_size map) tail →
  Forall (λ d, descriptor_ok d ∧ attribute d ≠ 0) ds →
  (length ds < fuel)%nat →
  sorted_from (capacity m0) 0 ds → capacity m0 < 2 ^ 51 →
  ∃ m, new_at fuel m0 map = Ret m ∧ wf m ∧ capacity m = capacity m0 ∧
    available_range m = (1, managed_end ds) ∧
    (∀ f, 0 ≤ f < managed_end ds →
      (used m f = false ↔ ∃ d, d ∈ ds ∧ is_available d = true ∧ covers d f)) ∧
    0 ≤ managed_end ds ≤ capacity m0.
Proof.
  intros Hb Hd Hs He HF Hfuel Hsort Hc. unfold new_at.
  rewrite (for_entries_walk new_at_step map pad tail ds) by done.
  assert (∃ m e pos, foldM new_at_step ds
     ({| alloc_map := replicate (length (alloc_map m0)) 0;
         available_range := available_range m0 |}, 0) = Ret (m, e * BYTES_PER_FRAME) ∧
     new_at_inv ds (capacity m0) e pos m) as (m & e & pos & -> & HI).
  { rewrite <- (Z.mul_0_l BYTES_PER_FRAME).
    apply (new_at_fold ds [] (capacity m0) 0 0); [by apply new_at_inv_zero|done..]. }
  rewrite bind_Ret, frame_mul_div. exists {| alloc_map := alloc_map m; available_range := (1, e) |}.
  destruct HI as [[Hby Hcm] Hcap Ho Hbel _ He']. rewrite <- He'. split_and!; try done; try lia.
  repeat split; simpl; try done. unfold capacity in *; simpl. lia.
Qed.

(** C14: initialised from the firmware's map (descriptors page aligned, in address
    order, within the bitmap), the allocator manages the frames from 1 to the end of the
    last available region, [managed_end], and a frame below that end is free exactly when
    an available descriptor covers it: reserved memory, holes and MMIO are never handed
    out. *)
Theorem new_at_correct (m0 : BitMapMemoryManager) (map : MemoryMap) pad tail ds fuel :
  buffer map = encode_entries pad ds ++ tail →
  descriptor_size map = 40 + zlen pad →
  zlen (buffer map) + descriptor_size map < 2 ^ 64 →
  end_of_map (descriptor_size map) tail →
  Forall (λ d, descriptor_ok d ∧ attribute d ≠ 0) ds →
  (length ds < fuel)%nat →
  sorted_from (capacity m0) 0 ds → capacity m0 < 2 ^ 51 →
  ∃ m, new_at fuel m0 map = Ret m ∧ wf m ∧ capacity m = capacity m0 ∧
    available_range m = (1, managed_end ds) ∧
    ∀ f, 0 ≤ f < managed_end ds →
      (used m f = false ↔ ∃ d, d ∈ ds ∧ is_available d = true ∧ covers d f).
Proof.
  intros Hb Hd Hs He HF Hfuel Hsort Hc.
  destruct (new_at_ok m0 map pad tail ds fuel) as (m & ? & ? & ? & ? & ? & _); [done..|]. by exists m.
Qed.

(** A map with 16 frames: two conventional regions, a runtime region, a hole. *)
Definition demo_descriptors : list MemoryDescriptor :=
  [ {| type_ := EfiConventionalMemory; physical_start := 0; virtual_start := 0;
       num_pages := 4; attribute := 15 |};
    {| type_ := EfiRuntimeServicesData; physical_start := 16384; virtual_start := 0;
       num_pages := 2; attribute := 15 |};
    {| type_ := EfiBootServicesData; physical_start := 32768; virtual_start := 0;
       num_pages := 4; attribute := 15 |} ].

Definition demo_memory_map : MemoryMap :=
  {| buffer := encode_entries [0; 0; 0; 0; 0; 0; 0; 0] demo_descriptors;
     map_key := 0; descriptor_size := 48 |}.

Lemma demo_descriptors_ok : Forall (λ d, descriptor_ok d ∧ attribute d ≠ 0) demo_descriptors.
Proof. repeat constructor; vm_compute; done. Qed.

Lemma new_at_correct_witness :
  ∃ m, new_at 4 demo_map demo_memory_map = Ret m ∧ wf m ∧
    capacity m = capacity demo_map ∧ available_range m = (1, 12) ∧
    ∀ f, 0 ≤ f < 12 → (used m f = false ↔
      ∃ d, d ∈ demo_descriptors ∧ is_available d = true ∧ covers d f).
Proof.
  change 12 with (managed_end demo_descriptors).
  apply (new_at_correct demo_map demo_memory_map [0; 0; 0; 0; 0; 0; 0; 0] []).
  - by rewrite app_nil_r.
  - reflexivity.
  - vm_compute. done.
  - left. vm_compute. done.
  - exact demo_descriptors_ok.
  - vm_compute. lia.
  - vm_compute. repeat split; done.
  - vm_compute. done.
Defined.

Example new_at_demo :
  new_at 4 demo_map demo_memory_map =
    Ret {| alloc_map := [240; 0]; available_range := (1, 12) |}.
Proof. vm_compute. reflexivity. Qed.

Lemma set_bit_oob m f v : capacity m ≤ f → set_bit m f v = Panic IndexOutOfBounds.
Proof.
  unfold capacity. intros Hf. unfold set_bit.
  by rewrite vget_oob by (apply Z.div_le_lower_bound; lia).
Qed.

Lemma range_split a b c : a ≤ b ≤ c → range a c = range a b ++ range b c.
Proof.
  intros H. unfold range. replace (c - a) with ((b - a) + (c - b)) by lia.
  rewrite seqZ_app by lia. by replace (a + (b - a)) with b by lia.
Qed.

(** Reserving a region that reaches past the bitmap (for instance an MMIO
    window above the 128 GiB the map covers) is not ignored: the index check of the
    array stops the kernel. *)
Lemma mark_allocated_past_map_panics m from n :
  bits_ok m → 0 ≤ from → 0 < n → capacity m < from + n → from + n < 2 ^ 64 →
  mark_allocated m from n = Panic IndexOutOfBounds.
Proof.
  intros Hok Hf Hn Hc Ho. unfold mark_allocated, set_bits.
  rewrite usize_add_ok, bind_Ret by lia.
  set (k := Z.max from (capacity m)).
  rewrite (range_split from k) by lia. rewrite foldM_app.
  assert (∃ m', foldM (λ m frame, set_bit m frame true) (range from k) m = Ret m' ∧
    capacity m' = capacity m) as (m' & -> & Hc').
  { destruct (Z.le_gt_cases (capacity m) from) as [Hle|Hgt].
    - exists m. unfold k. rewrite Z.max_l by lia. unfold range. by rewrite Z.sub_diag.
    - destruct (set_bits_ok m from (capacity m - from) true) as (m' & Hm & _ & Hsh & _);
        [done|lia..|].
      unfold set_bits in Hm. rewrite usize_add_ok, bind_Ret in Hm by lia.
      exists m'. split; [|by apply same_shape_capacity]. unfold k. rewrite Z.max_r by lia.
      by replace (capacity m) with (from + (capacity m - from)) at 1 by lia. }
  rewrite bind_Ret. unfold range. rewrite seqZ_cons by lia. cbn [foldM].
  by rewrite set_bit_oob by lia.
Qed.

Lemma mark_allocated_past_map_panics_witness :
  mark_allocated demo_map 14 4 = Panic IndexOutOfBounds.
Proof.
  apply mark_allocated_past_map_panics; [apply demo_map_wf|vm_compute; done..].
Defined.
