(* ===== verification/ObjectAlloc.v ===== *)
(** memory_manager.rs, FreeList / PageHeader / ObjectAllocator: the kernel heap, six
    size classes of objects carved out of frames, each with an intrusive free list.

    [heap] is the part of memory the free lists thread through: the [ObjectHeader]
    stored in a free object (its [next_free]). The headers' own locks are taken and
    released inside each operation and are left out. *)

From S2P Require Import Prelude FrameAlloc.

Abbreviation memory := (gmap Z (option Z)).

Record FreeList := { head : option Z }.

Record PageHeader := {
  next : Z;
  free_list : FreeList;
  n_objs : Z;
  obj_sz : Z;
}.

Definition null : Z := 0.

(** [size_of::<PageHeader>()]: a pointer, an optional reference and two [usize]. *)
Definition SIZE_OF_PAGE_HEADER : Z := 32.

(** Reading the header of an object through its pointer. *)
Definition next_free (h : memory) (obj : Z) : outcome (option Z) :=
  match h !! obj with Some n => Ret n | None => Panic Undefined end.

Definition push_front (h : memory) (fl : FreeList) (obj : Z) : memory * FreeList :=
  (<[obj := head fl]> h, {| head := Some obj |}).

Definition pop_front (h : memory) (fl : FreeList) : outcome (FreeList * Z) :=
  match head fl with
  | None => Ret (fl, null)
  | Some hd => n ← next_free h hd; Ret ({| head := n |}, hd)
  end.

Definition pop_filter (h : memory) (fl : FreeList) (predicate : Z → bool)
    : outcome (memory * FreeList * Z) :=
  match head fl with
  | None => Ret (h, fl, null)
  | Some hd =>
      if predicate hd then '(fl', obj) ← pop_front h fl; Ret (h, fl', obj)
      else
        loop (S (size h)) (λ prev,
          n ← next_free h prev;
          match n with
          | None => Ret (inr (h, fl, null))
          | Some obj =>
              if predicate obj then
                n' ← next_free h obj; Ret (inr (<[prev := n']> h, fl, obj))
              else Ret (inl obj)
          end) hd
  end.

(** [while ptr >= start { free_list.push_front(ptr); ptr -= obj_sz }] *)
Definition push_down (h : memory) (fl : FreeList) (start ptr sz : Z)
    : outcome (memory * FreeList) :=
  loop (S (Z.to_nat BYTES_PER_FRAME)) (λ '(h, fl, ptr),
    if start <=? ptr then
      let '(h', fl') := push_front h fl ptr in
      ptr' ← usize_sub ptr sz; Ret (inl (h', fl', ptr'))
    else Ret (inr (h, fl))) (h, fl, ptr).

(** [PageHeader::new_at]: the header at the start of the page, then objects. *)
Definition PageHeader_new_at (h : memory) (page_head sz : Z) : outcome (memory * PageHeader) :=
  a ← usize_add SIZE_OF_PAGE_HEADER sz;
  b ← usize_sub a 1;
  c ← usize_mul (b / sz) sz;
  objs_start ← usize_add page_head c;
  e ← usize_add page_head BYTES_PER_FRAME;
  ptr ← usize_sub e sz;
  '(h', fl) ← push_down h {| head := None |} objs_start ptr sz;
  Ret (h', {| next := null; free_list := fl; n_objs := 0; obj_sz := sz |}).

Definition extend (h : memory) (pg : PageHeader) (page : Z) : outcome (memory * PageHeader) :=
  e ← usize_add page BYTES_PER_FRAME;
  ptr ← usize_sub e (obj_sz pg);
  '(h', fl) ← push_down h (free_list pg) page ptr (obj_sz pg);
  Ret (h', {| next := next pg; free_list := fl; n_objs := n_objs pg; obj_sz := obj_sz pg |}).

Definition BLOCK_SZ : list Z := [64; 128; 256; 512; 1024; 2048].

(** [core::alloc::Layout]: a size and an alignment. *)
Record Layout := { layout_size : Z; layout_align : Z }.

(** The state the allocator works on: the frame allocator [MEM], memory, and the
    [PageHeader] of each size class. *)
Record Heap := {
  MEM : BitMapMemoryManager;
  objects : memory;
  pages : list PageHeader;
}.

(** [BLOCK_SZ.iter().enumerate().find(|(_, sz)| **sz > layout.size())] *)
Definition find_block (size : Z) : option (nat * Z) := list_find (λ sz, size < sz) BLOCK_SZ.

Definition with_page (s : Heap) (h : memory) (index : nat) (pg : PageHeader) : Heap :=
  {| MEM := MEM s; objects := h; pages := <[index := pg]> (pages s) |}.

Definition with_free_list (pg : PageHeader) (fl : FreeList) : PageHeader :=
  {| next := next pg; free_list := fl; n_objs := n_objs pg; obj_sz := obj_sz pg |}.

Definition is_aligned (layout : Layout) (ptr : Z) : bool := ptr mod layout_align layout =? 0.

(** [ObjectAllocator::alloc] *)
Definition alloc (s : Heap) (layout : Layout) : outcome (Heap * Z) :=
  if 2048 <? layout_size layout then
    if BYTES_PER_FRAME <? layout_align layout then Panic ExplicitPanic
    else
      a ← usize_add (layout_size layout) BYTES_PER_FRAME;
      b ← usize_sub a 1;
      '(mem, r) ← allocate (MEM s) (b / BYTES_PER_FRAME);
      let s' := {| MEM := mem; objects := objects s; pages := pages s |} in
      match r with
      | Some id => addr ← usize_mul id BYTES_PER_FRAME; Ret (s', addr)
      | None => Ret (s', null)
      end
  else
    match find_block (layout_size layout) with
    | None => Ret (s, null)
    | Some (index, _) =>
        page ← vget (pages s) (Z.of_nat index);
        '(h, fl, addr) ← pop_filter (objects s) (free_list page) (is_aligned layout);
        if addr =? null then
          '(mem, r) ← allocate (MEM s) 1;
          match r with
          | None => Ret ({| MEM := mem; objects := objects s; pages := pages s |}, null)
          | Some p =>
              page_addr ← usize_mul p BYTES_PER_FRAME;
              '(h, page) ← extend h (with_free_list page fl) page_addr;
              '(h, fl, addr) ← pop_filter h (free_list page) (is_aligned layout);
              Ret (with_page {| MEM := mem; objects := h; pages := pages s |} h index
                     (with_free_list page fl), addr)
          end
        else Ret (with_page s h index (with_free_list page fl), addr)
    end.

(** [ObjectAllocator::dealloc] *)
Definition dealloc (s : Heap) (ptr : Z) (layout : Layout) : outcome Heap :=
  if 2048 <? layout_size layout then
    a ← usize_add (layout_size layout) BYTES_PER_FRAME;
    b ← usize_sub a 1;
    mem ← free (MEM s) (ptr / BYTES_PER_FRAME) (b / BYTES_PER_FRAME);
    Ret {| MEM := mem; objects := objects s; pages := pages s |}
  else
    '(index, _) ← unwrap (find_block (layout_size layout));
    page ← vget (pages s) (Z.of_nat index);
    let '(h, fl) := push_front (objects s) (free_list page) ptr in
    Ret (with_page s h index (with_free_list page fl)).

(** One iteration of the constructor's loop, and [ObjectAllocator::new]. *)
Definition new_step (s : Heap) (size : Z) : outcome Heap :=
  '(mem, r) ← allocate (MEM s) 1;
  p ← unwrap r;
  ptr ← usize_mul p BYTES_PER_FRAME;
  '(h, page) ← PageHeader_new_at (objects s) ptr size;
  Ret {| MEM := mem; objects := h; pages := pages s ++ [page] |}.

Definition ObjectAllocator_new (mem : BitMapMemoryManager) (h : memory) : outcome Heap :=
  foldM new_step BLOCK_SZ {| MEM := mem; objects := h; pages := [] |}.

(** ** The free list as an abstract list *)

Fixpoint is_list (h : memory) (hd : option Z) (l : list Z) : Prop :=
  match l with
  | [] => hd = None
  | x :: l => hd = Some x ∧ ∃ n, h !! x = Some n ∧ is_list h n l
  end.

Lemma is_list_frame h h' hd l :
  (∀ x, x ∈ l → h' !! x = h !! x) → is_list h hd l → is_list h' hd l.
Proof.
  revert hd; induction l as [|x l IH]; intros hd Hag; simpl; [done|].
  intros (-> & n & Hx & Hl). split; [done|]. exists n.
  rewrite Hag by set_solver. split; [done|]. apply IH; [|done]. set_solver.
Qed.

Lemma is_list_push h fl l x :
  is_list h (head fl) l → x ∉ l →
  is_list (push_front h fl x).1 (head (push_front h fl x).2) (x :: l).
Proof.
  intros Hl Hx. split; [done|]. exists (head fl). simpl. rewrite lookup_insert_eq.
  split; [done|]. eapply is_list_frame; [|done].
  intros y Hy. rewrite lookup_insert_ne; [done|]. intros ->. done.
Qed.

(** A free list is no longer than the memory it threads through, so the fuel of
    [pop_filter] is enough. *)
Lemma is_list_dom h hd l (x : Z) : is_list h hd l → x ∈ l → x ∈ dom h.
Proof.
  revert hd; induction l as [|y l IH]; intros hd; simpl; [set_solver|].
  intros (_ & n & Hy & Hl) [->|Hx]%elem_of_cons; [by apply elem_of_dom|by eapply IH].
Qed.

Lemma is_list_size h hd l : is_list h hd l → NoDup l → (length l ≤ size h)%nat.
Proof.
  intros Hl Hnd. rewrite <- (size_dom (D:=gset Z)).
  rewrite <- (size_list_to_set (C:=gset Z) l) by done.
  apply subseteq_size. intros x Hx%elem_of_list_to_set. by eapply is_list_dom.
Qed.

Lemma next_free_ok h x n : h !! x = Some n → next_free h x = Ret n.
Proof. unfold next_free. by intros ->. Qed.

(** The walk of [pop_filter] past [prev]: [n] is the link out of [prev]. *)
Lemma pop_filter_loop (h : memory) (fl : FreeList) (p : Z → bool) prev n l fuel :
  h !! prev = Some n → is_list h n l → (length l < fuel)%nat → prev ∉ l → NoDup l →
  loop fuel (λ prev,
    n ← next_free h prev;
    match n with
    | None => Ret (inr (h, fl, null))
    | Some obj =>
        if p obj then n' ← next_free h obj; Ret (inr (<[prev := n']> h, fl, obj))
        else Ret (inl obj)
    end) prev =
  match list_find (λ x, p x = true) l with
  | None => Ret (h, fl, null)
  | Some (k, x) =>
      n' ← next_free h x;
      Ret (<[default prev ((prev :: l) !! k) := n']> h, fl, x)
  end.
Proof.
  revert prev n fuel. induction l as [|y l IH]; intros prev n fuel Hp Hl Hf Hni Hnd;
    (destruct fuel as [|fuel]; [simpl in *; lia|]); simpl in Hl.
  - subst n. cbn [loop]. by rewrite (next_free_ok _ _ _ Hp).
  - destruct Hl as (-> & n' & Hy & Hl). apply NoDup_cons in Hnd as [Hny Hnd].
    cbn [loop list_find]. rewrite (next_free_ok _ _ _ Hp), bind_Ret.
    destruct (decide (p y = true)) as [E|E].
    + rewrite E. by rewrite !(next_free_ok _ _ _ Hy).
    + apply not_true_is_false in E. rewrite E, bind_Ret.
      rewrite (IH y n') by (done || (simpl in *; lia)).
      destruct (list_find _ l) as [[k x]|] eqn:El; simpl; [|done].
      apply list_find_Some in El as (Hk & _).
      assert (∃ z, (y :: l) !! k = Some z) as [z Hz].
      { apply lookup_lt_is_Some. apply lookup_lt_Some in Hk. simpl. lia. }
      by rewrite Hz.
Qed.

Lemma is_list_lookup h hd l k x : is_list h hd l → l !! k = Some x → is_Some (h !! x).
Proof.
  intros Hl Hx. apply elem_of_dom. eapply is_list_dom; [done|].
  by eapply list_elem_of_lookup_2.
Qed.

(** Unlinking the element after [prev]. *)
Lemma is_list_unlink h hd l1 prev x n l2 :
  is_list h hd (l1 ++ prev :: x :: l2) → NoDup (l1 ++ prev :: x :: l2) → h !! x = Some n →
  is_list (<[prev := n]> h) hd (l1 ++ prev :: l2).
Proof.
  revert hd; induction l1 as [|y l1 IH]; intros hd; simpl.
  - intros (-> & n0 & Hp & -> & n1 & Hx & Hl) Hnd Hn. assert (n1 = n) as -> by congruence.
    split; [done|]. exists n. rewrite lookup_insert_eq. split; [done|].
    eapply is_list_frame; [|done]. intros y Hy. apply lookup_insert_ne. intros ->.
    apply NoDup_cons in Hnd as [Hnd _]. set_solver.
  - intros (-> & n0 & Hy & Hl) [Hyn Hnd]%NoDup_cons Hn. split; [done|]. exists n0.
    rewrite lookup_insert_ne by set_solver. split; [done|]. by apply IH.
Qed.

(** [pop_filter] removes the first element that satisfies the predicate, and only
    relinks elements of the list in front of it. *)
Lemma pop_filter_spec h fl l (p : Z → bool) :
  is_list h (head fl) l → NoDup l →
  match list_find (λ x, p x = true) l with
  | None => pop_filter h fl p = Ret (h, fl, null)
  | Some (k, x) => ∃ h' fl', pop_filter h fl p = Ret (h', fl', x) ∧
      is_list h' (head fl') (take k l ++ drop (S k) l) ∧
      ∀ y, y ∉ take k l → h' !! y = h !! y
  end.
Proof.
  intros Hl Hnd. unfold pop_filter. destruct l as [|hd l]; simpl in Hl.
  { simpl. by rewrite Hl. }
  destruct Hl as (Hhd & n & Hn & Hl). rewrite Hhd. cbn [list_find].
  destruct (decide (p hd = true)) as [E|E].
  - rewrite E. unfold pop_front. rewrite Hhd, (next_free_ok _ _ _ Hn). simpl.
    eexists h, {| head := n |}. by rewrite drop_0.
  - apply not_true_is_false in E. rewrite E.
    assert (length l < S (size h))%nat as Hfuel.
    { assert (is_list h (Some hd) (hd :: l)) as H1 by (split; eauto).
      apply is_list_size in H1; [simpl in H1; lia|done]. }
    apply NoDup_cons in Hnd as Hnd'. destruct Hnd' as [Hni Hndl].
    rewrite (pop_filter_loop h fl p hd n l) by done.
    destruct (list_find _ l) as [[k x]|] eqn:El; simpl; [|done].
    apply list_find_Some in El as (Hk & _).
    destruct (is_list_lookup h n l k x Hl Hk) as [n' Hn'].
    rewrite (next_free_ok _ _ _ Hn'), bind_Ret.
    destruct (lookup_lt_is_Some_2 (hd :: l) k) as [prev Hprev].
    { apply lookup_lt_Some in Hk. simpl. lia. }
    rewrite Hprev. eexists _, fl. split; [done|].
    assert (hd :: l = take k (hd :: l) ++ prev :: x :: drop (S (S k)) (hd :: l)) as Hsplit.
    { rewrite <- (take_drop k (hd :: l)) at 1. f_equal.
      rewrite (drop_S _ prev) by done. by rewrite (drop_S _ x). }
    change (is_list (<[prev := n']> h) (head fl) (take (S k) (hd :: l) ++ drop (S (S k)) (hd :: l))
      ∧ ∀ y, y ∉ take (S k) (hd :: l) → <[prev := n']> h !! y = h !! y).
    rewrite (take_S_r _ _ prev) by done. split.
    + rewrite <- app_assoc. apply (is_list_unlink _ _ _ _ x);
        [|by rewrite <- Hsplit|done]. rewrite <- Hsplit, Hhd. split; eauto.
    + intros y Hy. apply lookup_insert_ne. intros ->. set_solver.
Qed.

(** ** Carving a page into objects *)

(** [n] objects of size [sz] from [start] on, in address order. *)
Definition objs (start sz : Z) (n : nat) : list Z :=
  (λ k, start + Z.of_nat k * sz) <$> seq 0 n.

Lemma elem_of_objs x start sz n :
  x ∈ objs start sz n ↔ ∃ k, 0 ≤ k < Z.of_nat n ∧ x = start + k * sz.
Proof.
  unfold objs. rewrite list_elem_of_fmap. split.
  - intros (k & -> & Hk%elem_of_seq). exists (Z.of_nat k). split; [lia|done].
  - intros (k & Hk & ->). exists (Z.to_nat k). rewrite elem_of_seq.
    split; [by rewrite Z2Nat.id by lia|lia].
Qed.

Lemma NoDup_objs start sz n : 0 < sz → NoDup (objs start sz n).
Proof.
  intros Hsz. apply NoDup_fmap_2_strong; [|apply NoDup_seq].
  intros x y _ _ H. nia.
Qed.

Lemma objs_S start sz n :
  objs start sz (S n) = objs start sz n ++ [start + Z.of_nat n * sz].
Proof. unfold objs. by rewrite seq_S, fmap_app. Qed.

Lemma push_down_loop h fl start sz n l fuel :
  0 < sz → sz ≤ start → start + Z.of_nat n * sz < 2 ^ 64 → (n < fuel)%nat →
  is_list h (head fl) l → (∀ x, x ∈ objs start sz n → x ∉ l) →
  ∃ h' fl',
    loop fuel (λ '(h, fl, ptr),
      if start <=? ptr then
        let '(h', fl') := push_front h fl ptr in
        ptr' ← usize_sub ptr sz; Ret (inl (h', fl', ptr'))
      else Ret (inr (h, fl))) (h, fl, start + Z.of_nat n * sz - sz) = Ret (h', fl') ∧
    is_list h' (head fl') (objs start sz n ++ l) ∧
    ∀ y, y ∉ objs start sz n → h' !! y = h !! y.
Proof.
  intros Hsz Hst. revert h fl l fuel. induction n as [|n IH]; intros h fl l fuel Hb Hf Hl Hd;
    (destruct fuel as [|fuel]; [lia|]); cbn [loop].
  - rewrite (proj2 (Z.leb_gt _ _)) by lia. exists h, fl. done.
  - rewrite (proj2 (Z.leb_le _ _)) by nia.
    replace (start + Z.of_nat (S n) * sz - sz) with (start + Z.of_nat n * sz) by lia.
    rewrite objs_S in Hd |- *. set (x := start + Z.of_nat n * sz) in *.
    rewrite (surjective_pairing (push_front h fl x)), usize_sub_ok by nia.
    cbv iota beta. rewrite !bind_Ret.
    destruct (IH (push_front h fl x).1 (push_front h fl x).2 (x :: l) fuel)
      as (h' & fl' & E & Hl' & Hfr); [nia|lia|apply is_list_push; [done|apply Hd, elem_of_app; right; by apply list_elem_of_singleton]| |].
    { intros y Hy. rewrite not_elem_of_cons. split; [|apply Hd, elem_of_app; by left].
      apply elem_of_objs in Hy as (k & Hk & ->). unfold x. nia. }
    exists h', fl'. split_and!; [exact E|by rewrite <- app_assoc|].
    intros y [Hy1 Hy2]%not_elem_of_app. rewrite Hfr by done. simpl.
    apply lookup_insert_ne. intros ->. by apply Hy2, list_elem_of_singleton.
Qed.

(** The sizes of the classes divide a frame. *)
Lemma block_size_divides sz :
  sz ∈ BLOCK_SZ → 64 ≤ sz ≤ 2048 ∧ BYTES_PER_FRAME = (BYTES_PER_FRAME / sz) * sz.
Proof.
  intros H. unfold BLOCK_SZ in H. repeat (apply elem_of_cons in H as [->|H]; [split; [lia|done]|]).
  by apply not_elem_of_nil in H.
Qed.

(** The objects of a fresh page, after the header when there is one ([skip] = 1). *)
Definition page_objs (page sz skip : Z) : list Z :=
  objs (page + skip * sz) sz (Z.to_nat (BYTES_PER_FRAME / sz - skip)).

Lemma push_down_page h fl page sz skip l :
  sz ∈ BLOCK_SZ → 0 ≤ skip ≤ 1 → BYTES_PER_FRAME ≤ page → page + BYTES_PER_FRAME < 2 ^ 64 →
  is_list h (head fl) l → (∀ x, x ∈ page_objs page sz skip → x ∉ l) →
  ∃ h' fl', push_down h fl (page + skip * sz) (page + BYTES_PER_FRAME - sz) sz = Ret (h', fl') ∧
    is_list h' (head fl') (page_objs page sz skip ++ l) ∧
    ∀ y, y ∉ page_objs page sz skip → h' !! y = h !! y.
Proof.
  intros Hsz Hsk Hp Hb Hl Hd. apply block_size_divides in Hsz as [Hr Hdiv].
  assert (BYTES_PER_FRAME = 4096) as HB by done.
  assert (1 < BYTES_PER_FRAME / sz ≤ 64) as Hn by nia.
  unfold push_down, page_objs in *.
  replace (page + BYTES_PER_FRAME - sz) with
    (page + skip * sz + Z.of_nat (Z.to_nat (BYTES_PER_FRAME / sz - skip)) * sz - sz) by nia.
  apply push_down_loop; [nia..|lia|done|done].
Qed.

Lemma extend_ok h pg page l :
  obj_sz pg ∈ BLOCK_SZ → BYTES_PER_FRAME ≤ page → page + BYTES_PER_FRAME < 2 ^ 64 →
  is_list h (head (free_list pg)) l → (∀ x, x ∈ page_objs page (obj_sz pg) 0 → x ∉ l) →
  ∃ h' pg', extend h pg page = Ret (h', pg') ∧ obj_sz pg' = obj_sz pg ∧
    is_list h' (head (free_list pg')) (page_objs page (obj_sz pg) 0 ++ l) ∧
    ∀ y, y ∉ page_objs page (obj_sz pg) 0 → h' !! y = h !! y.
Proof.
  intros Hsz Hp Hb Hl Hd. pose proof (block_size_divides _ Hsz) as [Hr Hdiv].
  assert (BYTES_PER_FRAME = 4096) as HB by done.
  unfold extend. rewrite usize_add_ok, bind_Ret by lia. rewrite usize_sub_ok, bind_Ret by lia.
  destruct (push_down_page h (free_list pg) page (obj_sz pg) 0 l)
    as (h' & fl' & E & Hl' & Hfr); [done|lia|done..|].
  rewrite Z.mul_0_l, Z.add_0_r in E. rewrite E, bind_Ret. eexists h', _. by split_and!.
Qed.

Lemma PageHeader_new_at_ok h page sz :
  sz ∈ BLOCK_SZ → BYTES_PER_FRAME ≤ page → page + BYTES_PER_FRAME < 2 ^ 64 →
  ∃ h' pg, PageHeader_new_at h page sz = Ret (h', pg) ∧ obj_sz pg = sz ∧
    is_list h' (head (free_list pg)) (page_objs page sz 1) ∧
    ∀ y, y ∉ page_objs page sz 1 → h' !! y = h !! y.
Proof.
  intros Hsz Hp Hb. pose proof (block_size_divides _ Hsz) as [Hr Hdiv].
  assert (BYTES_PER_FRAME = 4096) as HB by done.
  assert ((SIZE_OF_PAGE_HEADER + sz - 1) / sz = 1) as Hq
    by (symmetry; apply Z.div_unique with 31; unfold SIZE_OF_PAGE_HEADER; lia).
  unfold PageHeader_new_at.
  rewrite (usize_add_ok SIZE_OF_PAGE_HEADER), bind_Ret by (unfold SIZE_OF_PAGE_HEADER; lia).
  rewrite (usize_sub_ok _ 1), bind_Ret by (unfold SIZE_OF_PAGE_HEADER; lia).
  rewrite Hq, usize_mul_ok, bind_Ret by lia. rewrite (usize_add_ok _ (1 * sz)), bind_Ret by lia.
  rewrite usize_add_ok, bind_Ret by lia. rewrite usize_sub_ok, bind_Ret by lia.
  destruct (push_down_page h {| head := None |} page sz 1 [])
    as (h' & fl' & E & Hl' & Hfr); [done|lia|done..|set_solver|].
  rewrite E, bind_Ret, app_nil_r in *. eexists h', _. by split_and!.
Qed.

(** ** The heap invariant

    [L] is what clients currently hold: the pointers returned and the layouts they
    were requested with. Each size class has its free objects and its frames. *)

Definition class_of (l : Layout) : option nat := fst <$> find_block (layout_size l).

Definition live_of (i : nat) (L : list (Z * Layout)) : list Z :=
  (filter (λ al : Z * Layout, class_of al.2 = Some i) L).*1.

Definition n_frames (l : Layout) : Z := (layout_size l + BYTES_PER_FRAME - 1) / BYTES_PER_FRAME.

Definition big_of (L : list (Z * Layout)) : list (Z * Z) :=
  (λ al : Z * Layout, (al.1 / BYTES_PER_FRAME, n_frames al.2)) <$>
    filter (λ al : Z * Layout, 2048 < layout_size al.2) L.

Record class_ok (h : memory) (pg : PageHeader) (sz : Z) (fr fs live : list Z) : Prop := {
  co_sz : obj_sz pg = sz;
  co_list : is_list h (head (free_list pg)) fr;
  co_nodup : NoDup (fr ++ live);
  co_place : ∀ x, x ∈ fr ++ live → 0 < x ∧ x mod sz = 0 ∧ x / BYTES_PER_FRAME ∈ fs;
}.

(** Ghost state of a class: its free objects and the frames it has been given. *)
Abbreviation cls := (list Z * list Z)%type.

(** [n] classes have been set up; the allocator runs with all six. *)
Record heap_upto {n : nat} (s : Heap) (gs : list cls) (L : list (Z * Layout)) : Prop := {
  hi_mem : wf (MEM s);
  hi_lo : 1 ≤ (available_range (MEM s)).1;
  hi_hi : 1 ≤ (available_range (MEM s)).2 < 2 ^ 51;
  hi_pages : length (pages s) = n;
  hi_gs : length gs = n;
  hi_class : ∀ i sz pg g, BLOCK_SZ !! i = Some sz → pages s !! i = Some pg → gs !! i = Some g →
    class_ok (objects s) pg sz g.1 g.2 (live_of i L);
  hi_disj : ∀ i j gi gj f, gs !! i = Some gi → gs !! j = Some gj →
    f ∈ gi.2 → f ∈ gj.2 → i = j;
  hi_big : NoDup (frames (big_of L));
  hi_big_addr : ∀ a l, (a, l) ∈ L → 2048 < layout_size l →
    a mod BYTES_PER_FRAME = 0 ∧ 0 < a ∧ a / BYTES_PER_FRAME + n_frames l ≤ capacity (MEM s);
  hi_big_disj : ∀ i g f, gs !! i = Some g → f ∈ g.2 → f ∉ frames (big_of L);
  hi_used : ∀ f, (f ∈ frames (big_of L) ∨ ∃ i g, gs !! i = Some g ∧ f ∈ g.2) →
    0 < f ∧ used (MEM s) f = true;
}.

Abbreviation heap_inv := (@heap_upto 6).

(** The layouts Rust can ask for: a power-of-two alignment (here: one that divides
    a page) and a size within [isize]. *)
Definition layout_ok (l : Layout) : Prop :=
  0 ≤ layout_size l < 2 ^ 62 ∧ 0 < layout_align l ∧ (layout_align l | BYTES_PER_FRAME).

Lemma find_block_class size i sz :
  find_block size = Some (i, sz) → BLOCK_SZ !! i = Some sz ∧ size < sz ∧ (i < 6)%nat.
Proof.
  intros (H1 & H2 & _)%list_find_Some. split; [done|]. split; [done|].
  by apply lookup_lt_Some in H1.
Qed.

Lemma class_lookup {A} (l : list A) i sz :
  length l = length BLOCK_SZ → BLOCK_SZ !! i = Some sz → ∃ x, l !! i = Some x.
Proof.
  intros Hl Hi. apply lookup_lt_is_Some. rewrite Hl. by apply lookup_lt_Some in Hi.
Qed.

Lemma live_of_cons i a l L :
  live_of i ((a, l) :: L) = if decide (class_of l = Some i) then a :: live_of i L else live_of i L.
Proof. unfold live_of. rewrite filter_cons. simpl. by case_decide. Qed.

Lemma big_of_cons a l L :
  big_of ((a, l) :: L) =
    if decide (2048 < layout_size l) then (a / BYTES_PER_FRAME, n_frames l) :: big_of L
    else big_of L.
Proof. unfold big_of. rewrite filter_cons. simpl. by case_decide. Qed.

Lemma class_of_lt l i : class_of l = Some i → layout_size l < 2048.
Proof.
  unfold class_of. intros ((j & sz) & Hf & _)%fmap_Some_1.
  apply find_block_class in Hf as (Hi & Hsz & _).
  apply list_elem_of_lookup_2, block_size_divides in Hi. lia.
Qed.

Lemma class_of_small l i : class_of l = Some i → ¬ 2048 < layout_size l.
Proof.
  intros Hc%class_of_lt. lia.
Qed.

#[export] Instance live_of_proper i : Proper ((≡ₚ) ==> (≡ₚ)) (live_of i).
Proof. intros L1 L2 H. unfold live_of. by rewrite H. Qed.

#[export] Instance big_of_proper : Proper ((≡ₚ) ==> (≡ₚ)) big_of.
Proof. intros L1 L2 H. unfold big_of. by rewrite H. Qed.

#[export] Instance frames_proper : Proper ((≡ₚ) ==> (≡ₚ)) frames.
Proof. intros b1 b2 H. unfold frames. by apply Permutation_flat_map. Qed.

Lemma class_ok_perm h pg sz fr fs live live' :
  live ≡ₚ live' → class_ok h pg sz fr fs live → class_ok h pg sz fr fs live'.
Proof.
  intros Hp [H1 H2 H3 H4]. split; [done|done|by rewrite <- Hp|].
  intros x Hx. apply H4. by rewrite Hp.
Qed.

(** The invariant does not depend on the order of the live allocations. *)
Lemma heap_inv_perm s gs L L' : L ≡ₚ L' → heap_inv s gs L → heap_inv s gs L'.
Proof.
  intros Hp [H1 H2 H3 H4 H5 H6 H7 H8 H9 H10 H11]. split; try done.
  - intros i sz pg g Hi Hpg Hg. eapply class_ok_perm; [|by eapply H6]. by rewrite Hp.
  - by rewrite <- Hp.
  - intros a l Hal. apply H9. by rewrite Hp.
  - intros i g f Hg Hf. rewrite <- Hp. by eapply H10.
  - intros f Hf. apply H11. by rewrite Hp.
Qed.

(** Replacing one class, its ghost state and the frame map: everything else is
    untouched because memory changed only inside frames of that class. *)
Section update.
Context (s : Heap) (gs : list cls) (L L' : list (Z * Layout)).
Context (i : nat) (sz : Z) (g g' : cls) (pg pg' : PageHeader).
Context (mem' : BitMapMemoryManager) (h' : memory).
Hypothesis HI : heap_inv s gs L.
Hypothesis Hi : BLOCK_SZ !! i = Some sz.
Hypothesis Hg : gs !! i = Some g.
Hypothesis Hpg : pages s !! i = Some pg.
Hypothesis Hok : class_ok h' pg' sz g'.1 g'.2 (live_of i L').
Hypothesis Hother : ∀ j, j ≠ i → live_of j L' = live_of j L.
Hypothesis Hbig : big_of L' = big_of L.
Hypothesis HbigL : ∀ a l, (a, l) ∈ L' → 2048 < layout_size l → (a, l) ∈ L.
Hypothesis Hmemory : ∀ y, h' !! y ≠ objects s !! y → y / BYTES_PER_FRAME ∈ g'.2.
Hypothesis Hframes : ∀ f, f ∈ g'.2 → f ∈ g.2 ∨ (0 < f ∧ used (MEM s) f = false).
Hypothesis Hwf : wf mem'.
Hypothesis Hshape : same_shape (MEM s) mem'.
Hypothesis Hused : ∀ f, 0 < f → used (MEM s) f = true ∨ f ∈ g'.2 → used mem' f = true.

Lemma frame_not_elsewhere j gj f : j ≠ i → gs !! j = Some gj → f ∈ gj.2 → f ∉ g'.2.
Proof using HI Hg Hframes.
  intros Hne Hgj Hf Hf'. destruct (Hframes f Hf') as [Hf2|[_ Hf2]].
  - apply Hne. by eapply (hi_disj _ _ _ HI).
  - destruct (hi_used _ _ _ HI f) as [_ Hu]; [right; by exists j, gj|congruence].
Qed.

Lemma frame_not_big f : f ∈ g'.2 → f ∉ frames (big_of L).
Proof using HI Hg Hframes.
  intros Hf Hb. destruct (Hframes f Hf) as [Hf2|[_ Hf2]].
  - by eapply (hi_big_disj _ _ _ HI).
  - destruct (hi_used _ _ _ HI f) as [_ Hu]; [by left|congruence].
Qed.

Lemma class_ok_other j szj pgj gj :
  j ≠ i → BLOCK_SZ !! j = Some szj → pages s !! j = Some pgj → gs !! j = Some gj →
  class_ok h' pgj szj gj.1 gj.2 (live_of j L').
Proof using HI Hg Hframes Hother Hmemory.
  intros Hne Hj Hpj Hgj. rewrite Hother by done.
  destruct (hi_class _ _ _ HI j szj pgj gj Hj Hpj Hgj) as [C1 C2 C3 C4]. split; try done.
  eapply is_list_frame; [|done]. intros x Hx.
  destruct (decide (h' !! x = objects s !! x)) as [|Hd]; [done|].
  apply Hmemory in Hd. exfalso. eapply (frame_not_elsewhere j gj); try done.
  apply C4. apply elem_of_app. by left.
Qed.

Lemma heap_inv_update :
  heap_inv {| MEM := mem'; objects := h'; pages := <[i := pg']> (pages s) |} (<[i := g']> gs) L'.
Proof using All.
  assert (i < length gs)%nat as Hlg by (by apply lookup_lt_Some in Hg).
  assert (i < length (pages s))%nat as Hlp by (by apply lookup_lt_Some in Hpg).
  assert (∀ j gj, <[i := g']> gs !! j = Some gj →
    (j = i ∧ gj = g') ∨ (j ≠ i ∧ gs !! j = Some gj)) as Hgs.
  { intros j gj. destruct (decide (j = i)) as [->|].
    - rewrite list_lookup_insert_eq by done. intros [= <-]. by left.
    - rewrite list_lookup_insert_ne by done. by right. }
  pose proof Hshape as [Hr _]. pose proof (same_shape_capacity _ _ Hshape) as Hc.
  destruct HI as [I1 I2 I3 I4 I5 I6 I7 I8 I9 I10 I11]. split; simpl; rewrite ?Hr, ?Hbig; try done.
  - by rewrite length_insert.
  - by rewrite length_insert.
  - intros j szj pgj gj Hj Hpj [[-> ->]|[Hne Hgj]]%Hgs.
    + rewrite list_lookup_insert_eq in Hpj by done. by simplify_eq.
    + rewrite list_lookup_insert_ne in Hpj by done. by eapply class_ok_other.
  - intros j k gj gk f [[-> ->]|[Hj Hgj]]%Hgs [[-> ->]|[Hk Hgk]]%Hgs Hf1 Hf2; try done.
    + by destruct (frame_not_elsewhere k gk f).
    + by destruct (frame_not_elsewhere j gj f).
    + by eapply I7.
  - intros a l Hal Hs. rewrite Hc. apply I9; [by apply HbigL|done].
  - intros j gj f [[-> ->]|[Hj Hgj]]%Hgs Hf; [by apply frame_not_big|by eapply I10].
  - intros f [Hf|(j & gj & [[-> ->]|[Hj Hgj]]%Hgs & Hf)].
    + destruct (I11 f) as [? ?]; [by left|]. auto.
    + assert (0 < f) as Hp.
      { destruct (Hframes f Hf) as [?|[? _]]; [|done]. apply (I11 f). right. by exists i, g. }
      auto.
    + destruct (I11 f) as [? ?]; [right; by exists j, gj|]. auto.
Qed.
End update.

(** ** One class: popping, extending, pushing back *)

Lemma pop_class h pg sz fr fs live (p : Z → bool) k x :
  class_ok h pg sz fr fs live → list_find (λ y, p y = true) fr = Some (k, x) →
  ∃ h' fl', pop_filter h (free_list pg) p = Ret (h', fl', x) ∧
    class_ok h' (with_free_list pg fl') sz (take k fr ++ drop (S k) fr) fs (x :: live) ∧
    x ∉ live ∧ 0 < x ∧ p x = true ∧
    ∀ y, h' !! y ≠ h !! y → y / BYTES_PER_FRAME ∈ fs.
Proof.
  intros [C1 C2 C3 C4] Hf. apply list.NoDup_app in C3 as Hnd. destruct Hnd as (Hn1 & Hn2 & Hn3).
  pose proof (pop_filter_spec h (free_list pg) fr p C2 Hn1) as Hsp. rewrite Hf in Hsp.
  destruct Hsp as (h' & fl' & E & Hl & Hfr). apply list_find_Some in Hf as (Hk & Hp & _).
  assert (fr ≡ₚ x :: take k fr ++ drop (S k) fr) as Hperm.
  { rewrite <- (take_drop_middle fr k x) at 1 by done. symmetry. apply Permutation_middle. }
  assert (x ∈ fr) as Hx by (by eapply list_elem_of_lookup_2).
  assert ((take k fr ++ drop (S k) fr) ++ x :: live ≡ₚ fr ++ live) as Hperm2.
  { rewrite Hperm at 3. simpl. symmetry. apply Permutation_middle. }
  exists h', fl'. split; [done|]. split; [split|split_and!].
  - done.
  - done.
  - by rewrite Hperm2.
  - intros y Hy. apply C4. by rewrite <- Hperm2.
  - by apply Hn2.
  - apply C4. apply elem_of_app. by left.
  - done.
  - intros y Hy. destruct (decide (y ∈ take k fr)) as [Hin|Hni]; [|by destruct Hy; apply Hfr].
    apply C4. apply elem_of_app. left. by apply elem_of_take in Hin as (j & Hj & _);
      eapply list_elem_of_lookup_2.
Qed.

Lemma page_objs_place p sz skip x :
  sz ∈ BLOCK_SZ → 0 ≤ skip → 0 < p → x ∈ page_objs (p * BYTES_PER_FRAME) sz skip →
  0 < x ∧ x mod sz = 0 ∧ x / BYTES_PER_FRAME = p.
Proof.
  intros Hsz Hsk Hp Hx. apply block_size_divides in Hsz as [Hr Hd].
  assert (BYTES_PER_FRAME = 4096) as HB by done.
  apply elem_of_objs in Hx as (k & Hk & ->).
  assert (0 ≤ (skip + k) * sz < BYTES_PER_FRAME) as Hb by nia.
  replace (p * BYTES_PER_FRAME + skip * sz + k * sz) with
    ((skip + k) * sz + p * BYTES_PER_FRAME) by lia.
  split_and!; [lia| |].
  - rewrite Hd at 1. rewrite Z.mul_assoc, <- Z.mul_add_distr_r. apply Z.mod_mul. lia.
  - rewrite Z.div_add, Z.div_small by lia. lia.
Qed.

Lemma extend_class h pg sz fr fs live p :
  class_ok h pg sz fr fs live → sz ∈ BLOCK_SZ → p ∉ fs → 0 < p < 2 ^ 51 →
  ∃ h' pg', extend h pg (p * BYTES_PER_FRAME) = Ret (h', pg') ∧
    class_ok h' pg' sz (page_objs (p * BYTES_PER_FRAME) sz 0 ++ fr) (p :: fs) live ∧
    ∀ y, h' !! y ≠ h !! y → y / BYTES_PER_FRAME = p.
Proof.
  intros [C1 C2 C3 C4] Hsz Hp Hpb. assert (BYTES_PER_FRAME = 4096) as HB by done.
  assert (∀ x, x ∈ page_objs (p * BYTES_PER_FRAME) sz 0 → x ∉ fr ++ live) as Hnew.
  { intros x Hx Hin. apply page_objs_place in Hx as (_ & _ & Hx); [|done|lia..].
    apply Hp. rewrite <- Hx. by apply C4. }
  destruct (extend_ok h pg (p * BYTES_PER_FRAME) fr) as (h' & pg' & E & Hs & Hl & Hfr);
    rewrite ?C1; [done|lia|lia|done|intros x Hx Hin; apply (Hnew x Hx), elem_of_app; by left|].
  rewrite C1 in *. exists h', pg'. split; [done|]. split; [split|].
  - done.
  - done.
  - rewrite <- app_assoc. apply list.NoDup_app. split_and!; [|done|done].
    apply NoDup_objs. apply block_size_divides in Hsz. lia.
  - intros x. rewrite <- app_assoc, elem_of_app. intros [Hx|Hx].
    + apply page_objs_place in Hx as (? & ? & ->); [|done|lia..]. split_and!; try done. by left.
    + destruct (C4 x Hx) as (? & ? & ?). split_and!; try done. by right.
  - intros y Hy. destruct (decide (y ∈ page_objs (p * BYTES_PER_FRAME) sz 0)) as [Hin|].
    + by apply page_objs_place in Hin as (_ & _ & ?); [|done|lia..].
    + by destruct Hy; apply Hfr.
Qed.

(** A fresh page always has an object for an alignment that divides a page: the
    page start itself. *)
Lemma page_objs_aligned p sz (layout : Layout) fr :
  sz ∈ BLOCK_SZ → layout_ok layout →
  ∃ k x, list_find (λ y, is_aligned layout y = true)
    (page_objs (p * BYTES_PER_FRAME) sz 0 ++ fr) = Some (k, x).
Proof.
  intros Hsz (_ & Ha & Hdiv). apply block_size_divides in Hsz as [Hr Hd].
  assert (BYTES_PER_FRAME = 4096) as HB by done.
  destruct (list_find_elem_of (λ y, is_aligned layout y = true)
    (page_objs (p * BYTES_PER_FRAME) sz 0 ++ fr) (p * BYTES_PER_FRAME)) as [[k x] H].
  - apply elem_of_app. left. apply elem_of_objs. exists 0. split; [nia|lia].
  - unfold is_aligned. apply Z.eqb_eq, Z.mod_divide; [lia|]. by apply Z.divide_mul_r.
  - by exists k, x.
Qed.

(** ** Allocation and deallocation preserve the invariant *)

Lemma class_of_find l i : class_of l = Some i → ∃ sz, find_block (layout_size l) = Some (i, sz).
Proof.
  unfold class_of. intros ((j & sz) & Hf & Hj)%fmap_Some_1. simpl in Hj. subst. by exists sz.
Qed.

(** Adding a small allocation touches only its own class. *)
Lemma live_small_other i l L a :
  class_of l = Some i →
  (∀ j, j ≠ i → live_of j ((a, l) :: L) = live_of j L) ∧
  live_of i ((a, l) :: L) = a :: live_of i L ∧
  big_of ((a, l) :: L) = big_of L ∧
  (∀ a' l', (a', l') ∈ (a, l) :: L → 2048 < layout_size l' → (a', l') ∈ L).
Proof.
  intros Hc. split_and!.
  - intros j Hj. rewrite live_of_cons. case_decide; congruence.
  - rewrite live_of_cons. by rewrite decide_True.
  - rewrite big_of_cons. rewrite decide_False; [done|]. by eapply class_of_small.
  - intros a' l' [Heq|?]%elem_of_cons Hs; [|done]. simplify_eq.
    by destruct (class_of_small l i Hc).
Qed.

(** The class of the layout has no free object with the right alignment. *)
Definition none_fits (gs : list cls) (l : Layout) : Prop :=
  ∀ i g x, class_of l = Some i → gs !! i = Some g → x ∈ g.1 → is_aligned l x = false.

(** The heap cannot serve the layout: 2048 bytes, never; less, if the class has no fitting
    object and there is no frame left for another page; more, if every block of that many
    frames has one in use. *)
Definition unserved (s : Heap) (gs : list cls) (l : Layout) : Prop :=
  layout_size l = 2048 ∨
  (layout_size l < 2048 ∧ none_fits gs l ∧ n_free (MEM s) = 0%nat) ∨
  (2048 < layout_size l ∧
   ∀ f, (available_range (MEM s)).1 ≤ f < (available_range (MEM s)).2 - n_frames l →
     blocked (MEM s) (n_frames l) f).

(** The result of an allocation: null, with the heap as it was, exactly when the heap
    cannot serve the layout; otherwise a fresh aligned block, for which at most one page,
    or as many frames as it has, is taken from the free ones. *)
Definition alloc_post (s : Heap) (gs : list cls) (L : list (Z * Layout)) (l : Layout)
    (s' : Heap) (addr : Z) : Prop :=
  (addr = null ∧ s' = s ∧ unserved s gs l) ∨
  (addr ≠ null ∧ ¬ unserved s gs l ∧ addr mod layout_align l = 0 ∧
   (n_free (MEM s) ≤ n_free (MEM s') + Z.to_nat (Z.max 1 (n_frames l)))%nat ∧
   ∃ gs', heap_inv s' gs' ((addr, l) :: L)).

Lemma same_shape_refl m : same_shape m m.
Proof. reflexivity. Qed.

Lemma alloc_pop s gs L l i sz pg g k x :
  heap_inv s gs L → class_of l = Some i → BLOCK_SZ !! i = Some sz → pages s !! i = Some pg →
  gs !! i = Some g → list_find (λ y, is_aligned l y = true) g.1 = Some (k, x) →
  ∃ h' fl', pop_filter (objects s) (free_list pg) (is_aligned l) = Ret (h', fl', x) ∧ 0 < x ∧
    x mod layout_align l = 0 ∧
    heap_inv (with_page s h' i (with_free_list pg fl'))
      (<[i := (take k g.1 ++ drop (S k) g.1, g.2)]> gs) ((x, l) :: L).
Proof.
  intros HI Hc Hi Hpg Hg Hf.
  destruct (pop_class _ _ _ _ _ _ _ _ _ (hi_class _ _ _ HI i sz pg g Hi Hpg Hg) Hf)
    as (h' & fl' & E & Hok & Hnl & Hx & Ha & Hmem).
  destruct (live_small_other i l L x Hc) as (H1 & H2 & H3 & H4).
  exists h', fl'. split; [done|]. split; [done|]. split; [by apply Z.eqb_eq|].
  unfold with_page. eapply heap_inv_update; try done; simpl.
  - by rewrite H2.
  - intros f Hf'. by left.
  - apply HI.
  - intros f Hp [Hu|Hf']; [done|]. apply (hi_used _ _ _ HI). right. by exists i, g.
Qed.

Lemma alloc_extend s gs L l i sz pg g mem p :
  heap_inv s gs L → class_of l = Some i → layout_ok l →
  BLOCK_SZ !! i = Some sz → pages s !! i = Some pg → gs !! i = Some g →
  allocate (MEM s) 1 = Ret (mem, Some p) →
  ∃ h1 pg1 h2 fl2 x gs',
    extend (objects s) pg (p * BYTES_PER_FRAME) = Ret (h1, pg1) ∧
    pop_filter h1 (free_list pg1) (is_aligned l) = Ret (h2, fl2, x) ∧ 0 < x ∧
    x mod layout_align l = 0 ∧ 0 < p < 2 ^ 51 ∧
    heap_inv (with_page {| MEM := mem; objects := h2; pages := pages s |} h2 i
      (with_free_list pg1 fl2)) gs' ((x, l) :: L).
Proof.
  intros HI Hc Hl Hi Hpg Hg Ha. pose proof (hi_hi _ _ _ HI). pose proof (hi_lo _ _ _ HI).
  destruct (allocate_ok (MEM s) 1) as (m' & r & Ha' & HP); [apply HI|lia|].
  rewrite Ha in Ha'. simplify_eq. unfold allocate_post in HP.
  destruct (available_range (MEM s)) as [lo hi] eqn:Hr; simpl in *.
  destruct HP as (Hp & Hfree & Hwf & Hsh & Hu & _).
  assert (sz ∈ BLOCK_SZ) as Hsz by (by eapply list_elem_of_lookup_2).
  assert (used (MEM s) p = false) as Hpf by (apply Hfree; lia).
  assert (p ∉ g.2) as Hpg2.
  { intros Hin. destruct (hi_used _ _ _ HI p) as [_ Hup]; [right; by exists i, g|congruence]. }
  destruct (extend_class _ _ _ _ _ _ p (hi_class _ _ _ HI i sz pg g Hi Hpg Hg) Hsz Hpg2)
    as (h1 & pg1 & E1 & Hok1 & Hm1); [lia|].
  destruct (page_objs_aligned p sz l g.1 Hsz Hl) as (k & x & Hf).
  destruct (pop_class _ _ _ _ _ _ _ _ _ Hok1 Hf) as (h2 & fl2 & E2 & Hok2 & Hnl & Hx & Hax & Hm2).
  destruct (live_small_other i l L x Hc) as (H1 & H2 & H3 & H4).
  set (fr := page_objs _ _ _ ++ _) in *.
  exists h1, pg1, h2, fl2, x, (<[i := (take k fr ++ drop (S k) fr, p :: g.2)]> gs).
  split_and!; try done; [by apply Z.eqb_eq|lia..|]. unfold with_page; simpl.
  eapply (heap_inv_update s gs L); try done; simpl.
  - by rewrite H2.
  - intros y Hy. destruct (decide (h2 !! y = h1 !! y)) as [Heq|Hne]; [|by apply Hm2].
    apply elem_of_cons. left. apply Hm1. by rewrite <- Heq.
  - intros f [->|Hf']%elem_of_cons; [right; split; [lia|done]|by left].
  - intros f Hpos Hor. rewrite Hu by lia. destruct (in_blockP p 1 f) as [|Hnb]; [done|]. simpl.
    destruct Hor as [?|[->|?]%elem_of_cons]; [done|lia|].
    apply (hi_used _ _ _ HI). right. by exists i, g.
Qed.

(** Refused frame requests leave the frame map alone. *)
Lemma allocate_none m n m' :
  wf m → 0 ≤ n ≤ (available_range m).2 → allocate m n = Ret (m', None) → m' = m.
Proof.
  intros Hwf Hn Ha. destruct (allocate_ok m n Hwf Hn) as (m1 & r & Ha' & HP).
  rewrite Ha in Ha'. simplify_eq. unfold allocate_post in HP.
  destruct (available_range m). by destruct HP.
Qed.

Lemma with_free_list_id pg : with_free_list pg (free_list pg) = pg.
Proof. by destruct pg. Qed.

(** A request that a free object fits is served without the frame allocator. *)
Lemma alloc_fits s gs L l i g k x :
  heap_inv s gs L → class_of l = Some i → gs !! i = Some g →
  list_find (λ y, is_aligned l y = true) g.1 = Some (k, x) →
  ∃ s', alloc s l = Ret (s', x) ∧ 0 < x ∧ x mod layout_align l = 0 ∧ MEM s' = MEM s ∧
    heap_inv s' (<[i := (take k g.1 ++ drop (S k) g.1, g.2)]> gs) ((x, l) :: L).
Proof.
  intros HI Hc Hg Hf. destruct (class_of_find l i Hc) as (sz & Hfb).
  apply find_block_class in Hfb as HB. destruct HB as (Hi & _ & _).
  destruct (class_lookup (pages s) i sz (hi_pages _ _ _ HI) Hi) as [pg Hpg].
  destruct (alloc_pop s gs L l i sz pg g k x HI Hc Hi Hpg Hg Hf) as (h' & fl' & E & Hx & Ha & HI').
  pose proof (class_of_lt l i Hc). exists (with_page s h' i (with_free_list pg fl')). split; [|by split_and!].
  unfold alloc. rewrite (proj2 (Z.ltb_ge _ _)) by lia.
  rewrite Hfb, (vget_ok _ _ pg), bind_Ret by (rewrite ?Nat2Z.id; done || lia).
  rewrite E, bind_Ret. by rewrite (proj2 (Z.eqb_neq _ _)) by (unfold null; lia).
Qed.

Lemma alloc_small_ok s gs L l i :
  heap_inv s gs L → layout_ok l → class_of l = Some i →
  ∃ s' addr, alloc s l = Ret (s', addr) ∧ alloc_post s gs L l s' addr.
Proof.
  intros HI Hl Hc. destruct (class_of_find l i Hc) as (sz & Hfb).
  apply find_block_class in Hfb as HB. destruct HB as (Hi & Hsz & Hi6).
  destruct (class_lookup (pages s) i sz (hi_pages _ _ _ HI) Hi) as [pg Hpg].
  destruct (class_lookup gs i sz (hi_gs _ _ _ HI) Hi) as [g Hg].
  pose proof (hi_class _ _ _ HI i sz pg g Hi Hpg Hg) as Hok. pose proof (class_of_lt l i Hc) as Hsmall.
  destruct (list_find (λ y, is_aligned l y = true) g.1) as [[k x]|] eqn:Hf.
  - destruct (alloc_fits s gs L l i g k x HI Hc Hg Hf) as (s' & E & Hx & Ha & EM & HI').
    exists s', x. split; [done|]. right. rewrite EM. unfold null. split_and!; [lia| |done|lia|eauto].
    apply list_find_Some in Hf as (Hgx & Hal & _). apply list_elem_of_lookup_2 in Hgx.
    intros [H2|[(_ & Hn & _)|[H2 _]]]; [lia| |lia]. by rewrite (Hn i g x Hc Hg Hgx) in Hal.
  - unfold alloc. rewrite (proj2 (Z.ltb_ge _ _)) by lia.
    rewrite Hfb, (vget_ok _ _ pg), bind_Ret by (rewrite ?Nat2Z.id; done || lia).
    destruct (proj1 (list.NoDup_app _ _) (co_nodup _ _ _ _ _ _ Hok)) as (Hnd & _ & _).
    pose proof (pop_filter_spec _ _ _ (is_aligned l) (co_list _ _ _ _ _ _ Hok) Hnd) as Hpf.
    rewrite Hf in Hpf. rewrite Hpf, bind_Ret, Z.eqb_refl, with_free_list_id.
    pose proof (hi_hi _ _ _ HI).
    destruct (allocate_one (MEM s)) as (mem & r & Ha & _ & Hfr); [apply HI|lia|].
    rewrite Ha, bind_Ret. destruct r as [p|].
    + destruct (alloc_extend s gs L l i sz pg g mem p HI Hc Hl Hi Hpg Hg Ha)
        as (h1 & pg1 & h2 & fl2 & x & gs' & E1 & E2 & Hx & Hax & Hp & HI').
      rewrite usize_mul_ok, bind_Ret by (unfold BYTES_PER_FRAME, KB; lia).
      rewrite E1, bind_Ret, E2, bind_Ret.
      eexists _, _. split; [done|]. right. unfold null. split_and!; [lia| |done|simpl; lia|eauto].
      intros [H2|[(_ & _ & H2)|[H2 _]]]; lia.
    + destruct Hfr as [-> Hfr]. eexists _, _. split; [done|]. left. split; [done|]. split; [by destruct s|].
      right; left. split_and!; [lia| |done]. intros i' g' x Hc' Hg' Hx. simplify_eq.
      apply not_true_iff_false. by eapply list_find_None, list.Forall_forall in Hf.
Qed.

Lemma class_of_big l : 2048 < layout_size l → class_of l = None.
Proof.
  intros Hs. destruct (class_of l) as [i|] eqn:E; [|done]. by destruct (class_of_small l i E).
Qed.

Lemma live_of_big i a l L : 2048 < layout_size l → live_of i ((a, l) :: L) = live_of i L.
Proof. intros Hs. rewrite live_of_cons, (class_of_big l Hs). done. Qed.

Lemma big_of_big a l L :
  2048 < layout_size l → big_of ((a, l) :: L) = (a / BYTES_PER_FRAME, n_frames l) :: big_of L.
Proof. intros Hs. rewrite big_of_cons. by rewrite decide_True. Qed.

Lemma n_frames_pos l : 2048 < layout_size l → 0 < n_frames l.
Proof.
  intros Hs. unfold n_frames. apply Z.div_str_pos. unfold BYTES_PER_FRAME, KB. lia.
Qed.

Lemma align_le_frame l : layout_ok l → layout_align l ≤ BYTES_PER_FRAME.
Proof. intros (_ & Ha & Hd). apply Z.divide_pos_le; done. Qed.

Lemma big_frames_arg l :
  layout_ok l → usize_add (layout_size l) BYTES_PER_FRAME = Ret (layout_size l + BYTES_PER_FRAME) ∧
  usize_sub (layout_size l + BYTES_PER_FRAME) 1 = Ret (layout_size l + BYTES_PER_FRAME - 1).
Proof.
  intros (Hs & _). assert (BYTES_PER_FRAME = 4096) as HB by done.
  split; [apply usize_add_ok|apply usize_sub_ok]; lia.
Qed.

(** A block of frames joins the live allocations. *)
Lemma heap_inv_add_big s gs L l mem id :
  heap_inv s gs L → layout_ok l → 2048 < layout_size l →
  allocate_post (MEM s) (n_frames l) mem (Some id) →
  heap_inv {| MEM := mem; objects := objects s; pages := pages s |} gs
    ((id * BYTES_PER_FRAME, l) :: L).
Proof.
  intros HI Hl Hs HP. unfold allocate_post in HP. pose proof (n_frames_pos l Hs) as Hn.
  destruct HI as [I1 I2 I3 I4 I5 I6 I7 I8 I9 I10 I11].
  pose proof (wf_end _ I1) as He.
  destruct (available_range (MEM s)) as [lo hi] eqn:Hr; simpl in *.
  destruct HP as (Hid & Hfree & Hwf & Hsh & Hu & _).
  pose proof (same_shape_capacity _ _ Hsh) as Hc. destruct Hsh as [Hr' _].
  assert (∀ f, f ∈ seqZ id (n_frames l) → 0 < f ∧ used (MEM s) f = false) as Hnew.
  { intros f Hf%elem_of_seqZ. split; [lia|by apply Hfree]. }
  split; simpl; rewrite ?Hr', ?Hr, ?big_of_big, ?frame_mul_div by done; simpl; try done.
  - intros. rewrite live_of_big by done. by eapply I6.
  - apply list.NoDup_app. split_and!; [apply NoDup_seqZ| |done].
    intros f Hf Hf2. apply Hnew in Hf as [_ Hf]. destruct (I11 f) as [_ ?]; [by left|congruence].
  - intros a l' [Heq|Hin]%elem_of_cons Hs'; rewrite Hc; [|by apply I9]. simplify_eq.
    rewrite frame_mul_div. assert (BYTES_PER_FRAME = 4096) as HB by done.
    split_and!; [apply Z.mod_mul; lia|lia|lia].
  - intros i g f Hg Hf [Hf2|Hf2]%elem_of_app; [|by eapply I10].
    apply Hnew in Hf2 as [_ ?]. destruct (I11 f) as [_ ?]; [right; by exists i, g|congruence].
  - intros f Hor. rewrite elem_of_app in Hor.
    assert (f ∈ seqZ id (n_frames l) ∨ (0 < f ∧ used (MEM s) f = true)) as [Hf|[Hp Hf]].
    { destruct Hor as [[?|?]|?]; [by left|right; apply I11; by left|right; apply I11; by right]. }
    + apply Hnew in Hf as Hf2. split; [apply Hf2|]. rewrite Hu by lia.
      apply elem_of_seqZ in Hf. by destruct (in_blockP id (n_frames l) f).
    + split; [done|]. rewrite Hu, Hf by lia. by destruct (in_block _ _ _).
Qed.

Lemma alloc_big_ok s gs L l :
  heap_inv s gs L → layout_ok l → 2048 < layout_size l →
  n_frames l ≤ (available_range (MEM s)).2 →
  ∃ s' addr, alloc s l = Ret (s', addr) ∧ alloc_post s gs L l s' addr.
Proof.
  intros HI Hl Hs Hn. pose proof (align_le_frame l Hl). pose proof (n_frames_pos l Hs).
  unfold alloc. rewrite (proj2 (Z.ltb_lt _ _)) by done. rewrite (proj2 (Z.ltb_ge _ _)) by done.
  destruct (big_frames_arg l Hl) as [-> E]. rewrite bind_Ret, E, bind_Ret.
  change ((layout_size l + BYTES_PER_FRAME - 1) / BYTES_PER_FRAME) with (n_frames l).
  destruct (allocate_ok (MEM s) (n_frames l)) as (mem & r & -> & HP); [apply HI|lia|].
  rewrite bind_Ret. destruct r as [id|].
  - pose proof (hi_hi _ _ _ HI). pose proof (hi_lo _ _ _ HI). pose proof HP as HP'.
    unfold allocate_post in HP'. destruct (available_range (MEM s)) as [lo hi] eqn:Er; simpl in *.
    assert (BYTES_PER_FRAME = 4096) as HB by done.
    rewrite usize_mul_ok, bind_Ret by lia. eexists _, _. split; [done|]. right.
    split_and!; [unfold null; lia| | | |exists gs; by apply heap_inv_add_big].
    + intros [H'|[(H' & _)|[_ Hb]]]; [lia..|]. destruct HP' as (Hid & Hfree & _).
      rewrite Er in Hb. destruct (Hb id Hid) as (f & Hf & Hu). by rewrite Hfree in Hu.
    + apply Z.mod_divide; [destruct Hl; lia|]. apply Z.divide_mul_r, Hl.
    + rewrite (allocate_n_free (MEM s) (n_frames l) mem (Some id)) by (apply HI || (rewrite ?Er; done) || (rewrite ?Er; simpl; lia)). simpl. lia.
  - eexists _, _. split; [done|]. left. split; [done|].
    unfold allocate_post in HP. unfold unserved. destruct (available_range (MEM s)).
    destruct HP as [-> Hb]. split; [by destruct s|]. right; right. by split.
Qed.

Lemma dealloc_small_ok s gs L l i a :
  heap_inv s gs ((a, l) :: L) → class_of l = Some i →
  ∃ s' g, dealloc s a l = Ret s' ∧ gs !! i = Some g ∧ MEM s' = MEM s ∧
    heap_inv s' (<[i := (a :: g.1, g.2)]> gs) L.
Proof.
  intros HI Hc. destruct (class_of_find l i Hc) as (sz & Hfb).
  apply find_block_class in Hfb as HB. destruct HB as (Hi & Hsz & Hi6).
  destruct (class_lookup (pages s) i sz (hi_pages _ _ _ HI) Hi) as [pg Hpg].
  destruct (class_lookup gs i sz (hi_gs _ _ _ HI) Hi) as [g Hg].
  pose proof (hi_class _ _ _ HI i sz pg g Hi Hpg Hg) as [C1 C2 C3 C4].
  destruct (live_small_other i l L a Hc) as (H1 & H2 & H3 & H4). rewrite H2 in *.
  unfold dealloc. rewrite (proj2 (Z.ltb_ge _ _)) by (apply class_of_small in Hc; lia).
  rewrite Hfb. simpl unwrap. rewrite bind_Ret.
  rewrite (vget_ok _ _ pg), bind_Ret by (rewrite ?Nat2Z.id; done || lia).
  assert (g.1 ++ a :: live_of i L ≡ₚ (a :: g.1) ++ live_of i L) as Hperm
    by (symmetry; apply Permutation_middle).
  rewrite Hperm in C3. assert (a ∉ g.1) as Hni by (apply NoDup_cons in C3; set_solver).
  eexists _, g. split; [done|]. split; [done|]. split; [done|]. unfold with_page.
  assert (a / BYTES_PER_FRAME ∈ g.2) as Hfa by (apply C4; rewrite Hperm; by left).
  eapply (heap_inv_update s gs ((a, l) :: L)); try done; simpl.
  - split; [done|by apply (is_list_push _ (free_list pg))|done|].
    intros x Hx. apply C4. by rewrite Hperm.
  - intros j Hj. by rewrite H1.
  - intros a' l' Hin Hs. by right.
  - intros y Hy. destruct (decide (y = a)) as [->|Hne]; [done|].
    by rewrite lookup_insert_ne in Hy.
  - intros f Hf. by left.
  - apply HI.
  - intros f Hp [Hu|Hf]; [done|]. apply (hi_used _ _ _ HI). right. by exists i, g.
Qed.

Lemma dealloc_big_ok s gs L l a :
  heap_inv s gs ((a, l) :: L) → layout_ok l → 2048 < layout_size l →
  ∃ s', dealloc s a l = Ret s' ∧ heap_inv s' gs L.
Proof.
  intros HI Hl Hs. pose proof (n_frames_pos l Hs) as Hn.
  destruct (hi_big_addr _ _ _ HI a l) as (Ham & Hap & Hac); [by left|done|].
  unfold dealloc. rewrite (proj2 (Z.ltb_lt _ _)) by done.
  destruct (big_frames_arg l Hl) as [-> E]. rewrite bind_Ret, E, bind_Ret.
  change ((layout_size l + BYTES_PER_FRAME - 1) / BYTES_PER_FRAME) with (n_frames l).
  destruct HI as [I1 I2 I3 I4 I5 I6 I7 I8 I9 I10 I11].
  rewrite big_of_big in * by done. simpl in *.
  destruct (set_bits_ok (MEM s) (a / BYTES_PER_FRAME) (n_frames l) false)
    as (mem & Hm & Hb & Hsh & Hu); [apply I1|apply Z.div_pos; [lia|done]|lia|lia|].
  unfold free. rewrite Hm, bind_Ret. eexists. split; [done|].
  apply list.NoDup_app in I8 as (_ & Hdis & I8).
  pose proof (same_shape_capacity _ _ Hsh) as Hc. pose proof Hsh as [Hr _].
  split; simpl; rewrite ?Hr; try done.
  - by eauto with kernel.
  - intros j szj pgj gj Hj Hpj Hgj. erewrite <- live_of_big by done. by eapply I6.
  - intros a' l' Hin Hs'. rewrite Hc. apply I9; [by right|done].
  - intros j gj f Hgj Hf Hf2. eapply I10; [done..|]. apply elem_of_app. by right.
  - intros f Hor. destruct (I11 f) as [Hp Huf].
    { destruct Hor as [?|?]; [left; apply elem_of_app; by right|by right]. }
    split; [done|]. rewrite Hu by lia.
    destruct (in_blockP (a / BYTES_PER_FRAME) (n_frames l) f) as [Hbl|]; [|done]. exfalso.
    assert (f ∈ seqZ (a / BYTES_PER_FRAME) (n_frames l)) as Hfs by (apply elem_of_seqZ; lia).
    destruct Hor as [Hf|(j & gj & Hgj & Hf)]; [by eapply Hdis|].
    eapply I10; [done..|]. apply elem_of_app. by left.
Qed.

(** ** Histories of heap operations *)

Inductive hstep : Heap * list (Z * Layout) → Heap * list (Z * Layout) → Prop :=
  | hstep_alloc s L l s' a :
      layout_ok l → alloc s l = Ret (s', a) → a ≠ null →
      hstep (s, L) (s', (a, l) :: L)
  | hstep_alloc_null s L l s' :
      layout_ok l → alloc s l = Ret (s', null) → hstep (s, L) (s', L)
  | hstep_dealloc s L1 a l L2 s' :
      layout_ok l → dealloc s a l = Ret s' →
      hstep (s, L1 ++ (a, l) :: L2) (s', L1 ++ L2).

(** The layout sizes the heap serves: everything but exactly 2048 bytes. *)
Lemma class_of_cases l :
  0 ≤ layout_size l → 
  (∃ i, class_of l = Some i) ∨ layout_size l = 2048 ∨ 2048 < layout_size l.
Proof.
  intros Hs. destruct (Z.lt_ge_cases (layout_size l) 2048) as [Hlt|Hge]; [|right; lia].
  left. unfold class_of, find_block.
  destruct (list_find_elem_of (λ sz, layout_size l < sz) BLOCK_SZ 2048) as [[i sz] ->];
    [by apply (list_elem_of_lookup_2 _ 5)|done|by exists i].
Qed.

(** A request of exactly 2048 bytes is never served: it is too small for the
    page path and no class is strictly larger, so [alloc] returns null whatever is
    free, and giving such an object back panics. *)
Lemma alloc_2048_fails s align ptr :
  alloc s {| layout_size := 2048; layout_align := align |} = Ret (s, null) ∧
  dealloc s ptr {| layout_size := 2048; layout_align := align |} = Panic UnwrapNone.
Proof. done. Qed.

Lemma alloc_ok s gs L l :
  heap_inv s gs L → layout_ok l → n_frames l ≤ (available_range (MEM s)).2 →
  ∃ s' addr, alloc s l = Ret (s', addr) ∧ alloc_post s gs L l s' addr.
Proof.
  intros HI Hl Hn. destruct (class_of_cases l) as [[i Hc]|[H|H]]; [apply Hl|..].
  - by eapply alloc_small_ok.
  - exists s, null. split; [|left; by split_and!; [..|left]]. unfold alloc. by rewrite H.
  - by apply alloc_big_ok.
Qed.

(** Requests of at most a page fail only when no frame is left. *)
Lemma alloc_page_ok s gs L l :
  heap_inv s gs L → layout_ok l → n_frames l ≤ 1 → layout_size l ≠ 2048 →
  ∃ s' addr, alloc s l = Ret (s', addr) ∧
    ((addr = null ∧ s' = s ∧ n_free (MEM s) = 0%nat) ∨
     (addr ≠ null ∧ addr mod layout_align l = 0 ∧ (n_free (MEM s) ≤ S (n_free (MEM s')))%nat ∧
      ∃ gs', heap_inv s' gs' ((addr, l) :: L))).
Proof.
  intros HI Hl Hn Hne. destruct (alloc_ok s gs L l HI Hl) as (s' & a & E & HP); [pose proof (hi_hi _ _ _ HI); lia|].
  exists s', a. split; [done|]. destruct HP as [(-> & -> & Hu)|(Hnn & _ & Ha & Hf & HI')]; [left|right].
  - split_and!; [done..|]. destruct Hu as [Hu|[(_ & _ & Hu)|[Hb Hu]]]; [done|done|].
    pose proof (n_frames_pos l Hb). assert (n_frames l = 1) as E1 by lia. rewrite E1 in Hu. by apply blocked_none_free.
  - split_and!; [done|done|lia|done].
Qed.

Lemma alloc_oversized s l :
  layout_ok l → 2048 < layout_size l → (available_range (MEM s)).2 < n_frames l →
  alloc s l = Panic Overflow.
Proof.
  intros Hl Hs Hn. pose proof (align_le_frame l Hl). unfold alloc.
  rewrite (proj2 (Z.ltb_lt _ _) Hs), (proj2 (Z.ltb_ge _ _) H).
  destruct (big_frames_arg l Hl) as [-> E]. rewrite bind_Ret, E, bind_Ret.
  change ((layout_size l + BYTES_PER_FRAME - 1) / BYTES_PER_FRAME) with (n_frames l).
  by rewrite allocate_oversized.
Qed.

(** Whatever [alloc] returns satisfies its postcondition. *)
Lemma alloc_ret s gs L l s' a :
  heap_inv s gs L → layout_ok l → alloc s l = Ret (s', a) → alloc_post s gs L l s' a.
Proof.
  intros HI Hl Ha. destruct (Z.le_gt_cases (n_frames l) (available_range (MEM s)).2) as [Hle|Hgt].
  - destruct (alloc_ok s gs L l HI Hl Hle) as (s1 & a1 & E & HP). rewrite Ha in E. by simplify_eq.
  - destruct (Z.le_gt_cases (layout_size l) 2048) as [Hs|Hs].
    + exfalso. assert (n_frames l ≤ 1); [|pose proof (hi_hi _ _ _ HI); lia].
      unfold n_frames, BYTES_PER_FRAME, KB. apply Z.lt_succ_r, Z.div_lt_upper_bound; lia.
    + by rewrite alloc_oversized in Ha.
Qed.

Lemma alloc_nonnull_size s l s' a :
  layout_ok l → alloc s l = Ret (s', a) → a ≠ null → layout_size l ≠ 2048.
Proof.
  intros _ Ha Hn H. assert (alloc s l = Ret (s, null)) as E by (unfold alloc; by rewrite H).
  congruence.
Qed.

(** C12: every request with a valid layout whose size the bitmap can count returns
    (no panic, no endless walk of a free list). It returns null, with the heap as it was,
    exactly when the heap cannot serve the layout: no fitting object of its class is free
    and neither is a frame for another page, or no block of enough frames is free, or the
    size is 2048 bytes, which no class serves ([unserved]). Otherwise it returns a non-null
    pointer with the requested alignment that joins the live allocations under the
    invariant, and takes at most one page, or as many frames as the block has, from the
    free frames. *)
Theorem alloc_total s gs L l :
  heap_inv s gs L → layout_ok l → n_frames l ≤ (available_range (MEM s)).2 →
  ∃ s' addr, alloc s l = Ret (s', addr) ∧ alloc_post s gs L l s' addr.
Proof. apply alloc_ok. Qed.

(** What holds after any history that started with nothing allocated. *)
Definition history_inv (st : Heap * list (Z * Layout)) : Prop :=
  (∃ gs, heap_inv st.1 gs st.2) ∧
  Forall (λ al, layout_ok al.2 ∧ layout_size al.2 ≠ 2048 ∧ al.1 mod layout_align al.2 = 0) st.2.

Lemma dealloc_ok s gs L l a :
  heap_inv s gs ((a, l) :: L) → layout_ok l → layout_size l ≠ 2048 →
  ∃ s' gs', dealloc s a l = Ret s' ∧ heap_inv s' gs' L.
Proof.
  intros HI Hl Hn. destruct (class_of_cases l) as [[i Hc]|[H|H]]; [apply Hl|..].
  - destruct (dealloc_small_ok s gs L l i a HI Hc) as (s' & g & ? & _ & _ & ?). by exists s', (<[i := (a :: g.1, g.2)]> gs).
  - done.
  - destruct (dealloc_big_ok s gs L l a HI Hl H) as (s' & ? & ?). by exists s', gs.
Qed.

Lemma history_step st st' : hstep st st' → history_inv st → history_inv st'.
Proof.
  intros Hst [[gs HI] HL]. destruct Hst as [s L l s' a Hl Ha Hn|s L l s' Hl Ha|s L1 a l L2 s' Hl Hd];
    simpl in *.
  - destruct (alloc_ret s gs L l s' a HI Hl Ha) as [[? _]|(_ & _ & Hal & _ & gs' & HI')]; [done|].
    split; [by exists gs'|]. constructor; [|done]. split_and!; try done. by eapply alloc_nonnull_size.
  - destruct (alloc_ret s gs L l s' null HI Hl Ha) as [(_ & -> & _)|(? & _)]; [|done].
    split; [by exists gs|done].
  - apply Forall_app in HL as [HL1 [(_ & Hn & _) HL2]%list.Forall_cons].
    eapply (heap_inv_perm s gs _ ((a, l) :: L1 ++ L2)) in HI;
      [|symmetry; apply Permutation_middle].
    destruct (dealloc_ok s gs (L1 ++ L2) l a HI Hl Hn) as (s1 & gs' & E & HI').
    rewrite Hd in E. simplify_eq. split; [by exists gs'|by apply Forall_app].
Qed.

(** ** Live allocations never share a byte *)

Definition bytes_disjoint (x y : Z * Layout) : Prop :=
  x.1 + layout_size x.2 ≤ y.1 ∨ y.1 + layout_size y.2 ≤ x.1.

(** An object of a class lies inside one frame. *)
Lemma object_in_frame sz x :
  sz ∈ BLOCK_SZ → x mod sz = 0 →
  x / BYTES_PER_FRAME * BYTES_PER_FRAME ≤ x ∧
  x + sz ≤ (x / BYTES_PER_FRAME + 1) * BYTES_PER_FRAME.
Proof.
  intros Hsz Hx. apply block_size_divides in Hsz as [Hr Hd].
  assert (BYTES_PER_FRAME = 4096) as HB by done.
  pose proof (Z.div_mod x BYTES_PER_FRAME ltac:(lia)) as E1.
  pose proof (Z.mod_pos_bound x BYTES_PER_FRAME ltac:(lia)) as E2.
  apply Z.mod_divide in Hx as [q ->]; [|lia].
  set (f := q * sz / BYTES_PER_FRAME) in *. split; [lia|].
  set (k := BYTES_PER_FRAME / sz) in *.
  assert (q < (f + 1) * k) as Hq.
  { apply (Z.mul_lt_mono_pos_r sz); [lia|]. rewrite <- Z.mul_assoc, <- Hd. lia. }
  rewrite Hd, Z.mul_assoc. rewrite <- (Z.mul_succ_l q sz). apply Z.mul_le_mono_nonneg_r; lia.
Qed.

Lemma small_extent s gs L a l i :
  heap_inv s gs ((a, l) :: L) → class_of l = Some i →
  ∃ sz g, BLOCK_SZ !! i = Some sz ∧ gs !! i = Some g ∧ layout_size l < sz ∧ a mod sz = 0 ∧
    a / BYTES_PER_FRAME ∈ g.2 ∧ a ∉ live_of i L.
Proof.
  intros HI Hc. destruct (class_of_find l i Hc) as (sz & Hfb).
  apply find_block_class in Hfb as (Hi & Hsz & Hi6).
  destruct (class_lookup (pages s) i sz (hi_pages _ _ _ HI) Hi) as [pg Hpg].
  destruct (class_lookup gs i sz (hi_gs _ _ _ HI) Hi) as [g Hg].
  pose proof (hi_class _ _ _ HI i sz pg g Hi Hpg Hg) as [_ _ C3 C4].
  destruct (live_small_other i l L a Hc) as (_ & H2 & _). rewrite H2 in *.
  apply list.NoDup_app in C3 as (_ & _ & [Hni _]%NoDup_cons).
  destruct (C4 a) as (_ & Hm & Hf); [apply elem_of_app; right; by left|].
  exists sz, g. by split_and!.
Qed.

(** The frames of a large allocation. *)
Lemma big_extent s gs L a l f :
  heap_inv s gs L → (a, l) ∈ L → 2048 < layout_size l →
  a / BYTES_PER_FRAME ≤ f < a / BYTES_PER_FRAME + n_frames l → f ∈ frames (big_of L).
Proof.
  intros HI Hin Hs Hf. unfold frames. apply list_elem_of_In, in_flat_map.
  exists (a / BYTES_PER_FRAME, n_frames l). split; [|apply list_elem_of_In, elem_of_seqZ; simpl; lia].
  apply list_elem_of_In. unfold big_of. apply list_elem_of_fmap. exists (a, l). split; [done|].
  by apply list_elem_of_filter.
Qed.

Lemma big_bytes l : 2048 < layout_size l → layout_size l ≤ n_frames l * BYTES_PER_FRAME.
Proof.
  intros Hs. unfold n_frames. assert (BYTES_PER_FRAME = 4096) as HB by done. rewrite HB.
  pose proof (Z.div_mod (layout_size l + 4096 - 1) 4096 ltac:(lia)).
  pose proof (Z.mod_pos_bound (layout_size l + 4096 - 1) 4096 ltac:(lia)). lia.
Qed.

(** A small object and a large block: their frames differ, so that the whole block of the
    object's size class is out of the way. *)
Lemma small_big_apart s gs L a1 l1 i a2 l2 :
  heap_inv s gs ((a1, l1) :: L) → class_of l1 = Some i → (a2, l2) ∈ L → 2048 < layout_size l2 →
  ∃ sz, BLOCK_SZ !! i = Some sz ∧ layout_size l1 < sz ∧ (a1 + sz ≤ a2 ∨ a2 + layout_size l2 ≤ a1).
Proof.
  intros HI Hc Hin Hs. destruct (small_extent _ _ _ _ _ _ HI Hc) as (sz & g & Hi & Hg & Hsz & Hm & Hf & _).
  destruct (hi_big_addr _ _ _ HI a2 l2) as (Ha & _); [by right|done|].
  pose proof (big_bytes l2 Hs). assert (BYTES_PER_FRAME = 4096) as HB by done.
  destruct (object_in_frame sz a1) as [H1 H2]; [by eapply list_elem_of_lookup_2|done|].
  assert (a2 = a2 / BYTES_PER_FRAME * BYTES_PER_FRAME) as Ha2
    by (pose proof (Z.div_mod a2 BYTES_PER_FRAME ltac:(lia)); lia).
  assert (¬ a2 / BYTES_PER_FRAME ≤ a1 / BYTES_PER_FRAME < a2 / BYTES_PER_FRAME + n_frames l2) as Hout.
  { intros Hr. eapply (hi_big_disj _ _ _ HI i g); [done..|].
    eapply (big_extent _ _ _ a2 l2); [done|by right|done|lia]. }
  exists sz. split_and!; [done|lia|].
  destruct (Z.lt_ge_cases (a1 / BYTES_PER_FRAME) (a2 / BYTES_PER_FRAME)); [left|right]; nia.
Qed.

Lemma small_small_apart s gs L a1 l1 i a2 l2 j :
  heap_inv s gs ((a1, l1) :: (a2, l2) :: L) → class_of l1 = Some i → class_of l2 = Some j →
  ∃ sz sz', BLOCK_SZ !! i = Some sz ∧ layout_size l1 < sz ∧ BLOCK_SZ !! j = Some sz' ∧ layout_size l2 < sz' ∧
    (a1 + sz ≤ a2 ∨ a2 + sz' ≤ a1).
Proof.
  intros HI Hc1 Hc2.
  destruct (small_extent _ _ _ _ _ _ HI Hc1) as (sz & g & Hi & Hg & Hsz & Hm & Hf & Hni).
  assert (heap_inv s gs ((a2, l2) :: (a1, l1) :: L)) as HI2
    by (eapply heap_inv_perm; [apply perm_swap|done]).
  destruct (small_extent _ _ _ _ _ _ HI2 Hc2) as (sz' & g' & Hj & Hg' & Hsz' & Hm' & Hf' & _).
  assert (sz ∈ BLOCK_SZ) as Hin by (by eapply list_elem_of_lookup_2).
  assert (sz' ∈ BLOCK_SZ) as Hin' by (by eapply list_elem_of_lookup_2).
  destruct (object_in_frame sz a1 Hin Hm) as [H1 H2].
  destruct (object_in_frame sz' a2 Hin' Hm') as [H1' H2'].
  assert (BYTES_PER_FRAME = 4096) as HB by done. exists sz, sz'. split_and!; [done|lia|done|lia|].
  destruct (decide (i = j)) as [->|Hne].
  - assert (a1 ≠ a2) as Ha.
    { intros ->. apply Hni. rewrite live_of_cons, decide_True by done. by left. }
    simplify_eq. apply Z.mod_divide in Hm as [q1 ->], Hm' as [q2 ->];
      [|apply block_size_divides in Hin; lia..]. destruct (Z.lt_total q1 q2) as [|[->|]]; nia.
  - assert (a1 / BYTES_PER_FRAME ≠ a2 / BYTES_PER_FRAME) as Hd.
    { intros Heq. apply Hne. eapply (hi_disj _ _ _ HI i j g g'); [done..|by rewrite Heq]. }
    destruct (Z.lt_total (a1 / BYTES_PER_FRAME) (a2 / BYTES_PER_FRAME)) as [|[|]]; nia.
Qed.

Lemma big_big_disjoint s gs L a1 l1 a2 l2 :
  heap_inv s gs ((a1, l1) :: (a2, l2) :: L) → 2048 < layout_size l1 → 2048 < layout_size l2 →
  bytes_disjoint (a1, l1) (a2, l2).
Proof.
  intros HI Hs1 Hs2. pose proof (hi_big _ _ _ HI) as Hnd.
  rewrite big_of_big in Hnd by done. simpl in Hnd. apply list.NoDup_app in Hnd as (_ & Hdis & _).
  rewrite big_of_big in Hdis by done. simpl in Hdis.
  destruct (hi_big_addr _ _ _ HI a1 l1) as (Ha1 & _); [by left|done|].
  destruct (hi_big_addr _ _ _ HI a2 l2) as (Ha2 & _); [right; by left|done|].
  pose proof (big_bytes l1 Hs1). pose proof (big_bytes l2 Hs2).
  pose proof (n_frames_pos l1 Hs1). pose proof (n_frames_pos l2 Hs2).
  assert (BYTES_PER_FRAME = 4096) as HB by done.
  pose proof (Z.div_mod a1 BYTES_PER_FRAME ltac:(lia)). pose proof (Z.div_mod a2 BYTES_PER_FRAME ltac:(lia)).
  unfold bytes_disjoint; simpl.
  destruct (Z.le_gt_cases (a1 / BYTES_PER_FRAME + n_frames l1) (a2 / BYTES_PER_FRAME)); [left; nia|].
  destruct (Z.le_gt_cases (a2 / BYTES_PER_FRAME + n_frames l2) (a1 / BYTES_PER_FRAME)); [right; nia|].
  exfalso. apply (Hdis (Z.max (a1 / BYTES_PER_FRAME) (a2 / BYTES_PER_FRAME)));
    [apply elem_of_seqZ; lia|]. apply elem_of_app. left. apply elem_of_seqZ. lia.
Qed.

(** Two members of a list, brought to its front. *)
Lemma pick_two {A} (L : list A) i j x y :
  L !! i = Some x → L !! j = Some y → i ≠ j → ∃ L', L ≡ₚ x :: y :: L'.
Proof.
  intros Hx Hy Hne.
  assert (∀ i j x y, L !! i = Some x → L !! j = Some y → (i < j)%nat → ∃ L', L ≡ₚ x :: y :: L') as Hlt.
  { clear. intros i j x y Hx Hy Hij. exists (take i L ++ delete (j - S i)%nat (drop (S i) L)).
    rewrite <- (take_drop_middle L i x Hx) at 1. rewrite <- Permutation_middle. f_equiv.
    rewrite (delete_Permutation (drop (S i) L) (j - S i) y) at 1
      by (rewrite lookup_drop, Nat.add_comm, Nat.sub_add by lia; done).
    symmetry. apply Permutation_middle. }
  destruct (Nat.lt_ge_cases i j); [by eapply Hlt|].
  destruct (Hlt j i y x Hy Hx ltac:(lia)) as [L' HP]. exists L'. rewrite HP. apply perm_swap.
Qed.

(** The invariant keeps live allocations apart. *)
Lemma live_disjoint s gs L :
  heap_inv s gs L →
  Forall (λ al, layout_ok al.2 ∧ layout_size al.2 ≠ 2048 ∧ al.1 mod layout_align al.2 = 0) L →
  ∀ i j x y, L !! i = Some x → L !! j = Some y → i ≠ j → bytes_disjoint x y.
Proof.
  intros HI HL i j [a1 l1] [a2 l2] Hx Hy Hij. destruct (pick_two L i j _ _ Hx Hy Hij) as [L' HP].
  apply (heap_inv_perm _ _ _ _ HP) in HI. rewrite HP in HL.
  apply list.Forall_cons in HL as [(O1 & N1 & _) [(O2 & N2 & _) _]%list.Forall_cons].
  simpl in *.
  destruct (class_of_cases l1) as [[c1 C1]|[?|B1]]; [apply O1| |done|];
    (destruct (class_of_cases l2) as [[c2 C2]|[?|B2]]; [apply O2| |done|]).
  - destruct (small_small_apart _ _ _ _ _ _ _ _ _ HI C1 C2) as (sz & sz' & _ & ? & _ & ? & ?). unfold bytes_disjoint; simpl; lia.
  - destruct (small_big_apart _ _ _ _ _ _ a2 l2 HI C1) as (sz & _ & ? & ?); [by left|done|]. unfold bytes_disjoint; simpl; lia.
  - assert (heap_inv s gs ((a2, l2) :: (a1, l1) :: L')) as HI2
      by (eapply heap_inv_perm; [apply perm_swap|done]).
    destruct (small_big_apart _ _ _ _ _ _ a1 l1 HI2 C2) as (sz & _ & ? & ?); [by left|done|]. unfold bytes_disjoint; simpl; lia.
  - by eapply big_big_disjoint.
Qed.

Lemma history_ok s0 gs0 st :
  heap_inv s0 gs0 [] → rtc hstep (s0, []) st → history_inv st.
Proof.
  intros HI0 Hrtc. eapply (rtc_ind_r history_inv (s0, [])); [by split; [exists gs0|]| |exact Hrtc].
  intros st1 st2 _ Hst Hi. by eapply history_step.
Qed.

(** C3: no two live allocations overlap. After any history of allocations and
    deallocations (each object given back once, with the layout it was requested
    with) the byte ranges of all live allocations are pairwise disjoint and every
    pointer has the alignment it was requested with. *)
Theorem live_allocations_disjoint s0 gs0 s L :
  heap_inv s0 gs0 [] → rtc hstep (s0, []) (s, L) →
  Forall (λ al : Z * Layout, al.1 mod layout_align al.2 = 0) L ∧
  ∀ i j x y, L !! i = Some x → L !! j = Some y → i ≠ j → bytes_disjoint x y.
Proof.
  intros HI0 Hrtc. destruct (history_ok s0 gs0 (s, L) HI0 Hrtc) as [[gs HI] HL].
  simpl in *. split; [eapply Forall_impl; [exact HL|]; simpl; naive_solver|by eapply live_disjoint].
Qed.

(** ** Construction *)

Lemma lookup_snoc_cases {A} (l : list A) x i y :
  (l ++ [x]) !! i = Some y → l !! i = Some y ∨ (i = length l ∧ y = x).
Proof.
  intros H. destruct (decide (i < length l)%nat).
  - left. by rewrite lookup_app_l in H.
  - right. rewrite lookup_app_r in H by lia. apply list_lookup_singleton_Some in H as [? ->].
    split; [lia|done].
Qed.

(** A class that has just been given its first page. *)
Lemma class_ok_page h pg sz p :
  sz ∈ BLOCK_SZ → 0 < p → obj_sz pg = sz →
  is_list h (head (free_list pg)) (page_objs (p * BYTES_PER_FRAME) sz 1) →
  class_ok h pg sz (page_objs (p * BYTES_PER_FRAME) sz 1) [p] [].
Proof.
  intros Hsz Hp Ho Hl. split; rewrite ?app_nil_r; try done.
  - apply NoDup_objs. apply block_size_divides in Hsz. lia.
  - intros x Hx. destruct (page_objs_place p sz 1 x) as (? & ? & ->); [done|lia|done|done|].
    split_and!; try done. by left.
Qed.

(** Setting up the page of one class leaves the others alone. *)
Lemma class_ok_elsewhere h h' pg szi fr fs live sz p :
  sz ∈ BLOCK_SZ → 0 < p → p ∉ fs →
  (∀ y, y ∉ page_objs (p * BYTES_PER_FRAME) sz 1 → h' !! y = h !! y) →
  class_ok h pg szi fr fs live → class_ok h' pg szi fr fs live.
Proof.
  intros Hsz Hp Hf Hfr [C1 C2 C3 C4]. split; try done. eapply is_list_frame; [|done].
  intros x Hx. apply Hfr. intros Hin. apply page_objs_place in Hin as (_ & _ & Hin); [|done|lia|done].
  apply Hf. rewrite <- Hin. apply C4, elem_of_app. by left.
Qed.

(** Every class has its first page, and nothing of it is in use. *)
Definition fresh (gs : list cls) : Prop :=
  ∀ i sz g, BLOCK_SZ !! i = Some sz → gs !! i = Some g →
    ∃ p, 0 < p ∧ g = (page_objs (p * BYTES_PER_FRAME) sz 1, [p]).

Lemma new_step_ok n s gs sz :
  @heap_upto n s gs [] → fresh gs → BLOCK_SZ !! n = Some sz →
  match n_free (MEM s) with
  | O => new_step s sz = Panic UnwrapNone
  | S k => ∃ s' gs', new_step s sz = Ret s' ∧ @heap_upto (S n) s' gs' [] ∧ fresh gs' ∧ n_free (MEM s') = k
  end.
Proof.
  intros [I1 I2 I3 I4 I5 I6 I7 I8 I9 I10 I11] Hfs Hn. unfold new_step.
  destruct (allocate_one (MEM s)) as (mem & r & -> & HP & Hfree1); [done|lia|].
  rewrite bind_Ret. unfold allocate_post in HP.
  destruct (available_range (MEM s)) as [lo hi] eqn:Hr; simpl in I2, I3.
  destruct r as [p|]; [rewrite Hfree1|by destruct Hfree1 as [_ ->]]. simpl unwrap. rewrite bind_Ret.
  destruct HP as (Hp & Hfree & Hwf & Hsh & Hu & _). pose proof Hsh as [Hr' _].
  assert (BYTES_PER_FRAME = 4096) as HB by done.
  assert (sz ∈ BLOCK_SZ) as Hsz by (by eapply list_elem_of_lookup_2).
  rewrite usize_mul_ok, bind_Ret by lia.
  destruct (PageHeader_new_at_ok (objects s) (p * BYTES_PER_FRAME) sz)
    as (h' & pg & -> & Hpsz & Hl & Hfr); [done|lia..|].
  rewrite bind_Ret. assert (∀ f, (∃ i g, gs !! i = Some g ∧ f ∈ g.2) → f ≠ p) as Hnp.
  { intros f Hf ->. destruct (I11 p) as [_ Hup]; [by right|].
    rewrite Hfree in Hup by lia. done. }
  eexists _, (gs ++ [(page_objs (p * BYTES_PER_FRAME) sz 1, [p])]). split; [done|]. split; [|split; [|done]].
  2:{ intros i szi g Hi [Hg|[-> ->]]%lookup_snoc_cases; [by eapply Hfs|]. rewrite I5 in Hi. simplify_eq.
      exists p. split; [lia|done]. }
  split; simpl; rewrite ?Hr', ?Hr; try done.
  - rewrite length_app. simpl. lia.
  - rewrite length_app. simpl. lia.
  - intros i szi pgi gi Hi Hpi Hgi. change (live_of i []) with (@nil Z).
    apply lookup_snoc_cases in Hgi as [Hgi|[-> ->]].
    + assert (i < length gs)%nat by (by apply lookup_lt_Some in Hgi).
      rewrite lookup_app_l in Hpi by lia.
      eapply (class_ok_elsewhere (objects s) _ _ _ _ _ _ sz p); [done|lia| |done|by eapply I6].
      intros Hin. eapply (Hnp p); [|done]. by exists i, gi.
    + rewrite I5 in Hi, Hpi. rewrite lookup_app_r, I4, Nat.sub_diag in Hpi by lia.
      simpl in Hpi. simplify_eq. by apply class_ok_page; [|lia|..].
  - intros i j gi gj f [Hi|[-> ->]]%lookup_snoc_cases [Hj|[-> ->]]%lookup_snoc_cases Hf1 Hf2;
      simpl in *; try done.
    + by eapply I7.
    + apply list_elem_of_singleton in Hf2. exfalso. eapply (Hnp f); eauto.
    + apply list_elem_of_singleton in Hf1. exfalso. eapply (Hnp f); eauto.
  - intros a l Hin. by apply not_elem_of_nil in Hin.
  - intros i g f _ _ Hf. by apply not_elem_of_nil in Hf.
  - intros f [Hf|(i & g & [Hg|[-> ->]]%lookup_snoc_cases & Hf)].
    + by apply not_elem_of_nil in Hf.
    + destruct (I11 f) as [? Huf]; [right; by exists i, g|]. split; [done|].
      rewrite Hu, Huf by lia. apply orb_true_r.
    + apply list_elem_of_singleton in Hf as ->. split; [lia|]. rewrite Hu by lia.
      by destruct (in_blockP p 1 p); [|lia].
Qed.

Lemma new_loop_ok bs n s gs :
  @heap_upto n s gs [] → fresh gs → drop n BLOCK_SZ = bs →
  if (length bs <=? n_free (MEM s))%nat
  then ∃ s' gs', foldM new_step bs s = Ret s' ∧ @heap_upto (n + length bs)%nat s' gs' [] ∧ fresh gs'
  else foldM new_step bs s = Panic UnwrapNone.
Proof.
  revert n s gs. induction bs as [|sz bs IH]; intros n s gs HI Hf Hd; cbn [foldM length].
  { exists s, gs. by rewrite Nat.add_0_r. }
  assert (BLOCK_SZ !! n = Some sz) as Hn.
  { rewrite <- (Nat.add_0_r n), <- lookup_drop, Hd. done. }
  pose proof (new_step_ok n s gs sz HI Hf Hn) as Hstep. destruct (n_free (MEM s)) as [|k]; [by rewrite Hstep|].
  destruct Hstep as (s' & gs' & -> & HI' & Hf' & <-). rewrite bind_Ret.
  replace (n + S (length bs))%nat with (S n + length bs)%nat by lia.
  apply (IH (S n) s' gs' HI' Hf'). rewrite (drop_S _ sz n Hn) in Hd. congruence.
Qed.

(** Building the heap on a well-formed frame map takes one frame per size class and
    establishes the heap invariant with nothing allocated, if there are six frames;
    otherwise the [unwrap] of a refused request panics. *)
Lemma ObjectAllocator_new_ok mem h :
  wf mem → 1 ≤ (available_range mem).1 → 1 ≤ (available_range mem).2 < 2 ^ 51 →
  if (6 <=? n_free mem)%nat
  then ∃ s gs, ObjectAllocator_new mem h = Ret s ∧ heap_inv s gs [] ∧ fresh gs
  else ObjectAllocator_new mem h = Panic UnwrapNone.
Proof.
  intros Hwf Hlo Hhi. apply (new_loop_ok BLOCK_SZ 0 {| MEM := mem; objects := h; pages := [] |} []); [|done|done].
  split; simpl; try done.
  - constructor.
  - intros a l Hin. by apply not_elem_of_nil in Hin.
  - intros f [Hf|(i & g & Hg & _)]; [by apply not_elem_of_nil in Hf|done].
Qed.

(** ** A concrete heap: sixteen frames, frame 0 reserved *)
Definition demo_frames : BitMapMemoryManager :=
  {| alloc_map := [1; 0]; available_range := (1, 16) |}.

Lemma demo_frames_wf : wf demo_frames.
Proof. repeat constructor; vm_compute; done. Qed.

Definition demo_heap : Heap :=
  match ObjectAllocator_new demo_frames ∅ with
  | Ret s => s
  | _ => {| MEM := demo_frames; objects := ∅; pages := [] |}
  end.

Lemma demo_heap_ret : ObjectAllocator_new demo_frames ∅ = Ret demo_heap.
Proof. vm_compute. reflexivity. Qed.

Lemma demo_heap_inv : ∃ gs, heap_inv demo_heap gs [].
Proof.
  pose proof (ObjectAllocator_new_ok demo_frames ∅ demo_frames_wf ltac:(vm_compute; done) ltac:(vm_compute; done)) as H.
  change (6 <=? n_free demo_frames)%nat with true in H. destruct H as (s & gs & H & HI & _).
  rewrite demo_heap_ret in H. apply Ret_inj in H as <-. by exists gs.
Qed.

Definition demo_layout : Layout := {| layout_size := 100; layout_align := 64 |}.

Lemma demo_layout_ok : layout_ok demo_layout.
Proof. repeat split; try done. by exists 64. Qed.

Lemma demo_range : (available_range (MEM demo_heap)).2 = 16.
Proof. vm_compute. reflexivity. Qed.

(** Fourteen frames, six of them taken by the classes. *)
Lemma demo_heap_frames : n_free demo_frames = 14%nat ∧ n_free (MEM demo_heap) = 8%nat.
Proof. vm_compute. done. Qed.

Lemma alloc_total_witness :
  ∃ s' addr, alloc demo_heap demo_layout = Ret (s', addr) ∧ addr ≠ null ∧ addr mod 64 = 0.
Proof.
  destruct demo_heap_inv as [gs HI]. pose proof demo_heap_frames as [_ Hn].
  destruct (alloc_total demo_heap gs [] demo_layout HI demo_layout_ok) as (s' & addr & E & [(_ & _ & Hu)|(H & _ & Ha & _)]).
  - rewrite demo_range. vm_compute. done.
  - exfalso. destruct Hu as [Hu|[(_ & _ & Hu)|[Hu _]]]; [discriminate Hu|congruence|vm_compute in Hu; discriminate Hu].
  - exists s', addr. split; [exact E|]. split; [exact H|exact Ha].
Defined.

(** Two requests of 100 bytes in a row. *)
Definition demo_after (n : nat) : Heap * list (Z * Layout) :=
  Nat.iter n (λ st, match alloc st.1 demo_layout with
                    | Ret (s, a) => (s, (a, demo_layout) :: st.2) | _ => st end)
    (demo_heap, []).

Lemma demo_after_step :
  alloc demo_heap demo_layout = Ret ((demo_after 1).1, 8320) ∧
  alloc (demo_after 1).1 demo_layout = Ret ((demo_after 2).1, 8448).
Proof. vm_compute. done. Qed.

Lemma live_allocations_disjoint_witness :
  bytes_disjoint (8448, demo_layout) (8320, demo_layout).
Proof.
  destruct demo_heap_inv as [gs HI]. destruct demo_after_step as [E1 E2].
  destruct (live_allocations_disjoint demo_heap gs (demo_after 2).1
    [(8448, demo_layout); (8320, demo_layout)] HI) as [_ H].
  - eapply rtc_l; [by apply (hstep_alloc _ _ demo_layout _ 8320 demo_layout_ok E1)|].
    eapply rtc_l; [by apply (hstep_alloc _ _ demo_layout _ 8448 demo_layout_ok E2)|]. reflexivity.
  - by apply (H 0%nat 1%nat).
Defined.
