(* ===== verification/Events.v ===== *)
(** main.rs, MessageQueue: the fixed-size ring buffer that carries messages from the
    interrupt handlers to the main loop, and the interface ([EventSink]) its clients
    are verified against. *)

From S2P Require Import Prelude.

Inductive Message :=
  | Xhci
  | TimerTimeout (value : Z).

#[export] Instance Message_eq_dec : EqDecision Message.
Proof. solve_decision. Defined.

Record MessageQueue := {
  data : list Message;
  read_pos : Z;
  write_pos : Z;
  cnt : Z;
}.

(** [MessageQueue::<N>::new] *)
Definition new (N : nat) : MessageQueue :=
  {| data := replicate N Xhci; read_pos := 0; write_pos := 0; cnt := 0 |}.

(** [Ok(())] is [true], [Err(())] is [false]. *)
Definition push (q : MessageQueue) (msg : Message) : outcome (MessageQueue * bool) :=
  if cnt q =? zlen (data q) then Ret (q, false)
  else
    cnt' ← usize_add (cnt q) 1;
    data' ← vset (data q) (write_pos q) msg;
    w ← usize_add (write_pos q) 1;
    Ret ({| data := data'; read_pos := read_pos q;
            write_pos := w mod zlen data'; cnt := cnt' |}, true).

Definition pop (q : MessageQueue) : outcome (MessageQueue * option Message) :=
  if cnt q =? 0 then Ret (q, None)
  else
    cnt' ← usize_sub (cnt q) 1;
    msg ← vget (data q) (read_pos q);
    r ← usize_add (read_pos q) 1;
    Ret ({| data := data q; read_pos := r mod zlen (data q);
            write_pos := write_pos q; cnt := cnt' |}, Some msg).

(** ** Abstraction to a bounded FIFO *)

Record queue_ok (q : MessageQueue) : Prop := {
  qo_size : zlen (data q) < 2 ^ 63;
  qo_read : 0 ≤ read_pos q < zlen (data q);
  qo_cnt : 0 ≤ cnt q ≤ zlen (data q);
  qo_write : write_pos q = (read_pos q + cnt q) mod zlen (data q);
}.

(** The slot of the [k]-th queued message. *)
Definition slot (q : MessageQueue) (k : nat) : nat :=
  Z.to_nat ((read_pos q + Z.of_nat k) mod zlen (data q)).

Definition contents (q : MessageQueue) : list Message :=
  omap (λ k, data q !! slot q k) (seq 0 (Z.to_nat (cnt q))).

Lemma slot_lt q k : queue_ok q → (slot q k < length (data q))%nat.
Proof.
  intros [_ Hr _ _]. unfold slot.
  pose proof (Z.mod_pos_bound (read_pos q + Z.of_nat k) (zlen (data q))). lia.
Qed.

(** Lookup in an [omap] whose function never fails. *)
Lemma omap_lookup_total {A B} (f : A → option B) (l : list A) i :
  (∀ x, x ∈ l → is_Some (f x)) → omap f l !! i = l !! i ≫= f.
Proof.
  revert i; induction l as [|x l IH]; intros i Hl; [done|]. simpl.
  destruct (Hl x) as [y Hy]; [by left|]. rewrite Hy.
  destruct i as [|i]; simpl; [done|]. apply IH. intros z Hz. apply Hl. by right.
Qed.

Lemma contents_lookup q i :
  queue_ok q →
  contents q !! i = if decide (Z.of_nat i < cnt q) then data q !! slot q i else None.
Proof.
  intros Hq. unfold contents. rewrite omap_lookup_total.
  - case_decide.
    + by rewrite lookup_seq_lt by lia.
    + by rewrite lookup_ge_None_2 by (rewrite length_seq; lia).
  - intros k _. apply lookup_lt_is_Some. by apply slot_lt.
Qed.

Lemma contents_length q : queue_ok q → zlen (contents q) = cnt q.
Proof.
  intros Hq. pose proof (qo_cnt q Hq).
  enough (length (contents q) = Z.to_nat (cnt q)) by lia.
  apply Nat.le_antisymm.
  - apply Nat.le_ngt. intros Hlt.
    apply (lookup_lt_is_Some_2 (contents q)) in Hlt as [x Hx].
    rewrite contents_lookup in Hx by done. case_decide; [lia|done].
  - apply Nat.le_ngt. intros Hlt.
    assert (contents q !! length (contents q) = None) as Hn by (by apply lookup_ge_None_2).
    rewrite contents_lookup in Hn by done. case_decide; [|lia].
    apply lookup_ge_None_1 in Hn. pose proof (slot_lt q (length (contents q)) Hq). lia.
Qed.

(** Two slots of a window no longer than the array coincide only if equal. *)
Lemma mod_window r n i j :
  0 < n → 0 ≤ i < n → 0 ≤ j < n → (r + i) mod n = (r + j) mod n → i = j.
Proof.
  intros Hn Hi Hj H.
  pose proof (Z.div_mod (r + i) n ltac:(lia)). pose proof (Z.div_mod (r + j) n ltac:(lia)).
  assert (i - j = n * ((r + i) / n - (r + j) / n)) by lia.
  assert ((r + i) / n = (r + j) / n) by nia. lia.
Qed.

Lemma push_ok q m :
  queue_ok q → cnt q < zlen (data q) →
  ∃ q', push q m = Ret (q', true) ∧ queue_ok q' ∧ contents q' = contents q ++ [m] ∧
    length (data q') = length (data q).
Proof.
  intros Hq' Hc. pose proof Hq' as [Hs Hr Hcnt Hw].
  pose proof (Z.mod_pos_bound (read_pos q + cnt q) (zlen (data q)) ltac:(lia)) as Hwb.
  unfold push. rewrite (proj2 (Z.eqb_neq _ _)) by lia.
  rewrite (usize_add_ok (cnt q)), bind_Ret by lia. rewrite vset_ok, bind_Ret by lia.
  rewrite usize_add_ok, bind_Ret by lia. rewrite length_insert. eexists. split; [done|].
  assert (queue_ok {| data := <[Z.to_nat (write_pos q):=m]> (data q); read_pos := read_pos q;
    write_pos := (write_pos q + 1) mod zlen (data q); cnt := cnt q + 1 |}) as Hq2.
  { split; simpl; rewrite ?length_insert; try lia.
    rewrite Hw, Zplus_mod_idemp_l. f_equal. lia. }
  split; [done|]. split; [|apply length_insert].
  apply list_eq. intros i. rewrite contents_lookup by done. simpl.
  unfold slot; simpl. rewrite length_insert.
  destruct (decide (i < length (contents q))%nat) as [Hi|Hi].
  - rewrite lookup_app_l by done. rewrite contents_lookup by done.
    pose proof (contents_length q Hq') as Hlen.
    rewrite !decide_True by lia. unfold slot. rewrite list_lookup_insert_ne; [done|].
    intros Heq. apply Z2Nat.inj in Heq; [|lia|apply Z.mod_pos_bound; lia].
    rewrite Hw in Heq. apply mod_window in Heq; lia.
  - pose proof (contents_length q Hq') as Hlen. rewrite lookup_app_r by lia.
    destruct (decide (Z.of_nat i < cnt q + 1)).
    + replace i with (length (contents q)) by lia. rewrite Nat.sub_diag, Hlen, <- Hw. simpl.
      apply list_lookup_insert_eq. lia.
    + symmetry. apply lookup_ge_None_2. simpl. lia.
Qed.

Lemma push_full q m : cnt q = zlen (data q) → push q m = Ret (q, false).
Proof. intros H. unfold push. by rewrite H, Z.eqb_refl. Qed.

Lemma pop_ok q :
  queue_ok q → 0 < cnt q →
  ∃ q' m, pop q = Ret (q', Some m) ∧ queue_ok q' ∧ contents q = m :: contents q' ∧
    length (data q') = length (data q).
Proof.
  intros Hq Hc. pose proof Hq as [Hs Hr Hcnt Hw].
  unfold pop. rewrite (proj2 (Z.eqb_neq _ _)) by lia.
  rewrite usize_sub_ok, bind_Ret by lia.
  destruct (vget_range (data q) (read_pos q)) as (m & -> & Hm); [lia|].
  rewrite bind_Ret, usize_add_ok, bind_Ret by lia. eexists _, m. split; [done|].
  assert (queue_ok {| data := data q; read_pos := (read_pos q + 1) mod zlen (data q);
    write_pos := write_pos q; cnt := cnt q - 1 |}) as Hq2.
  { split; simpl; try lia; [apply Z.mod_pos_bound; lia|].
    rewrite Hw, Zplus_mod_idemp_l. f_equal. lia. }
  split; [done|]. split; [|done].
  apply list_eq. intros [|i]; rewrite contents_lookup by done.
  - rewrite decide_True by lia. unfold slot. by rewrite Z.add_0_r, Z.mod_small.
  - simpl. rewrite contents_lookup by done. simpl. unfold slot; simpl.
    rewrite Zplus_mod_idemp_l.
    replace (read_pos q + Z.of_nat (S i)) with (read_pos q + 1 + Z.of_nat i) by lia.
    destruct (decide (Z.of_nat (S i) < cnt q)), (decide (Z.of_nat i < cnt q - 1)); done || lia.
Qed.

Lemma pop_empty q : cnt q = 0 → pop q = Ret (q, None).
Proof. intros H. unfold pop. by rewrite H. Qed.

(** ** Refinement: any sequence of operations *)

Inductive op := Push (m : Message) | Pop.
Inductive reply := Pushed (ok : bool) | Popped (m : option Message).

Definition run_op (q : MessageQueue) (o : op) : outcome (MessageQueue * reply) :=
  match o with
  | Push m => '(q', b) ← push q m; Ret (q', Pushed b)
  | Pop => '(q', r) ← pop q; Ret (q', Popped r)
  end.

Fixpoint run (q : MessageQueue) (os : list op) : outcome (MessageQueue * list reply) :=
  match os with
  | [] => Ret (q, [])
  | o :: os => '(q', r) ← run_op q o; '(q'', rs) ← run q' os; Ret (q'', r :: rs)
  end.

(** The specification: a FIFO of at most [N] messages that refuses when full. *)
Definition spec_op (N : nat) (l : list Message) (o : op) : list Message * reply :=
  match o with
  | Push m => if decide (length l < N)%nat then (l ++ [m], Pushed true) else (l, Pushed false)
  | Pop => match l with [] => ([], Popped None) | m :: l => (l, Popped (Some m)) end
  end.

Fixpoint spec_run (N : nat) (l : list Message) (os : list op) : list Message * list reply :=
  match os with
  | [] => (l, [])
  | o :: os => let '(l', r) := spec_op N l o in
               let '(l'', rs) := spec_run N l' os in (l'', r :: rs)
  end.

Lemma run_op_refines q o :
  queue_ok q → ∃ q', run_op q o = Ret (q', (spec_op (length (data q)) (contents q) o).2) ∧
    queue_ok q' ∧ contents q' = (spec_op (length (data q)) (contents q) o).1 ∧
    length (data q') = length (data q).
Proof.
  intros Hq. pose proof (contents_length q Hq) as Hl. pose proof (qo_cnt q Hq) as Hc.
  destruct o as [m|]; simpl.
  - case_decide.
    + destruct (push_ok q m Hq) as (q' & -> & ? & ? & ?); [lia|]. by exists q'.
    + rewrite push_full by lia. by exists q.
  - destruct (contents q) as [|m l] eqn:E.
    + rewrite pop_empty by (simpl in Hl; lia). by exists q.
    + destruct (pop_ok q Hq) as (q' & m' & -> & ? & E' & ?); [simpl in Hl; lia|].
      rewrite E in E'. simplify_eq. by exists q'.
Qed.

Lemma new_ok N : (0 < N)%nat → Z.of_nat N < 2 ^ 63 → queue_ok (new N).
Proof.
  intros HN Hb. split; cbn [data new read_pos write_pos cnt]; rewrite ?length_replicate; try lia.
  by rewrite Z.mod_0_l by lia.
Qed.

(** C7: the ring buffer refines a bounded FIFO. From a new queue of any size [N] >
    0, every sequence of pushes and pops runs without a panic and answers exactly
    like a list of at most [N] messages: push appends, or reports an error when [N]
    messages are queued; pop takes the oldest. *)
Theorem queue_refines_fifo (N : nat) (os : list op) :
  (0 < N)%nat → Z.of_nat N < 2 ^ 63 →
  ∃ q', run (new N) os = Ret (q', (spec_run N [] os).2) ∧ contents q' = (spec_run N [] os).1.
Proof.
  intros HN Hb.
  enough (∀ q, queue_ok q → length (data q) = N → ∃ q', run q os =
    Ret (q', (spec_run N (contents q) os).2) ∧ contents q' = (spec_run N (contents q) os).1) as H.
  { apply (H (new N)); [by apply new_ok|apply length_replicate]. }
  induction os as [|o os IH]; intros q Hq Hlen; simpl; [by exists q|].
  destruct (run_op_refines q o Hq) as (q1 & -> & Hq1 & E1 & Hlen1). rewrite bind_Ret.
  rewrite Hlen in *. destruct (IH q1 Hq1 Hlen1) as (q2 & -> & E2). rewrite bind_Ret.
  rewrite E1 in *. destruct (spec_op N (contents q) o) as [l r]; simpl in *.
  destruct (spec_run N l os) as [l' rs]. by exists q2.
Qed.

Lemma queue_refines_fifo_witness :
  ∃ q', run (new 2) [Push Xhci; Push (TimerTimeout 1); Push Xhci; Pop; Push (TimerTimeout 2)] =
    Ret (q', [Pushed true; Pushed true; Pushed false; Popped (Some Xhci); Pushed true]) ∧
    contents q' = [TimerTimeout 1; TimerTimeout 2].
Proof. apply (queue_refines_fifo 2); [lia|vm_compute; done]. Defined.

(** ** Interface towards the interrupt side

    What a producer of messages relies on: pushing appends while there is room and
    otherwise changes nothing. *)
Class EventSink (Q : Type) := {
  sink_push : Q → Message → outcome (Q * bool);
  sink_ok : Q → Prop;
  sink_contents : Q → list Message;
  sink_capacity : Q → nat;
  sink_push_spec : ∀ q m, sink_ok q → ∃ q' b,
    sink_push q m = Ret (q', b) ∧ sink_ok q' ∧ sink_capacity q' = sink_capacity q ∧
    sink_contents q' = take (sink_capacity q) (sink_contents q ++ [m]);
  sink_bounded : ∀ q, sink_ok q → (length (sink_contents q) ≤ sink_capacity q)%nat;
}.

Lemma push_sink q m :
  queue_ok q → ∃ q' b, push q m = Ret (q', b) ∧ queue_ok q' ∧
    length (data q') = length (data q) ∧
    contents q' = take (length (data q)) (contents q ++ [m]).
Proof.
  intros Hq. pose proof (contents_length q Hq) as Hl. pose proof (qo_cnt q Hq) as Hc.
  destruct (Z.lt_ge_cases (cnt q) (zlen (data q))) as [Hlt|Hge].
  - destruct (push_ok q m Hq Hlt) as (q' & -> & ? & E & ?). exists q', true. split_and!; try done.
    rewrite E, take_ge; [done|]. rewrite length_app. simpl. lia.
  - rewrite push_full by lia. exists q, false. split_and!; try done.
    rewrite take_app_le, take_ge by lia. done.
Qed.

#[export] Program Instance MessageQueue_sink : EventSink MessageQueue := {|
  sink_push := push;
  sink_ok := queue_ok;
  sink_contents := contents;
  sink_capacity q := length (data q);
|}.
Next Obligation. intros q m Hq. apply push_sink, Hq. Qed.
Next Obligation.
  intros q Hq. pose proof (contents_length q Hq). pose proof (qo_cnt q Hq). simpl. lia.
Qed.
