(* ===== verification/Timer.v ===== *)
(** timer.rs: the timer manager driven by the local APIC interrupt. Timers wait in a
    [BinaryHeap]; the manager is verified against the heap's documented contract
    ([MaxHeap]) and against the [EventSink] interface of the message queue. *)

From stdpp Require Import sorting.
From S2P Require Import Prelude Events.

#[local] Open Scope Z_scope.

Definition TIMER_FREQ : Z := 100.
Definition TASK_TIMER_VALUE : Z := 0.
Definition TASK_TIMER_PERIOD : Z := TIMER_FREQ / 50.

Lemma task_period_2 : TASK_TIMER_PERIOD = 2.
Proof. done. Qed.

Record Timer := { timeout : Z; value : Z }.

#[export] Instance Timer_eq_dec : EqDecision Timer.
Proof. solve_decision. Defined.

Definition is_over (t : Timer) (current_time : Z) : bool := timeout t <? current_time.

(** [Ord::cmp]: the order of timeouts, reversed. *)
Definition cmp (self other : Timer) : comparison := timeout other ?= timeout self.

(** [self <= other] in that order. *)
Definition timer_le (self other : Timer) : Prop := cmp self other ≠ Gt.

Lemma timer_le_timeout s o : timer_le s o ↔ timeout o ≤ timeout s.
Proof. unfold timer_le, cmp. by rewrite Z.compare_le_iff. Qed.

(** [alloc::collections::BinaryHeap]: [peek] shows a greatest element, [pop] removes
    it, [push] adds one; nothing is promised about the rest of the layout. *)
Class MaxHeap (H : Type) := {
  heap_new : H;
  heap_push : H → Timer → H;
  heap_peek : H → option Timer;
  heap_pop : H → option (Timer * H);
  heap_elems : H → list Timer;
  heap_new_spec : heap_elems heap_new = [];
  heap_push_spec : ∀ h t, heap_elems (heap_push h t) ≡ₚ t :: heap_elems h;
  heap_peek_none : ∀ h, heap_peek h = None ↔ heap_elems h = [];
  heap_peek_max : ∀ h t, heap_peek h = Some t →
    t ∈ heap_elems h ∧ ∀ u, u ∈ heap_elems h → timer_le u t;
  heap_pop_spec : ∀ h t, heap_peek h = Some t →
    ∃ h', heap_pop h = Some (t, h') ∧ heap_elems h ≡ₚ t :: heap_elems h';
}.

Record TimerManager {H : Type} := { tick : Z; timers : H }.
Arguments TimerManager : clear implicits.

Section manager.
Context {H : Type} `{!MaxHeap H} {Q : Type} `{!EventSink Q}.

Definition TimerManager_new : TimerManager H := {| tick := 0; timers := heap_new |}.

Definition add_timer (m : TimerManager H) (to v : Z) : TimerManager H :=
  {| tick := tick m; timers := heap_push (timers m) {| timeout := to; value := v |} |}.

Definition inc_tick_volatile (m : TimerManager H) (elapsed : Z) : outcome (TimerManager H) :=
  t ← usize_add (tick m) elapsed;
  Ret {| tick := t; timers := timers m |}.

(** One pass of the [while] of [tick]. *)
Definition tick_body (st : TimerManager H * Q * bool)
    : outcome (TimerManager H * Q * bool + TimerManager H * Q * bool) :=
  let '(m, events, task_timer_timeout) := st in
  match heap_peek (timers m) with
  | None => Ret (inr st)
  | Some top =>
      if is_over top (tick m) then
        '(top, rest) ← unwrap (heap_pop (timers m));
        if value top =? TASK_TIMER_VALUE then
          to ← usize_add (tick m) TASK_TIMER_PERIOD;
          Ret (inl ({| tick := tick m;
                       timers := heap_push rest {| timeout := to; value := TASK_TIMER_VALUE |} |},
                    events, true))
        else
          '(events, _) ← sink_push events (TimerTimeout (value top));
          Ret (inl ({| tick := tick m; timers := rest |}, events, task_timer_timeout))
      else Ret (inr st)
  end.

(** [TimerManager::tick]; the result tells whether to switch tasks. *)
Definition tick_ (m : TimerManager H) (events : Q) (elapsed : Z)
    : outcome (TimerManager H * Q * bool) :=
  m ← inc_tick_volatile m elapsed;
  loop (S (length (heap_elems (timers m)))) tick_body (m, events, false).

(** [initialize_timer], once the local APIC is calibrated. *)
Definition initialize_timer : outcome (TimerManager H) :=
  let m := TimerManager_new in
  to ← usize_add (tick m) TASK_TIMER_PERIOD;
  Ret (add_timer m to TASK_TIMER_VALUE).

(** ** Specification *)

Definition is_task (t : Timer) : bool := value t =? TASK_TIMER_VALUE.

(** The messages for a list of expired timers. *)
Definition messages (ts : list Timer) : list Message :=
  (λ t, TimerTimeout (value t)) <$> filter (λ t, is_task t = false) ts.

Definition task_timer (now : Z) : Timer :=
  {| timeout := now + TASK_TIMER_PERIOD; value := TASK_TIMER_VALUE |}.

(** The task timers that replace the expired ones. *)
Definition renewed (now : Z) (ts : list Timer) : list Timer :=
  replicate (length (filter (λ t, is_task t = true) ts)) (task_timer now).

Definition earlier (a b : Timer) : Prop := timeout a ≤ timeout b.

(** Loop invariant: [popped] have been handled in order, [rest] are still to be
    looked at. *)
Record tick_inv (all : list Timer) (now : Z) (ev0 : Q) (popped rest : list Timer)
    (st : TimerManager H * Q * bool) : Prop := {
  ti_tick : tick st.1.1 = now;
  ti_all : all ≡ₚ popped ++ rest;
  ti_elems : heap_elems (timers st.1.1) ≡ₚ rest ++ renewed now popped;
  ti_over : Forall (λ t, is_over t now = true) popped;
  ti_sorted : StronglySorted earlier popped;
  ti_rest : ∀ a b, a ∈ popped → b ∈ rest → earlier a b;
  ti_sink : sink_ok st.1.2 ∧ sink_capacity st.1.2 = sink_capacity ev0;
  ti_events : sink_contents st.1.2 =
    take (sink_capacity ev0) (sink_contents ev0 ++ messages popped);
  ti_flag : st.2 = existsb is_task popped;
}.

Lemma task_timer_not_over now : is_over (task_timer now) now = false.
Proof. apply Z.ltb_ge. cbn [timeout task_timer]. rewrite task_period_2. lia. Qed.

Lemma renewed_not_over now ts t : t ∈ renewed now ts → is_over t now = false.
Proof. intros [-> _]%elem_of_replicate. apply task_timer_not_over. Qed.

Lemma renewed_snoc now ts t :
  renewed now (ts ++ [t]) ≡ₚ
    if is_task t then task_timer now :: renewed now ts else renewed now ts.
Proof.
  unfold renewed. rewrite filter_app, length_app. cbn [filter list_filter].
  destruct (is_task t); [rewrite decide_True by done|rewrite decide_False by done]; simpl.
  - by rewrite Nat.add_1_r.
  - by rewrite Nat.add_0_r.
Qed.

Lemma messages_snoc ts t :
  messages (ts ++ [t]) = messages ts ++ if is_task t then [] else [TimerTimeout (value t)].
Proof.
  unfold messages. rewrite filter_app, fmap_app. f_equal. cbn [filter list_filter].
  by destruct (is_task t); [rewrite decide_False by done|rewrite decide_True by done].
Qed.

Lemma take_take_app {A} n (l k : list A) : take n (take n l ++ k) = take n (l ++ k).
Proof.
  rewrite !take_app, length_take, take_take, Nat.min_id. do 2 f_equal. lia.
Qed.

Lemma sorted_snoc (ts : list Timer) t :
  StronglySorted earlier ts → (∀ a, a ∈ ts → earlier a t) →
  StronglySorted earlier (ts ++ [t]).
Proof.
  intros Hs Ht. induction Hs as [|x l Hs IH Hx]; simpl; [repeat constructor|].
  constructor; [apply IH; intros; apply Ht; by right|].
  apply Forall_app. split; [done|]. constructor; [apply Ht; by left|done].
Qed.

(** How many timers of the heap are due. *)
Definition due (st : TimerManager H * Q * bool) : nat :=
  length (filter (λ t, is_over t (tick st.1.1) = true) (heap_elems (timers st.1.1))).

(** What a pass does to the invariant when it handles [top]. *)
Lemma tick_inv_step all now ev0 popped rest top rest' m ev fl m' ev' fl' :
  tick_inv all now ev0 popped rest (m, ev, fl) →
  rest ≡ₚ top :: rest' → is_over top now = true →
  (∀ b, b ∈ rest → earlier top b) →
  tick m' = now →
  heap_elems (timers m') ≡ₚ rest' ++ renewed now (popped ++ [top]) →
  sink_ok ev' → sink_capacity ev' = sink_capacity ev →
  sink_contents ev' = take (sink_capacity ev)
    (sink_contents ev ++ if is_task top then [] else [TimerTimeout (value top)]) →
  fl' = (fl || is_task top) →
  tick_inv all now ev0 (popped ++ [top]) rest' (m', ev', fl').
Proof.
  intros [Ht Ha He Ho Hs Hr [Hk Hc] Hv Hf] Hp Hov Hmin Ht' He' Hk' Hc' Hv' Hf'. simpl in *.
  split; simpl.
  - done.
  - rewrite <- app_assoc. simpl. by rewrite <- Hp.
  - done.
  - apply Forall_app. split; [done|]. by constructor.
  - apply sorted_snoc; [done|]. intros a Ha'. apply Hr; [done|]. rewrite Hp. by left.
  - intros a b [Ha'|Ha']%elem_of_app Hb.
    + apply Hr; [done|]. rewrite Hp. by right.
    + apply list_elem_of_singleton in Ha' as ->. apply Hmin. rewrite Hp. by right.
  - split; congruence.
  - rewrite Hv', Hc, Hv, messages_snoc, app_assoc.
    apply take_take_app.
  - rewrite Hf', Hf, existsb_app. simpl. by rewrite orb_false_r.
Qed.

Definition tick_result (all : list Timer) (now : Z) (ev0 : Q) st : Prop :=
  ∃ popped rest, tick_inv all now ev0 popped rest st ∧
    Forall (λ t, is_over t now = false) rest.

(** The timer on top, when it is due, is the earliest of those still to be handled. *)
Lemma pop_due all now ev0 popped rest m ev fl top :
  tick_inv all now ev0 popped rest (m, ev, fl) → heap_peek (timers m) = Some top → is_over top now = true →
  ∃ h' rest', heap_pop (timers m) = Some (top, h') ∧ rest ≡ₚ top :: rest' ∧
    (∀ b, b ∈ rest → earlier top b) ∧ heap_elems h' ≡ₚ rest' ++ renewed now popped ∧
    length (filter (λ t, is_over t now = true) (heap_elems (timers m))) =
      S (length (filter (λ t, is_over t now = true) (heap_elems h'))).
Proof.
  intros Hi Hpk Hov. pose proof (ti_elems _ _ _ _ _ _ Hi) as He. simpl in He.
  destruct (heap_peek_max _ _ Hpk) as [Hin Hmax]. destruct (heap_pop_spec _ _ Hpk) as (h' & Ep & Hh').
  assert (top ∈ rest) as Hr.
  { rewrite He, elem_of_app in Hin. destruct Hin as [|Hin]; [done|].
    apply renewed_not_over in Hin. congruence. }
  apply elem_of_Permutation in Hr as [rest' Hr]. exists h', rest'. split_and!; [done|done|..].
  - intros b Hb'. apply timer_le_timeout, Hmax. rewrite He. apply elem_of_app. by left.
  - apply (Permutation_cons_inv (a := top)). by rewrite <- Hh', He, Hr.
  - rewrite Hh'. cbn [filter list_filter]. by rewrite decide_True.
Qed.

Lemma tick_body_step all now ev0 popped rest st :
  0 ≤ now → now + TASK_TIMER_PERIOD < 2 ^ 64 →
  tick_inv all now ev0 popped rest st →
  ∃ o, tick_body st = Ret o ∧
    match o with
    | inl st' => (∃ p r, tick_inv all now ev0 p r st') ∧ (due st' < due st)%nat
    | inr st' => tick_result all now ev0 st'
    end.
Proof.
  intros Hn Hb Hi. destruct st as [[m ev] fl]. unfold tick_body.
  pose proof (ti_tick _ _ _ _ _ _ Hi) as Ht. pose proof (ti_elems _ _ _ _ _ _ Hi) as He.
  simpl in Ht, He.
  destruct (heap_peek (timers m)) as [top|] eqn:Hpk.
  2:{ eexists; split; [done|]. exists popped, rest. split; [done|].
      apply heap_peek_none in Hpk. rewrite Hpk in He.
      apply Permutation_nil_l in He. destruct rest; done. }
  destruct (heap_peek_max _ _ Hpk) as [Hin Hmax].
  destruct (is_over top (tick m)) eqn:Hov; rewrite Ht in Hov.
  2:{ eexists; split; [done|]. exists popped, rest. split; [done|].
      apply list.Forall_forall. intros t Hin'. apply Z.ltb_ge. apply Z.ltb_ge in Hov.
      specialize (Hmax t). rewrite timer_le_timeout, He, elem_of_app in Hmax.
      specialize (Hmax (or_introl Hin')). lia. }
  destruct (pop_due all now ev0 popped rest m ev fl top Hi Hpk Hov) as (h' & rest' & -> & Hr & Hmin & Hrest & Hdue).
  cbn [unwrap]. rewrite bind_Ret.
  destruct (value top =? TASK_TIMER_VALUE) eqn:Hv.
  - rewrite Ht, usize_add_ok, bind_Ret by (rewrite task_period_2 in *; lia).
    eexists; split; [done|]. split.
    + exists (popped ++ [top]), rest'.
      eapply tick_inv_step; try done.
      * simpl. rewrite heap_push_spec, renewed_snoc. unfold is_task. rewrite Hv.
        rewrite Hrest. by rewrite Permutation_middle.
      * apply Hi.
      * unfold is_task. rewrite Hv, app_nil_r, take_ge; [done|].
        apply sink_bounded, (ti_sink _ _ _ _ _ _ Hi).
      * unfold is_task. by rewrite Hv, orb_true_r.
    + unfold due. simpl. rewrite Ht, Hdue, heap_push_spec. cbn [filter list_filter].
      rewrite decide_False; [apply Nat.lt_succ_diag_r|].
      apply not_true_iff_false, task_timer_not_over.
  - destruct (ti_sink _ _ _ _ _ _ Hi) as [Hok Hcap]. simpl in Hok.
    destruct (sink_push_spec ev (TimerTimeout (value top)) Hok)
      as (ev' & b & -> & Hok' & Hcap' & Hcont'). rewrite bind_Ret.
    eexists; split; [done|]. split.
    + exists (popped ++ [top]), rest'.
      eapply tick_inv_step; try done.
      * simpl. rewrite renewed_snoc. unfold is_task. by rewrite Hv.
      * unfold is_task. by rewrite Hv.
      * unfold is_task. by rewrite Hv, orb_false_r.
    + unfold due. simpl. rewrite Ht, Hdue. lia.
Qed.

(** The contract of [tick]. *)
Record tick_post (m : TimerManager H) (ev : Q) (elapsed : Z)
    (m' : TimerManager H) (ev' : Q) (flag : bool) (popped : list Timer) : Prop := {
  tp_tick : tick m' = tick m + elapsed;
  tp_popped : popped ≡ₚ filter (λ t, is_over t (tick m + elapsed) = true) (heap_elems (timers m));
  tp_order : StronglySorted earlier popped;
  tp_elems : heap_elems (timers m') ≡ₚ
    filter (λ t, is_over t (tick m + elapsed) = false) (heap_elems (timers m)) ++
    renewed (tick m + elapsed) popped;
  tp_sink : sink_ok ev' ∧ sink_capacity ev' = sink_capacity ev;
  tp_events : sink_contents ev' = take (sink_capacity ev) (sink_contents ev ++ messages popped);
  tp_flag : flag = existsb is_task popped;
}.

Lemma filter_all {A} (P : A → Prop) `{∀ x, Decision (P x)} l : Forall P l → filter P l = l.
Proof. induction 1; cbn [filter list_filter]; [done|]. rewrite decide_True by done. by f_equal. Qed.

Lemma filter_none {A} (P : A → Prop) `{∀ x, Decision (P x)} l :
  Forall (λ x, ¬ P x) l → filter P l = [].
Proof. induction 1; cbn [filter list_filter]; [done|]. by rewrite decide_False by done. Qed.

Lemma tick_ok (m : TimerManager H) (ev : Q) (elapsed : Z) :
  0 ≤ tick m → 0 ≤ elapsed → tick m + elapsed + TASK_TIMER_PERIOD < 2 ^ 64 → sink_ok ev →
  ∃ m' ev' flag popped,
    tick_ m ev elapsed = Ret (m', ev', flag) ∧ tick_post m ev elapsed m' ev' flag popped.
Proof.
  intros Ht He Hb Hok. pose proof task_period_2 as H2. unfold tick_, inc_tick_volatile.
  rewrite usize_add_ok, !bind_Ret by lia. set (now := tick m + elapsed) in *. cbn [timers].
  destruct (loop_total
    (λ st, ∃ p r, tick_inv (heap_elems (timers m)) now ev p r st)
    (tick_result (heap_elems (timers m)) now ev) due tick_body
    (S (length (heap_elems (timers m)))) ({| tick := now; timers := timers m |}, ev, false))
    as (st & -> & p & r & Hi & Hr).
  - intros st (p & r & Hi). eapply tick_body_step; [lia..|exact Hi].
  - exists [], (heap_elems (timers m)). split; simpl; try done.
    + by rewrite app_nil_r.
    + constructor.
    + intros a b Ha. by apply elem_of_nil in Ha.
    + rewrite app_nil_r, take_ge; [done|]. by apply sink_bounded.
  - unfold due. simpl. pose proof (length_filter (λ t, is_over t now = true) (heap_elems (timers m))). lia.
  - destruct st as [[m' ev'] fl]. exists m', ev', fl, p. split; [done|].
    destruct Hi as [? Ha Hel Ho ? _ ? ? ?]; simpl in *. split; simpl; try done.
    + rewrite Ha, filter_app, filter_all, filter_none, app_nil_r; [done| |done].
      eapply Forall_impl; [exact Hr|]. intros t Hf Hg. unfold now in Hf. congruence.
    + rewrite Hel. apply Permutation_app_tail.
      rewrite Ha, filter_app, filter_none, filter_all; [done|done|].
      eapply Forall_impl; [exact Ho|]. intros t Hf Hg. unfold now in Hf. congruence.
Qed.

(** C11: [tick] handles every due timer, once, in order of timeout, and terminates.
    Time advances by [elapsed]; the timers whose timeout is strictly before the new
    time leave the heap, each ordinary one posts its message (dropped only if the
    queue is full), each task timer is replaced by one a period later; the other
    timers stay; the result is [true] exactly if a task timer was due. *)
Theorem tick_handles_due_timers (m : TimerManager H) (ev : Q) (elapsed : Z) :
  0 ≤ tick m → 0 ≤ elapsed → tick m + elapsed + TASK_TIMER_PERIOD < 2 ^ 64 → sink_ok ev →
  ∃ m' ev' flag popped,
    tick_ m ev elapsed = Ret (m', ev', flag) ∧ tick_post m ev elapsed m' ev' flag popped.
Proof. apply tick_ok. Qed.

(** ** The task timer over a whole run *)

(** What reaches the manager after [initialize_timer]: the timer interrupt, which
    calls [on_lapic_interrupt(1)], and [add_timer] calls. *)
Inductive timer_op := Interrupt | AddTimer (to v : Z).

(** Runs the operations and logs, for each interrupt, the tick and the answer. *)
Fixpoint run_timer (m : TimerManager H) (ev : Q) (os : list timer_op)
    : outcome (TimerManager H * Q * list (Z * bool)) :=
  match os with
  | [] => Ret (m, ev, [])
  | Interrupt :: os =>
      '(m', ev', b) ← tick_ m ev 1;
      '(m'', ev'', log) ← run_timer m' ev' os;
      Ret (m'', ev'', (tick m', b) :: log)
  | AddTimer to v :: os => run_timer (add_timer m to v) ev os
  end.

Definition is_user_op (o : timer_op) : bool :=
  match o with Interrupt => true | AddTimer _ v => negb (v =? TASK_TIMER_VALUE) end.

Definition is_interrupt (o : timer_op) : bool :=
  match o with Interrupt => true | _ => false end.

Definition interrupts (os : list timer_op) : Z :=
  zlen (filter (λ o, is_interrupt o = true) os).

Lemma interrupts_cons o os :
  interrupts (o :: os) = (if is_interrupt o then 1 else 0) + interrupts os.
Proof.
  unfold interrupts. rewrite filter_cons. destruct (is_interrupt o); simpl; lia.
Qed.

Lemma interrupts_nonneg os : 0 ≤ interrupts os.
Proof. unfold interrupts. lia. Qed.

Definition task_timers (m : TimerManager H) : list Timer :=
  filter (λ t, is_task t = true) (heap_elems (timers m)).

(** The only task timer is due at the next multiple of three. *)
Definition task_inv (m : TimerManager H) : Prop :=
  0 ≤ tick m ∧
  task_timers m ≡ₚ [{| timeout := 3 * (tick m / 3) + 2; value := TASK_TIMER_VALUE |}].

Lemma existsb_filter ts : existsb is_task ts = negb (bool_decide (filter (λ t, is_task t = true) ts = [])).
Proof.
  induction ts as [|t ts IH]; [done|]. cbn [existsb filter list_filter].
  destruct (is_task t); [by rewrite decide_True|by rewrite decide_False].
Qed.

Lemma filter_renewed now ts :
  filter (λ t, is_task t = true) (renewed now ts) = renewed now ts.
Proof. apply filter_all. apply Forall_replicate. done. Qed.

Lemma filter_comm {A} (P R : A → Prop) `{∀ x, Decision (P x), ∀ x, Decision (R x)} (l : list A) :
  filter P (filter R l) = filter R (filter P l).
Proof. rewrite !list_filter_filter. apply list_filter_iff. tauto. Qed.

(** One interrupt: the task timer fires when the new tick is a multiple of three. *)
Lemma task_inv_tick m ev m' ev' b popped :
  task_inv m → tick_post m ev 1 m' ev' b popped →
  task_inv m' ∧ b = (tick m' mod 3 =? 0).
Proof.
  intros [Ht Hi] [Htk Hp _ He _ _ Hb].
  set (top := {| timeout := 3 * (tick m / 3) + 2; value := TASK_TIMER_VALUE |}) in *.
  assert (filter (λ t, is_task t = true) popped ≡ₚ
    filter (λ t, is_over t (tick m + 1) = true) [top]) as Hpt.
  { rewrite Hp, filter_comm. fold (task_timers m). by rewrite Hi. }
  assert (task_timers m' ≡ₚ filter (λ t, is_over t (tick m + 1) = false) [top] ++
    renewed (tick m + 1) popped) as Htt.
  { unfold task_timers. rewrite He, filter_app, filter_renewed, filter_comm.
    fold (task_timers m). by rewrite Hi. }
  pose proof (Permutation_length Hpt) as Hlen. unfold renewed in Htt. rewrite Hlen in Htt.
  rewrite existsb_filter in Hb. unfold task_inv. rewrite Htt, Htk.
  pose proof (Z.div_mod (tick m) 3 ltac:(lia)). pose proof (Z.mod_pos_bound (tick m) 3 ltac:(lia)).
  pose proof (Z.div_mod (tick m + 1) 3 ltac:(lia)).
  pose proof (Z.mod_pos_bound (tick m + 1) 3 ltac:(lia)).
  cbn [filter list_filter] in *.
  destruct (is_over top (tick m + 1)) eqn:Hov.
  - rewrite decide_True in Hpt by done. rewrite decide_False by done.
    apply Z.ltb_lt in Hov. simpl in Hov.
    split; [split; [lia|]|].
    + simpl. unfold task_timer. rewrite task_period_2. do 2 f_equiv. lia.
    + apply Permutation_singleton_r in Hpt. rewrite Hb, Hpt. simpl. symmetry. apply Z.eqb_eq. lia.
  - rewrite decide_False in Hpt by done. rewrite decide_True by done.
    apply Z.ltb_ge in Hov. simpl in Hov. split; [split; [lia|]|].
    + simpl. unfold top. do 2 f_equiv. lia.
    + rewrite Hb. symmetry in Hpt. apply Permutation_nil in Hpt. rewrite Hpt. simpl.
      symmetry. apply Z.eqb_neq. lia.
Qed.

Lemma task_inv_add m to v :
  v ≠ TASK_TIMER_VALUE → task_inv m → task_inv (add_timer m to v).
Proof.
  intros Hv [Ht Hi]. split; [done|]. unfold task_timers in *. simpl.
  rewrite heap_push_spec. cbn [filter list_filter]. rewrite decide_False; [done|].
  apply not_true_iff_false, Z.eqb_neq, Hv.
Qed.

Lemma task_inv_init m : initialize_timer = Ret m → task_inv m ∧ tick m = 0.
Proof.
  unfold initialize_timer. intros Hr. inv_outcome. subst m. split; [|done]. split; [done|].
  apply chk_u_inv in Hs as [-> _]. unfold task_timers. simpl.
  rewrite heap_push_spec, heap_new_spec. done.
Qed.

Lemma run_timer_ok (m : TimerManager H) (ev : Q) os :
  task_inv m → sink_ok ev → Forall (λ o, is_user_op o = true) os →
  tick m + interrupts os + TASK_TIMER_PERIOD < 2 ^ 64 →
  ∃ m' ev', run_timer m ev os =
    Ret (m', ev', (λ n, (n, n mod 3 =? 0)) <$> seqZ (tick m + 1) (interrupts os)).
Proof.
  intros Hi Hok Hos. revert m ev Hi Hok. induction Hos as [|o os Ho Hos IH]; intros m ev Hi Hok Hb.
  { by exists m, ev. }
  rewrite interrupts_cons in *. pose proof (interrupts_nonneg os) as Hn.
  destruct o as [|to v]; cbn [run_timer is_interrupt] in *.
  - destruct (tick_ok m ev 1) as (m1 & ev1 & b & p & -> & Hp);
      [apply Hi|lia|lia|done|]. rewrite bind_Ret.
    destruct (task_inv_tick _ _ _ _ _ _ Hi Hp) as [Hi1 ->].
    pose proof (tp_tick _ _ _ _ _ _ _ Hp) as Ht1.
    destruct (IH m1 ev1 Hi1) as (m2 & ev2 & ->); [apply Hp|lia|].
    rewrite bind_Ret, (seqZ_cons (tick m + 1)) by lia. exists m2, ev2.
    rewrite fmap_cons, <- Ht1. by replace (Z.pred (1 + interrupts os)) with (interrupts os) by lia.
  - destruct (IH (add_timer m to v) ev) as (m2 & ev2 & E); [|done|done|by exists m2, ev2].
    apply task_inv_add; [|done]. simpl in Ho. by apply negb_true_iff, Z.eqb_neq in Ho.
Qed.

(** The task switch happens on every third timer interrupt. From
    [initialize_timer] on, whatever ordinary timers are added in between, the [n]-th
    interrupt asks for a task switch exactly if [n] is a multiple of 3: a task timer
    of period 2 fires on the first tick strictly after its timeout. *)
Lemma task_switch_every_third_tick (m : TimerManager H) (ev : Q) (os : list timer_op) :
  initialize_timer = Ret m → sink_ok ev → Forall (λ o, is_user_op o = true) os →
  interrupts os + TASK_TIMER_PERIOD < 2 ^ 64 →
  ∃ m' ev', run_timer m ev os =
    Ret (m', ev', (λ n, (n, n mod 3 =? 0)) <$> seqZ 1 (interrupts os)).
Proof.
  intros [Hi Ht]%task_inv_init Hok Hos Hb.
  destruct (run_timer_ok m ev os Hi Hok Hos) as (m' & ev' & E); [lia|].
  exists m', ev'. by rewrite E, Ht.
Qed.
End manager.

(** ** A heap that meets the contract: a list sorted by timeout *)

Fixpoint insert_timer (t : Timer) (l : list Timer) : list Timer :=
  match l with
  | [] => [t]
  | u :: l => if timeout t <=? timeout u then t :: u :: l else u :: insert_timer t l
  end.

Record sorted_heap := { sh_list : list Timer; sh_sorted : StronglySorted earlier sh_list }.

Lemma insert_timer_perm t l : insert_timer t l ≡ₚ t :: l.
Proof.
  induction l as [|u l IH]; simpl; [done|]. destruct (_ <=? _); [done|].
  rewrite IH. constructor.
Qed.

Lemma insert_timer_sorted t l :
  StronglySorted earlier l → StronglySorted earlier (insert_timer t l).
Proof.
  induction 1 as [|u l Hs IH Hu]; simpl; [repeat constructor|].
  destruct (Z.leb_spec (timeout t) (timeout u)).
  - constructor; [by constructor|]. constructor; [done|].
    eapply Forall_impl; [exact Hu|]. unfold earlier. simpl. lia.
  - constructor; [done|]. rewrite insert_timer_perm. constructor; [unfold earlier; lia|done].
Qed.

#[export] Program Instance sorted_heap_MaxHeap : MaxHeap sorted_heap := {|
  heap_new := {| sh_list := []; sh_sorted := SSorted_nil _ |};
  heap_push h t := {| sh_list := insert_timer t (sh_list h);
                      sh_sorted := insert_timer_sorted t _ (sh_sorted h) |};
  heap_peek h := head (sh_list h);
  heap_pop h :=
    match sh_list h as l return StronglySorted earlier l → _ with
    | [] => λ _, None
    | t :: l => λ H, Some (t, {| sh_list := l; sh_sorted := proj1 (StronglySorted_inv H) |})
    end (sh_sorted h);
  heap_elems := sh_list;
|}.
Next Obligation. done. Qed.
Next Obligation. intros h t. apply insert_timer_perm. Qed.
Next Obligation. intros [[|t l] Hs]; done. Qed.
Next Obligation.
  intros [[|t' l] Hs] t; simpl; [done|]. intros [= ->]. split; [by left|].
  apply StronglySorted_inv in Hs as [_ Hs]. rewrite list.Forall_forall in Hs.
  intros u [->|Hu]%elem_of_cons; apply timer_le_timeout; [done|]. by apply Hs.
Qed.
Next Obligation. intros [[|t' l] Hs] t; simpl; [done|]. intros [= ->]. eauto. Qed.

(** A manager at tick 9 with two due timers, one of them a task timer. *)
Definition busy_manager : TimerManager sorted_heap :=
  add_timer (add_timer (add_timer {| tick := 9; timers := heap_new |} 9 0) 5 7) 10 8.

Lemma new_queue_ok : queue_ok (new 4).
Proof. apply new_ok; lia. Qed.

Lemma tick_handles_due_timers_witness :
  ∃ m' ev' flag popped,
    tick_ busy_manager (new 4) 1 = Ret (m', ev', flag) ∧
    tick_post busy_manager (new 4) 1 m' ev' flag popped.
Proof.
  apply (tick_handles_due_timers busy_manager (new 4) 1);
    [vm_compute; congruence..|vm_compute; reflexivity|exact new_queue_ok].
Defined.

Example busy_manager_tick :
  (λ r, (tick r.1.1, sh_list (timers r.1.1), contents r.1.2, r.2)) <$> tick_ busy_manager (new 4) 1 =
  Ret (10, [{| timeout := 10; value := 8 |}; {| timeout := 12; value := 0 |}],
       [TimerTimeout 7], true).
Proof. reflexivity. Qed.

Lemma task_switch_every_third_tick_witness :
  ∃ m' ev', run_timer (H := sorted_heap)
      (add_timer TimerManager_new 2 TASK_TIMER_VALUE) (new 4)
      [Interrupt; AddTimer 1 7; Interrupt; Interrupt; Interrupt] =
    Ret (m', ev', [(1, false); (2, false); (3, true); (4, false)]).
Proof.
  apply (task_switch_every_third_tick (add_timer TimerManager_new 2 TASK_TIMER_VALUE) (new 4)
    [Interrupt; AddTimer 1 7; Interrupt; Interrupt; Interrupt]);
    [reflexivity|exact new_queue_ok|repeat constructor|vm_compute; reflexivity].
Defined.
