(* ===== verification/Graphics.v ===== *)
(** graphic/graphics.rs: vectors, rectangles and the drawing methods every
    [PixelWriter] inherits. The methods are verified against the [Canvas] laws, which
    say what a single [write] does; frame_buffer.rs provides the implementation. *)

From S2P Require Import Prelude.

(** (r, g, b), each a byte. *)
Abbreviation PixelColor := (Z * Z * Z)%type.

Record Vec2 := { x : Z; y : Z }.

#[export] Instance Vec2_eq_dec : EqDecision Vec2.
Proof. solve_decision. Defined.

(** [Vec2::<i32>::add] *)
Definition vec2_add (self rhs : Vec2) : outcome Vec2 :=
  vx ← i32_add (x self) (x rhs);
  vy ← i32_add (y self) (y rhs);
  Ret {| x := vx; y := vy |}.

Definition clamp (self min max : Vec2) : Vec2 :=
  {| x := Z.min (Z.max (x self) (x min)) (x max);
     y := Z.min (Z.max (y self) (y min)) (y max) |}.

(** ** Rectangles *)

Record Rect := { x1 : Z; y1 : Z; x2 : Z; y2 : Z }.

#[export] Instance Rect_eq_dec : EqDecision Rect.
Proof. solve_decision. Defined.

Definition from_wh (x1 y1 w h : Z) : outcome Rect :=
  x2 ← i32_add x1 w;
  y2 ← i32_add y1 h;
  Ret {| x1 := x1; y1 := y1; x2 := x2; y2 := y2 |}.

Definition to_origin (self : Rect) : outcome Rect :=
  w ← i32_sub (x2 self) (x1 self);
  h ← i32_sub (y2 self) (y1 self);
  Ret {| x1 := 0; y1 := 0; x2 := w; y2 := h |}.

Definition move_relative (self : Rect) (dx dy : Z) : outcome Rect :=
  a ← i32_add (x1 self) dx;
  b ← i32_add (x2 self) dx;
  c ← i32_add (y1 self) dy;
  d ← i32_add (y2 self) dy;
  Ret {| x1 := a; y1 := c; x2 := b; y2 := d |}.

Definition contained_by (self other : Rect) : bool :=
  (x1 other <=? x1 self) && (y1 other <=? y1 self) &&
  (x2 self <=? x2 other) && (y2 self <=? y2 other).

Definition intersection (self other : Rect) : option Rect :=
  let l := Z.max (x1 self) (x1 other) in
  let r := Z.min (x2 self) (x2 other) in
  if l >=? r then None else
  let t := Z.max (y1 self) (y1 other) in
  let b := Z.min (y2 self) (y2 other) in
  if t >=? b then None else
  Some {| x1 := l; y1 := t; x2 := r; y2 := b |}.

(** The half-open set of points a rectangle stands for. *)
Definition in_rect (r : Rect) (px py : Z) : Prop :=
  x1 r ≤ px < x2 r ∧ y1 r ≤ py < y2 r.

#[export] Instance in_rect_dec r px py : Decision (in_rect r px py).
Proof. unfold in_rect. apply _. Defined.

Lemma intersection_some a b r :
  intersection a b = Some r →
  x1 r = Z.max (x1 a) (x1 b) ∧ x2 r = Z.min (x2 a) (x2 b) ∧ x1 r < x2 r ∧
  y1 r = Z.max (y1 a) (y1 b) ∧ y2 r = Z.min (y2 a) (y2 b) ∧ y1 r < y2 r.
Proof.
  unfold intersection. rewrite !Z.geb_leb.
  destruct (Z.leb_spec (Z.min (x2 a) (x2 b)) (Z.max (x1 a) (x1 b))); [done|].
  destruct (Z.leb_spec (Z.min (y2 a) (y2 b)) (Z.max (y1 a) (y1 b))); [done|].
  intros [= <-]; simpl. lia.
Qed.

Lemma intersection_none a b px py :
  intersection a b = None → in_rect a px py → in_rect b px py → False.
Proof.
  unfold intersection, in_rect. rewrite !Z.geb_leb.
  destruct (Z.leb_spec (Z.min (x2 a) (x2 b)) (Z.max (x1 a) (x1 b))); [lia|].
  destruct (Z.leb_spec (Z.min (y2 a) (y2 b)) (Z.max (y1 a) (y1 b))); [lia|done].
Qed.

(** Membership in the result of [intersection], empty or not. *)
Definition in_rect_opt (o : option Rect) (px py : Z) : Prop :=
  match o with Some r => in_rect r px py | None => False end.

(** [intersection] computes set intersection: a point is in the result exactly
    if it is in both rectangles, and the result is [None] exactly if they share no
    point. *)
Lemma intersection_correct (a b : Rect) :
  (∀ px py, in_rect_opt (intersection a b) px py ↔ in_rect a px py ∧ in_rect b px py) ∧
  (intersection a b = None ↔ ∀ px py, ¬ (in_rect a px py ∧ in_rect b px py)).
Proof.
  destruct (intersection a b) as [r|] eqn:E; simpl.
  - apply intersection_some in E. split; [unfold in_rect; lia|].
    split; [done|]. intros H. destruct (H (x1 r) (y1 r)). unfold in_rect. lia.
  - pose proof (intersection_none a b) as H. split; [naive_solver|naive_solver].
Qed.

(** ** Pixel writers *)

Class PixelWriter (W : Type) := write : W → Vec2 → PixelColor → outcome W.

Section methods.
Context {W : Type} `{!PixelWriter W}.

Definition fill_rect (self : W) (pos size : Vec2) (c : PixelColor) : outcome W :=
  foldM (λ self dx,
    foldM (λ self dy, p ← vec2_add pos {| x := dx; y := dy |}; write self p c)
      (range 0 (as_s 32 (y size))) self)
    (range 0 (as_s 32 (x size))) self.

Definition draw_bitpattern (self : W) (pos : Vec2) (pattern : list Z) (c : PixelColor)
    (scale : Z) : outcome W :=
  foldM (λ self dy,
    foldM (λ self dx,
      row ← vget pattern dy;
      if Z.land (Z.shiftr row (63 - dx)) 1 =? 1 then
        ox ← u32_mul scale (as_u 32 dx);
        oy ← u32_mul scale (as_u 32 dy);
        p ← vec2_add pos {| x := as_s 32 ox; y := as_s 32 oy |};
        fill_rect self p {| x := scale; y := scale |} c
      else Ret self)
      (range 0 64) self)
    (range 0 (zlen pattern)) self.
End methods.

(** What a [write] inside the visible area does: it sets that pixel and no other. *)
Class Canvas (W : Type) `{!PixelWriter W} := {
  canvas_ok : W → Prop;
  canvas_size : W → Z * Z;
  pixel : W → Z → Z → PixelColor;
  canvas_small : ∀ w, canvas_ok w →
    0 ≤ (canvas_size w).1 < 2 ^ 31 ∧ 0 ≤ (canvas_size w).2 < 2 ^ 31;
  write_spec : ∀ w pos c, canvas_ok w →
    0 ≤ x pos < (canvas_size w).1 → 0 ≤ y pos < (canvas_size w).2 →
    ∃ w', write w pos c = Ret w' ∧ canvas_ok w' ∧ canvas_size w' = canvas_size w ∧
      ∀ px py, 0 ≤ px < (canvas_size w).1 → 0 ≤ py < (canvas_size w).2 →
        pixel w' px py = if decide (px = x pos ∧ py = y pos) then c else pixel w px py;
}.

Section canvas.
Context {W : Type} `{!PixelWriter W} `{!Canvas W}.

Definition visible (w : W) (px py : Z) : Prop :=
  0 ≤ px < (canvas_size w).1 ∧ 0 ≤ py < (canvas_size w).2.

(** [w'] is [w] with the points of [S] set to [c]. *)
Record painted (w : W) (S : Z → Z → Prop) (c : PixelColor) (w' : W) : Prop := {
  pt_ok : canvas_ok w';
  pt_size : canvas_size w' = canvas_size w;
  pt_in : ∀ px py, visible w px py → S px py → pixel w' px py = c;
  pt_out : ∀ px py, visible w px py → ¬ S px py → pixel w' px py = pixel w px py;
}.

#[global] Instance painted_proper w :
  Proper (pointwise_relation _ (pointwise_relation _ iff) ==> (=) ==> (=) ==> iff) (painted w).
Proof.
  intros S T HS c ? <- w' ? <-.
  split; intros [? ? Hi Ho]; split; try done; intros px py Hv Hp;
    (apply Hi || apply Ho); try done; by rewrite (HS px py) in *.
Qed.

Lemma painted_none w c : canvas_ok w → painted w (λ _ _, False) c w.
Proof. intros. by split. Qed.

Lemma painted_write w pos c :
  canvas_ok w → visible w (x pos) (y pos) →
  ∃ w', write w pos c = Ret w' ∧ painted w (λ px py, px = x pos ∧ py = y pos) c w'.
Proof.
  intros Hw [Hx Hy]. destruct (write_spec w pos c Hw Hx Hy) as (w' & E & Hw' & Hs & Hp).
  exists w'. split; [done|]. split; try done.
  - intros px py [? ?] HS. rewrite Hp by done. by rewrite decide_True.
  - intros px py [? ?] HS. rewrite Hp by done. by rewrite decide_False.
Qed.

Lemma painted_union w S w' T c w'' :
  (∀ px py, Decision (T px py)) →
  painted w S c w' → painted w' T c w'' →
  painted w (λ px py, S px py ∨ T px py) c w''.
Proof.
  intros HT [Ho Hs Hi Hn] [Ho' Hs' Hi' Hn']. unfold visible in *. rewrite Hs in *.
  split; [done|congruence|..].
  - intros px py Hv HST. destruct (decide (T px py)).
    + by apply Hi'.
    + rewrite Hn' by done. apply Hi; naive_solver.
  - intros px py Hv HST. rewrite Hn' by naive_solver. apply Hn; naive_solver.
Qed.

#[global] Instance exists_in_list_dec {A} (P : A → Prop) `{∀ a, Decision (P a)} (l : list A) :
  Decision (∃ a, a ∈ l ∧ P a).
Proof.
  refine (cast_if (decide (Exists P l))); by rewrite <- list.Exists_exists.
Defined.

(** A [for] loop whose passes paint [S a], for each [a], paints their union. *)
Lemma painted_foldM {A} (f : W → A → outcome W) (S : A → Z → Z → Prop)
    `{∀ a px py, Decision (S a px py)} c l w :
  canvas_ok w →
  (∀ a w', a ∈ l → canvas_ok w' → canvas_size w' = canvas_size w →
     ∃ w'', f w' a = Ret w'' ∧ painted w' (S a) c w'') →
  ∃ w', foldM f l w = Ret w' ∧ painted w (λ px py, ∃ a, a ∈ l ∧ S a px py) c w'.
Proof.
  intros Hw Hf. revert w Hw Hf. induction l as [|a l IH]; intros w Hw Hf; simpl.
  { exists w. split; [done|]. split; try done. by intros px py _ (b & Hb%elem_of_nil & _). }
  destruct (Hf a w) as (w1 & -> & H1); [by left|done..|]. rewrite bind_Ret.
  destruct (IH w1) as (w2 & -> & H2); [apply H1| |].
  { intros b w' Hb Hw' Hs. apply Hf; [by right|done|]. rewrite Hs. apply H1. }
  exists w2. split; [done|]. eapply painted_union in H2; [|apply _|exact H1].
  revert H2. apply painted_proper; try done. intros px py. setoid_rewrite elem_of_cons.
  naive_solver.
Qed.

Lemma painted_foldM_iff {A} (S : A → Z → Z → Prop) (U : Z → Z → Prop)
    `{∀ a px py, Decision (S a px py)} (f : W → A → outcome W) c l w :
  canvas_ok w → (∀ px py, U px py ↔ ∃ a, a ∈ l ∧ S a px py) →
  (∀ a w', a ∈ l → canvas_ok w' → canvas_size w' = canvas_size w →
     ∃ w'', f w' a = Ret w'' ∧ painted w' (S a) c w'') →
  ∃ w', foldM f l w = Ret w' ∧ painted w U c w'.
Proof.
  intros Hw HU Hf. destruct (painted_foldM f S c l w Hw Hf) as (w' & E & Hp).
  exists w'. split; [done|]. revert Hp. by apply painted_proper.
Qed.

Lemma elem_of_range a b z : z ∈ range a b ↔ a ≤ z < b.
Proof. unfold range. rewrite elem_of_seqZ. lia. Qed.

Lemma painted_fill_rect w pos size c :
  canvas_ok w → 0 ≤ x pos → 0 ≤ x size → x pos + x size ≤ (canvas_size w).1 →
  0 ≤ y pos → 0 ≤ y size → y pos + y size ≤ (canvas_size w).2 →
  ∃ w', fill_rect w pos size c = Ret w' ∧
    painted w (λ px py, x pos ≤ px < x pos + x size ∧ y pos ≤ py < y pos + y size) c w'.
Proof.
  intros Hw Hx Hsx Hxw Hy Hsy Hyh. pose proof (canvas_small w Hw) as [Hcw Hch].
  unfold fill_rect. rewrite !as_s_small by (try done; split; lia).
  apply (painted_foldM_iff (λ dx px py, px = x pos + dx ∧ y pos ≤ py < y pos + y size));
    [apply _|done| |].
  { intros px py. setoid_rewrite elem_of_range. split; [|naive_solver lia].
    intros [? ?]. exists (px - x pos). lia. }
  intros dx w1 Hdx%elem_of_range Hw1 Hs1.
  apply (painted_foldM_iff (λ dy px py, px = x pos + dx ∧ py = y pos + dy)); [apply _|done| |].
  { intros px py. setoid_rewrite elem_of_range. split; [|naive_solver lia].
    intros [-> ?]. exists (py - y pos). lia. }
  intros dy w3 Hdy%elem_of_range Hw3 Hs3. unfold vec2_add; simpl.
  rewrite !i32_add_ok by lia. rewrite !bind_Ret. simpl.
  apply (painted_write w3 {| x := x pos + dx; y := y pos + dy |} c Hw3).
  unfold visible; simpl. rewrite Hs3, Hs1. lia.
Qed.

(** [fill_rect] on a rectangle inside the canvas does not panic and colours
    exactly the pixels of the rectangle. *)
Lemma fill_rect_exact (w : W) (pos size : Vec2) (c : PixelColor) :
  canvas_ok w → 0 ≤ x pos → 0 ≤ x size → x pos + x size ≤ (canvas_size w).1 →
  0 ≤ y pos → 0 ≤ y size → y pos + y size ≤ (canvas_size w).2 →
  ∃ w', fill_rect w pos size c = Ret w' ∧
    painted w (λ px py, x pos ≤ px < x pos + x size ∧ y pos ≤ py < y pos + y size) c w'.
Proof. apply painted_fill_rect. Qed.

(** Bit [63 - dx] of row [dy]. *)
Definition pattern_bit (pattern : list Z) (dx dy : Z) : bool :=
  match pattern !! Z.to_nat dy with Some row => Z.testbit row (63 - dx) | None => false end.

(** Pixel [(px, py)] belongs to the block of a set bit. *)
Definition in_pattern (pos : Vec2) (pattern : list Z) (scale px py : Z) : Prop :=
  x pos ≤ px < x pos + 64 * scale ∧ y pos ≤ py ∧
  pattern_bit pattern ((px - x pos) / scale) ((py - y pos) / scale) = true.

(** The block of bit [(dx, dy)], empty if the bit is clear. *)
Definition in_block (pos : Vec2) (pattern : list Z) (scale dx dy px py : Z) : Prop :=
  pattern_bit pattern dx dy = true ∧
  (x pos + scale * dx ≤ px < x pos + scale * dx + scale ∧
   y pos + scale * dy ≤ py < y pos + scale * dy + scale).

#[global] Instance in_block_dec pos pattern scale dx dy px py :
  Decision (in_block pos pattern scale dx dy px py).
Proof. unfold in_block. apply _. Defined.

Lemma in_pattern_blocks pos pattern scale px py :
  0 < scale →
  in_pattern pos pattern scale px py ↔
  ∃ dy, dy ∈ range 0 (zlen pattern) ∧
    ∃ dx, dx ∈ range 0 64 ∧ in_block pos pattern scale dx dy px py.
Proof.
  intros Hsc. unfold in_pattern, in_block. setoid_rewrite elem_of_range. split.
  - intros (Hpx & Hpy & Hb).
    pose proof (Z.div_mod (px - x pos) scale ltac:(lia)).
    pose proof (Z.mod_pos_bound (px - x pos) scale Hsc).
    pose proof (Z.div_mod (py - y pos) scale ltac:(lia)).
    pose proof (Z.mod_pos_bound (py - y pos) scale Hsc).
    set (dx := (px - x pos) / scale) in *. set (dy := (py - y pos) / scale) in *.
    exists dy. assert (0 ≤ dy) by nia. split.
    { unfold pattern_bit in Hb. destruct (pattern !! Z.to_nat dy) eqn:El; [|done].
      apply lookup_lt_Some in El. lia. }
    exists dx. split_and!; try done; nia.
  - intros (dy & Hdy & dx & Hdx & Hb & Hpx & Hpy).
    assert ((px - x pos) / scale = dx) as ->
      by (symmetry; apply (Z.div_unique_pos _ _ _ (px - x pos - scale * dx)); lia).
    assert ((py - y pos) / scale = dy) as ->
      by (symmetry; apply (Z.div_unique_pos _ _ _ (py - y pos - scale * dy)); lia).
    split_and!; try done; nia.
Qed.

Lemma shiftr_land_1 a n : (Z.land (Z.shiftr a n) 1 =? 1) = Z.testbit a n.
Proof.
  rewrite Z.testbit_odd. change 1 with (Z.ones 1) at 1. rewrite Z.land_ones by lia.
  rewrite Zmod_odd. by destruct (Z.odd _).
Qed.

(** The pass of [draw_bitpattern] for one bit. *)
Lemma painted_bit w pos pattern c scale dx dy row :
  canvas_ok w → 0 < scale → 0 ≤ x pos → 0 ≤ y pos → 0 ≤ dx < 64 → 0 ≤ dy →
  pattern !! Z.to_nat dy = Some row →
  (Z.testbit row (63 - dx) = true → x pos + scale * dx + scale ≤ (canvas_size w).1 ∧
     y pos + scale * dy + scale ≤ (canvas_size w).2) →
  ∃ w', (row ← vget pattern dy;
      if Z.land (Z.shiftr row (63 - dx)) 1 =? 1 then
        ox ← u32_mul scale (as_u 32 dx);
        oy ← u32_mul scale (as_u 32 dy);
        p ← vec2_add pos {| x := as_s 32 ox; y := as_s 32 oy |};
        fill_rect w p {| x := scale; y := scale |} c
      else Ret w) = Ret w' ∧
    painted w (in_block pos pattern scale dx dy) c w'.
Proof.
  unfold in_block. intros Hw Hsc Hx Hy Hdx Hdy Hrow Hin. pose proof (canvas_small w Hw) as [Hcw Hch].
  rewrite (vget_ok _ _ row), bind_Ret by (done || lia). rewrite shiftr_land_1.
  unfold pattern_bit. rewrite Hrow. destruct (Z.testbit row (63 - dx)).
  - destruct Hin as [Hx2 Hy2]; [done|].
    assert (0 ≤ scale * dx) by nia. assert (0 ≤ scale * dy) by nia.
    assert (dx ≤ scale * dx) by nia. assert (dy ≤ scale * dy) by nia.
    rewrite !as_u_small by lia. unfold u32_mul. rewrite !chk_u_ok, !bind_Ret by lia.
    rewrite !as_s_small by (done || (split; lia)). unfold vec2_add; simpl.
    rewrite !i32_add_ok, !bind_Ret by lia.
    destruct (painted_fill_rect w {| x := x pos + scale * dx; y := y pos + scale * dy |}
      {| x := scale; y := scale |} c Hw) as (w' & -> & Hp); simpl; try lia.
    exists w'. split; [done|]. revert Hp. apply painted_proper; try done. intros px py; simpl.
    tauto.
  - exists w. split; [done|]. split; try done. by intros px py _ [? _].
Qed.

Lemma painted_bitpattern w pos pattern c scale :
  canvas_ok w → 0 < scale → 0 ≤ x pos → 0 ≤ y pos →
  (∀ dx dy, 0 ≤ dx < 64 → 0 ≤ dy → pattern_bit pattern dx dy = true →
     x pos + scale * dx + scale ≤ (canvas_size w).1 ∧
     y pos + scale * dy + scale ≤ (canvas_size w).2) →
  ∃ w', draw_bitpattern w pos pattern c scale = Ret w' ∧
    painted w (in_pattern pos pattern scale) c w'.
Proof.
  intros Hw Hsc Hx Hy Hin. unfold draw_bitpattern.
  apply (painted_foldM_iff (λ dy px py, ∃ dx, dx ∈ range 0 64 ∧ in_block pos pattern scale dx dy px py));
    [apply _|done|intros; by apply in_pattern_blocks|].
  intros dy w1 Hdy%elem_of_range Hw1 Hs1.
  destruct (lookup_lt_is_Some_2 pattern (Z.to_nat dy)) as [row Hrow]; [lia|].
  apply (painted_foldM_iff (λ dx px py, in_block pos pattern scale dx dy px py)); [apply _|done..|].
  intros dx w2 Hdx%elem_of_range Hw2 Hs2. eapply painted_bit; try done; [lia|].
  intros Hb. rewrite Hs2, Hs1. apply Hin; [done|lia|].
  unfold pattern_bit. by rewrite Hrow.
Qed.

(** [draw_bitpattern] draws the pattern, scaled. If the blocks of the set bits
    lie inside the canvas it does not panic, and a pixel gets the colour exactly if
    the bit it maps to (column and row offset divided by the scale, leftmost column
    in the high bit) is set. *)
Lemma draw_bitpattern_exact (w : W) (pos : Vec2) (pattern : list Z) (c : PixelColor)
    (scale : Z) :
  canvas_ok w → 0 < scale → 0 ≤ x pos → 0 ≤ y pos →
  (∀ dx dy, 0 ≤ dx < 64 → 0 ≤ dy → pattern_bit pattern dx dy = true →
     x pos + scale * dx + scale ≤ (canvas_size w).1 ∧
     y pos + scale * dy + scale ≤ (canvas_size w).2) →
  ∃ w', draw_bitpattern w pos pattern c scale = Ret w' ∧
    painted w (in_pattern pos pattern scale) c w'.
Proof. apply painted_bitpattern. Qed.
End canvas.
