(* ===== verification/FrameBuffer.v ===== *)
(** graphic/frame_buffer.rs: byte-addressed frame buffers, in video memory or in RAM.
    Implements the [Canvas] interface; block copies ([copy], [move_rect]) are specified
    pixel by pixel. *)

From S2P Require Import Prelude Graphics.

Inductive PixelFormat := PixelRGBResv8BitPerColor | PixelBGRResv8BitPerColor.

#[export] Instance PixelFormat_eq_dec : EqDecision PixelFormat.
Proof. solve_decision. Defined.

Definition bytes_per_pixel (self : PixelFormat) : Z :=
  match self with
  | PixelBGRResv8BitPerColor => 4
  | PixelRGBResv8BitPerColor => 4
  end.

(** [PixelFormat::write]: the first three bytes of the slice. *)
Definition format_write (self : PixelFormat) (color : PixelColor) (buffer : list Z)
    : outcome (list Z) :=
  let '(r, g, b) := color in
  match self with
  | PixelBGRResv8BitPerColor =>
      buffer ← vset buffer 0 b;
      buffer ← vset buffer 1 g;
      vset buffer 2 r
  | PixelRGBResv8BitPerColor =>
      buffer ← vset buffer 0 r;
      buffer ← vset buffer 1 g;
      vset buffer 2 b
  end.

Definition raw_to_color (self : PixelFormat) (raw : list Z) : outcome PixelColor :=
  match self with
  | PixelBGRResv8BitPerColor =>
      r ← vget raw 2; g ← vget raw 1; b ← vget raw 0; Ret (r, g, b)
  | PixelRGBResv8BitPerColor =>
      r ← vget raw 0; g ← vget raw 1; b ← vget raw 2; Ret (r, g, b)
  end.

Inductive FrameBufferData :=
  | Vram (vram : list Z)
  | Shadow (buf : list Z).

(** [FrameBufferData::get]; [get_mut] hands out the same bytes for writing back. *)
Definition get (self : FrameBufferData) : list Z :=
  match self with Vram vram => vram | Shadow buf => buf end.

Definition set_data (self : FrameBufferData) (l : list Z) : FrameBufferData :=
  match self with Vram _ => Vram l | Shadow _ => Shadow l end.

Record FrameBufferConf := {
  pixels_per_scanline : Z;
  horizontal_resolution : Z;
  vertical_resolution : Z;
  pixel_format : PixelFormat;
}.

Definition to_index (self : FrameBufferConf) (px py : Z) : outcome Z :=
  row ← usize_mul (as_u 64 py) (pixels_per_scanline self);
  i ← usize_add row (as_u 64 px);
  usize_mul i (bytes_per_pixel (pixel_format self)).

Record FrameBuffer := { fb_data : FrameBufferData; conf : FrameBufferConf }.

Definition bytes (self : FrameBuffer) : list Z := get (fb_data self).

Definition with_bytes (self : FrameBuffer) (l : list Z) : FrameBuffer :=
  {| fb_data := set_data (fb_data self) l; conf := conf self |}.

(** [FrameBufferRaw], with the memory behind [buf]. *)
Record FrameBufferRaw := {
  raw_buf : list Z;
  raw_conf : FrameBufferConf;
}.

Definition from_raw (raw : FrameBufferRaw) : outcome FrameBuffer :=
  a ← u32_mul (pixels_per_scanline (raw_conf raw)) (vertical_resolution (raw_conf raw));
  len ← u32_mul a 4;
  if len <=? zlen (raw_buf raw) then
    Ret {| fb_data := Vram (take (Z.to_nat len) (raw_buf raw)); conf := raw_conf raw |}
  else Panic Undefined.

(** [FrameBuffer::new], given the value of [DEFAULT_PIXEL_FORMAT]. *)
Definition FrameBuffer_new (default_format : option PixelFormat) (width height : Z)
    : outcome FrameBuffer :=
  format ← unwrap default_format;
  a ← usize_mul width height;
  n ← usize_mul a (bytes_per_pixel format);
  Ret {| fb_data := Shadow (replicate (Z.to_nat n) 0);
         conf := {| pixels_per_scanline := as_u 32 width;
                    horizontal_resolution := as_u 32 width;
                    vertical_resolution := as_u 32 height;
                    pixel_format := format |} |}.

(** ** Slices *)

(** [&l[a..b]] *)
Definition slice (l : list Z) (a b : Z) : outcome (list Z) :=
  if (0 <=? a) && (a <=? b) && (b <=? zlen l)
  then Ret (take (Z.to_nat (b - a)) (drop (Z.to_nat a) l))
  else Panic IndexOutOfBounds.

(** [l[a..b].copy_from_slice(src)] *)
Definition copy_from_slice (l : list Z) (a b : Z) (src : list Z) : outcome (list Z) :=
  old ← slice l a b;
  if zlen src =? zlen old
  then Ret (take (Z.to_nat a) l ++ src ++ drop (Z.to_nat b) l)
  else Panic ExplicitPanic.

(** [l.copy_within(a..b, dest)] *)
Definition copy_within (l : list Z) (a b dest : Z) : outcome (list Z) :=
  src ← slice l a b;
  if dest <=? zlen l - zlen src
  then Ret (take (Z.to_nat dest) l ++ src ++ drop (Z.to_nat (dest + zlen src)) l)
  else Panic ExplicitPanic.

(** ** Operations *)

Definition copy (self : FrameBuffer) (pos : Vec2) (from : FrameBuffer) : outcome FrameBuffer :=
  rect_buf ← from_wh 0 0 (as_s 32 (horizontal_resolution (conf self)))
                         (as_s 32 (vertical_resolution (conf self)));
  rect_from ← from_wh (x pos) (y pos) (as_s 32 (horizontal_resolution (conf from)))
                                      (as_s 32 (vertical_resolution (conf from)));
  match intersection rect_buf rect_from with
  | None => Ret self
  | Some modified_rect =>
      nx ← i32_neg (x pos);
      ny ← i32_neg (y pos);
      copied_rect ← move_relative modified_rect nx ny;
      foldM (λ self '(y_to, y_from),
        to0 ← to_index (conf self) (x1 modified_rect) y_to;
        to1 ← to_index (conf self) (x2 modified_rect) y_to;
        from0 ← to_index (conf from) (x1 copied_rect) y_from;
        from1 ← to_index (conf from) (x2 copied_rect) y_from;
        src ← slice (bytes from) from0 from1;
        l ← copy_from_slice (bytes self) to0 to1 src;
        Ret (with_bytes self l))
        (zip (range (y1 modified_rect) (y2 modified_rect))
             (range (y1 copied_rect) (y2 copied_rect))) self
  end.

(** The body of both loops of [move_rect]. *)
Definition move_row (to : Vec2) (rect : Rect) (self : FrameBuffer) (dy : Z) : outcome FrameBuffer :=
  ya ← i32_add dy (y1 rect);
  from0 ← to_index (conf self) (x1 rect) ya;
  from1 ← to_index (conf self) (x2 rect) ya;
  yb ← i32_add dy (y to);
  to0 ← to_index (conf self) (x to) yb;
  a ← i32_add (x to) (x2 rect);
  xe ← i32_sub a (x1 rect);
  _ ← to_index (conf self) xe yb;
  l ← copy_within (bytes self) from0 from1 to0;
  Ret (with_bytes self l).

Definition move_rect (self : FrameBuffer) (to : Vec2) (rect : Rect) : outcome FrameBuffer :=
  whole ← from_wh 0 0 (as_s 32 (horizontal_resolution (conf self)))
                      (as_s 32 (vertical_resolution (conf self)));
  _ ← assert_ (contained_by rect whole);
  if y to <=? y1 rect then
    h ← i32_sub (y2 rect) (y1 rect);
    foldM (move_row to rect) (range 0 h) self
  else
    h ← i32_sub (y2 rect) (y1 rect);
    foldM (move_row to rect) (reverse (range 0 h)) self.

(** [px] and [py] are of type [usize]. *)
Definition color_at (self : FrameBuffer) (px py : Z) : outcome PixelColor :=
  index ← to_index (conf self) (as_s 32 px) (as_s 32 py);
  e ← usize_add index (bytes_per_pixel (pixel_format (conf self)));
  raw ← slice (bytes self) index e;
  raw_to_color (pixel_format (conf self)) raw.

(** [PixelWriter::write] *)
#[export] Instance FrameBuffer_writer : PixelWriter FrameBuffer := λ self pos color,
  row ← usize_mul (pixels_per_scanline (conf self)) (as_u 64 (y pos));
  i_pixel ← usize_add row (as_u 64 (x pos));
  i ← usize_mul i_pixel (bytes_per_pixel (pixel_format (conf self)));
  tail ← slice (bytes self) i (zlen (bytes self));
  tail ← format_write (pixel_format (conf self)) color tail;
  Ret (with_bytes self (take (Z.to_nat i) (bytes self) ++ tail)).

(** ** Well-formed buffers and their pixels *)

Record fb_ok (fb : FrameBuffer) : Prop := {
  fo_width : 0 ≤ horizontal_resolution (conf fb) ≤ pixels_per_scanline (conf fb);
  fo_pitch : pixels_per_scanline (conf fb) < 2 ^ 31;
  fo_height : 0 ≤ vertical_resolution (conf fb) < 2 ^ 31;
  fo_bytes : zlen (bytes fb) =
    4 * (pixels_per_scanline (conf fb) * vertical_resolution (conf fb));
}.

(** The byte index of a pixel. *)
Definition offset (c : FrameBufferConf) (px py : Z) : Z := 4 * (py * pixels_per_scanline c + px).

Definition byte_at (fb : FrameBuffer) (i : Z) : Z := default 0 (bytes fb !! Z.to_nat i).

Definition fb_pixel (fb : FrameBuffer) (px py : Z) : PixelColor :=
  let i := offset (conf fb) px py in
  match pixel_format (conf fb) with
  | PixelRGBResv8BitPerColor => (byte_at fb i, byte_at fb (i + 1), byte_at fb (i + 2))
  | PixelBGRResv8BitPerColor => (byte_at fb (i + 2), byte_at fb (i + 1), byte_at fb i)
  end.

Lemma set_data_get d l : get (set_data d l) = l.
Proof. by destruct d. Qed.

Lemma bytes_with_bytes fb l : bytes (with_bytes fb l) = l.
Proof. apply set_data_get. Qed.

Lemma bpp_4 f : bytes_per_pixel f = 4.
Proof. by destruct f. Qed.

Lemma fb_ok_with_bytes fb l :
  fb_ok fb → length l = length (bytes fb) → fb_ok (with_bytes fb l).
Proof.
  intros [] Hl. split; rewrite ?bytes_with_bytes, ?Hl; done.
Qed.

Lemma fb_ok_size fb : fb_ok fb → 0 ≤ zlen (bytes fb) < 2 ^ 64.
Proof.
  intros [? ? ? ->].
  assert (pixels_per_scanline (conf fb) * vertical_resolution (conf fb) ≤
    (2 ^ 31 - 1) * (2 ^ 31 - 1)) by (apply Z.mul_le_mono_nonneg; lia).
  nia.
Qed.

(** The bytes of a pixel lie inside the buffer. *)
Lemma offset_bounds fb px py :
  fb_ok fb → 0 ≤ px ≤ pixels_per_scanline (conf fb) →
  0 ≤ py < vertical_resolution (conf fb) →
  0 ≤ offset (conf fb) px py ∧
  offset (conf fb) px py = 4 * (py * pixels_per_scanline (conf fb)) + 4 * px ∧
  4 * (py * pixels_per_scanline (conf fb)) + 4 * pixels_per_scanline (conf fb) ≤ zlen (bytes fb) ∧
  0 ≤ py * pixels_per_scanline (conf fb).
Proof. intros [? ? ? ->] Hx Hy. unfold offset. nia. Qed.

Lemma to_index_ok fb px py :
  fb_ok fb → 0 ≤ px ≤ pixels_per_scanline (conf fb) →
  0 ≤ py < vertical_resolution (conf fb) →
  to_index (conf fb) px py = Ret (offset (conf fb) px py).
Proof.
  intros Hok Hx Hy. pose proof (offset_bounds fb px py Hok Hx Hy) as (? & ? & ? & ?).
  pose proof (fb_ok_size fb Hok). pose proof Hok as [? ? ? _].
  unfold to_index. rewrite bpp_4, !as_u_small by lia.
  rewrite usize_mul_ok, bind_Ret by lia. rewrite usize_add_ok, bind_Ret by lia.
  rewrite usize_mul_ok by lia. unfold offset. f_equal. lia.
Qed.

(** Two pixels with overlapping bytes are the same pixel. *)
Lemma offset_inj c px py qx qy k j :
  0 ≤ px < pixels_per_scanline c → 0 ≤ qx < pixels_per_scanline c → 0 ≤ k < 4 → 0 ≤ j < 4 →
  offset c px py + k = offset c qx qy + j → px = qx ∧ py = qy ∧ k = j.
Proof.
  unfold offset. intros Hp Hq Hk Hj H.
  assert (k = j) as -> by lia.
  assert (py * pixels_per_scanline c + px = qy * pixels_per_scanline c + qx) by lia.
  assert (py = qy) as -> by nia. lia.
Qed.

(** A pixel's bytes lie in the row segment [[a, b)] of row [r] or nowhere near it. *)
Lemma offset_in_row c px py a b r k :
  0 ≤ px < pixels_per_scanline c → 0 ≤ a ≤ b → b ≤ pixels_per_scanline c → 0 ≤ k < 4 →
  offset c a r ≤ offset c px py + k < offset c b r ↔ py = r ∧ a ≤ px < b.
Proof.
  unfold offset. intros Hp Ha Hb Hk. split.
  - intros H. assert (r * pixels_per_scanline c + a ≤ py * pixels_per_scanline c + px <
      r * pixels_per_scanline c + b) by lia.
    assert (py = r) as -> by nia. lia.
  - intros [-> ?]. lia.
Qed.

Lemma slice_ok l a b :
  0 ≤ a ≤ b → b ≤ zlen l → slice l a b = Ret (take (Z.to_nat (b - a)) (drop (Z.to_nat a) l)).
Proof.
  intros Ha Hb. unfold slice. by rewrite !(proj2 (Z.leb_le _ _)) by lia.
Qed.

Lemma slice_lookup (l : list Z) a b i :
  0 ≤ a → 0 ≤ i < b - a →
  take (Z.to_nat (b - a)) (drop (Z.to_nat a) l) !! Z.to_nat i = l !! Z.to_nat (a + i).
Proof.
  intros Ha Hi. rewrite lookup_take_lt, lookup_drop by lia. f_equal. lia.
Qed.

(** Replacing the middle of a list. *)
Lemma splice_lookup (l src : list Z) a i :
  0 ≤ a → a + zlen src ≤ zlen l → 0 ≤ i →
  (take (Z.to_nat a) l ++ src ++ drop (Z.to_nat (a + zlen src)) l) !! Z.to_nat i =
  if decide (a ≤ i < a + zlen src) then src !! Z.to_nat (i - a) else l !! Z.to_nat i.
Proof.
  intros Ha Hl Hi. assert (length (take (Z.to_nat a) l) = Z.to_nat a) as Hlen
    by (rewrite length_take; lia).
  case_decide.
  - rewrite lookup_app_r, lookup_app_l by lia. f_equal. lia.
  - destruct (decide (i < a)).
    + rewrite lookup_app_l, lookup_take_lt by lia. done.
    + rewrite !lookup_app_r, lookup_drop by lia. f_equal. lia.
Qed.

Lemma splice_length (l src : list Z) a :
  0 ≤ a → a + zlen src ≤ zlen l →
  length (take (Z.to_nat a) l ++ src ++ drop (Z.to_nat (a + zlen src)) l) = length l.
Proof. intros Ha Hl. rewrite !length_app, length_take, length_drop. lia. Qed.

(** ** Single pixels *)

Definition write_bytes (f : PixelFormat) (c : PixelColor) : list Z :=
  let '(r, g, b) := c in
  match f with
  | PixelRGBResv8BitPerColor => [r; g; b]
  | PixelBGRResv8BitPerColor => [b; g; r]
  end.

Lemma format_write_ok f c a0 a1 a2 l :
  format_write f c (a0 :: a1 :: a2 :: l) = Ret (write_bytes f c ++ l).
Proof.
  destruct c as [[r g] b]. unfold format_write, vset.
  destruct f; simpl;
    repeat (rewrite (proj2 (Z.ltb_lt _ _)) by lia; simpl); done.
Qed.

Lemma length_write_bytes f c : length (write_bytes f c) = 3%nat.
Proof. by destruct c as [[r g] b], f. Qed.

Lemma fb_write_bytes fb pos c :
  fb_ok fb → 0 ≤ x pos < pixels_per_scanline (conf fb) →
  0 ≤ y pos < vertical_resolution (conf fb) →
  let i := offset (conf fb) (x pos) (y pos) in
  let src := write_bytes (pixel_format (conf fb)) c in
  write fb pos c = Ret (with_bytes fb
    (take (Z.to_nat i) (bytes fb) ++ src ++ drop (Z.to_nat (i + zlen src)) (bytes fb))).
Proof.
  intros Hok Hx Hy i src.
  pose proof (offset_bounds fb (x pos) (y pos) Hok ltac:(lia) Hy) as (Hi0 & Hi & ? & ?).
  pose proof (fb_ok_size fb Hok). pose proof Hok as [? ? ? _]. fold i in Hi0, Hi.
  unfold write, FrameBuffer_writer. rewrite bpp_4, !as_u_small by lia.
  rewrite (usize_mul_ok (pixels_per_scanline _)), bind_Ret by lia.
  rewrite (usize_add_ok (_ * _)), bind_Ret by lia.
  rewrite (usize_mul_ok (_ * _ + _)), bind_Ret by lia.
  replace ((pixels_per_scanline (conf fb) * y pos + x pos) * 4) with i by (unfold i, offset; lia).
  rewrite slice_ok, bind_Ret by lia.
  rewrite (take_ge (drop (Z.to_nat i) (bytes fb))) by (rewrite length_drop; lia).
  assert (3 ≤ length (drop (Z.to_nat i) (bytes fb)))%nat as Hd by (rewrite length_drop; lia).
  unfold src. rewrite length_write_bytes.
  destruct (drop (Z.to_nat i) (bytes fb)) as [|a0 [|a1 [|a2 t]]] eqn:E; simpl in Hd; try lia.
  rewrite format_write_ok, bind_Ret. do 4 f_equal.
  replace (Z.to_nat (i + Z.of_nat 3)) with (Z.to_nat i + 3)%nat by lia.
  by rewrite <- drop_drop, E.
Qed.

(** A pixel is determined by its three bytes. *)
Lemma fb_pixel_ext fb fb' px py px' py' :
  pixel_format (conf fb) = pixel_format (conf fb') →
  (∀ k, 0 ≤ k < 3 → byte_at fb (offset (conf fb) px py + k) =
                    byte_at fb' (offset (conf fb') px' py' + k)) →
  fb_pixel fb px py = fb_pixel fb' px' py'.
Proof.
  intros Hf Hb. unfold fb_pixel. rewrite Hf.
  pose proof (Hb 0) as H0. rewrite !Z.add_0_r in H0.
  destruct (pixel_format (conf fb')); by rewrite H0, (Hb 1), (Hb 2) by lia.
Qed.

Lemma fb_pixel_bytes fb px py c :
  (∀ k, 0 ≤ k < 3 → write_bytes (pixel_format (conf fb)) c !! Z.to_nat k =
                    Some (byte_at fb (offset (conf fb) px py + k))) →
  fb_pixel fb px py = c.
Proof.
  intros Hb. unfold fb_pixel. destruct c as [[r g] b].
  pose proof (Hb 0 ltac:(lia)) as H0. rewrite Z.add_0_r in H0.
  pose proof (Hb 1 ltac:(lia)) as H1. pose proof (Hb 2 ltac:(lia)) as H2.
  destruct (pixel_format (conf fb)); simpl in *; simplify_eq; congruence.
Qed.

Lemma fb_write_spec fb pos c :
  fb_ok fb → 0 ≤ x pos < pixels_per_scanline (conf fb) →
  0 ≤ y pos < vertical_resolution (conf fb) →
  ∃ fb', write fb pos c = Ret fb' ∧ fb_ok fb' ∧ conf fb' = conf fb ∧
    ∀ px py, 0 ≤ px < pixels_per_scanline (conf fb) → 0 ≤ py < vertical_resolution (conf fb) →
      fb_pixel fb' px py = if decide (px = x pos ∧ py = y pos) then c else fb_pixel fb px py.
Proof.
  intros Hok Hx Hy. eexists. split; [by apply fb_write_bytes|].
  set (i := offset (conf fb) (x pos) (y pos)).
  set (src := write_bytes (pixel_format (conf fb)) c).
  pose proof (offset_bounds fb (x pos) (y pos) Hok ltac:(lia) Hy) as (Hi0 & Hi & ? & ?).
  fold i in Hi0, Hi.
  assert (zlen src = 3) as Hlen by (unfold src; by rewrite length_write_bytes).
  split; [apply fb_ok_with_bytes; [done|apply splice_length; lia]|].
  split; [done|]. intros px py Hpx Hpy.
  pose proof (offset_bounds fb px py Hok ltac:(lia) Hpy) as (? & ? & _).
  case_decide as Hd.
  - destruct Hd as [-> ->]. apply fb_pixel_bytes. intros k Hk.
    unfold byte_at. rewrite bytes_with_bytes. cbn [conf with_bytes].
    fold i src. rewrite splice_lookup, decide_True by lia.
    replace (i + k - i) with k by lia.
    destruct (lookup_lt_is_Some_2 src (Z.to_nat k)) as [v Hv]; [lia|]. by rewrite Hv.
  - apply fb_pixel_ext; [done|]. intros k Hk. unfold byte_at. rewrite bytes_with_bytes.
    cbn [conf with_bytes]. rewrite splice_lookup, decide_False; [done| |lia..].
    intros Hin. destruct (offset_inj (conf fb) px py (x pos) (y pos) k
      (offset (conf fb) px py + k - i)) as (? & ? & _); unfold i in *; lia.
Qed.

Lemma color_at_ok fb px py :
  fb_ok fb → 0 ≤ px < pixels_per_scanline (conf fb) →
  0 ≤ py < vertical_resolution (conf fb) → color_at fb px py = Ret (fb_pixel fb px py).
Proof.
  intros Hok Hx Hy. pose proof (offset_bounds fb px py Hok ltac:(lia) Hy) as (? & Hi & ? & ?).
  pose proof (fb_ok_size fb Hok). pose proof Hok as [? ? ? _].
  unfold color_at. rewrite !as_s_small by (done || (split; lia)).
  rewrite to_index_ok, bind_Ret by (done || lia).
  rewrite bpp_4, usize_add_ok, bind_Ret by lia. rewrite slice_ok, bind_Ret by lia.
  assert (∀ k, 0 ≤ k < 4 → vget (take (Z.to_nat (offset (conf fb) px py + 4 - offset (conf fb) px py))
    (drop (Z.to_nat (offset (conf fb) px py)) (bytes fb))) k =
    Ret (byte_at fb (offset (conf fb) px py + k))) as Hg.
  { intros k Hk. apply vget_ok; [lia|]. rewrite slice_lookup by lia. unfold byte_at.
    destruct (lookup_lt_is_Some_2 (bytes fb) (Z.to_nat (offset (conf fb) px py + k)))
      as [v ->]; [lia|done]. }
  unfold raw_to_color, fb_pixel.
  destruct (pixel_format (conf fb)); rewrite !Hg, Z.add_0_r by lia; done.
Qed.

#[export] Program Instance FrameBuffer_canvas : Canvas FrameBuffer := {|
  canvas_ok := fb_ok;
  canvas_size fb := (horizontal_resolution (conf fb), vertical_resolution (conf fb));
  pixel := fb_pixel;
|}.
Next Obligation. intros fb [? ? ? _]. simpl. lia. Qed.
Next Obligation.
  intros fb pos c Hok Hx Hy. simpl in *. pose proof Hok as [? ? ? _].
  destruct (fb_write_spec fb pos c Hok) as (fb' & E & Hok' & Hc & Hp); [lia..|].
  exists fb'. rewrite Hc. split_and!; try done. intros px py Hpx Hpy. apply Hp; lia.
Qed.

(** Writing a pixel and reading it back. A [write] at a visible position does
    not panic, [color_at] then returns the colour written there, in either pixel
    format, and the old colour at every other position. *)
Lemma write_color_at_roundtrip (fb : FrameBuffer) (pos : Vec2) (c : PixelColor) :
  fb_ok fb → 0 ≤ x pos < pixels_per_scanline (conf fb) →
  0 ≤ y pos < vertical_resolution (conf fb) →
  ∃ fb', write fb pos c = Ret fb' ∧ fb_ok fb' ∧ conf fb' = conf fb ∧
    color_at fb' (x pos) (y pos) = Ret c ∧
    ∀ px py, 0 ≤ px < pixels_per_scanline (conf fb) → 0 ≤ py < vertical_resolution (conf fb) →
      ¬ (px = x pos ∧ py = y pos) → color_at fb' px py = color_at fb px py.
Proof.
  intros Hok Hx Hy. destruct (fb_write_spec fb pos c Hok Hx Hy) as (fb' & E & Hok' & Hc & Hp).
  exists fb'. split_and!; try done.
  - rewrite color_at_ok by (rewrite ?Hc; done). by rewrite Hp, decide_True.
  - intros px py Hpx Hpy Hne. rewrite !color_at_ok by (rewrite ?Hc; done).
    by rewrite Hp, decide_False.
Qed.

(** ** Block copies *)

(** One row segment [[a, b)] of row [r] replaced by the bytes [src]: every pixel of the
    segment shows the corresponding bytes, every other pixel is unchanged. *)
Lemma splice_row fb src a b r :
  fb_ok fb → 0 ≤ a ≤ b → b ≤ pixels_per_scanline (conf fb) →
  0 ≤ r < vertical_resolution (conf fb) → zlen src = 4 * (b - a) →
  let o := offset (conf fb) a r in
  let fb' := with_bytes fb
    (take (Z.to_nat o) (bytes fb) ++ src ++ drop (Z.to_nat (o + zlen src)) (bytes fb)) in
  fb_ok fb' ∧
  ∀ px py, 0 ≤ px < pixels_per_scanline (conf fb) → 0 ≤ py < vertical_resolution (conf fb) →
    ∀ k, 0 ≤ k < 4 → byte_at fb' (offset (conf fb) px py + k) =
      if decide (py = r ∧ a ≤ px < b)
      then default 0 (src !! Z.to_nat (4 * (px - a) + k))
      else byte_at fb (offset (conf fb) px py + k).
Proof.
  intros Hok Ha Hb Hr Hlen o fb'.
  pose proof (offset_bounds fb a r Hok ltac:(lia) Hr) as (Ho0 & Ho & Hend & _).
  pose proof (offset_bounds fb b r Hok ltac:(lia) Hr) as (_ & Hob & _ & _).
  fold o in Ho0, Ho. split.
  { apply fb_ok_with_bytes; [done|]. apply splice_length; lia. }
  intros px py Hpx Hpy k Hk.
  pose proof (offset_bounds fb px py Hok ltac:(lia) Hpy) as (Hp0 & Hp & _ & _).
  pose proof (offset_in_row (conf fb) px py a b r k Hpx Ha Hb Hk) as Hrow. fold o in Hrow.
  unfold byte_at, fb'. rewrite bytes_with_bytes, splice_lookup by lia.
  case_decide as H1; case_decide as H2.
  - do 2 f_equal. destruct H2 as [-> ?]. lia.
  - exfalso. apply H2, Hrow. lia.
  - exfalso. apply H1. apply Hrow in H2. lia.
  - done.
Qed.

(** The row bytes [[a, b)] of row [r], as copied out of a buffer. *)
Lemma slice_row fb a b r :
  fb_ok fb → 0 ≤ a ≤ b → b ≤ pixels_per_scanline (conf fb) →
  0 ≤ r < vertical_resolution (conf fb) →
  ∃ src, slice (bytes fb) (offset (conf fb) a r) (offset (conf fb) b r) = Ret src ∧
    zlen src = 4 * (b - a) ∧
    ∀ px k, 0 ≤ px < b - a → 0 ≤ k < 4 →
      default 0 (src !! Z.to_nat (4 * px + k)) = byte_at fb (offset (conf fb) (a + px) r + k).
Proof.
  intros Hok Ha Hb Hr.
  pose proof (offset_bounds fb a r Hok ltac:(lia) Hr) as (Ho0 & Ho & Hend & _).
  pose proof (offset_bounds fb b r Hok ltac:(lia) Hr) as (_ & Hob & _ & _).
  rewrite slice_ok by lia. eexists. split; [done|].
  split; [rewrite length_take, length_drop; lia|].
  intros px k Hpx Hk. rewrite slice_lookup by lia. unfold byte_at. do 3 f_equal.
  unfold offset. lia.
Qed.

Definition same_conf (a b : FrameBuffer) : Prop := conf a = conf b.

(** The pixels of [fb'] are those [f] prescribes. *)
Definition shows (fb : FrameBuffer) (f : Z → Z → PixelColor) : Prop :=
  ∀ px py, 0 ≤ px < pixels_per_scanline (conf fb) → 0 ≤ py < vertical_resolution (conf fb) →
    fb_pixel fb px py = f px py.

(** Copying a row of [from] onto a row of [fb]. *)
Lemma copy_row fb from a b r a' r' :
  fb_ok fb → fb_ok from → pixel_format (conf from) = pixel_format (conf fb) →
  0 ≤ a ≤ b → b ≤ pixels_per_scanline (conf fb) → 0 ≤ r < vertical_resolution (conf fb) →
  0 ≤ a' → a' + (b - a) ≤ pixels_per_scanline (conf from) →
  0 ≤ r' < vertical_resolution (conf from) →
  ∃ src fb', slice (bytes from) (offset (conf from) a' r') (offset (conf from) (a' + (b - a)) r') = Ret src ∧
    zlen src = 4 * (b - a) ∧
    fb' = with_bytes fb (take (Z.to_nat (offset (conf fb) a r)) (bytes fb) ++ src ++
            drop (Z.to_nat (offset (conf fb) a r + zlen src)) (bytes fb)) ∧
    fb_ok fb' ∧
    shows fb' (λ px py, if decide (py = r ∧ a ≤ px < b)
      then fb_pixel from (px - a + a') r' else fb_pixel fb px py).
Proof.
  intros Hok Hokf Hf Ha Hb Hr Ha' Hb' Hr'.
  destruct (slice_row from a' (a' + (b - a)) r' Hokf) as (src & Hs & Hlen & Hsrc); [lia..|].
  exists src. eexists. split; [exact Hs|]. split; [lia|]. split; [done|].
  destruct (splice_row fb src a b r Hok Ha Hb Hr) as [Hok' Hpix]; [lia|].
  split; [exact Hok'|]. intros px py Hpx Hpy. cbn [with_bytes conf] in Hpx, Hpy.
  case_decide as Hd; apply fb_pixel_ext; cbn [with_bytes conf]; try done;
    intros k Hk; rewrite Hpix by lia.
  - rewrite decide_True by done. rewrite Hsrc by lia. do 3 f_equal. lia.
  - by rewrite decide_False.
Qed.

Lemma copy_from_slice_ok l o e src :
  0 ≤ o → e = o + zlen src → e ≤ zlen l →
  copy_from_slice l o e src =
    Ret (take (Z.to_nat o) l ++ src ++ drop (Z.to_nat (o + zlen src)) l).
Proof.
  intros Ho -> He. unfold copy_from_slice. rewrite slice_ok, bind_Ret by lia.
  by rewrite length_take, length_drop, (proj2 (Z.eqb_eq _ _)) by lia.
Qed.

(** The screen rectangle a source buffer covers when copied to [pos]. *)
Definition covers (pos : Vec2) (from : FrameBuffer) (px py : Z) : Prop :=
  x pos ≤ px < x pos + horizontal_resolution (conf from) ∧
  y pos ≤ py < y pos + vertical_resolution (conf from).

#[export] Instance covers_dec pos from px py : Decision (covers pos from px py).
Proof. unfold covers. apply _. Defined.

(** Invariant of the copy loop after the rows before [r]. *)
Definition copied_upto (fb from : FrameBuffer) (pos : Vec2) (m : Rect) (r : Z) (fb' : FrameBuffer) : Prop :=
  fb_ok fb' ∧ conf fb' = conf fb ∧
  shows fb' (λ px py, if decide (y1 m ≤ py < r ∧ x1 m ≤ px < x2 m)
    then fb_pixel from (px - x pos) (py - y pos) else fb_pixel fb px py).

Lemma zip_range_lookup a b a' b' i p :
  zip (range a b) (range a' b') !! i = Some p →
  p = (a + Z.of_nat i, a' + Z.of_nat i) ∧ a + Z.of_nat i < b ∧ a' + Z.of_nat i < b'.
Proof.
  destruct p as [z z']. intros [[-> ?]%range_lookup [-> ?]%range_lookup]%lookup_zip_Some.
  split; [done|]. lia.
Qed.

(** The pass of [copy] for one row. *)
Lemma copy_row_step fb from pos m i fb1 :
  fb_ok from → pixel_format (conf from) = pixel_format (conf fb) →
  0 ≤ x1 m < x2 m → x2 m ≤ horizontal_resolution (conf fb) → 0 ≤ y1 m →
  x pos ≤ x1 m → x2 m ≤ x pos + horizontal_resolution (conf from) →
  y pos ≤ y1 m → y2 m ≤ y pos + vertical_resolution (conf from) →
  y2 m ≤ vertical_resolution (conf fb) → 0 ≤ i < y2 m - y1 m →
  copied_upto fb from pos m (y1 m + i) fb1 →
  ∃ fb2, (to0 ← to_index (conf fb1) (x1 m) (y1 m + i);
    to1 ← to_index (conf fb1) (x2 m) (y1 m + i);
    from0 ← to_index (conf from) (x1 m + - x pos) (y1 m + - y pos + i);
    from1 ← to_index (conf from) (x2 m + - x pos) (y1 m + - y pos + i);
    src ← slice (bytes from) from0 from1;
    l ← copy_from_slice (bytes fb1) to0 to1 src;
    Ret (with_bytes fb1 l)) = Ret fb2 ∧ copied_upto fb from pos m (y1 m + i + 1) fb2.
Proof.
  intros Hokf Hf Hx Hxw Hy Hpx Hpx2 Hpy Hpy2 Hyh Hi (Hok1 & Hc1 & Hs1).
  pose proof Hok1 as [? ? ? _]. pose proof Hokf as [? ? ? _]. rewrite Hc1 in *.
  destruct (copy_row fb1 from (x1 m) (x2 m) (y1 m + i) (x1 m - x pos) (y1 m - y pos + i) Hok1 Hokf)
    as (src & fb2 & Hsrc & Hlen & -> & Hok2 & Hs2); rewrite ?Hc1; try done; try lia.
  rewrite <- Hc1, !to_index_ok, !bind_Ret by (rewrite ?Hc1; done || lia).
  replace (x1 m - x pos + (x2 m - x1 m)) with (x2 m + - x pos) in Hsrc by lia.
  replace (y1 m + - y pos + i) with (y1 m - y pos + i) by lia.
  replace (x1 m + - x pos) with (x1 m - x pos) by lia.
  rewrite Hsrc, bind_Ret.
  pose proof (offset_bounds fb1 (x1 m) (y1 m + i) Hok1) as (? & ? & ? & ?); [rewrite Hc1; lia..|].
  pose proof (offset_bounds fb1 (x2 m) (y1 m + i) Hok1) as (? & ? & ? & ?); [rewrite Hc1; lia..|].
  rewrite Hc1 in *.
  rewrite copy_from_slice_ok, bind_Ret by lia. eexists. split; [done|].
  split; [exact Hok2|]. split; [done|]. intros px py Hpx' Hpy'. cbn [with_bytes conf] in Hpx', Hpy'.
  rewrite Hs2 by done. case_decide as Hin.
  - rewrite decide_True by lia. destruct Hin as [-> ?]. f_equal; lia.
  - rewrite Hs1 by (rewrite ?Hc1 in *; done).
    destruct (decide (y1 m ≤ py < y1 m + i ∧ x1 m ≤ px < x2 m));
      [by rewrite decide_True by lia|by rewrite decide_False by lia].
Qed.

Lemma copy_ok fb pos from :
  fb_ok fb → fb_ok from → pixel_format (conf from) = pixel_format (conf fb) →
  - 2 ^ 31 < x pos → x pos + horizontal_resolution (conf from) < 2 ^ 31 →
  - 2 ^ 31 < y pos → y pos + vertical_resolution (conf from) < 2 ^ 31 →
  ∃ fb', copy fb pos from = Ret fb' ∧ fb_ok fb' ∧ conf fb' = conf fb ∧
    ∀ px py, 0 ≤ px < horizontal_resolution (conf fb) → 0 ≤ py < vertical_resolution (conf fb) →
      fb_pixel fb' px py =
      if decide (covers pos from px py) then fb_pixel from (px - x pos) (py - y pos)
      else fb_pixel fb px py.
Proof.
  intros Hok Hokf Hf Hx1 Hx2 Hy1 Hy2. pose proof Hok as [? ? ? _]. pose proof Hokf as [? ? ? _].
  unfold copy, from_wh. rewrite !as_s_small by (done || (split; lia)).
  rewrite !i32_add_ok, !bind_Ret by lia.
  destruct (intersection _ _) as [m|] eqn:Em.
  2:{ exists fb. split_and!; try done. intros px py Hpx Hpy. rewrite decide_False; [done|].
      intros [? ?]. eapply intersection_none with (px := px) (py := py) in Em; [done|..];
        unfold in_rect; simpl; lia. }
  apply intersection_some in Em. cbn [x1 x2 y1 y2] in Em.
  rewrite !i32_neg_ok, !bind_Ret by lia. unfold move_relative.
  rewrite !i32_add_ok, !bind_Ret by lia. cbn [x1 x2 y1 y2].
  match goal with |- context [foldM ?f ?l fb] =>
    destruct (foldM_inv (λ i, copied_upto fb from pos m (y1 m + Z.of_nat i)) f l fb)
      as (fb' & -> & Hok' & Hc' & Hs') end.
  - split_and!; try done. intros px py Hpx Hpy. by rewrite decide_False by lia.
  - intros i [yt yf] fb1 [Hp ?]%zip_range_lookup Hc. injection Hp as -> ->.
    destruct (copy_row_step fb from pos m (Z.of_nat i) fb1) as (fb2 & E & H2); try done; try lia.
    exists fb2. split; [exact E|]. by rewrite Nat2Z.inj_add, Z.add_assoc.
  - exists fb'. split_and!; try done. intros px py Hpx Hpy.
    rewrite Hs' by (rewrite Hc'; lia). rewrite length_zip_with, !range_length. unfold covers.
    destruct (decide (covers pos from px py)) as [Hd|Hd]; unfold covers in Hd.
    + rewrite !decide_True by lia. done.
    + rewrite !decide_False by lia. done.
Qed.

(** C33: [copy] blits a buffer at a signed position, clipped to the destination. For
    buffers of the same pixel format and any position whose right and bottom edges
    fit an [i32] it does not panic; every visible pixel covered by the source takes
    the source's colour, every other one keeps its own. *)
Theorem copy_blits (fb : FrameBuffer) (pos : Vec2) (from : FrameBuffer) :
  fb_ok fb → fb_ok from → pixel_format (conf from) = pixel_format (conf fb) →
  - 2 ^ 31 < x pos → x pos + horizontal_resolution (conf from) < 2 ^ 31 →
  - 2 ^ 31 < y pos → y pos + vertical_resolution (conf from) < 2 ^ 31 →
  ∃ fb', copy fb pos from = Ret fb' ∧ fb_ok fb' ∧ conf fb' = conf fb ∧
    ∀ px py, 0 ≤ px < horizontal_resolution (conf fb) → 0 ≤ py < vertical_resolution (conf fb) →
      fb_pixel fb' px py =
      if decide (covers pos from px py) then fb_pixel from (px - x pos) (py - y pos)
      else fb_pixel fb px py.
Proof. apply copy_ok. Qed.

(** *** [move_rect] *)

(** Both the source rectangle and its image lie inside the buffer. *)
Record move_fits (fb : FrameBuffer) (to : Vec2) (rect : Rect) : Prop := {
  mf_x : 0 ≤ x1 rect ≤ x2 rect;
  mf_w : x2 rect ≤ horizontal_resolution (conf fb);
  mf_y : 0 ≤ y1 rect ≤ y2 rect;
  mf_h : y2 rect ≤ vertical_resolution (conf fb);
  mf_tx : 0 ≤ x to;
  mf_tw : x to + (x2 rect - x1 rect) ≤ horizontal_resolution (conf fb);
  mf_ty : 0 ≤ y to;
  mf_th : y to + (y2 rect - y1 rect) ≤ vertical_resolution (conf fb);
  mf_i32 : x to + x2 rect < 2 ^ 31;
}.

Lemma copy_within_ok l a b dest src :
  slice l a b = Ret src → dest + zlen src ≤ zlen l →
  copy_within l a b dest =
    Ret (take (Z.to_nat dest) l ++ src ++ drop (Z.to_nat (dest + zlen src)) l).
Proof.
  intros Hs Hd. unfold copy_within. rewrite Hs, bind_Ret.
  by rewrite (proj2 (Z.leb_le _ _)) by lia.
Qed.

(** [fb'] is [fb] with the rows [lo .. hi] of the rectangle moved. *)
Definition moved (fb : FrameBuffer) (to : Vec2) (rect : Rect) (lo hi : Z) (fb' : FrameBuffer) : Prop :=
  fb_ok fb' ∧ conf fb' = conf fb ∧
  shows fb' (λ px py,
    if decide (y to + lo ≤ py < y to + hi ∧ x to ≤ px < x to + (x2 rect - x1 rect))
    then fb_pixel fb (px - x to + x1 rect) (py - y to + y1 rect) else fb_pixel fb px py).

Lemma move_row_ok fb to rect dy :
  fb_ok fb → move_fits fb to rect → 0 ≤ dy < y2 rect - y1 rect →
  ∃ fb', move_row to rect fb dy = Ret fb' ∧ moved fb to rect dy (dy + 1) fb'.
Proof.
  intros Hok [] Hdy. pose proof Hok as [? ? ? _].
  destruct (copy_row fb fb (x to) (x to + (x2 rect - x1 rect)) (y to + dy) (x1 rect) (y1 rect + dy))
    as (src & fb2 & Hsrc & Hlen & -> & Hok2 & Hs2); try done; try lia.
  pose proof (offset_bounds fb (x to) (y to + dy) Hok) as (? & ? & ? & ?); [lia..|].
  unfold move_row. rewrite !i32_add_ok, !bind_Ret by lia.
  rewrite (to_index_ok fb (x1 rect)), bind_Ret by (done || lia).
  rewrite (to_index_ok fb (x2 rect)), !bind_Ret by (done || lia).
  rewrite (to_index_ok fb (x to)), !bind_Ret by (done || lia).
  rewrite i32_sub_ok, bind_Ret, to_index_ok, bind_Ret by (done || lia).
  replace (x1 rect + (x to + (x2 rect - x1 rect) - x to)) with (x2 rect) in Hsrc by lia.
  rewrite !(Z.add_comm dy) in *. rewrite (copy_within_ok _ _ _ _ _ Hsrc), bind_Ret by lia.
  eexists. split; [done|]. split; [exact Hok2|]. split; [done|].
  intros px py Hpx Hpy. rewrite Hs2 by done. case_decide as Hd.
  - rewrite decide_True by lia. destruct Hd as [-> ?]. f_equal; lia.
  - by rewrite decide_False by lia.
Qed.

(** Moving one more row, when its source has not been overwritten yet. *)
Lemma moved_step fb to rect lo hi dy fb1 fb2 :
  fb_ok fb → move_fits fb to rect → 0 ≤ dy < y2 rect - y1 rect → lo ≤ hi →
  moved fb to rect lo hi fb1 → moved fb1 to rect dy (dy + 1) fb2 →
  (dy = hi ∧ y to ≤ y1 rect ∨ dy + 1 = lo ∧ y1 rect ≤ y to) →
  moved fb to rect (Z.min lo dy) (Z.max hi (dy + 1)) fb2.
Proof.
  intros Hok [] Hdy Hlh (Hok1 & Hc1 & Hs1) (Hok2 & Hc2 & Hs2) Hside. pose proof Hok as [? ? ? _].
  split; [done|]. split; [congruence|]. intros px py Hpx Hpy. rewrite Hs2 by done.
  rewrite Hc2, Hc1 in Hpx, Hpy.
  case_decide as Hd.
  - rewrite decide_True by lia. rewrite Hs1 by (rewrite Hc1; lia).
    by rewrite decide_False by lia.
  - rewrite Hs1 by (rewrite Hc1; lia).
    match goal with |- context [decide ?P] => destruct (decide P) as [Hin|Hin] end.
    + by rewrite decide_True by lia.
    + by rewrite decide_False by lia.
Qed.

Lemma move_fits_conf fb fb' to rect :
  conf fb' = conf fb → move_fits fb to rect → move_fits fb' to rect.
Proof. intros Hc []. split; rewrite ?Hc; done. Qed.

Lemma moved_none fb to rect lo : fb_ok fb → moved fb to rect lo lo fb.
Proof.
  intros Hok. split; [done|]. split; [done|]. intros px py _ _. by rewrite decide_False by lia.
Qed.

Lemma reverse_range_lookup h i z :
  reverse (range 0 h) !! i = Some z → z = h - 1 - Z.of_nat i ∧ 0 ≤ z < h.
Proof.
  intros Hz. pose proof (lookup_lt_Some _ _ _ Hz) as Hl. rewrite length_reverse, range_length in Hl.
  rewrite reverse_lookup in Hz by (rewrite range_length; lia).
  apply range_lookup in Hz as [-> ?]. rewrite range_length in *. lia.
Qed.

Lemma move_rect_ok fb to rect :
  fb_ok fb → move_fits fb to rect →
  ∃ fb', move_rect fb to rect = Ret fb' ∧ moved fb to rect 0 (y2 rect - y1 rect) fb'.
Proof.
  intros Hok Hm. pose proof Hok as [? ? ? _]. pose proof Hm as [].
  unfold move_rect, from_wh. rewrite !as_s_small by (done || (split; lia)).
  rewrite !i32_add_ok, !bind_Ret by lia.
  match goal with |- context [contained_by rect ?r] =>
    assert (contained_by rect r = true) as -> end.
  { unfold contained_by; cbn [x1 x2 y1 y2]. by rewrite !(proj2 (Z.leb_le _ _)) by lia. }
  cbn [assert_]. rewrite bind_Ret.
  rewrite i32_sub_ok, bind_Ret by lia. set (h := y2 rect - y1 rect) in *.
  destruct (Z.leb_spec (y to) (y1 rect)) as [Hle|Hgt].
  - destruct (foldM_inv (λ i, moved fb to rect 0 (Z.of_nat i)) (move_row to rect) (range 0 h) fb)
      as (fb' & E & Hmv).
    + by apply moved_none.
    + intros i dy fb1 [-> Hdy]%range_lookup Hmv1.
      destruct (move_row_ok fb1 to rect (0 + Z.of_nat i)) as (fb2 & E & Hmv2);
        [apply Hmv1|by eapply move_fits_conf; [apply Hmv1|]|done|].
      exists fb2. split; [done|].
      pose proof (moved_step fb to rect 0 (Z.of_nat i) (0 + Z.of_nat i) fb1 fb2 Hok Hm Hdy
        ltac:(lia) Hmv1 Hmv2 ltac:(lia)) as Hmv.
      revert Hmv. rewrite Z.min_l, Z.max_r by lia. by rewrite Nat2Z.inj_add.
    + exists fb'. split; [exact E|]. rewrite range_length in Hmv.
      by rewrite Z.sub_0_r, Z2Nat.id in Hmv by lia.
  - destruct (foldM_inv (λ i, moved fb to rect (h - Z.of_nat i) h) (move_row to rect)
      (reverse (range 0 h)) fb) as (fb' & E & Hmv).
    + rewrite Z.sub_0_r. by apply moved_none.
    + intros i dy fb1 [-> Hdy]%reverse_range_lookup Hmv1.
      destruct (move_row_ok fb1 to rect (h - 1 - Z.of_nat i)) as (fb2 & E & Hmv2);
        [apply Hmv1|by eapply move_fits_conf; [apply Hmv1|]|done|].
      exists fb2. split; [done|].
      pose proof (moved_step fb to rect (h - Z.of_nat i) h (h - 1 - Z.of_nat i) fb1 fb2 Hok Hm Hdy
        ltac:(lia) Hmv1 Hmv2 ltac:(lia)) as Hmv.
      revert Hmv. rewrite Z.min_r, Z.max_l by lia.
      by replace (h - 1 - Z.of_nat i) with (h - Z.of_nat (i + 1)) by lia.
    + exists fb'. split; [exact E|]. rewrite length_reverse, range_length in Hmv.
      by replace (h - Z.of_nat (Z.to_nat (h - 0))) with 0 in Hmv by lia.
Qed.

(** C32: [move_rect] moves a rectangle correctly even when source and destination
    overlap. If both fit the buffer it does not panic, every pixel of the destination
    shows the source pixel as it was before the call, and no other pixel changes. *)
Theorem move_rect_overlap_safe (fb : FrameBuffer) (to : Vec2) (rect : Rect) :
  fb_ok fb → move_fits fb to rect →
  ∃ fb', move_rect fb to rect = Ret fb' ∧ fb_ok fb' ∧ conf fb' = conf fb ∧
    ∀ px py, 0 ≤ px < pixels_per_scanline (conf fb) → 0 ≤ py < vertical_resolution (conf fb) →
      fb_pixel fb' px py =
      if decide (y to ≤ py < y to + (y2 rect - y1 rect) ∧ x to ≤ px < x to + (x2 rect - x1 rect))
      then fb_pixel fb (px - x to + x1 rect) (py - y to + y1 rect) else fb_pixel fb px py.
Proof.
  intros Hok Hm. destruct (move_rect_ok fb to rect Hok Hm) as (fb' & E & Hok' & Hc & Hs).
  exists fb'. split_and!; try done. intros px py Hpx Hpy.
  rewrite Hs by (rewrite Hc; done). by rewrite Z.add_0_r.
Qed.

(** ** Concrete runs *)

(** A buffer of 4 x 3 pixels with one pixel of padding per line. *)
Definition small_fb : FrameBuffer :=
  {| fb_data := Shadow (seqZ 0 60);
     conf := {| pixels_per_scanline := 5; horizontal_resolution := 4;
                vertical_resolution := 3; pixel_format := PixelBGRResv8BitPerColor |} |}.

Lemma small_fb_ok : fb_ok small_fb.
Proof. split; vm_compute; intuition congruence. Qed.

Lemma fill_rect_exact_witness :
  ∃ fb', fill_rect small_fb {| x := 1; y := 1 |} {| x := 2; y := 2 |} (7, 8, 9) = Ret fb' ∧
    painted small_fb (λ px py, 1 ≤ px < 1 + 2 ∧ 1 ≤ py < 1 + 2) (7, 8, 9) fb'.
Proof.
  apply (fill_rect_exact small_fb {| x := 1; y := 1 |} {| x := 2; y := 2 |} (7, 8, 9));
    [exact small_fb_ok|simpl; lia..].
Defined.

(** Row 0b10 and row 0b01 in the two high bits. *)
Definition diagonal : list Z := [2 ^ 63; 2 ^ 62].

Lemma diagonal_bits dx dy :
  0 ≤ dx < 64 → 0 ≤ dy → pattern_bit diagonal dx dy = true → dx = dy ∧ dy < 2.
Proof.
  intros Hdx Hdy. unfold pattern_bit, diagonal.
  destruct (Z.to_nat dy) as [|[|k]] eqn:E; simpl.
  - change (2 ^ 63) with (2 ^ (63 - 0)). rewrite Z.pow2_bits_eqb by lia.
    intros ?%Z.eqb_eq. lia.
  - change (2 ^ 62) with (2 ^ (63 - 1)). rewrite Z.pow2_bits_eqb by lia.
    intros ?%Z.eqb_eq. lia.
  - done.
Qed.

Lemma draw_bitpattern_exact_witness :
  ∃ fb', draw_bitpattern small_fb {| x := 1; y := 1 |} diagonal (7, 8, 9) 1 = Ret fb' ∧
    painted small_fb (in_pattern {| x := 1; y := 1 |} diagonal 1) (7, 8, 9) fb'.
Proof.
  apply (draw_bitpattern_exact small_fb {| x := 1; y := 1 |} diagonal (7, 8, 9) 1);
    [exact small_fb_ok|simpl; lia..|].
  intros dx dy Hdx Hdy Hb. pose proof (diagonal_bits dx dy Hdx Hdy Hb). simpl. lia.
Defined.

Lemma write_color_at_roundtrip_witness :
  ∃ fb', write small_fb {| x := 2; y := 1 |} (7, 8, 9) = Ret fb' ∧
    color_at fb' 2 1 = Ret (7, 8, 9).
Proof.
  destruct (write_color_at_roundtrip small_fb {| x := 2; y := 1 |} (7, 8, 9))
    as (fb' & E & _ & _ & Hc & _); [exact small_fb_ok|simpl; lia..|].
  exists fb'. split; [exact E|exact Hc].
Defined.

Lemma copy_blits_witness :
  ∃ fb', copy small_fb {| x := -1; y := 2 |} small_fb = Ret fb' ∧
    fb_pixel fb' 0 2 = fb_pixel small_fb 1 0 ∧ fb_pixel fb' 3 2 = fb_pixel small_fb 3 2.
Proof.
  destruct (copy_blits small_fb {| x := -1; y := 2 |} small_fb)
    as (fb' & E & _ & _ & Hp); [exact small_fb_ok|exact small_fb_ok|reflexivity|simpl; lia..|].
  exists fb'. split; [exact E|]. split; [apply (Hp 0 2); simpl; lia|apply (Hp 3 2); simpl; lia].
Defined.

Lemma move_rect_overlap_safe_witness :
  ∃ fb', move_rect small_fb {| x := 1; y := 1 |} {| x1 := 0; y1 := 0; x2 := 3; y2 := 2 |} = Ret fb' ∧
    fb_pixel fb' 1 2 = fb_pixel small_fb 0 1.
Proof.
  destruct (move_rect_overlap_safe small_fb {| x := 1; y := 1 |}
    {| x1 := 0; y1 := 0; x2 := 3; y2 := 2 |}) as (fb' & E & _ & _ & Hp);
    [exact small_fb_ok|split; simpl; lia|].
  exists fb'. split; [exact E|]. apply (Hp 1 2); simpl; lia.
Defined.
