(* ===== verification/FontData.v ===== *)
(** font.rs, FONTS: the 8x16 bitmap font, one byte per row, leftmost pixel in the high
    bit, in the order of the source and in groups of eight glyphs. A row is written
    with the binary digits of the source and read by [bin]. *)

From Stdlib Require Import Ascii String.
From stdpp Require Import strings.
From S2P Require Import Prelude.

(** The value of a [0b...] literal. *)
Fixpoint bin_from (acc : Z) (s : string) : Z :=
  match s with
  | EmptyString => acc
  | String c s => bin_from (2 * acc + if Ascii.eqb c "1"%char then 1 else 0) s
  end.

Definition glyphs (rows : list (list string)) : list (list Z) := map (map (bin_from 0)) rows.

#[local] Open Scope string_scope.

(** Glyphs 0 to 7. *)
Definition FONTS_0 : list (list Z) := glyphs
  [["00000000"; "00000000"; "00000000"; "00000000";
    "00000000"; "00000000"; "00000000"; "00000000";
    "00000000"; "00000000"; "00000000"; "00000000";
    "00000000"; "00000000"; "00000000"; "00000000"];
   ["00010000"; "00010000"; "00111000"; "00111000";
    "01111100"; "01111100"; "11111110"; "11111110";
    "01111100"; "01111100"; "00111000"; "00111000";
    "00010000"; "00010000"; "00000000"; "00000000"];
   ["01010101"; "10101010"; "01010101"; "10101010";
    "01010101"; "10101010"; "01010101"; "10101010";
    "01010101"; "10101010"; "01010101"; "10101010";
    "01010101"; "10101010"; "00000000"; "00000000"];
   ["00000000"; "10001000"; "10001000"; "10001000";
    "11111000"; "10001000"; "10001000"; "10001000";
    "00000000"; "00111110"; "00001000"; "00001000";
    "00001000"; "00001000"; "00001000"; "00001000"];
   ["00000000"; "11111000"; "10000000"; "10000000";
    "11110000"; "10000000"; "10000000"; "10000000";
    "00111110"; "00100000"; "00100000"; "00111100";
    "00100000"; "00100000"; "00100000"; "00000000"];
   ["00000000"; "01110000"; "10001000"; "10000000";
    "10000000"; "10000000"; "10001000"; "01110000";
    "00000000"; "00111100"; "00100010"; "00100010";
    "00111100"; "00101000"; "00100100"; "00100010"];
   ["00000000"; "10000000"; "10000000"; "10000000";
    "10000000"; "10000000"; "10000000"; "11111000";
    "00000000"; "00111110"; "00100000"; "00100000";
    "00111100"; "00100000"; "00100000"; "00100000"];
   ["00000000"; "00000000"; "00111000"; "01000100";
    "01000100"; "01000100"; "00111000"; "00000000";
    "00000000"; "00000000"; "00000000"; "00000000";
    "00000000"; "00000000"; "00000000"; "00000000"]]%list.

(** Glyphs 8 to 15. *)
Definition FONTS_1 : list (list Z) := glyphs
  [["00000000"; "00000000"; "00010000"; "00010000";
    "00010000"; "00010000"; "11111110"; "00010000";
    "00010000"; "00010000"; "00010000"; "00000000";
    "11111110"; "00000000"; "00000000"; "00000000"];
   ["00000000"; "10000100"; "11000100"; "10100100";
    "10100100"; "10010100"; "10010100"; "10001100";
    "10000100"; "00100000"; "00100000"; "00100000";
    "00100000"; "00100000"; "00100000"; "00111110"];
   ["00000000"; "00000000"; "10001000"; "10001000";
    "10001000"; "01010000"; "01010000"; "00100000";
    "00000000"; "00111110"; "00001000"; "00001000";
    "00001000"; "00001000"; "00001000"; "00000000"];
   ["00010000"; "00010000"; "00010000"; "00010000";
    "00010000"; "00010000"; "00010000"; "00010000";
    "11110000"; "00000000"; "00000000"; "00000000";
    "00000000"; "00000000"; "00000000"; "00000000"];
   ["00000000"; "00000000"; "00000000"; "00000000";
    "00000000"; "00000000"; "00000000"; "00000000";
    "11110000"; "00010000"; "00010000"; "00010000";
    "00010000"; "00010000"; "00010000"; "00010000"];
   ["00000000"; "00000000"; "00000000"; "00000000";
    "00000000"; "00000000"; "00000000"; "00000000";
    "00011111"; "00010000"; "00010000"; "00010000";
    "00010000"; "00010000"; "00010000"; "00010000"];
   ["00010000"; "00010000"; "00010000"; "00010000";
    "00010000"; "00010000"; "00010000"; "00010000";
    "00011111"; "00000000"; "00000000"; "00000000";
    "00000000"; "00000000"; "00000000"; "00000000"];
   ["00010000"; "00010000"; "00010000"; "00010000";
    "00010000"; "00010000"; "00010000"; "00010000";
    "11111111"; "00010000"; "00010000"; "00010000";
    "00010000"; "00010000"; "00010000"; "00010000"]]%list.

(** Glyphs 16 to 23. *)
Definition FONTS_2 : list (list Z) := glyphs
  [["00000000"; "00000000"; "11111111"; "00000000";
    "00000000"; "00000000"; "00000000"; "00000000";
    "00000000"; "00000000"; "00000000"; "00000000";
    "00000000"; "00000000"; "00000000"; "00000000"];
   ["00000000"; "00000000"; "00000000"; "00000000";
    "00000000"; "11111111"; "00000000"; "00000000";
    "00000000"; "00000000"; "00000000"; "00000000";
    "00000000"; "00000000"; "00000000"; "00000000"];
   ["00000000"; "00000000"; "00000000"; "00000000";
    "00000000"; "00000000"; "00000000"; "00000000";
    "11111111"; "00000000"; "00000000"; "00000000";
    "00000000"; "00000000"; "00000000"; "00000000"];
   ["00000000"; "00000000"; "00000000"; "00000000";
    "00000000"; "00000000"; "00000000"; "00000000";
    "00000000"; "00000000"; "00000000"; "11111111";
    "00000000"; "00000000"; "00000000"; "00000000"];
   ["00000000"; "00000000"; "00000000"; "00000000";
    "00000000"; "00000000"; "00000000"; "00000000";
    "00000000"; "00000000"; "00000000"; "00000000";
    "00000000"; "00000000"; "11111111"; "00000000"];
   ["00010000"; "00010000"; "00010000"; "00010000";
    "00010000"; "00010000"; "00010000"; "00010000";
    "00011111"; "00010000"; "00010000"; "00010000";
    "00010000"; "00010000"; "00010000"; "00010000"];
   ["00010000"; "00010000"; "00010000"; "00010000";
    "00010000"; "00010000"; "00010000"; "00010000";
    "11110000"; "00010000"; "00010000"; "00010000";
    "00010000"; "00010000"; "00010000"; "00010000"];
   ["00010000"; "00010000"; "00010000"; "00010000";
    "00010000"; "00010000"; "00010000"; "00010000";
    "11111111"; "00000000"; "00000000"; "00000000";
    "00000000"; "00000000"; "00000000"; "00000000"]]%list.

(** Glyphs 24 to 31. *)
Definition FONTS_3 : list (list Z) := glyphs
  [["00000000"; "00000000"; "00000000"; "00000000";
    "00000000"; "00000000"; "00000000"; "00000000";
    "11111111"; "00010000"; "00010000"; "00010000";
    "00010000"; "00010000"; "00010000"; "00010000"];
   ["00010000"; "00010000"; "00010000"; "00010000";
    "00010000"; "00010000"; "00010000"; "00010000";
    "00010000"; "00010000"; "00010000"; "00010000";
    "00010000"; "00010000"; "00010000"; "00010000"];
   ["00000000"; "00000000"; "00000010"; "00001100";
    "00110000"; "11000000"; "00110000"; "00001100";
    "00000010"; "00000000"; "11111110"; "00000000";
    "11111110"; "00000000"; "00000000"; "00000000"];
   ["00000000"; "00000000"; "00000000"; "10000000";
    "01100000"; "00011000"; "00000110"; "00011000";
    "01100000"; "10000000"; "11111110"; "00000000";
    "11111110"; "00000000"; "00000000"; "00000000"];
   ["00000000"; "00000000"; "00000000"; "00000000";
    "00000000"; "00000000"; "00000000"; "11111110";
    "00100100"; "00100100"; "00100100"; "00100100";
    "01000100"; "10000100"; "00000000"; "00000000"];
   ["00000000"; "00000000"; "00000000"; "00000000";
    "00000010"; "00000100"; "00001000"; "11111110";
    "00010000"; "11111110"; "00100000"; "01000000";
    "10000000"; "00000000"; "00000000"; "00000000"];
   ["00000000"; "00000000"; "00000000"; "00000000";
    "00001100"; "00010010"; "00010000"; "00010000";
    "00010000"; "01111100"; "00010000"; "00010000";
    "00111100"; "01010010"; "00100000"; "00000000"];
   ["00000000"; "00000000"; "00000000"; "00000000";
    "00000000"; "00000000"; "00000000"; "00000000";
    "00010000"; "00000000"; "00000000"; "00000000";
    "00000000"; "00000000"; "00000000"; "00000000"]]%list.

(** Glyphs 32 to 39. *)
Definition FONTS_4 : list (list Z) := glyphs
  [["00000000"; "00000000"; "00000000"; "00000000";
    "00000000"; "00000000"; "00000000"; "00000000";
    "00000000"; "00000000"; "00000000"; "00000000";
    "00000000"; "00000000"; "00000000"; "00000000"];
   ["00000000"; "00011000"; "00011000"; "00011000";
    "00011000"; "00010000"; "00010000"; "00010000";
    "00010000"; "00010000"; "00010000"; "00000000";
    "00000000"; "00010000"; "00010000"; "00000000"];
   ["01101100"; "00100100"; "00100100"; "01001000";
    "00000000"; "00000000"; "00000000"; "00000000";
    "00000000"; "00000000"; "00000000"; "00000000";
    "00000000"; "00000000"; "00000000"; "00000000"];
   ["00000000"; "00010010"; "00010010"; "00010010";
    "01111111"; "00100100"; "00100100"; "00100100";
    "00100100"; "00100100"; "11111110"; "01001000";
    "01001000"; "01001000"; "01001000"; "00000000"];
   ["00010000"; "00111000"; "01010100"; "10010010";
    "10010010"; "10010000"; "01010000"; "00111000";
    "00010100"; "00010010"; "10010010"; "10010010";
    "01010100"; "00111000"; "00010000"; "00010000"];
   ["00000001"; "01100001"; "10010010"; "10010010";
    "10010100"; "10010100"; "01101000"; "00001000";
    "00010000"; "00010110"; "00101001"; "00101001";
    "01001001"; "01001001"; "10000110"; "10000000"];
   ["00000000"; "00111000"; "01000100"; "01000100";
    "01000100"; "00101000"; "00010000"; "00110000";
    "01001010"; "10001010"; "10000100"; "10000100";
    "01001010"; "00110001"; "00000000"; "00000000"];
   ["01100000"; "00100000"; "00100000"; "01000000";
    "00000000"; "00000000"; "00000000"; "00000000";
    "00000000"; "00000000"; "00000000"; "00000000";
    "00000000"; "00000000"; "00000000"; "00000000"]]%list.

(** Glyphs 40 to 47. *)
Definition FONTS_5 : list (list Z) := glyphs
  [["00000000"; "00000010"; "00000100"; "00001000";
    "00001000"; "00010000"; "00010000"; "00010000";
    "00010000"; "00010000"; "00010000"; "00010000";
    "00001000"; "00001000"; "00000100"; "00000010"];
   ["00000000"; "01000000"; "00100000"; "00010000";
    "00010000"; "00001000"; "00001000"; "00001000";
    "00001000"; "00001000"; "00001000"; "00001000";
    "00010000"; "00010000"; "00100000"; "01000000"];
   ["00000000"; "00000000"; "00000000"; "00000000";
    "00010000"; "10010010"; "01010100"; "00111000";
    "01010100"; "10010010"; "00010000"; "00000000";
    "00000000"; "00000000"; "00000000"; "00000000"];
   ["00000000"; "00000000"; "00000000"; "00010000";
    "00010000"; "00010000"; "00010000"; "11111110";
    "00010000"; "00010000"; "00010000"; "00010000";
    "00000000"; "00000000"; "00000000"; "00000000"];
   ["00000000"; "00000000"; "00000000"; "00000000";
    "00000000"; "00000000"; "00000000"; "00000000";
    "00000000"; "00000000"; "00000000"; "00000000";
    "01100000"; "00100000"; "00100000"; "01000000"];
   ["00000000"; "00000000"; "00000000"; "00000000";
    "00000000"; "00000000"; "00000000"; "11111110";
    "00000000"; "00000000"; "00000000"; "00000000";
    "00000000"; "00000000"; "00000000"; "00000000"];
   ["00000000"; "00000000"; "00000000"; "00000000";
    "00000000"; "00000000"; "00000000"; "00000000";
    "00000000"; "00000000"; "00000000"; "00000000";
    "01100000"; "01100000"; "00000000"; "00000000"];
   ["00000000"; "00000010"; "00000010"; "00000100";
    "00000100"; "00001000"; "00001000"; "00010000";
    "00010000"; "00100000"; "00100000"; "01000000";
    "01000000"; "10000000"; "10000000"; "00000000"]]%list.

(** Glyphs 48 to 55. *)
Definition FONTS_6 : list (list Z) := glyphs
  [["00000000"; "00011000"; "00100100"; "00100100";
    "01000010"; "01000010"; "01000010"; "01000010";
    "01000010"; "01000010"; "01000010"; "00100100";
    "00100100"; "00011000"; "00000000"; "00000000"];
   ["00000000"; "00010000"; "00010000"; "00110000";
    "01010000"; "00010000"; "00010000"; "00010000";
    "00010000"; "00010000"; "00010000"; "00010000";
    "00010000"; "00010000"; "00000000"; "00000000"];
   ["00000000"; "00011000"; "00100100"; "01000010";
    "01000010"; "00000010"; "00000100"; "00001000";
    "00010000"; "00100000"; "00100000"; "01000000";
    "01000000"; "01111110"; "00000000"; "00000000"];
   ["00000000"; "00111000"; "01000100"; "10000010";
    "10000010"; "00000010"; "00000100"; "00111000";
    "00000100"; "00000010"; "10000010"; "10000010";
    "01000100"; "00111000"; "00000000"; "00000000"];
   ["00000000"; "00001000"; "00011000"; "00011000";
    "00101000"; "00101000"; "01001000"; "01001000";
    "10001000"; "11111110"; "00001000"; "00001000";
    "00001000"; "00001000"; "00000000"; "00000000"];
   ["00000000"; "01111100"; "01000000"; "01000000";
    "01000000"; "10111000"; "11000100"; "10000010";
    "00000010"; "00000010"; "10000010"; "10000010";
    "01000100"; "00111000"; "00000000"; "00000000"];
   ["00000000"; "00111000"; "01000100"; "01000000";
    "10000000"; "10000000"; "10111000"; "11000100";
    "10000010"; "10000010"; "10000010"; "10000010";
    "01000100"; "00111000"; "00000000"; "00000000"];
   ["00000000"; "11111110"; "00000010"; "00000100";
    "00000100"; "00001000"; "00001000"; "00001000";
    "00001000"; "00010000"; "00010000"; "00010000";
    "00010000"; "00010000"; "00010000"; "00000000"]]%list.

(** Glyphs 56 to 63. *)
Definition FONTS_7 : list (list Z) := glyphs
  [["00000000"; "00111000"; "01000100"; "10000010";
    "10000010"; "10000010"; "01000100"; "00111000";
    "01000100"; "10000010"; "10000010"; "10000010";
    "01000100"; "00111000"; "00000000"; "00000000"];
   ["00000000"; "00111000"; "01000100"; "10000010";
    "10000010"; "10000010"; "10000010"; "01000110";
    "00111010"; "00000010"; "00000010"; "10000010";
    "01000100"; "00111000"; "00000000"; "00000000"];
   ["00000000"; "00000000"; "00000000"; "00000000";
    "00011000"; "00011000"; "00000000"; "00000000";
    "00000000"; "00000000"; "00000000"; "00011000";
    "00011000"; "00000000"; "00000000"; "00000000"];
   ["00000000"; "00000000"; "00000000"; "00000000";
    "00011000"; "00011000"; "00000000"; "00000000";
    "00000000"; "00000000"; "00011000"; "00001000";
    "00001000"; "00010000"; "00000000"; "00000000"];
   ["00000000"; "00000000"; "00000000"; "00000010";
    "00000100"; "00001000"; "00010000"; "00100000";
    "00100000"; "00010000"; "00001000"; "00000100";
    "00000010"; "00000000"; "00000000"; "00000000"];
   ["00000000"; "00000000"; "00000000"; "00000000";
    "00000000"; "11111110"; "00000000"; "00000000";
    "00000000"; "11111110"; "00000000"; "00000000";
    "00000000"; "00000000"; "00000000"; "00000000"];
   ["00000000"; "00000000"; "00000000"; "01000000";
    "00100000"; "00010000"; "00001000"; "00000100";
    "00000100"; "00001000"; "00010000"; "00100000";
    "01000000"; "00000000"; "00000000"; "00000000"];
   ["00000000"; "00111000"; "01000100"; "10000010";
    "10000010"; "10000010"; "00000100"; "00001000";
    "00001000"; "00010000"; "00010000"; "00000000";
    "00000000"; "00010000"; "00010000"; "00000000"]]%list.

(** Glyphs 64 to 71. *)
Definition FONTS_8 : list (list Z) := glyphs
  [["00000000"; "00011000"; "00100100"; "01000010";
    "01011010"; "10110101"; "10100101"; "10100101";
    "10100101"; "10011010"; "01000000"; "01000000";
    "00100010"; "00011100"; "00000000"; "00000000"];
   ["00000000"; "00010000"; "00010000"; "00101000";
    "00101000"; "00101000"; "01000100"; "01000100";
    "01000100"; "01111100"; "10000010"; "10000010";
    "10000010"; "10000010"; "00000000"; "00000000"];
   ["00000000"; "11110000"; "10001000"; "10000100";
    "10000100"; "10000100"; "10001000"; "11111000";
    "10000100"; "10000010"; "10000010"; "10000010";
    "10000100"; "11111000"; "00000000"; "00000000"];
   ["00000000"; "00111000"; "01000100"; "01000010";
    "10000000"; "10000000"; "10000000"; "10000000";
    "10000000"; "10000000"; "10000000"; "01000010";
    "01000100"; "00111000"; "00000000"; "00000000"];
   ["00000000"; "11110000"; "10001000"; "10000100";
    "10000100"; "10000010"; "10000010"; "10000010";
    "10000010"; "10000010"; "10000100"; "10000100";
    "10001000"; "11110000"; "00000000"; "00000000"];
   ["00000000"; "11111110"; "10000000"; "10000000";
    "10000000"; "10000000"; "10000000"; "11111100";
    "10000000"; "10000000"; "10000000"; "10000000";
    "10000000"; "11111110"; "00000000"; "00000000"];
   ["00000000"; "11111110"; "10000000"; "10000000";
    "10000000"; "10000000"; "10000000"; "11111100";
    "10000000"; "10000000"; "10000000"; "10000000";
    "10000000"; "10000000"; "00000000"; "00000000"];
   ["00000000"; "00011000"; "00100100"; "01000010";
    "01000000"; "10000000"; "10000000"; "10001110";
    "10000010"; "10000010"; "10000010"; "01000010";
    "01100110"; "00011010"; "00000000"; "00000000"]]%list.

(** Glyphs 72 to 79. *)
Definition FONTS_9 : list (list Z) := glyphs
  [["00000000"; "10000010"; "10000010"; "10000010";
    "10000010"; "10000010"; "10000010"; "11111110";
    "10000010"; "10000010"; "10000010"; "10000010";
    "10000010"; "10000010"; "00000000"; "00000000"];
   ["00000000"; "00111000"; "00010000"; "00010000";
    "00010000"; "00010000"; "00010000"; "00010000";
    "00010000"; "00010000"; "00010000"; "00010000";
    "00010000"; "00111000"; "00000000"; "00000000"];
   ["00000000"; "00000010"; "00000010"; "00000010";
    "00000010"; "00000010"; "00000010"; "00000010";
    "00000010"; "00000010"; "00000010"; "01000010";
    "00100100"; "00011000"; "00000000"; "00000000"];
   ["00000000"; "01000010"; "01000010"; "01000100";
    "01000100"; "01001000"; "01011000"; "01101000";
    "01100100"; "01000100"; "01000010"; "01000010";
    "01000001"; "01000001"; "00000000"; "00000000"];
   ["00000000"; "01000000"; "01000000"; "01000000";
    "01000000"; "01000000"; "01000000"; "01000000";
    "01000000"; "01000000"; "01000000"; "01000000";
    "01000000"; "01111110"; "00000000"; "00000000"];
   ["00000000"; "10000010"; "10000010"; "11000110";
    "11000110"; "11000110"; "10101010"; "10101010";
    "10101010"; "10010010"; "10010010"; "10010010";
    "10010010"; "10000010"; "00000000"; "00000000"];
   ["00000000"; "10000010"; "11000010"; "11000010";
    "10100010"; "10100010"; "10010010"; "10010010";
    "10010010"; "10001010"; "10001010"; "10000110";
    "10000110"; "10000010"; "00000000"; "00000000"];
   ["00000000"; "00111000"; "01000100"; "01000100";
    "10000010"; "10000010"; "10000010"; "10000010";
    "10000010"; "10000010"; "10000010"; "01000100";
    "01000100"; "00111000"; "00000000"; "00000000"]]%list.

(** Glyphs 80 to 87. *)
Definition FONTS_10 : list (list Z) := glyphs
  [["00000000"; "11111000"; "10000100"; "10000010";
    "10000010"; "10000010"; "10000100"; "11111000";
    "10000000"; "10000000"; "10000000"; "10000000";
    "10000000"; "10000000"; "00000000"; "00000000"];
   ["00000000"; "00111000"; "01000100"; "01000100";
    "10000010"; "10000010"; "10000010"; "10000010";
    "10000010"; "10000010"; "10111010"; "01000100";
    "01000100"; "00111000"; "00001000"; "00000110"];
   ["00000000"; "11111000"; "10000100"; "10000010";
    "10000010"; "10000010"; "10000100"; "11111000";
    "10001000"; "10000100"; "10000100"; "10000100";
    "10000010"; "10000010"; "00000000"; "00000000"];
   ["00000000"; "00111000"; "01000100"; "10000010";
    "10000010"; "10000000"; "01100000"; "00011000";
    "00000100"; "00000010"; "10000010"; "10000010";
    "01000100"; "00111000"; "00000000"; "00000000"];
   ["00000000"; "11111110"; "00010000"; "00010000";
    "00010000"; "00010000"; "00010000"; "00010000";
    "00010000"; "00010000"; "00010000"; "00010000";
    "00010000"; "00010000"; "00000000"; "00000000"];
   ["00000000"; "10000010"; "10000010"; "10000010";
    "10000010"; "10000010"; "10000010"; "10000010";
    "10000010"; "10000010"; "10000010"; "10000010";
    "01000100"; "00111000"; "00000000"; "00000000"];
   ["00000000"; "10000010"; "10000010"; "10000010";
    "10000010"; "01000100"; "01000100"; "01000100";
    "00101000"; "00101000"; "00101000"; "00010000";
    "00010000"; "00010000"; "00000000"; "00000000"];
   ["00000000"; "10010010"; "10010010"; "10010010";
    "10010010"; "10010010"; "10010010"; "10101010";
    "10101010"; "01101100"; "01000100"; "01000100";
    "01000100"; "01000100"; "00000000"; "00000000"]]%list.

(** Glyphs 88 to 95. *)
Definition FONTS_11 : list (list Z) := glyphs
  [["00000000"; "10000010"; "01000100"; "01000100";
    "00101000"; "00101000"; "00010000"; "00101000";
    "00101000"; "00101000"; "01000100"; "01000100";
    "10000010"; "10000010"; "00000000"; "00000000"];
   ["00000000"; "10000010"; "10000010"; "01000100";
    "01000100"; "01000100"; "00101000"; "00101000";
    "00010000"; "00010000"; "00010000"; "00010000";
    "00010000"; "00010000"; "00000000"; "00000000"];
   ["00000000"; "11111110"; "00000100"; "00000100";
    "00001000"; "00001000"; "00010000"; "00010000";
    "00100000"; "00100000"; "01000000"; "01000000";
    "10000000"; "11111110"; "00000000"; "00000000"];
   ["00011110"; "00010000"; "00010000"; "00010000";
    "00010000"; "00010000"; "00010000"; "00010000";
    "00010000"; "00010000"; "00010000"; "00010000";
    "00010000"; "00010000"; "00010000"; "00011110"];
   ["00000000"; "10000000"; "10000000"; "01000000";
    "01000000"; "00100000"; "00100000"; "00010000";
    "00010000"; "00001000"; "00001000"; "00000100";
    "00000100"; "00000010"; "00000010"; "00000000"];
   ["11110000"; "00010000"; "00010000"; "00010000";
    "00010000"; "00010000"; "00010000"; "00010000";
    "00010000"; "00010000"; "00010000"; "00010000";
    "00010000"; "00010000"; "00010000"; "11110000"];
   ["00010000"; "00101000"; "01000100"; "10000010";
    "00000000"; "00000000"; "00000000"; "00000000";
    "00000000"; "00000000"; "00000000"; "00000000";
    "00000000"; "00000000"; "00000000"; "00000000"];
   ["00000000"; "00000000"; "00000000"; "00000000";
    "00000000"; "00000000"; "00000000"; "00000000";
    "00000000"; "00000000"; "00000000"; "00000000";
    "00000000"; "00000000"; "11111110"; "00000000"]]%list.

(** Glyphs 96 to 103. *)
Definition FONTS_12 : list (list Z) := glyphs
  [["00110000"; "00100000"; "00100000"; "00010000";
    "00000000"; "00000000"; "00000000"; "00000000";
    "00000000"; "00000000"; "00000000"; "00000000";
    "00000000"; "00000000"; "00000000"; "00000000"];
   ["00000000"; "00000000"; "00000000"; "00000000";
    "00000000"; "00111100"; "01000010"; "00000010";
    "00111110"; "01000010"; "10000010"; "10000010";
    "10000110"; "01111010"; "00000000"; "00000000"];
   ["00000000"; "10000000"; "10000000"; "10000000";
    "10000000"; "10111000"; "11000100"; "10000010";
    "10000010"; "10000010"; "10000010"; "10000010";
    "11000100"; "10111000"; "00000000"; "00000000"];
   ["00000000"; "00000000"; "00000000"; "00000000";
    "00000000"; "00111000"; "01000100"; "10000010";
    "10000000"; "10000000"; "10000000"; "10000010";
    "01000100"; "00111000"; "00000000"; "00000000"];
   ["00000000"; "00000010"; "00000010"; "00000010";
    "00000010"; "00111010"; "01000110"; "10000010";
    "10000010"; "10000010"; "10000010"; "10000010";
    "01000110"; "00111010"; "00000000"; "00000000"];
   ["00000000"; "00000000"; "00000000"; "00000000";
    "00000000"; "00111000"; "01000100"; "10000010";
    "10000010"; "11111110"; "10000000"; "10000010";
    "01000100"; "00111000"; "00000000"; "00000000"];
   ["00000000"; "00001100"; "00010000"; "00010000";
    "00010000"; "01111100"; "00010000"; "00010000";
    "00010000"; "00010000"; "00010000"; "00010000";
    "00010000"; "00010000"; "00000000"; "00000000"];
   ["00000000"; "00000000"; "00000000"; "00000000";
    "00000000"; "00111011"; "01000100"; "01000100";
    "01000100"; "00111000"; "01000000"; "01111000";
    "10000100"; "10000010"; "10000010"; "01111100"]]%list.

(** Glyphs 104 to 111. *)
Definition FONTS_13 : list (list Z) := glyphs
  [["00000000"; "01000000"; "01000000"; "01000000";
    "01000000"; "01011100"; "01100010"; "01000010";
    "01000010"; "01000010"; "01000010"; "01000010";
    "01000010"; "01000010"; "00000000"; "00000000"];
   ["00000000"; "00010000"; "00010000"; "00000000";
    "00000000"; "00110000"; "00010000"; "00010000";
    "00010000"; "00010000"; "00010000"; "00010000";
    "00010000"; "00010000"; "00000000"; "00000000"];
   ["00000000"; "00001000"; "00001000"; "00000000";
    "00000000"; "00011000"; "00001000"; "00001000";
    "00001000"; "00001000"; "00001000"; "00001000";
    "00001000"; "00001000"; "00010000"; "01100000"];
   ["00000000"; "01000000"; "01000000"; "01000000";
    "01000000"; "01000010"; "01000100"; "01001000";
    "01010000"; "01101000"; "01000100"; "01000100";
    "01000010"; "01000010"; "00000000"; "00000000"];
   ["00000000"; "00110000"; "00010000"; "00010000";
    "00010000"; "00010000"; "00010000"; "00010000";
    "00010000"; "00010000"; "00010000"; "00010000";
    "00010000"; "00010000"; "00000000"; "00000000"];
   ["00000000"; "00000000"; "00000000"; "00000000";
    "00000000"; "11101100"; "10010010"; "10010010";
    "10010010"; "10010010"; "10010010"; "10010010";
    "10010010"; "10010010"; "00000000"; "00000000"];
   ["00000000"; "00000000"; "00000000"; "00000000";
    "00000000"; "01011100"; "01100010"; "01000010";
    "01000010"; "01000010"; "01000010"; "01000010";
    "01000010"; "01000010"; "00000000"; "00000000"];
   ["00000000"; "00000000"; "00000000"; "00000000";
    "00000000"; "00111000"; "01000100"; "10000010";
    "10000010"; "10000010"; "10000010"; "10000010";
    "01000100"; "00111000"; "00000000"; "00000000"]]%list.

(** Glyphs 112 to 119. *)
Definition FONTS_14 : list (list Z) := glyphs
  [["00000000"; "00000000"; "00000000"; "00000000";
    "00000000"; "10111000"; "11000100"; "10000010";
    "10000010"; "10000010"; "10000010"; "11000100";
    "10111000"; "10000000"; "10000000"; "10000000"];
   ["00000000"; "00000000"; "00000000"; "00000000";
    "00000000"; "00111010"; "01000110"; "10000010";
    "10000010"; "10000010"; "10000010"; "01000110";
    "00111010"; "00000010"; "00000010"; "00000010"];
   ["00000000"; "00000000"; "00000000"; "00000000";
    "00000000"; "00101100"; "00110000"; "00100000";
    "00100000"; "00100000"; "00100000"; "00100000";
    "00100000"; "00100000"; "00000000"; "00000000"];
   ["00000000"; "00000000"; "00000000"; "00000000";
    "00000000"; "00111100"; "01000010"; "01000000";
    "01100000"; "00011000"; "00000110"; "00000010";
    "01000010"; "00111100"; "00000000"; "00000000"];
   ["00000000"; "00000000"; "00010000"; "00010000";
    "00010000"; "01111100"; "00010000"; "00010000";
    "00010000"; "00010000"; "00010000"; "00010000";
    "00010000"; "00001100"; "00000000"; "00000000"];
   ["00000000"; "00000000"; "00000000"; "00000000";
    "00000000"; "01000010"; "01000010"; "01000010";
    "01000010"; "01000010"; "01000010"; "01000010";
    "01000110"; "00111010"; "00000000"; "00000000"];
   ["00000000"; "00000000"; "00000000"; "00000000";
    "00000000"; "10000010"; "10000010"; "10000010";
    "01000100"; "01000100"; "00101000"; "00101000";
    "00010000"; "00010000"; "00000000"; "00000000"];
   ["00000000"; "00000000"; "00000000"; "00000000";
    "00000000"; "10010010"; "10010010"; "10010010";
    "10010010"; "10101010"; "10101010"; "01000100";
    "01000100"; "01000100"; "00000000"; "00000000"]]%list.

(** Glyphs 120 to 127. *)
Definition FONTS_15 : list (list Z) := glyphs
  [["00000000"; "00000000"; "00000000"; "00000000";
    "00000000"; "10000010"; "01000100"; "00101000";
    "00101000"; "00010000"; "00101000"; "00101000";
    "01000100"; "10000010"; "00000000"; "00000000"];
   ["00000000"; "00000000"; "00000000"; "00000000";
    "00000000"; "10000010"; "10000010"; "01000100";
    "01000100"; "00101000"; "00101000"; "00011000";
    "00010000"; "00010000"; "00100000"; "11000000"];
   ["00000000"; "00000000"; "00000000"; "00000000";
    "00000000"; "01111110"; "00000100"; "00001000";
    "00001000"; "00010000"; "00010000"; "00100000";
    "01000000"; "11111110"; "00000000"; "00000000"];
   ["00000100"; "00001000"; "00001000"; "00001000";
    "00001000"; "00001000"; "00001000"; "00010000";
    "00001000"; "00001000"; "00001000"; "00001000";
    "00001000"; "00001000"; "00001000"; "00000100"];
   ["00010000"; "00010000"; "00010000"; "00010000";
    "00010000"; "00010000"; "00010000"; "00010000";
    "00010000"; "00010000"; "00010000"; "00010000";
    "00010000"; "00010000"; "00010000"; "00010000"];
   ["01000000"; "00100000"; "00100000"; "00100000";
    "00100000"; "00100000"; "00100000"; "00010000";
    "00100000"; "00100000"; "00100000"; "00100000";
    "00100000"; "00100000"; "00100000"; "01000000"];
   ["00000000"; "00000000"; "00000000"; "01100000";
    "10010010"; "00001100"; "00000000"; "00000000";
    "00000000"; "00000000"; "00000000"; "00000000";
    "00000000"; "00000000"; "00000000"; "00000000"];
   ["00000000"; "00000000"; "00000000"; "00000000";
    "00000000"; "00000000"; "00000000"; "00000000";
    "00000000"; "00000000"; "00000000"; "00000000";
    "00000000"; "00000000"; "00000000"; "00000000"]]%list.

(** Glyphs 128 to 135. *)
Definition FONTS_16 : list (list Z) := glyphs
  [["00000000"; "00000000"; "00000000"; "00000000";
    "00000000"; "00000000"; "00000000"; "00000000";
    "00000000"; "00000000"; "00000000"; "00000000";
    "00000000"; "00000000"; "00000000"; "00000000"];
   ["00000000"; "00000000"; "00000000"; "00000000";
    "00000000"; "00000000"; "00000000"; "00000000";
    "00000000"; "00000000"; "00000000"; "00000000";
    "00000000"; "00000000"; "00000000"; "00000000"];
   ["00000000"; "00000000"; "00000000"; "00000000";
    "00000000"; "00000000"; "00000000"; "00000000";
    "00000000"; "00000000"; "00000000"; "00000000";
    "00000000"; "00000000"; "00000000"; "00000000"];
   ["00000000"; "00000000"; "00000000"; "00000000";
    "00000000"; "00000000"; "00000000"; "00000000";
    "00000000"; "00000000"; "00000000"; "00000000";
    "00000000"; "00000000"; "00000000"; "00000000"];
   ["00000000"; "00000000"; "00000000"; "00000000";
    "00000000"; "00000000"; "00000000"; "00000000";
    "00000000"; "00000000"; "00000000"; "00000000";
    "00000000"; "00000000"; "00000000"; "00000000"];
   ["00000000"; "00000000"; "00000000"; "00000000";
    "00000000"; "00000000"; "00000000"; "00000000";
    "00000000"; "00000000"; "00000000"; "00000000";
    "00000000"; "00000000"; "00000000"; "00000000"];
   ["00000000"; "00000000"; "00000000"; "00000000";
    "00000000"; "00000000"; "00000000"; "00000000";
    "00000000"; "00000000"; "00000000"; "00000000";
    "00000000"; "00000000"; "00000000"; "00000000"];
   ["00000000"; "00000000"; "00000000"; "00000000";
    "00000000"; "00000000"; "00000000"; "00000000";
    "00000000"; "00000000"; "00000000"; "00000000";
    "00000000"; "00000000"; "00000000"; "00000000"]]%list.

(** Glyphs 136 to 143. *)
Definition FONTS_17 : list (list Z) := glyphs
  [["00000000"; "00000000"; "00000000"; "00000000";
    "00000000"; "00000000"; "00000000"; "00000000";
    "00000000"; "00000000"; "00000000"; "00000000";
    "00000000"; "00000000"; "00000000"; "00000000"];
   ["00000000"; "00000000"; "00000000"; "00000000";
    "00000000"; "00000000"; "00000000"; "00000000";
    "00000000"; "00000000"; "00000000"; "00000000";
    "00000000"; "00000000"; "00000000"; "00000000"];
   ["00000000"; "00000000"; "00000000"; "00000000";
    "00000000"; "00000000"; "00000000"; "00000000";
    "00000000"; "00000000"; "00000000"; "00000000";
    "00000000"; "00000000"; "00000000"; "00000000"];
   ["00000000"; "00000000"; "00000000"; "00000000";
    "00000000"; "00000000"; "00000000"; "00000000";
    "00000000"; "00000000"; "00000000"; "00000000";
    "00000000"; "00000000"; "00000000"; "00000000"];
   ["00000000"; "00000000"; "00000000"; "00000000";
    "00000000"; "00000000"; "00000000"; "00000000";
    "00000000"; "00000000"; "00000000"; "00000000";
    "00000000"; "00000000"; "00000000"; "00000000"];
   ["00000000"; "00000000"; "00000000"; "00000000";
    "00000000"; "00000000"; "00000000"; "00000000";
    "00000000"; "00000000"; "00000000"; "00000000";
    "00000000"; "00000000"; "00000000"; "00000000"];
   ["00000000"; "00000000"; "00000000"; "00000000";
    "00000000"; "00000000"; "00000000"; "00000000";
    "00000000"; "00000000"; "00000000"; "00000000";
    "00000000"; "00000000"; "00000000"; "00000000"];
   ["00000000"; "00000000"; "00000000"; "00000000";
    "00000000"; "00000000"; "00000000"; "00000000";
    "00000000"; "00000000"; "00000000"; "00000000";
    "00000000"; "00000000"; "00000000"; "00000000"]]%list.

(** Glyphs 144 to 151. *)
Definition FONTS_18 : list (list Z) := glyphs
  [["00000000"; "00000000"; "00000000"; "00000000";
    "00000000"; "00000000"; "00000000"; "00000000";
    "00000000"; "00000000"; "00000000"; "00000000";
    "00000000"; "00000000"; "00000000"; "00000000"];
   ["00000000"; "00000000"; "00000000"; "00000000";
    "00000000"; "00000000"; "00000000"; "00000000";
    "00000000"; "00000000"; "00000000"; "00000000";
    "00000000"; "00000000"; "00000000"; "00000000"];
   ["00000000"; "00000000"; "00000000"; "00000000";
    "00000000"; "00000000"; "00000000"; "00000000";
    "00000000"; "00000000"; "00000000"; "00000000";
    "00000000"; "00000000"; "00000000"; "00000000"];
   ["00000000"; "00000000"; "00000000"; "00000000";
    "00000000"; "00000000"; "00000000"; "00000000";
    "00000000"; "00000000"; "00000000"; "00000000";
    "00000000"; "00000000"; "00000000"; "00000000"];
   ["00000000"; "00000000"; "00000000"; "00000000";
    "00000000"; "00000000"; "00000000"; "00000000";
    "00000000"; "00000000"; "00000000"; "00000000";
    "00000000"; "00000000"; "00000000"; "00000000"];
   ["00000000"; "00000000"; "00000000"; "00000000";
    "00000000"; "00000000"; "00000000"; "00000000";
    "00000000"; "00000000"; "00000000"; "00000000";
    "00000000"; "00000000"; "00000000"; "00000000"];
   ["00000000"; "00000000"; "00000000"; "00000000";
    "00000000"; "00000000"; "00000000"; "00000000";
    "00000000"; "00000000"; "00000000"; "00000000";
    "00000000"; "00000000"; "00000000"; "00000000"];
   ["00000000"; "00000000"; "00000000"; "00000000";
    "00000000"; "00000000"; "00000000"; "00000000";
    "00000000"; "00000000"; "00000000"; "00000000";
    "00000000"; "00000000"; "00000000"; "00000000"]]%list.

(** Glyphs 152 to 159. *)
Definition FONTS_19 : list (list Z) := glyphs
  [["00000000"; "00000000"; "00000000"; "00000000";
    "00000000"; "00000000"; "00000000"; "00000000";
    "00000000"; "00000000"; "00000000"; "00000000";
    "00000000"; "00000000"; "00000000"; "00000000"];
   ["00000000"; "00000000"; "00000000"; "00000000";
    "00000000"; "00000000"; "00000000"; "00000000";
    "00000000"; "00000000"; "00000000"; "00000000";
    "00000000"; "00000000"; "00000000"; "00000000"];
   ["00000000"; "00000000"; "00000000"; "00000000";
    "00000000"; "00000000"; "00000000"; "00000000";
    "00000000"; "00000000"; "00000000"; "00000000";
    "00000000"; "00000000"; "00000000"; "00000000"];
   ["00000000"; "00000000"; "00000000"; "00000000";
    "00000000"; "00000000"; "00000000"; "00000000";
    "00000000"; "00000000"; "00000000"; "00000000";
    "00000000"; "00000000"; "00000000"; "00000000"];
   ["00000000"; "00000000"; "00000000"; "00000000";
    "00000000"; "00000000"; "00000000"; "00000000";
    "00000000"; "00000000"; "00000000"; "00000000";
    "00000000"; "00000000"; "00000000"; "00000000"];
   ["00000000"; "00000000"; "00000000"; "00000000";
    "00000000"; "00000000"; "00000000"; "00000000";
    "00000000"; "00000000"; "00000000"; "00000000";
    "00000000"; "00000000"; "00000000"; "00000000"];
   ["00000000"; "00000000"; "00000000"; "00000000";
    "00000000"; "00000000"; "00000000"; "00000000";
    "00000000"; "00000000"; "00000000"; "00000000";
    "00000000"; "00000000"; "00000000"; "00000000"];
   ["00000000"; "00000000"; "00000000"; "00000000";
    "00000000"; "00000000"; "00000000"; "00000000";
    "00000000"; "00000000"; "00000000"; "00000000";
    "00000000"; "00000000"; "00000000"; "00000000"]]%list.

(** Glyphs 160 to 167. *)
Definition FONTS_20 : list (list Z) := glyphs
  [["00000000"; "00000000"; "00000000"; "00000000";
    "00000000"; "00000000"; "00000000"; "00000000";
    "00000000"; "00000000"; "00000000"; "00000000";
    "00000000"; "00000000"; "00000000"; "00000000"];
   ["00000000"; "00000000"; "00000000"; "00000000";
    "00000000"; "00000000"; "00000000"; "00000000";
    "00000000"; "00000000"; "00000000"; "00100000";
    "01010000"; "01010000"; "00100000"; "00000000"];
   ["00000000"; "00111110"; "00100000"; "00100000";
    "00100000"; "00100000"; "00100000"; "00100000";
    "00100000"; "00100000"; "00000000"; "00000000";
    "00000000"; "00000000"; "00000000"; "00000000"];
   ["00000000"; "00000000"; "00000000"; "00000000";
    "00000000"; "00000000"; "00010000"; "00010000";
    "00010000"; "00010000"; "00010000"; "00010000";
    "00010000"; "00010000"; "11110000"; "00000000"];
   ["00000000"; "00000000"; "00000000"; "00000000";
    "00000000"; "00000000"; "00000000"; "00000000";
    "00000000"; "00000000"; "00000000"; "00000000";
    "00100000"; "00010000"; "00010000"; "00000000"];
   ["00000000"; "00000000"; "00000000"; "00000000";
    "00000000"; "00000000"; "00000000"; "00011000";
    "00011000"; "00000000"; "00000000"; "00000000";
    "00000000"; "00000000"; "00000000"; "00000000"];
   ["00000000"; "00000000"; "01111110"; "00000010";
    "00000010"; "00000010"; "01111110"; "00000100";
    "00000100"; "00001000"; "00001000"; "00010000";
    "00100000"; "01000000"; "00000000"; "00000000"];
   ["00000000"; "00000000"; "00000000"; "00000000";
    "00000000"; "00000000"; "00000000"; "11111100";
    "00100100"; "00101000"; "00110000"; "00100000";
    "01000000"; "01000000"; "10000000"; "00000000"]]%list.

(** Glyphs 168 to 175. *)
Definition FONTS_21 : list (list Z) := glyphs
  [["00000000"; "00000000"; "00000000"; "00000000";
    "00000000"; "00000000"; "00001000"; "00001000";
    "00010000"; "00110000"; "01010000"; "10010000";
    "00010000"; "00010000"; "00010000"; "00000000"];
   ["00000000"; "00000000"; "00000000"; "00000000";
    "00000000"; "00000000"; "00100000"; "00100000";
    "11111100"; "10000100"; "10000100"; "10001000";
    "00001000"; "00010000"; "00100000"; "00000000"];
   ["00000000"; "00000000"; "00000000"; "00000000";
    "00000000"; "00000000"; "00000000"; "00000000";
    "01111100"; "00010000"; "00010000"; "00010000";
    "00010000"; "11111110"; "00000000"; "00000000"];
   ["00000000"; "00000000"; "00000000"; "00000000";
    "00000000"; "00000000"; "00001000"; "00001000";
    "11111110"; "00001000"; "00011000"; "00101000";
    "01001000"; "10001000"; "00011000"; "00000000"];
   ["00000000"; "00000000"; "00000000"; "00000000";
    "00000000"; "00000000"; "01000000"; "00100000";
    "00111110"; "11100100"; "00101000"; "00010000";
    "00010000"; "00010000"; "00000000"; "00000000"];
   ["00000000"; "00000000"; "00000000"; "00000000";
    "00000000"; "00000000"; "00000000"; "00000000";
    "01111000"; "00001000"; "00001000"; "00001000";
    "11111110"; "00000000"; "00000000"; "00000000"];
   ["00000000"; "00000000"; "00000000"; "00000000";
    "00000000"; "00000000"; "00000000"; "01111100";
    "00000100"; "00000100"; "01111100"; "00000100";
    "00000100"; "01111100"; "00000000"; "00000000"];
   ["00000000"; "00000000"; "00000000"; "00000000";
    "00000000"; "00000000"; "00100100"; "10010100";
    "01010100"; "01000100"; "00001000"; "00001000";
    "00010000"; "00100000"; "00000000"; "00000000"]]%list.

(** Glyphs 176 to 183. *)
Definition FONTS_22 : list (list Z) := glyphs
  [["00000000"; "00000000"; "00000000"; "00000000";
    "00000000"; "00000000"; "00111100"; "00000000";
    "00000000"; "00000000"; "00000000"; "00000000";
    "00000000"; "00000000"; "00000000"; "00000000"];
   ["00000000"; "00000000"; "11111110"; "00000010";
    "00010010"; "00010010"; "00010100"; "00011000";
    "00010000"; "00010000"; "00100000"; "00100000";
    "01000000"; "10000000"; "00000000"; "00000000"];
   ["00000000"; "00000010"; "00000010"; "00000100";
    "00000100"; "00001000"; "00011000"; "00101000";
    "01001000"; "10001000"; "00001000"; "00001000";
    "00001000"; "00001000"; "00000000"; "00000000"];
   ["00000000"; "00010000"; "00010000"; "00010000";
    "11111110"; "10000010"; "10000010"; "10000010";
    "10000010"; "00000100"; "00000100"; "00001000";
    "00010000"; "00100000"; "00000000"; "00000000"];
   ["00000000"; "00000000"; "00000000"; "11111110";
    "00010000"; "00010000"; "00010000"; "00010000";
    "00010000"; "00010000"; "00010000"; "00010000";
    "11111111"; "00000000"; "00000000"; "00000000"];
   ["00000000"; "00001000"; "00001000"; "00001000";
    "11111110"; "00001000"; "00011000"; "00011000";
    "00101000"; "00101000"; "01001000"; "10001000";
    "00001000"; "00011000"; "00000000"; "00000000"];
   ["00000000"; "00010000"; "00010000"; "00010000";
    "11111110"; "00010010"; "00010010"; "00010010";
    "00010010"; "00100010"; "00100010"; "00100010";
    "01000010"; "10001100"; "00000000"; "00000000"];
   ["00000000"; "00100000"; "00100000"; "00111100";
    "11100000"; "00010000"; "00010000"; "00011110";
    "11110000"; "00001000"; "00001000"; "00001000";
    "00001000"; "00001000"; "00000000"; "00000000"]]%list.

(** Glyphs 184 to 191. *)
Definition FONTS_23 : list (list Z) := glyphs
  [["00000000"; "00100000"; "00100000"; "00111110";
    "00100010"; "00100010"; "01000010"; "01000100";
    "10000100"; "00001000"; "00001000"; "00010000";
    "00100000"; "01000000"; "00000000"; "00000000"];
   ["00000000"; "01000000"; "01000000"; "01000000";
    "01111110"; "01001000"; "01001000"; "01001000";
    "10001000"; "00001000"; "00010000"; "00010000";
    "00100000"; "01000000"; "00000000"; "00000000"];
   ["00000000"; "00000000"; "00000000"; "11111110";
    "00000010"; "00000010"; "00000010"; "00000010";
    "00000010"; "00000010"; "00000010"; "11111110";
    "00000010"; "00000000"; "00000000"; "00000000"];
   ["00000000"; "00100100"; "00100100"; "00100100";
    "00100100"; "11111110"; "00100100"; "00100100";
    "00100100"; "00100100"; "00000100"; "00001000";
    "00010000"; "00100000"; "00000000"; "00000000"];
   ["00000000"; "00000000"; "01100000"; "00010000";
    "00000000"; "00000000"; "11000010"; "00100010";
    "00000100"; "00000100"; "00001000"; "00010000";
    "00100000"; "11000000"; "00000000"; "00000000"];
   ["00000000"; "00000000"; "00000000"; "11111110";
    "00000100"; "00000100"; "00000100"; "00001000";
    "00001000"; "00011000"; "00010100"; "00100100";
    "01000010"; "10000010"; "00000000"; "00000000"];
   ["00000000"; "01000000"; "01000000"; "01000000";
    "01000000"; "01001110"; "01110010"; "11000100";
    "01001000"; "01000000"; "01000000"; "01000000";
    "01000000"; "00111110"; "00000000"; "00000000"];
   ["00000000"; "00000000"; "00000010"; "10000010";
    "01000010"; "01000010"; "01000010"; "00000100";
    "00000100"; "00001000"; "00001000"; "00010000";
    "00100000"; "01000000"; "00000000"; "00000000"]]%list.

(** Glyphs 192 to 199. *)
Definition FONTS_24 : list (list Z) := glyphs
  [["00000000"; "00100000"; "00100000"; "00111110";
    "00100010"; "01000010"; "01100010"; "01010100";
    "10001100"; "00001000"; "00001000"; "00010000";
    "00100000"; "01000000"; "00000000"; "00000000"];
   ["00000000"; "00000010"; "00001100"; "01111000";
    "00001000"; "00001000"; "11111111"; "00001000";
    "00001000"; "00001000"; "00001000"; "00010000";
    "00100000"; "01000000"; "00000000"; "00000000"];
   ["00000000"; "00000000"; "00100000"; "00100010";
    "10010010"; "10010010"; "01000010"; "01000100";
    "00000100"; "00001000"; "00001000"; "00010000";
    "00100000"; "01000000"; "00000000"; "00000000"];
   ["00000000"; "00000000"; "01111110"; "00000000";
    "00000000"; "00000000"; "11111110"; "00001000";
    "00001000"; "00001000"; "00001000"; "00010000";
    "00100000"; "01000000"; "00000000"; "00000000"];
   ["00000000"; "00100000"; "00100000"; "00100000";
    "00100000"; "00110000"; "00101000"; "00100100";
    "00100010"; "00100010"; "00100000"; "00100000";
    "00100000"; "00100000"; "00000000"; "00000000"];
   ["00000000"; "00001000"; "00001000"; "00001000";
    "11111110"; "00001000"; "00001000"; "00001000";
    "00001000"; "00001000"; "00010000"; "00010000";
    "00100000"; "01000000"; "00000000"; "00000000"];
   ["00000000"; "00000000"; "00000000"; "01111100";
    "00000000"; "00000000"; "00000000"; "00000000";
    "00000000"; "00000000"; "00000000"; "11111111";
    "00000000"; "00000000"; "00000000"; "00000000"];
   ["00000000"; "00000000"; "01111110"; "00000010";
    "00000010"; "00100100"; "00010100"; "00001000";
    "00001100"; "00010100"; "00010010"; "00100010";
    "01000000"; "10000000"; "00000000"; "00000000"]]%list.

(** Glyphs 200 to 207. *)
Definition FONTS_25 : list (list Z) := glyphs
  [["00010000"; "00010000"; "00010000"; "11111110";
    "00000100"; "00000100"; "00001000"; "00011000";
    "00110100"; "01010010"; "10010010"; "00010000";
    "00010000"; "00010000"; "00000000"; "00000000"];
   ["00000000"; "00000010"; "00000010"; "00000010";
    "00000100"; "00000100"; "00000100"; "00001000";
    "00001000"; "00010000"; "00100000"; "01000000";
    "10000000"; "00000000"; "00000000"; "00000000"];
   ["00000000"; "00000000"; "00001000"; "00001000";
    "00100100"; "00100100"; "00100100"; "00100010";
    "00100010"; "00100010"; "00100010"; "01000010";
    "01000010"; "10000010"; "00000000"; "00000000"];
   ["00000000"; "01000000"; "01000000"; "01000000";
    "01000010"; "01001100"; "01110000"; "01000000";
    "01000000"; "01000000"; "01000000"; "01000000";
    "01000000"; "00111110"; "00000000"; "00000000"];
   ["00000000"; "00000000"; "11111110"; "00000010";
    "00000010"; "00000010"; "00000010"; "00000100";
    "00000100"; "00001000"; "00001000"; "00010000";
    "00100000"; "01000000"; "00000000"; "00000000"];
   ["00000000"; "00000000"; "00100000"; "00100000";
    "01010000"; "01010000"; "10001000"; "10001000";
    "00000100"; "00000010"; "00000001"; "00000000";
    "00000000"; "00000000"; "00000000"; "00000000"];
   ["00000000"; "00010000"; "00010000"; "00010000";
    "11111110"; "00010000"; "00011000"; "01010100";
    "01010100"; "01010010"; "01010010"; "10010010";
    "00010000"; "00110000"; "00000000"; "00000000"];
   ["00000000"; "00000000"; "00000000"; "11111110";
    "00000010"; "00000010"; "00000100"; "00000100";
    "11001000"; "00110000"; "00010000"; "00001000";
    "00000100"; "00000100"; "00000000"; "00000000"]]%list.

(** Glyphs 208 to 215. *)
Definition FONTS_26 : list (list Z) := glyphs
  [["00000000"; "01100000"; "00011000"; "00000100";
    "00000000"; "00000000"; "01100000"; "00011000";
    "00000100"; "00000000"; "11100000"; "00011000";
    "00000100"; "00000010"; "00000000"; "00000000"];
   ["00000000"; "00010000"; "00010000"; "00010000";
    "00010000"; "00010000"; "00010000"; "00101000";
    "00100100"; "00100100"; "00100010"; "01001110";
    "11110010"; "00000010"; "00000000"; "00000000"];
   ["00000000"; "00000100"; "00000100"; "00000100";
    "00000100"; "01100100"; "00011000"; "00001000";
    "00001100"; "00010010"; "00010000"; "00100000";
    "01000000"; "10000000"; "00000000"; "00000000"];
   ["00000000"; "00000000"; "11111110"; "00100000";
    "00100000"; "00100000"; "11111110"; "00100000";
    "00100000"; "00100000"; "00100000"; "00100000";
    "00011110"; "00000000"; "00000000"; "00000000"];
   ["00000000"; "00100000"; "00100000"; "00100000";
    "00010111"; "00111001"; "11010010"; "00010010";
    "00001100"; "00001000"; "00001000"; "00000100";
    "00000100"; "00000100"; "00000000"; "00000000"];
   ["00000000"; "00000000"; "00000000"; "00000000";
    "01111100"; "00000100"; "00000100"; "00000100";
    "00000100"; "00000100"; "00000100"; "00000100";
    "11111111"; "00000000"; "00000000"; "00000000"];
   ["00000000"; "00000000"; "11111110"; "00000010";
    "00000010"; "00000010"; "00000010"; "01111110";
    "00000010"; "00000010"; "00000010"; "00000010";
    "00000010"; "11111110"; "00000000"; "00000000"];
   ["00000000"; "00000000"; "01111100"; "00000000";
    "00000000"; "00000000"; "11111110"; "00000010";
    "00000010"; "00000100"; "00000100"; "00001000";
    "00010000"; "01100000"; "00000000"; "00000000"]]%list.

(** Glyphs 216 to 223. *)
Definition FONTS_27 : list (list Z) := glyphs
  [["00000000"; "00000100"; "01000100"; "01000100";
    "01000100"; "01000100"; "01000100"; "01000100";
    "01000100"; "00000100"; "00001000"; "00001000";
    "00010000"; "00100000"; "00000000"; "00000000"];
   ["00000000"; "00001000"; "00001000"; "00101000";
    "00101000"; "00101000"; "00101000"; "00101001";
    "00101001"; "00101010"; "01001010"; "01001100";
    "01001000"; "10000000"; "00000000"; "00000000"];
   ["00000000"; "00000000"; "01000000"; "01000000";
    "01000000"; "01000000"; "01000000"; "01000000";
    "01000010"; "01000100"; "01000100"; "01001000";
    "01010000"; "01100000"; "00000000"; "00000000"];
   ["00000000"; "00000000"; "00000000"; "11111110";
    "10000010"; "10000010"; "10000010"; "10000010";
    "10000010"; "10000010"; "10000010"; "11111110";
    "10000010"; "00000000"; "00000000"; "00000000"];
   ["00000000"; "00000000"; "00000000"; "11111110";
    "10000010"; "10000010"; "10000010"; "10000010";
    "00000010"; "00000100"; "00000100"; "00001000";
    "00010000"; "00100000"; "00000000"; "00000000"];
   ["00000000"; "00000000"; "00000000"; "11000000";
    "00100000"; "00000010"; "00000010"; "00000010";
    "00000100"; "00000100"; "00001000"; "00010000";
    "00100000"; "11000000"; "00000000"; "00000000"];
   ["00000000"; "10010000"; "01001000"; "01001000";
    "00000000"; "00000000"; "00000000"; "00000000";
    "00000000"; "00000000"; "00000000"; "00000000";
    "00000000"; "00000000"; "00000000"; "00000000"];
   ["00000000"; "01100000"; "10010000"; "10010000";
    "01100000"; "00000000"; "00000000"; "00000000";
    "00000000"; "00000000"; "00000000"; "00000000";
    "00000000"; "00000000"; "00000000"; "00000000"]]%list.

(** Glyphs 224 to 231. *)
Definition FONTS_28 : list (list Z) := glyphs
  [["00000000"; "00000000"; "00000000"; "00000000";
    "00000000"; "00000000"; "00000000"; "00000000";
    "00000000"; "00000000"; "00000000"; "00000000";
    "00000000"; "00000000"; "00000000"; "00000000"];
   ["00000000"; "00000000"; "00000000"; "00000000";
    "00000000"; "00000000"; "00000000"; "00000000";
    "00000000"; "00000000"; "00000000"; "00000000";
    "00000000"; "00000000"; "00000000"; "00000000"];
   ["00000000"; "00000000"; "00000000"; "00000000";
    "00000000"; "00000000"; "00000000"; "00000000";
    "00000000"; "00000000"; "00000000"; "00000000";
    "00000000"; "00000000"; "00000000"; "00000000"];
   ["00000000"; "00000000"; "00000000"; "00000000";
    "00000000"; "00000000"; "00000000"; "00000000";
    "00000000"; "00000000"; "00000000"; "00000000";
    "00000000"; "00000000"; "00000000"; "00000000"];
   ["00000000"; "00000000"; "00000000"; "00000000";
    "00000000"; "00000000"; "00000000"; "00000000";
    "00000000"; "00000000"; "00000000"; "00000000";
    "00000000"; "00000000"; "00000000"; "00000000"];
   ["00000000"; "00000000"; "00000000"; "00000000";
    "00000000"; "00000000"; "00000000"; "00000000";
    "00000000"; "00000000"; "00000000"; "00000000";
    "00000000"; "00000000"; "00000000"; "00000000"];
   ["00000000"; "00000000"; "00000000"; "00000000";
    "00000000"; "00000000"; "00000000"; "00000000";
    "00000000"; "00000000"; "00000000"; "00000000";
    "00000000"; "00000000"; "00000000"; "00000000"];
   ["00000000"; "00000000"; "00000000"; "00000000";
    "00000000"; "00000000"; "00000000"; "00000000";
    "00000000"; "00000000"; "00000000"; "00000000";
    "00000000"; "00000000"; "00000000"; "00000000"]]%list.

(** Glyphs 232 to 239. *)
Definition FONTS_29 : list (list Z) := glyphs
  [["00000000"; "00000000"; "00000000"; "00000000";
    "00000000"; "00000000"; "00000000"; "00000000";
    "00000000"; "00000000"; "00000000"; "00000000";
    "00000000"; "00000000"; "00000000"; "00000000"];
   ["00000000"; "00000000"; "00000000"; "00000000";
    "00000000"; "00000000"; "00000000"; "00000000";
    "00000000"; "00000000"; "00000000"; "00000000";
    "00000000"; "00000000"; "00000000"; "00000000"];
   ["00000000"; "00000000"; "00000000"; "00000000";
    "00000000"; "00000000"; "00000000"; "00000000";
    "00000000"; "00000000"; "00000000"; "00000000";
    "00000000"; "00000000"; "00000000"; "00000000"];
   ["00000000"; "00000000"; "00000000"; "00000000";
    "00000000"; "00000000"; "00000000"; "00000000";
    "00000000"; "00000000"; "00000000"; "00000000";
    "00000000"; "00000000"; "00000000"; "00000000"];
   ["00000000"; "00000000"; "00000000"; "00000000";
    "00000000"; "00000000"; "00000000"; "00000000";
    "00000000"; "00000000"; "00000000"; "00000000";
    "00000000"; "00000000"; "00000000"; "00000000"];
   ["00000000"; "00000000"; "00000000"; "00000000";
    "00000000"; "00000000"; "00000000"; "00000000";
    "00000000"; "00000000"; "00000000"; "00000000";
    "00000000"; "00000000"; "00000000"; "00000000"];
   ["00000000"; "00000000"; "00000000"; "00000000";
    "00000000"; "00000000"; "00000000"; "00000000";
    "00000000"; "00000000"; "00000000"; "00000000";
    "00000000"; "00000000"; "00000000"; "00000000"];
   ["00000000"; "00000000"; "00000000"; "00000000";
    "00000000"; "00000000"; "00000000"; "00000000";
    "00000000"; "00000000"; "00000000"; "00000000";
    "00000000"; "00000000"; "00000000"; "00000000"]]%list.

(** Glyphs 240 to 247. *)
Definition FONTS_30 : list (list Z) := glyphs
  [["00000000"; "00000000"; "00000000"; "00000000";
    "00000000"; "00000000"; "00000000"; "00000000";
    "00000000"; "00000000"; "00000000"; "00000000";
    "00000000"; "00000000"; "00000000"; "00000000"];
   ["00000000"; "00000000"; "00000000"; "00000000";
    "00000000"; "00000000"; "00000000"; "00000000";
    "00000000"; "00000000"; "00000000"; "00000000";
    "00000000"; "00000000"; "00000000"; "00000000"];
   ["00000000"; "00000000"; "00000000"; "00000000";
    "00000000"; "00000000"; "00000000"; "00000000";
    "00000000"; "00000000"; "00000000"; "00000000";
    "00000000"; "00000000"; "00000000"; "00000000"];
   ["00000000"; "00000000"; "00000000"; "00000000";
    "00000000"; "00000000"; "00000000"; "00000000";
    "00000000"; "00000000"; "00000000"; "00000000";
    "00000000"; "00000000"; "00000000"; "00000000"];
   ["00000000"; "00000000"; "00000000"; "00000000";
    "00000000"; "00000000"; "00000000"; "00000000";
    "00000000"; "00000000"; "00000000"; "00000000";
    "00000000"; "00000000"; "00000000"; "00000000"];
   ["00000000"; "00000000"; "00000000"; "00000000";
    "00000000"; "00000000"; "00000000"; "00000000";
    "00000000"; "00000000"; "00000000"; "00000000";
    "00000000"; "00000000"; "00000000"; "00000000"];
   ["00000000"; "00000000"; "00000000"; "00000000";
    "00000000"; "00000000"; "00000000"; "00000000";
    "00000000"; "00000000"; "00000000"; "00000000";
    "00000000"; "00000000"; "00000000"; "00000000"];
   ["00000000"; "00000000"; "00000000"; "00000000";
    "00000000"; "00000000"; "00000000"; "00000000";
    "00000000"; "00000000"; "00000000"; "00000000";
    "00000000"; "00000000"; "00000000"; "00000000"]]%list.

(** Glyphs 248 to 255. *)
Definition FONTS_31 : list (list Z) := glyphs
  [["00000000"; "00000000"; "00000000"; "00000000";
    "00000000"; "00000000"; "00000000"; "00000000";
    "00000000"; "00000000"; "00000000"; "00000000";
    "00000000"; "00000000"; "00000000"; "00000000"];
   ["00000000"; "00000000"; "00000000"; "00000000";
    "00000000"; "00000000"; "00000000"; "00000000";
    "00000000"; "00000000"; "00000000"; "00000000";
    "00000000"; "00000000"; "00000000"; "00000000"];
   ["00000000"; "00000000"; "00000000"; "00000000";
    "00000000"; "00000000"; "00000000"; "00000000";
    "00000000"; "00000000"; "00000000"; "00000000";
    "00000000"; "00000000"; "00000000"; "00000000"];
   ["00000000"; "00000000"; "00000000"; "00000000";
    "00000000"; "00000000"; "00000000"; "00000000";
    "00000000"; "00000000"; "00000000"; "00000000";
    "00000000"; "00000000"; "00000000"; "00000000"];
   ["00000000"; "00000000"; "00000000"; "00000000";
    "00000000"; "00000000"; "00000000"; "00000000";
    "00000000"; "00000000"; "00000000"; "00000000";
    "00000000"; "00000000"; "00000000"; "00000000"];
   ["00000000"; "00000000"; "00000000"; "00000000";
    "00000000"; "00000000"; "00000000"; "00000000";
    "00000000"; "00000000"; "00000000"; "00000000";
    "00000000"; "00000000"; "00000000"; "00000000"];
   ["00000000"; "00000000"; "00000000"; "00000000";
    "00000000"; "00000000"; "00000000"; "00000000";
    "00000000"; "00000000"; "00000000"; "00000000";
    "00000000"; "00000000"; "00000000"; "00000000"];
   ["00000000"; "00000000"; "00000000"; "00000000";
    "00000000"; "00000000"; "00000000"; "00000000";
    "00000000"; "00000000"; "00000000"; "00000000";
    "00000000"; "00000000"; "00000000"; "00000000"]]%list.

#[local] Close Scope string_scope.

Definition FONTS : list (list Z) :=
  FONTS_0 ++ FONTS_1 ++ FONTS_2 ++ FONTS_3 ++ FONTS_4 ++ FONTS_5 ++ FONTS_6 ++ FONTS_7 ++
  FONTS_8 ++ FONTS_9 ++ FONTS_10 ++ FONTS_11 ++ FONTS_12 ++ FONTS_13 ++ FONTS_14 ++ FONTS_15 ++
  FONTS_16 ++ FONTS_17 ++ FONTS_18 ++ FONTS_19 ++ FONTS_20 ++ FONTS_21 ++ FONTS_22 ++ FONTS_23 ++
  FONTS_24 ++ FONTS_25 ++ FONTS_26 ++ FONTS_27 ++ FONTS_28 ++ FONTS_29 ++ FONTS_30 ++ FONTS_31.

(** The table has the shape its type announces. *)
Definition glyph_ok (g : list Z) : bool :=
  (length g =? 16)%nat && forallb (λ b, (0 <=? b) && (b <? 256)) g.

Lemma FONTS_shape : length FONTS = 256%nat ∧ forallb glyph_ok FONTS = true.
Proof. split; vm_compute; reflexivity. Qed.
