(* ===== verification/Font.v ===== *)
(** graphic/font.rs: drawing text with the bitmap font, and the byte-string helpers
    (hexadecimal numbers, concatenation) used to print before the console exists. *)

From S2P Require Import Prelude Graphics FontData FrameBuffer.

(** ** Text *)

Section text.
Context {W : Type} `{!PixelWriter W}.

(** [(gx, gy)] is the top left corner; [c] is the code point. *)
Definition write_ascii (graphics : W) (gx gy c : Z) (color : PixelColor) : outcome W :=
  if c >=? zlen FONTS then Ret graphics else
  foldM (λ graphics dy,
    foldM (λ graphics dx,
      glyph ← vget FONTS c;
      row ← vget glyph dy;
      if negb (Z.land (as_u 8 (Z.shiftl row dx)) 128 =? 0) then
        px ← u32_add gx dx;
        py ← u32_add gy dy;
        write graphics {| x := as_s 32 px; y := as_s 32 py |} color
      else Ret graphics)
      (range 0 8) graphics)
    (range 0 16) graphics.

Definition write_string (graphics : W) (gx gy : Z) (str : list Z) (color : PixelColor)
    : outcome W :=
  foldM (λ graphics i,
    o ← u32_mul 8 i;
    px ← u32_add gx o;
    c ← vget str i;
    write_ascii graphics px gy c color)
    (range 0 (as_u 32 (zlen str))) graphics.
End text.

(** ** Byte strings *)

(** ['0' ..= '9', 'A' ..= 'F'] *)
Definition digits : list Z := [48; 49; 50; 51; 52; 53; 54; 55; 56; 57; 65; 66; 67; 68; 69; 70].

(** One pass of the loop of [u64_to_u8str]; it returns the start of the result. *)
Definition u64_to_u8str_body (st : Z * Z * list Z) : outcome (Z * Z * list Z + Z * list Z) :=
  let '(num, seek, buf) := st in
  d ← vget digits (num mod 16);
  buf ← vset buf seek d;
  let num := num / 16 in
  if num =? 0 then Ret (inr (seek, buf))
  else if seek =? 0 then Panic ExplicitPanic
  else
    seek ← usize_sub seek 1;
    Ret (inl (num, seek, buf)).

(** The result is the slice from the returned index on, and the whole buffer. *)
Definition u64_to_u8str (num : Z) (buf : list Z) : outcome (Z * list Z) :=
  _ ← assert_ (negb (zlen buf =? 0));
  seek ← usize_sub (zlen buf) 1;
  loop (S (length buf)) u64_to_u8str_body (num, seek, buf).

Definition concat_u8s (arr1 arr2 buf : list Z) : outcome (list Z * list Z) :=
  n ← usize_add (zlen arr1) (zlen arr2);
  _ ← assert_ (n <=? zlen buf);
  buf ← copy_from_slice buf 0 (zlen arr1) arr1;
  buf ← copy_from_slice buf (zlen arr1) n arr2;
  res ← slice buf 0 n;
  Ret (res, buf).

(** [IntoU8s] for integers and for byte slices. *)
Definition into_u8s_int (self : Z) (buf : list Z) : outcome (Z * list Z) :=
  u64_to_u8str (as_u 64 self) buf.

Definition into_u8s_slice (self buf : list Z) : outcome (Z * list Z) :=
  offset ← usize_sub (zlen buf) (zlen self);
  buf ← copy_from_slice buf offset (zlen buf) self;
  Ret (offset, buf).

(** ** Properties of text *)

(** The font's pixel [(dx, dy)] of character [c]. *)
Definition glyph_bit (c dx dy : Z) : Prop :=
  0 ≤ dx < 8 ∧ 0 ≤ dy < 16 ∧
  Z.testbit (default 0 (default [] (FONTS !! Z.to_nat c) !! Z.to_nat dy)) (7 - dx) = true.

#[export] Instance glyph_bit_dec c dx dy : Decision (glyph_bit c dx dy).
Proof. unfold glyph_bit. apply _. Defined.

Lemma row_bit_test b dx :
  0 ≤ dx < 8 → negb (Z.land (as_u 8 (Z.shiftl b dx)) 128 =? 0) = Z.testbit b (7 - dx).
Proof.
  intros Hdx. change 128 with (2 ^ 7). unfold as_u.
  assert (Z.testbit (Z.shiftl b dx mod 2 ^ 8) 7 = Z.testbit b (7 - dx)) as Hb.
  { rewrite Z.mod_pow2_bits_low by lia. by rewrite Z.shiftl_spec by lia. }
  rewrite <- Hb. set (v := Z.shiftl b dx mod 2 ^ 8).
  destruct (Z.testbit v 7) eqn:E.
  - apply negb_true_iff, Z.eqb_neq. intros H0.
    assert (Z.testbit (Z.land v (2 ^ 7)) 7 = false) as H1 by (rewrite H0; apply Z.bits_0).
    by rewrite Z.land_spec, E, Z.pow2_bits_true in H1 by lia.
  - apply negb_false_iff, Z.eqb_eq, Z.bits_inj'. intros n Hn.
    rewrite Z.land_spec, Z.pow2_bits_eqb, Z.bits_0 by lia.
    destruct (Z.eqb_spec 7 n) as [<-|]; [by rewrite E|apply andb_false_r].
Qed.

Lemma FONTS_lookup c dy :
  0 ≤ c < 256 → 0 ≤ dy < 16 →
  ∃ g, vget FONTS c = Ret g ∧ FONTS !! Z.to_nat c = Some g ∧
    ∃ b, vget g dy = Ret b ∧ g !! Z.to_nat dy = Some b.
Proof.
  intros Hc Hdy. destruct FONTS_shape as [Hl Hok].
  destruct (vget_range FONTS c) as (g & Hg & Eg); [lia|].
  exists g. split_and!; try done. apply vget_range.
  rewrite forallb_forall in Hok. specialize (Hok g).
  unfold glyph_ok in Hok. rewrite andb_true_iff, Nat.eqb_eq in Hok.
  rewrite (proj1 (Hok ltac:(by apply list_elem_of_In, (list_elem_of_lookup_2 _ _ _ Eg)))). lia.
Qed.

Section text_spec.
Context {W : Type} `{!PixelWriter W} `{!Canvas W}.

(** The character cell at [(gx, gy)] lies inside the canvas. *)
Definition cell_fits (w : W) (gx gy width : Z) : Prop :=
  0 ≤ gx ∧ gx + width ≤ (canvas_size w).1 ∧ 0 ≤ gy ∧ gy + 16 ≤ (canvas_size w).2.

Lemma painted_ascii w gx gy c color :
  canvas_ok w → 0 ≤ c < 256 → cell_fits w gx gy 8 →
  ∃ w', write_ascii w gx gy c color = Ret w' ∧
    painted w (λ px py, glyph_bit c (px - gx) (py - gy)) color w'.
Proof.
  intros Hw Hc (Hx & Hxw & Hy & Hyh). pose proof (canvas_small w Hw) as [Hcw Hch].
  destruct FONTS_shape as [Hlen _]. unfold write_ascii.
  rewrite Z.geb_leb, (proj2 (Z.leb_gt _ _)) by lia.
  apply (painted_foldM_iff (λ dy px py, glyph_bit c (px - gx) dy ∧ py = gy + dy));
    [apply _|done| |].
  { intros px py. setoid_rewrite elem_of_range. split.
    - intros Hb. pose proof Hb as (_ & ? & _). exists (py - gy). split; [lia|]. split; [done|lia].
    - intros (dy & ? & ? & ->). by replace (gy + dy - gy) with dy by lia. }
  intros dy w1 Hdy%elem_of_range Hw1 Hs1.
  apply (painted_foldM_iff (λ dx px py, glyph_bit c dx dy ∧ px = gx + dx ∧ py = gy + dy));
    [apply _|done| |].
  { intros px py. setoid_rewrite elem_of_range. split.
    - intros [Hb ->]. pose proof Hb as (? & _ & _). exists (px - gx). split; [lia|]. split; [done|lia].
    - intros (dx & ? & ? & -> & ->). by replace (gx + dx - gx) with dx by lia. }
  intros dx w2 Hdx%elem_of_range Hw2 Hs2.
  destruct (FONTS_lookup c dy Hc Hdy) as (g & -> & Eg & b & Hb & Eb).
  rewrite bind_Ret, Hb, bind_Ret, row_bit_test by done.
  unfold glyph_bit. rewrite Eg. change (default [] (Some g)) with g.
  rewrite Eb. change (default 0 (Some b)) with b.
  destruct (Z.testbit b (7 - dx)).
  - unfold u32_add. rewrite !chk_u_ok, !bind_Ret by lia.
    rewrite !as_s_small by (done || (split; lia)).
    destruct (painted_write w2 {| x := gx + dx; y := gy + dy |} color Hw2) as (w' & -> & Hp).
    { unfold visible. simpl. rewrite Hs2, Hs1. lia. }
    exists w'. split; [done|]. revert Hp. apply painted_proper; try done.
    intros px py. simpl. tauto.
  - exists w2. split; [done|]. split; try done. intros px py _ [(_ & _ & ?) _]. done.
Qed.

(** Characters outside the table draw nothing. *)
Lemma write_ascii_unknown (w : W) (gx gy c : Z) (color : PixelColor) :
  256 ≤ c → write_ascii w gx gy c color = Ret w.
Proof.
  intros Hc. destruct FONTS_shape as [Hlen _]. unfold write_ascii.
  by rewrite Z.geb_leb, (proj2 (Z.leb_le _ _)) by lia.
Qed.

Lemma painted_string (w : W) (gx gy : Z) (str : list Z) (color : PixelColor) :
  canvas_ok w → Forall (λ c, 0 ≤ c < 256) str → cell_fits w gx gy (8 * zlen str) →
  ∃ w', write_string w gx gy str color = Ret w' ∧
    painted w (λ px py, ∃ c, str !! Z.to_nat ((px - gx) / 8) = Some c ∧
      gx ≤ px ∧ glyph_bit c ((px - gx) mod 8) (py - gy)) color w'.
Proof.
  intros Hw Hstr (Hx & Hxw & Hy & Hyh). pose proof (canvas_small w Hw) as [Hcw Hch].
  unfold write_string. rewrite as_u_small by lia.
  apply (painted_foldM_iff (λ i px py,
    glyph_bit (default 0 (str !! Z.to_nat i)) (px - (gx + 8 * i)) (py - gy)));
    [apply _|done| |].
  { intros px py. setoid_rewrite elem_of_range. split.
    - intros (c & Hc & Hge & Hb). exists ((px - gx) / 8).
      apply lookup_lt_Some in Hc as Hlt.
      assert (0 ≤ (px - gx) / 8) by (apply Z.div_pos; lia). split; [lia|].
      rewrite Hc. change (default 0 (Some c)) with c. pose proof (Z.div_mod (px - gx) 8 ltac:(lia)).
      by replace (px - (gx + 8 * ((px - gx) / 8))) with ((px - gx) mod 8) by lia.
    - intros (i & Hi & Hb). pose proof Hb as (Hdx & _ & _).
      assert ((px - gx) / 8 = i) as Ei
        by (symmetry; apply (Z.div_unique_pos _ _ _ (px - gx - 8 * i)); lia).
      assert ((px - gx) mod 8 = px - (gx + 8 * i)) as Em
        by (pose proof (Z.div_mod (px - gx) 8 ltac:(lia)); lia).
      rewrite Ei, Em.
      destruct (lookup_lt_is_Some_2 str (Z.to_nat i)) as [c Hc]; [lia|].
      rewrite Hc in *. exists c. split; [done|]. split; [lia|done]. }
  intros i w1 Hi%elem_of_range Hw1 Hs1.
  destruct (vget_range str i Hi) as (c & Hg & Hc). rewrite Hc. change (default 0 (Some c)) with c.
  unfold u32_mul, u32_add. rewrite (chk_u_ok 32 (8 * i)), bind_Ret by lia.
  rewrite (chk_u_ok 32), bind_Ret by lia. rewrite Hg, bind_Ret.
  apply painted_ascii; [done| |].
  - apply (proj1 (list.Forall_forall _ _) Hstr). by eapply list_elem_of_lookup_2.
  - unfold cell_fits. rewrite Hs1. lia.
Qed.

(** [write_string] draws its characters side by side, eight pixels apart: a
    pixel is coloured exactly if it is set in the glyph of the character whose cell
    it lies in. *)
Lemma write_string_draws_text (w : W) (gx gy : Z) (str : list Z) (color : PixelColor) :
  canvas_ok w → Forall (λ c, 0 ≤ c < 256) str → cell_fits w gx gy (8 * zlen str) →
  ∃ w', write_string w gx gy str color = Ret w' ∧
    painted w (λ px py, ∃ c, str !! Z.to_nat ((px - gx) / 8) = Some c ∧
      gx ≤ px ∧ glyph_bit c ((px - gx) mod 8) (py - gy)) color w'.
Proof. apply painted_string. Qed.
End text_spec.

(** ** Properties of the byte-string helpers *)

Definition digit_value (d : Z) : Z := if d <? 65 then d - 48 else d - 55.

(** The number a string of hexadecimal digits denotes. *)
Fixpoint hex_value (l : list Z) : Z :=
  match l with [] => 0 | d :: l => digit_value d * 16 ^ zlen l + hex_value l end.

Lemma digits_value n :
  0 ≤ n < 16 → ∃ d, vget digits n = Ret d ∧ digit_value d = n ∧ d ∈ digits.
Proof.
  intros Hn. destruct (vget_range digits n) as (d & Hd & El); [simpl; lia|].
  exists d. split; [done|]. split; [|by eapply list_elem_of_lookup_2].
  assert (∀ k, (k < 16)%nat → digit_value <$> digits !! k = Some (Z.of_nat k)) as Hall.
  { intros k Hk. do 16 (destruct k as [|k]; [done|]). lia. }
  specialize (Hall (Z.to_nat n)). rewrite El in Hall. simpl in Hall.
  rewrite Z2Nat.id in Hall by lia. by injection Hall as ->; [|lia].
Qed.

Lemma hex_value_bound l : Forall (λ d, d ∈ digits) l → 0 ≤ hex_value l < 16 ^ zlen l.
Proof.
  induction 1 as [|d l Hd Hl IH]; [done|]. cbn [hex_value length].
  rewrite Nat2Z.inj_succ, Z.pow_succ_r by lia.
  assert (0 ≤ digit_value d < 16); [|nia].
  revert d Hd. apply list.Forall_forall. repeat constructor; done.
Qed.

(** After [k] digits of [num0] have been written at the end of [buf0]. *)
Record hex_inv (num0 : Z) (buf0 : list Z) (st : Z * Z * list Z) : Prop := {
  hi_seek : 0 ≤ st.1.2 < zlen buf0;
  hi_len : length st.2 = length buf0;
  hi_num : st.1.1 = num0 / 16 ^ (zlen buf0 - 1 - st.1.2);
  hi_pos : 0 < st.1.1 ∨ st.1.2 = zlen buf0 - 1;
  hi_value : hex_value (drop (Z.to_nat (st.1.2 + 1)) st.2) = num0 mod 16 ^ (zlen buf0 - 1 - st.1.2);
  hi_digits : Forall (λ d, d ∈ digits) (drop (Z.to_nat (st.1.2 + 1)) st.2);
  hi_prefix : take (Z.to_nat (st.1.2 + 1)) st.2 = take (Z.to_nat (st.1.2 + 1)) buf0;
}.

(** What a successful conversion leaves behind. *)
Record hex_post (num0 : Z) (buf0 : list Z) (r : Z * list Z) : Prop := {
  hp_seek : 0 ≤ r.1 < zlen buf0;
  hp_len : length r.2 = length buf0;
  hp_value : hex_value (drop (Z.to_nat r.1) r.2) = num0;
  hp_digits : Forall (λ d, d ∈ digits) (drop (Z.to_nat r.1) r.2);
  hp_short : num0 = 0 ∧ r.1 = zlen buf0 - 1 ∨ 16 ^ (zlen buf0 - 1 - r.1) ≤ num0;
  hp_prefix : take (Z.to_nat r.1) r.2 = take (Z.to_nat r.1) buf0;
}.

Lemma hex_step num0 buf0 st :
  0 ≤ num0 → hex_inv num0 buf0 st → zlen buf0 < 2 ^ 64 →
  ∃ d buf', vget digits (st.1.1 mod 16) = Ret d ∧ vset st.2 st.1.2 d = Ret buf' ∧
    length buf' = length buf0 ∧
    hex_value (drop (Z.to_nat st.1.2) buf') = num0 mod 16 ^ (zlen buf0 - st.1.2) ∧
    Forall (λ d, d ∈ digits) (drop (Z.to_nat st.1.2) buf') ∧
    take (Z.to_nat st.1.2) buf' = take (Z.to_nat st.1.2) buf0 ∧
    st.1.1 / 16 = num0 / 16 ^ (zlen buf0 - st.1.2).
Proof.
  destruct st as [[n k] buf]. cbn [fst snd]. intros Hn [Hk Hl Hnum _ Hv Hd Hp] Hb; simpl in *.
  destruct (digits_value (n mod 16)) as (d & Hd1 & Hd2 & Hd3); [apply Z.mod_pos_bound; lia|].
  exists d, (<[Z.to_nat k := d]> buf). rewrite vset_ok by lia.
  assert (drop (Z.to_nat k) (<[Z.to_nat k:=d]> buf) = d :: drop (Z.to_nat (k + 1)) buf) as Hdrop.
  { rewrite insert_take_drop by lia. rewrite drop_app_ge by (rewrite length_take; lia).
    rewrite length_take, Nat.min_l, Nat.sub_diag by lia. simpl. do 2 f_equal. lia. }
  assert (zlen (drop (Z.to_nat (k + 1)) buf) = zlen buf0 - 1 - k) as Hlen
    by (rewrite length_drop; lia).
  assert (16 ^ (zlen buf0 - k) = 16 ^ (zlen buf0 - 1 - k) * 16) as Hpow
    by (replace (zlen buf0 - k) with (zlen buf0 - 1 - k + 1) by lia;
        rewrite Z.pow_add_r; lia).
  assert (0 < 16 ^ (zlen buf0 - 1 - k)) by (apply Z.pow_pos_nonneg; lia).
  split_and!; try done.
  - by rewrite length_insert.
  - rewrite Hdrop. cbn [hex_value]. rewrite Hlen, Hv, Hd2, Hpow, Hnum.
    rewrite (Z.rem_mul_r num0) by lia. lia.
  - rewrite Hdrop. by constructor.
  - rewrite take_insert_ge by lia. replace (Z.to_nat (k + 1)) with (S (Z.to_nat k)) in Hp by lia.
    apply (f_equal (take (Z.to_nat k))) in Hp. by rewrite !take_take, Nat.min_l in Hp by lia.
  - rewrite Hnum, Hpow. by rewrite Z.div_div by lia.
Qed.

Lemma hex_body num0 buf0 st :
  0 ≤ num0 → zlen buf0 < 2 ^ 64 → hex_inv num0 buf0 st →
  match u64_to_u8str_body st with
  | Ret (inl st') => hex_inv num0 buf0 st' ∧ (Z.to_nat st'.1.2 < Z.to_nat st.1.2)%nat
  | Ret (inr r) => hex_post num0 buf0 r
  | Panic p => p = ExplicitPanic ∧ 16 ^ zlen buf0 ≤ num0
  | OutOfFuel => False
  end.
Proof.
  intros Hn Hb Hi.
  destruct (hex_step num0 buf0 st Hn Hi Hb) as (d & buf' & Hd & Hs & Hl & Hv & Hds & Hp & Hq).
  destruct st as [[n k] buf]; cbn [fst snd] in *. destruct Hi as [Hk _ Hnum Hpos _ _ _]; simpl in *.
  unfold u64_to_u8str_body. rewrite Hd, bind_Ret, Hs, bind_Ret, Hq.
  assert (0 < 16 ^ (zlen buf0 - k)) by (apply Z.pow_pos_nonneg; lia).
  assert (0 < 16 ^ (zlen buf0 - 1 - k)) by (apply Z.pow_pos_nonneg; lia).
  pose proof (Z.div_mod num0 (16 ^ (zlen buf0 - k)) ltac:(lia)) as Hdm.
  pose proof (Z.mod_pos_bound num0 (16 ^ (zlen buf0 - k)) ltac:(lia)).
  destruct (Z.eqb_spec (num0 / 16 ^ (zlen buf0 - k)) 0) as [Hz|Hz].
  - split; simpl; try done; [rewrite Hv; lia|].
    destruct Hpos as [Hpos| ->]; [right|].
    + apply Z.le_ngt. intros Hlt. rewrite Hnum, Z.div_small in Hpos; lia.
    + destruct (Z.eq_dec num0 0); [by left|right].
      replace (zlen buf0 - 1 - (zlen buf0 - 1)) with 0 by lia. lia.
  - assert (0 < num0 / 16 ^ (zlen buf0 - k)).
    { pose proof (Z.div_pos num0 (16 ^ (zlen buf0 - k)) Hn ltac:(lia)). lia. }
    destruct (Z.eqb_spec k 0) as [-> |Hk0].
    + split; [done|]. rewrite Z.sub_0_r in *. nia.
    + rewrite usize_sub_ok, bind_Ret by lia. split; [|simpl; lia].
      split; simpl; try done; try lia.
      all: replace (zlen buf0 - 1 - (k - 1)) with (zlen buf0 - k) by lia; try done.
      all: replace (k - 1 + 1) with k by lia; done.
Qed.

(** [u64_to_u8str] prints a number in hexadecimal. If the number fits the buffer
    it terminates with the slice of digits that denotes the number, without leading
    zeros, at the end of the buffer, leaving the bytes before it alone; if it does not
    fit it panics (and it never panics otherwise). *)
Lemma u64_to_u8str_correct (num : Z) (buf : list Z) :
  in_u 64 num → 0 < zlen buf < 2 ^ 64 →
  (num < 16 ^ zlen buf → ∃ r, u64_to_u8str num buf = Ret r ∧ hex_post num buf r) ∧
  (16 ^ zlen buf ≤ num → u64_to_u8str num buf = Panic ExplicitPanic).
Proof.
  intros [Hn _] Hb.
  assert (match u64_to_u8str num buf with
    | Ret r => hex_post num buf r
    | Panic p => p = ExplicitPanic ∧ 16 ^ zlen buf ≤ num
    | OutOfFuel => False end) as Hend.
  { unfold u64_to_u8str. rewrite (proj2 (Z.eqb_neq _ _)) by lia. cbn [negb assert_].
    rewrite bind_Ret, usize_sub_ok, bind_Ret by lia.
    apply (loop_ends (hex_inv num buf) (λ o, match o with
      | Ret r => hex_post num buf r
      | Panic p => p = ExplicitPanic ∧ 16 ^ zlen buf ≤ num
      | OutOfFuel => False end) (λ st, Z.to_nat st.1.2)); [|split; simpl|simpl; lia].
    - intros st Hi. by apply hex_body; [..|lia|].
    - lia.
    - done.
    - by rewrite Z.sub_diag, Z.div_1_r.
    - lia.
    - rewrite drop_ge by lia. by rewrite Z.sub_diag, Z.mod_1_r.
    - rewrite drop_ge by lia. constructor.
    - done. }
  destruct (u64_to_u8str num buf) as [r|p|]; [|destruct Hend as [-> ?]|done].
  - split; [by exists r|]. intros Hge. destruct Hend as [Hs Hl Hv Hd _ _].
    exfalso. apply hex_value_bound in Hd. rewrite Hv, length_drop in Hd.
    assert (16 ^ Z.of_nat (length r.2 - Z.to_nat r.1) ≤ 16 ^ zlen buf)
      by (apply Z.pow_le_mono_r; lia). lia.
  - split; [lia|done].
Qed.

(** [concat_u8s] returns the concatenation, or panics when the buffer is too small. *)
Lemma concat_u8s_ok arr1 arr2 buf :
  zlen buf < 2 ^ 63 → zlen arr1 + zlen arr2 < 2 ^ 64 →
  concat_u8s arr1 arr2 buf =
  if zlen arr1 + zlen arr2 <=? zlen buf
  then Ret (arr1 ++ arr2, arr1 ++ arr2 ++ drop (length arr1 + length arr2) buf)
  else Panic AssertFailed.
Proof.
  intros Hb Hs. unfold concat_u8s. rewrite usize_add_ok, bind_Ret by lia.
  destruct (Z.leb_spec (zlen arr1 + zlen arr2) (zlen buf)); [|done]. cbn [assert_]. rewrite bind_Ret.
  rewrite copy_from_slice_ok, bind_Ret by lia. cbn [take]. rewrite app_nil_l.
  rewrite copy_from_slice_ok, bind_Ret by (rewrite ?length_app, ?length_drop; lia).
  rewrite take_app_length' by lia.
  rewrite drop_app_ge, drop_drop by lia.
  replace (Z.to_nat (0 + zlen arr1) + (Z.to_nat (zlen arr1 + zlen arr2) - length arr1))%nat
    with (length arr1 + length arr2)%nat by lia.
  rewrite slice_ok, bind_Ret by (rewrite ?length_app, ?length_drop; lia).
  change (drop (Z.to_nat 0) ?l) with l. do 2 f_equal.
  rewrite app_assoc, take_app_length'; [done|]. rewrite length_app. lia.
Qed.

(** [into_u8s] on a byte slice puts it at the end of the buffer. *)
Lemma into_u8s_slice_ok self buf :
  zlen self ≤ zlen buf < 2 ^ 64 →
  into_u8s_slice self buf =
  Ret (zlen buf - zlen self, take (length buf - length self) buf ++ self).
Proof.
  intros Hl. unfold into_u8s_slice. rewrite usize_sub_ok, bind_Ret by lia.
  rewrite copy_from_slice_ok, bind_Ret by lia.
  rewrite drop_ge, app_nil_r by lia. do 3 f_equal. f_equal. lia.
Qed.

(** ** Concrete runs *)

Definition text_fb : FrameBuffer :=
  {| fb_data := Shadow (replicate 1024 0);
     conf := {| pixels_per_scanline := 16; horizontal_resolution := 16;
                vertical_resolution := 16; pixel_format := PixelRGBResv8BitPerColor |} |}.

Lemma text_fb_ok : fb_ok text_fb.
Proof. split; vm_compute; intuition congruence. Qed.

Lemma write_string_draws_text_witness :
  ∃ w', write_string text_fb 0 0 [72; 105] (255, 255, 255) = Ret w' ∧
    painted text_fb (λ px py, ∃ c, [72; 105] !! Z.to_nat ((px - 0) / 8) = Some c ∧
        0 ≤ px ∧ glyph_bit c ((px - 0) mod 8) (py - 0)) (255, 255, 255) w'.
Proof.
  apply (write_string_draws_text text_fb 0 0 [72; 105] (255, 255, 255));
    [exact text_fb_ok|repeat constructor; lia|unfold cell_fits; simpl; lia].
Defined.

Lemma u64_to_u8str_correct_witness :
  (∃ r, u64_to_u8str 0xbeef (replicate 6 0) = Ret r ∧ hex_post 0xbeef (replicate 6 0) r) ∧
  u64_to_u8str 0xbeef (replicate 3 0) = Panic ExplicitPanic.
Proof.
  split.
  - apply (u64_to_u8str_correct 0xbeef (replicate 6 0));
      [split; vm_compute; congruence|vm_compute; split; congruence|vm_compute; reflexivity].
  - apply (u64_to_u8str_correct 0xbeef (replicate 3 0));
      [split; vm_compute; congruence|vm_compute; split; congruence|vm_compute; congruence].
Defined.

Example u64_to_u8str_beef :
  u64_to_u8str 0xbeef (replicate 6 0) = Ret (2, [0; 0; 66; 69; 69; 70]).
Proof. reflexivity. Qed.
