(* ===== verification/Window.v ===== *)
(** graphic/buffered.rs and graphic/window.rs: double-buffered canvases, windows and the
    layered window manager that composes them on the screen.

    Windows live in a shared store: [layers] is the manager's vector of reference-counted
    windows and a handle is an index into it, so a write through a handle is seen by the
    manager. Locks are taken and released inside each operation. *)

From S2P Require Import Prelude Graphics FrameBuffer.

(** ** BufferedCanvas *)

Record BufferedCanvas := {
  fore : FrameBuffer;
  back : FrameBuffer;
  is_updated : bool;
}.

Definition BufferedCanvas_new (fmt : option PixelFormat) (width height : Z) : outcome BufferedCanvas :=
  f ← FrameBuffer_new fmt width height;
  b ← FrameBuffer_new fmt width height;
  Ret {| fore := f; back := b; is_updated := false |}.

Definition flush (self : BufferedCanvas) : outcome BufferedCanvas :=
  f ← copy (fore self) {| x := 0; y := 0 |} (back self);
  Ret {| fore := f; back := back self; is_updated := is_updated self |}.

(** [write_with(draw_func)] *)
Definition write_with (self : BufferedCanvas) (draw_func : FrameBuffer → outcome FrameBuffer)
    : outcome BufferedCanvas :=
  b ← draw_func (back self);
  Ret {| fore := fore self; back := b; is_updated := true |}.

Definition clear_update_flag (self : BufferedCanvas) : BufferedCanvas :=
  {| fore := fore self; back := back self; is_updated := false |}.

(** ** Window *)

Record Window := {
  pos : Vec2;
  width : Z;
  height : Z;
  transparant_color : option PixelColor;
  buffer : BufferedCanvas;
}.

Definition Window_new (fmt : option PixelFormat) (width height : Z) : outcome Window :=
  b ← BufferedCanvas_new fmt width height;
  Ret {| pos := {| x := 0; y := 0 |}; width := width; height := height;
         transparant_color := None; buffer := b |}.

Definition set_transparent_color (self : Window) (color : option PixelColor) : Window :=
  {| pos := pos self; width := width self; height := height self;
     transparant_color := color; buffer := buffer self |}.

Definition is_inside (self : Window) (p : Vec2) : bool :=
  (0 <=? x p) && (x p <? as_s 32 (width self)) && (0 <=? y p) && (y p <? as_s 32 (height self)).

(** The pass of the transparent branch for one pixel. *)
Definition draw_pixel (self : Window) (tc : PixelColor) (buf : FrameBuffer) (py px : Z)
    : outcome FrameBuffer :=
  pixel ← color_at (fore (buffer self)) px py;
  if decide (pixel ≠ tc) then
    p ← vec2_add (pos self) {| x := as_s 32 px; y := as_s 32 py |};
    write buf p pixel
  else Ret buf.

Definition draw_to (self : Window) (buf : FrameBuffer) : outcome FrameBuffer :=
  match transparant_color self with
  | None => copy buf (pos self) (fore (buffer self))
  | Some tc =>
      r_window ← from_wh (x (pos self)) (y (pos self)) (as_s 32 (width self)) (as_s 32 (height self));
      r_fb ← from_wh 0 0 (as_s 32 (horizontal_resolution (conf buf)))
                         (as_s 32 (vertical_resolution (conf buf)));
      match intersection r_fb r_window with
      | None => Ret buf
      | Some r =>
          nx ← i32_neg (x (pos self));
          ny ← i32_neg (y (pos self));
          r_draw ← move_relative r nx ny;
          foldM (λ buf py,
            foldM (λ buf px, draw_pixel self tc buf py px)
              (range (as_u 64 (x1 r_draw)) (as_u 64 (x2 r_draw))) buf)
            (range (as_u 64 (y1 r_draw)) (as_u 64 (y2 r_draw))) buf
      end
  end.

Definition window_move_to (self : Window) (p : Vec2) : Window :=
  {| pos := p; width := width self; height := height self;
     transparant_color := transparant_color self; buffer := buffer self |}.

Definition window_move_relative (self : Window) (pos_diff : Vec2) : outcome Window :=
  p ← vec2_add (pos self) pos_diff;
  Ret (window_move_to self p).

Definition with_buffer (self : Window) (b : BufferedCanvas) : Window :=
  {| pos := pos self; width := width self; height := height self;
     transparant_color := transparant_color self; buffer := b |}.

Definition window_move_rect (self : Window) (to : Vec2) (rect : Rect) : outcome Window :=
  b ← write_with (buffer self) (λ back, move_rect back to rect);
  Ret (with_buffer self b).

(** ** LayeredWindowManager *)

Record LayeredWindowManager := {
  layers : list Window;
  layer_stack : list Z;
  shadow : FrameBuffer;
  screen : FrameBuffer;
}.

Definition LayeredWindowManager_new (fmt : option PixelFormat) (buffer : FrameBuffer)
    : outcome LayeredWindowManager :=
  s ← FrameBuffer_new fmt (horizontal_resolution (conf buffer)) (vertical_resolution (conf buffer));
  Ret {| layers := []; layer_stack := []; shadow := s; screen := buffer |}.

Definition with_layers (self : LayeredWindowManager) (l : list Window) : LayeredWindowManager :=
  {| layers := l; layer_stack := layer_stack self; shadow := shadow self; screen := screen self |}.

Definition with_stack (self : LayeredWindowManager) (l : list Z) : LayeredWindowManager :=
  {| layers := layers self; layer_stack := l; shadow := shadow self; screen := screen self |}.

(** The handle is the index of the window. *)
Definition new_layer (self : LayeredWindowManager) (window : Window)
    : outcome (LayeredWindowManager * Z) :=
  let l := layers self ++ [window] in
  id ← usize_sub (zlen l) 1;
  Ret (with_layers self l, id).

Definition move_to (self : LayeredWindowManager) (id : Z) (p : Vec2) : outcome LayeredWindowManager :=
  w ← vget (layers self) id;
  l ← vset (layers self) id (window_move_to w p);
  Ret (with_layers self l).

Definition layer_move_relative (self : LayeredWindowManager) (id : Z) (pos_diff : Vec2)
    : outcome LayeredWindowManager :=
  w ← vget (layers self) id;
  w ← window_move_relative w pos_diff;
  l ← vset (layers self) id w;
  Ret (with_layers self l).

Definition draw (self : LayeredWindowManager) : outcome LayeredWindowManager :=
  s ← foldM (λ shadow id,
        win ← vget (layers self) id;
        if is_updated (buffer win) then draw_to win shadow else Ret shadow)
      (layer_stack self) (shadow self);
  b ← copy (screen self) {| x := 0; y := 0 |} s;
  Ret {| layers := layers self; layer_stack := layer_stack self; shadow := s; screen := b |}.

Definition hide (self : LayeredWindowManager) (id : Z) : LayeredWindowManager :=
  with_stack self (filter (λ lid, lid ≠ id) (layer_stack self)).

(** [Vec::insert] *)
Definition vec_insert (l : list Z) (i : Z) (v : Z) : outcome (list Z) :=
  if i <=? zlen l then Ret (take (Z.to_nat i) l ++ v :: drop (Z.to_nat i) l)
  else Panic IndexOutOfBounds.

Definition up_down (self : LayeredWindowManager) (id new_height : Z) : outcome LayeredWindowManager :=
  if new_height <? 0 then Ret (hide self id)
  else
    let new_height := Z.min (as_u 64 new_height) (zlen (layer_stack self)) in
    match list_find (λ lid, lid = id) (layer_stack self) with
    | None =>
        l ← vec_insert (layer_stack self) new_height id;
        Ret (with_stack self l)
    | Some (_, layer) =>
        let self := hide self id in
        let new_height := Z.min new_height (zlen (layer_stack self)) in
        l ← vec_insert (layer_stack self) new_height layer;
        Ret (with_stack self l)
    end.

(** ** The layer stack *)

Lemma vec_insert_ok l i v :
  0 ≤ i ≤ zlen l → vec_insert l i v = Ret (take (Z.to_nat i) l ++ v :: drop (Z.to_nat i) l).
Proof. intros Hi. unfold vec_insert. by rewrite (proj2 (Z.leb_le _ _)) by lia. Qed.

Lemma filter_ne_id (l : list Z) id : id ∉ l → filter (λ lid, lid ≠ id) l = l.
Proof.
  induction l as [|a l IH]; [done|]. rewrite not_elem_of_cons. intros [Ha Hl].
  rewrite filter_cons, decide_True by done. by rewrite IH.
Qed.

(** The stack without [id]. *)
Definition others (self : LayeredWindowManager) (id : Z) : list Z :=
  filter (λ lid, lid ≠ id) (layer_stack self).

Lemma up_down_ok self id h :
  0 ≤ h < 2 ^ 31 →
  let k := Z.min h (zlen (others self id)) in
  up_down self id h =
  Ret (with_stack self (take (Z.to_nat k) (others self id) ++ id :: drop (Z.to_nat k) (others self id))).
Proof.
  intros Hh k. unfold up_down. rewrite (proj2 (Z.ltb_ge _ _)) by lia. rewrite as_u_small by lia.
  unfold k, others. destruct (list_find _ _) as [[i l]|] eqn:E.
  - apply list_find_Some in E as (_ & -> & _). cbn [hide with_stack layer_stack].
    pose proof (length_filter (λ lid, lid ≠ id) (layer_stack self)) as Hle.
    rewrite vec_insert_ok, bind_Ret by lia. unfold hide, with_stack. simpl. do 4 f_equal; f_equal; lia.
  - apply list_find_None in E.
    assert (id ∉ layer_stack self) as Hni.
    { intros Hin. rewrite list.Forall_forall in E. exact (E id Hin eq_refl). }
    rewrite filter_ne_id by done. rewrite vec_insert_ok, bind_Ret by lia. done.
Qed.

(** [up_down] puts a layer where it is asked to. For a height that is not negative
    the layer ends up in the stack exactly once, at that height (at the top if the
    height exceeds the stack), above and below the same layers in the same order as
    before; a negative height removes it; the call never panics. *)
Lemma up_down_places_layer (self : LayeredWindowManager) (id h : Z) :
  - 2 ^ 31 ≤ h < 2 ^ 31 →
  ∃ self', up_down self id h = Ret self' ∧
    others self' id = others self id ∧
    (h < 0 → id ∉ layer_stack self') ∧
    (0 ≤ h → layer_stack self' !! Z.to_nat (Z.min h (zlen (others self id))) = Some id ∧
             count_occ Z.eq_dec (layer_stack self') id = 1%nat) ∧
    layers self' = layers self ∧ shadow self' = shadow self ∧ screen self' = screen self.
Proof.
  intros Hh. destruct (Z.lt_ge_cases h 0) as [Hneg|Hpos].
  - exists (hide self id). unfold up_down. rewrite (proj2 (Z.ltb_lt _ _)) by lia.
    split_and!; try done; try lia.
    + unfold others. simpl. rewrite list_filter_filter. apply list_filter_iff. tauto.
    + intros _ Hin. apply list_elem_of_filter in Hin as [Hne _]. done.
  - eexists. split; [apply up_down_ok; lia|]. set (o := others self id).
    assert (id ∉ o) as Hni by (intros [Hne _]%list_elem_of_filter; done).
    assert (filter (λ lid, lid ≠ id) o = o) as Ho by (by apply filter_ne_id).
    set (k := Z.to_nat (Z.min h (zlen o))).
    assert (length (take k o) = k) as Hk by (rewrite length_take; lia).
    split_and!; try done; try lia.
    + unfold others at 1. simpl. rewrite filter_app, filter_cons, decide_False by (intros H; by apply H).
      rewrite <- filter_app, take_drop. done.
    + intros _. simpl. split.
      * rewrite lookup_app_r, Hk, Nat.sub_diag by lia. done.
      * rewrite count_occ_app. simpl. destruct (Z.eq_dec id id); [|done].
        rewrite <- (take_drop k o), elem_of_app in Hni.
        rewrite !(proj1 (count_occ_not_In Z.eq_dec _ id)); [done| |];
          rewrite <- list_elem_of_In; tauto.
Qed.

(** ** Drawing *)

(** A window as the constructors make it, for a screen of format [fmt], at a position
    whose right and bottom edges fit an [i32]. *)
Record window_ok (fmt : PixelFormat) (w : Window) : Prop := {
  wo_fore : fb_ok (fore (buffer w));
  wo_width : horizontal_resolution (conf (fore (buffer w))) = width w;
  wo_height : vertical_resolution (conf (fore (buffer w))) = height w;
  wo_fmt : pixel_format (conf (fore (buffer w))) = fmt;
  wo_x : - 2 ^ 31 < x (pos w) ∧ x (pos w) + width w < 2 ^ 31;
  wo_y : - 2 ^ 31 < y (pos w) ∧ y (pos w) + height w < 2 ^ 31;
}.

(** What a window shows at a screen position: nothing outside it and where it has its
    transparent colour. *)
Definition win_pixel (w : Window) (px py : Z) : option PixelColor :=
  if decide (x (pos w) ≤ px < x (pos w) + width w ∧ y (pos w) ≤ py < y (pos w) + height w) then
    let c := fb_pixel (fore (buffer w)) (px - x (pos w)) (py - y (pos w)) in
    if decide (transparant_color w = Some c) then None else Some c
  else None.

(** [buf'] is [buf] with the window's pixels on the points of [D]. *)
Record drawn (w : Window) (buf : FrameBuffer) (D : Z → Z → Prop) (buf' : FrameBuffer) : Prop := {
  dr_ok : fb_ok buf';
  dr_conf : conf buf' = conf buf;
  dr_in : ∀ px py, 0 ≤ px < pixels_per_scanline (conf buf) → 0 ≤ py < vertical_resolution (conf buf) →
    D px py → fb_pixel buf' px py = default (fb_pixel buf px py) (win_pixel w px py);
  dr_out : ∀ px py, 0 ≤ px < pixels_per_scanline (conf buf) → 0 ≤ py < vertical_resolution (conf buf) →
    ¬ D px py → fb_pixel buf' px py = fb_pixel buf px py;
}.

(** Drawing one more pixel, at [(qx, qy)] on the screen. *)
Lemma draw_pixel_ok fmt w tc buf D buf1 qx qy :
  window_ok fmt w → transparant_color w = Some tc → fb_ok buf →
  0 ≤ qx < horizontal_resolution (conf buf) → 0 ≤ qy < vertical_resolution (conf buf) →
  x (pos w) ≤ qx < x (pos w) + width w → y (pos w) ≤ qy < y (pos w) + height w →
  (∀ px py, Decision (D px py)) → ¬ D qx qy →
  drawn w buf D buf1 →
  ∃ buf2, draw_pixel w tc buf1 (qy - y (pos w)) (qx - x (pos w)) = Ret buf2 ∧
    drawn w buf (λ px py, D px py ∨ px = qx ∧ py = qy) buf2.
Proof.
  intros [Hf Hw Hh _ Hx Hy] Htc Hok Hqx Hqy Hix Hiy HD Hnd [Hok1 Hc1 Hin1 Hout1].
  pose proof Hf as [? ? ? _]. pose proof Hok as [? ? ? _].
  unfold draw_pixel. rewrite color_at_ok, bind_Ret by (done || lia).
  set (c := fb_pixel (fore (buffer w)) (qx - x (pos w)) (qy - y (pos w))).
  assert (win_pixel w qx qy = if decide (c ≠ tc) then Some c else None) as Hwp.
  { unfold win_pixel. rewrite decide_True by lia. fold c. rewrite Htc.
    destruct (decide (c ≠ tc)) as [Hne|He]; [by rewrite decide_False by congruence|].
    apply dec_stable in He as ->. by rewrite decide_True. }
  destruct (decide (c ≠ tc)) as [Hne|He].
  - rewrite !as_s_small by (done || (split; lia)). unfold vec2_add. simpl.
    rewrite !i32_add_ok, !bind_Ret by lia.
    replace (x (pos w) + (qx - x (pos w))) with qx by lia.
    replace (y (pos w) + (qy - y (pos w))) with qy by lia.
    destruct (fb_write_spec buf1 {| x := qx; y := qy |} c Hok1) as (buf2 & -> & Hok2 & Hc2 & Hp2);
      [rewrite Hc1; simpl; lia..|].
    exists buf2. split; [done|]. rewrite Hc1 in Hp2. split; [done|congruence|..]; simpl in Hp2.
    + intros px py Hpx Hpy Hd. rewrite Hp2 by done. case_decide as Hpq.
      * destruct Hpq as [-> ->]. by rewrite Hwp.
      * apply Hin1; [done..|]. tauto.
    + intros px py Hpx Hpy Hd. rewrite Hp2 by done. rewrite decide_False by naive_solver.
      apply Hout1; [done..|]. naive_solver.
  - exists buf1. split; [done|]. split; [done|done|..].
    + intros px py Hpx Hpy [Hd|[-> ->]]; [by apply Hin1|].
      rewrite Hwp. simpl. by apply Hout1.
    + intros px py Hpx Hpy Hd. apply Hout1; [done..|]. naive_solver.
Qed.

Lemma drawn_iff w buf D D' buf' :
  (∀ px py, D px py ↔ D' px py) → drawn w buf D buf' → drawn w buf D' buf'.
Proof.
  intros H []. split; [done|done|..]; intros px py ? ? Hd;
    [apply dr_in0|apply dr_out0]; try done; by rewrite H.
Qed.

(** The rows of the rectangle [r] before row [e]. *)
Definition rows_done (r : Rect) (e px py : Z) : Prop := y1 r ≤ py < e ∧ x1 r ≤ px < x2 r.

#[export] Instance rows_done_dec r e px py : Decision (rows_done r e px py).
Proof. unfold rows_done. apply _. Defined.

(** One row of the transparent branch. *)
Lemma draw_row_ok fmt w tc buf r qy buf1 :
  window_ok fmt w → transparant_color w = Some tc → fb_ok buf →
  0 ≤ x1 r ≤ x2 r → x2 r ≤ horizontal_resolution (conf buf) → y1 r ≤ qy →
  0 ≤ qy < vertical_resolution (conf buf) →
  x (pos w) ≤ x1 r → x2 r ≤ x (pos w) + width w → y (pos w) ≤ qy < y (pos w) + height w →
  drawn w buf (rows_done r qy) buf1 →
  ∃ buf2, foldM (λ buf px, draw_pixel w tc buf (qy - y (pos w)) px)
      (range (x1 r - x (pos w)) (x2 r - x (pos w))) buf1 = Ret buf2 ∧
    drawn w buf (rows_done r (qy + 1)) buf2.
Proof.
  intros Hw Htc Hok Hx Hxw Hqy Hqyh Hpx Hpx2 Hpy Hd.
  destruct (foldM_inv (λ j, drawn w buf (λ px py, rows_done r qy px py ∨
      (py = qy ∧ x1 r ≤ px < x1 r + Z.of_nat j)))
    (λ buf px, draw_pixel w tc buf (qy - y (pos w)) px)
    (range (x1 r - x (pos w)) (x2 r - x (pos w))) buf1) as (buf2 & E & Hd2).
  - eapply drawn_iff; [|exact Hd]. intros px py. simpl. lia || naive_solver lia.
  - intros j px b [-> Hj]%range_lookup Hdj.
    destruct (draw_pixel_ok fmt w tc buf (λ px py, rows_done r qy px py ∨
        (py = qy ∧ x1 r ≤ px < x1 r + Z.of_nat j)) b (x1 r + Z.of_nat j) qy Hw Htc Hok)
      as (b2 & E2 & Hd2); [lia..|apply _|unfold rows_done; lia|exact Hdj|].
    replace (x1 r - x (pos w) + Z.of_nat j) with (x1 r + Z.of_nat j - x (pos w)) by lia.
    exists b2. split; [done|]. eapply drawn_iff; [|exact Hd2].
    intros px py. simpl. unfold rows_done. lia.
  - exists buf2. split; [done|]. eapply drawn_iff; [|exact Hd2].
    intros px py. simpl. rewrite range_length. unfold rows_done. lia.
Qed.

Lemma draw_to_ok w buf :
  fb_ok buf → window_ok (pixel_format (conf buf)) w →
  ∃ buf', draw_to w buf = Ret buf' ∧ fb_ok buf' ∧ conf buf' = conf buf ∧
    ∀ px py, 0 ≤ px < horizontal_resolution (conf buf) → 0 ≤ py < vertical_resolution (conf buf) →
      fb_pixel buf' px py = default (fb_pixel buf px py) (win_pixel w px py).
Proof.
  intros Hok Hw. pose proof Hw as [Hf Hww Hwh Hwf Hwx Hwy]. pose proof Hok as [? ? ? _].
  pose proof Hf as [? ? ? _]. unfold draw_to.
  destruct (transparant_color w) as [tc|] eqn:Htc.
  2:{ destruct (copy_ok buf (pos w) (fore (buffer w)) Hok Hf Hwf) as (buf' & -> & Hok' & Hc' & Hp');
        [lia..|]. exists buf'. split_and!; try done. intros px py Hpx Hpy.
      rewrite Hp' by done. unfold win_pixel. rewrite Htc.
      destruct (decide (covers _ _ px py)) as [Hcv|Hcv]; unfold covers in Hcv; rewrite Hww, Hwh in Hcv;
        [by rewrite decide_True, decide_False|by rewrite decide_False]. }
  unfold from_wh. rewrite !as_s_small by (done || (split; lia)).
  rewrite !i32_add_ok, !bind_Ret by lia.
  destruct (intersection _ _) as [r|] eqn:Er.
  2:{ exists buf. split_and!; try done. intros px py Hpx Hpy. unfold win_pixel.
      rewrite decide_False; [done|]. intros Hin.
      eapply intersection_none with (px := px) (py := py) in Er; [done|..]; unfold in_rect; simpl; lia. }
  apply intersection_some in Er. cbn [x1 x2 y1 y2] in Er.
  rewrite !i32_neg_ok, !bind_Ret by lia. unfold move_relative.
  rewrite !i32_add_ok, !bind_Ret by lia. cbn [x1 x2 y1 y2]. rewrite !as_u_small by lia.
  destruct (foldM_inv (λ i, drawn w buf (rows_done r (y1 r + Z.of_nat i)))
    (λ buf py, foldM (λ buf px, draw_pixel w tc buf py px)
      (range (x1 r + - x (pos w)) (x2 r + - x (pos w))) buf)
    (range (y1 r + - y (pos w)) (y2 r + - y (pos w))) buf) as (buf' & E & Hd).
  - split; try done. intros px py _ _ Hd. unfold rows_done in Hd. lia.
  - intros i py b [-> Hi]%range_lookup Hb.
    destruct (draw_row_ok _ w tc buf r (y1 r + Z.of_nat i) b Hw Htc Hok) as (b2 & E2 & Hb2);
      try done; try lia.
    replace (y1 r + - y (pos w) + Z.of_nat i) with (y1 r + Z.of_nat i - y (pos w)) by lia.
    replace (x1 r + - x (pos w)) with (x1 r - x (pos w)) by lia.
    replace (x2 r + - x (pos w)) with (x2 r - x (pos w)) by lia.
    exists b2. split; [done|]. eapply drawn_iff; [|exact Hb2].
    intros px qy. by rewrite Nat2Z.inj_add, Z.add_assoc.
  - exists buf'. split; [exact E|]. destruct Hd as [Hok' Hc' Hin Hout].
    split_and!; try done. intros px py Hpx Hpy. rewrite range_length in *.
    destruct (decide (rows_done r (y1 r + Z.of_nat (Z.to_nat (y2 r + - y (pos w) - (y1 r + - y (pos w))))) px py)) as [Hd|Hd].
    + apply Hin; [lia..|done].
    + rewrite Hout by (done || lia). unfold win_pixel. rewrite decide_False; [done|].
      unfold rows_done in Hd. lia.
Qed.

(** ** Composition *)

Record manager_ok (m : LayeredWindowManager) : Prop := {
  mo_shadow : fb_ok (shadow m);
  mo_screen : fb_ok (screen m);
  mo_width : horizontal_resolution (conf (shadow m)) = horizontal_resolution (conf (screen m));
  mo_height : vertical_resolution (conf (shadow m)) = vertical_resolution (conf (screen m));
  mo_fmt : pixel_format (conf (shadow m)) = pixel_format (conf (screen m));
  mo_stack : Forall (λ id, 0 ≤ id < zlen (layers m)) (layer_stack m);
  mo_layers : Forall (window_ok (pixel_format (conf (screen m)))) (layers m);
}.

(** What the layer [id] contributes to a pixel: windows never written to are skipped. *)
Definition layer_pixel (m : LayeredWindowManager) (px py id : Z) : option PixelColor :=
  w ← layers m !! Z.to_nat id;
  if is_updated (buffer w) then win_pixel w px py else None.

(** The topmost contribution, or what the shadow buffer showed before. *)
Definition composed (m : LayeredWindowManager) (px py : Z) : PixelColor :=
  default (fb_pixel (shadow m) px py) (last (omap (layer_pixel m px py) (layer_stack m))).

Definition on_screen (fb : FrameBuffer) (px py : Z) : Prop :=
  0 ≤ px < horizontal_resolution (conf fb) ∧ 0 ≤ py < vertical_resolution (conf fb).

Lemma draw_layers_ok m ids :
  manager_ok m → Forall (λ id, 0 ≤ id < zlen (layers m)) ids →
  ∃ s, foldM (λ shadow id,
        win ← vget (layers m) id;
        if is_updated (buffer win) then draw_to win shadow else Ret shadow) ids (shadow m) = Ret s ∧
    fb_ok s ∧ conf s = conf (shadow m) ∧
    ∀ px py, on_screen (shadow m) px py →
      fb_pixel s px py = default (fb_pixel (shadow m) px py) (last (omap (layer_pixel m px py) ids)).
Proof.
  intros Hm. induction ids as [|id ids IH] using rev_ind; intros Hids.
  { exists (shadow m). split_and!; try done. apply Hm. }
  apply Forall_app in Hids as [Hids Hid]. apply list.Forall_cons in Hid as [Hid _].
  destruct (IH Hids) as (s & E & Hok & Hc & Hp). rewrite foldM_app, E, bind_Ret. cbn [foldM].
  destruct (vget_range (layers m) id Hid) as (w & -> & Hw). rewrite bind_Ret.
  assert (window_ok (pixel_format (conf s)) w) as Hwok.
  { rewrite Hc, (mo_fmt _ Hm). apply (proj1 (list.Forall_forall _ _) (mo_layers _ Hm)).
    by eapply list_elem_of_lookup_2. }
  assert (∀ px py, last (omap (layer_pixel m px py) (ids ++ [id])) =
    match layer_pixel m px py id with
    | Some c => Some c | None => last (omap (layer_pixel m px py) ids) end) as Hlast.
  { intros px py. rewrite omap_app. cbn [omap list_omap].
    destruct (layer_pixel m px py id); [by rewrite last_snoc|by rewrite app_nil_r]. }
  assert (∀ px py, layer_pixel m px py id = if is_updated (buffer w) then win_pixel w px py else None) as Hl.
  { intros px py. unfold layer_pixel. by rewrite Hw. }
  destruct (is_updated (buffer w)).
  - destruct (draw_to_ok w s Hok Hwok) as (s' & -> & Hok' & Hc' & Hp'). rewrite bind_Ret.
    exists s'. split_and!; try done; [congruence|]. intros px py Hv. rewrite Hlast, Hl.
    rewrite Hp' by (rewrite Hc; apply Hv). rewrite Hp by done. by destruct (win_pixel w px py).
  - rewrite bind_Ret. exists s. split_and!; try done. intros px py Hv. rewrite Hlast, Hl. by apply Hp.
Qed.

Lemma draw_ok (m : LayeredWindowManager) :
  manager_ok m →
  ∃ m', draw m = Ret m' ∧ layers m' = layers m ∧ layer_stack m' = layer_stack m ∧ manager_ok m' ∧
    conf (screen m') = conf (screen m) ∧
    ∀ px py, on_screen (screen m) px py →
      fb_pixel (screen m') px py = composed m px py ∧ fb_pixel (shadow m') px py = composed m px py.
Proof.
  intros Hm. unfold draw.
  destruct (draw_layers_ok m (layer_stack m) Hm (mo_stack _ Hm)) as (s & -> & Hok & Hc & Hp).
  rewrite bind_Ret. pose proof (mo_screen _ Hm) as Hs. pose proof Hs as [? ? ? _].
  destruct (copy_ok (screen m) {| x := 0; y := 0 |} s Hs Hok) as (b & -> & Hokb & Hcb & Hpb);
    rewrite ?Hc, ?(mo_fmt _ Hm), ?(mo_width _ Hm), ?(mo_height _ Hm); simpl; try done; try lia.
  rewrite ?bind_Ret. eexists. split; [done|]. split; [done|]. split; [done|].
  assert (∀ px py, on_screen (screen m) px py → fb_pixel s px py = composed m px py) as Hcomp.
  { intros px py [Hx Hy]. apply Hp. split; rewrite ?(mo_width _ Hm), ?(mo_height _ Hm); done. }
  split; [|split; [done|]].
  - destruct Hm. split; simpl; rewrite ?Hc, ?Hcb; done.
  - intros px py Hv. simpl. split; [|by apply Hcomp].
    rewrite Hpb by apply Hv. rewrite decide_True.
    + simpl. rewrite !Z.sub_0_r. by apply Hcomp.
    + unfold covers. simpl. rewrite Hc, (mo_width _ Hm), (mo_height _ Hm). unfold on_screen in Hv. lia.
Qed.

(** C28: [draw] composes the layers. It does not panic, and every pixel of the screen then
    shows the topmost window of the stack that covers it with a colour that is not
    transparent, among the windows that have been drawn to; where there is none it
    shows what was there after the previous call. Windows and stack do not change. *)
Theorem draw_composes_layers (m : LayeredWindowManager) :
  manager_ok m →
  ∃ m', draw m = Ret m' ∧ layers m' = layers m ∧ layer_stack m' = layer_stack m ∧ manager_ok m' ∧
    ∀ px py, on_screen (screen m) px py →
      fb_pixel (screen m') px py = composed m px py ∧ fb_pixel (shadow m') px py = composed m px py.
Proof. intros Hm. destruct (draw_ok m Hm) as (m' & ? & ? & ? & ? & _ & ?). by exists m'. Qed.

(** ** Concrete runs *)

Definition demo_window (c : BufferedCanvas) : Window :=
  {| pos := {| x := 1; y := -1 |}; width := 4; height := 3; transparant_color := Some (2, 1, 0);
     buffer := c |}.

Definition demo_manager : LayeredWindowManager :=
  {| layers := [demo_window {| fore := small_fb; back := small_fb; is_updated := true |}];
     layer_stack := [0]; shadow := small_fb; screen := small_fb |}.

Lemma demo_manager_ok : manager_ok demo_manager.
Proof.
  pose proof small_fb_ok. split; try done; repeat constructor; simpl; try done; lia.
Qed.

Lemma draw_composes_layers_witness :
  ∃ m', draw demo_manager = Ret m' ∧ fb_pixel (screen m') 2 1 = fb_pixel small_fb 1 2.
Proof.
  destruct (draw_composes_layers demo_manager demo_manager_ok) as (m' & E & _ & _ & _ & Hp).
  exists m'. split; [exact E|]. destruct (Hp 2 1) as [Hc _]; [vm_compute; intuition congruence|].
  rewrite Hc. vm_compute. reflexivity.
Defined.

Lemma up_down_places_layer_witness :
  ∃ m', up_down (with_stack demo_manager [3; 1; 2]) 3 7 = Ret m' ∧
    layer_stack m' !! 2%nat = Some 3.
Proof.
  destruct (up_down_places_layer (with_stack demo_manager [3; 1; 2]) 3 7)
    as (m' & E & _ & _ & Hh & _); [lia|].
  exists m'. split; [exact E|]. apply Hh. lia.
Defined.
