(* ===== verification/Console.v ===== *)
(** console.rs: the text console, a grid of character cells drawn into a window. The
    window's canvas is passed along instead of being reached through the layer handle. *)

From S2P Require Import Prelude Graphics FrameBuffer FontData Font Window.

Definition CHAR_W : Z := 8.
Definition CHAR_H : Z := 16.

Record Console := {
  fg_color : PixelColor;
  bg_color : PixelColor;
  n_rows : Z;
  n_cols : Z;
  text : list (list Z);
  cursor_row : Z;
  cursor_col : Z;
}.

(** [for y in y0..ye { for x in 0..xe { window.write((x, y), c) } }] *)
Definition fill_cells (window : FrameBuffer) (y0 ye xe : Z) (c : PixelColor) : outcome FrameBuffer :=
  foldM (λ window py,
    foldM (λ window px, write window {| x := as_s 32 px; y := as_s 32 py |} c) (range 0 xe) window)
    (range y0 ye) window.

(** [Console::new] on the window of the layer. *)
Definition Console_new (window : Window) (fg bg : PixelColor) : outcome (Console * Window) :=
  let n_cols := width window / CHAR_W in
  let n_rows := height window / CHAR_H in
  let text := replicate (Z.to_nat n_rows) (replicate (Z.to_nat n_cols) 0) in
  b ← write_with (buffer window) (λ back,
    ye ← usize_mul 16 n_rows;
    xe ← usize_mul 8 n_cols;
    fill_cells back 0 ye xe bg);
  Ret ({| fg_color := fg; bg_color := bg; n_rows := n_rows; n_cols := n_cols; text := text;
          cursor_row := 0; cursor_col := 0 |}, with_buffer window b).

Definition with_text (self : Console) (t : list (list Z)) : Console :=
  {| fg_color := fg_color self; bg_color := bg_color self; n_rows := n_rows self;
     n_cols := n_cols self; text := t; cursor_row := cursor_row self; cursor_col := cursor_col self |}.

Definition with_cursor (self : Console) (r c : Z) : Console :=
  {| fg_color := fg_color self; bg_color := bg_color self; n_rows := n_rows self;
     n_cols := n_cols self; text := text self; cursor_row := r; cursor_col := c |}.

(** [slice::swap] *)
Definition swap {A} (l : list A) (i j : Z) : outcome (list A) :=
  a ← vget l i;
  b ← vget l j;
  l ← vset l i b;
  vset l j a.

Definition i32_mul (a b : Z) : outcome Z := chk_s 32 (a * b).

Definition scroll_up (self : Console) (window : FrameBuffer) : outcome (Console * FrameBuffer) :=
  xe ← i32_mul 8 (as_s 32 (n_cols self));
  ye ← i32_mul 16 (as_s 32 (n_rows self));
  window ← move_rect window {| x := 0; y := 0 |} {| x1 := 0; y1 := 16; x2 := xe; y2 := ye |};
  last ← usize_sub (n_rows self) 1;
  y0 ← usize_mul 16 last;
  ye ← usize_mul 16 (n_rows self);
  xe ← usize_mul 8 (n_cols self);
  window ← fill_cells window y0 ye xe (bg_color self);
  t ← foldM (λ t row, nxt ← usize_add row 1; swap t row nxt) (range 0 last) (text self);
  old ← vget t last;
  t ← vset t last (replicate (length old) 0);
  Ret (with_text self t, window).

Definition new_line (self : Console) (window : FrameBuffer) : outcome (Console * FrameBuffer) :=
  let self := with_cursor self (cursor_row self) 0 in
  last ← usize_sub (n_rows self) 1;
  if cursor_row self <? last then
    r ← usize_add (cursor_row self) 1;
    Ret (with_cursor self r 0, window)
  else scroll_up self window.

(** The body of the loop of [put_string], for the byte [c]. *)
Definition put_char (st : Console * FrameBuffer) (c : Z) : outcome (Console * FrameBuffer) :=
  let '(self, back) := st in
  '(self, back) ← (if c =? 10 then new_line self back else Ret (self, back));
  gx ← u32_mul 8 (as_u 32 (cursor_col self));
  gy ← u32_mul 16 (as_u 32 (cursor_row self));
  back ← write_ascii back gx gy c (fg_color self);
  row ← vget (text self) (cursor_row self);
  row ← vset row (cursor_col self) c;
  t ← vset (text self) (cursor_row self) row;
  col ← usize_add (cursor_col self) 1;
  let self := with_cursor (with_text self t) (cursor_row self) col in
  if cursor_col self =? n_cols self then new_line self back else Ret (self, back).

Definition put_string (self : Console) (canvas : BufferedCanvas) (str : list Z)
    : outcome (Console * BufferedCanvas) :=
  '(self, back) ← foldM put_char str (self, back canvas);
  canvas ← flush {| fore := fore canvas; back := back; is_updated := true |};
  Ret (self, canvas).

(** ** The terminal the console implements *)

(** Rows of text and a cursor, without any drawing. *)
Record terminal := { t_text : list (list Z); t_row : Z; t_col : Z }.

Definition term_newline (nr nc : Z) (t : terminal) : terminal :=
  if t_row t <? nr - 1 then {| t_text := t_text t; t_row := t_row t + 1; t_col := 0 |}
  else {| t_text := tail (t_text t) ++ [replicate (Z.to_nat nc) 0]; t_row := t_row t; t_col := 0 |}.

Definition term_store (t : terminal) (c : Z) : terminal :=
  {| t_text := alter (λ row, <[Z.to_nat (t_col t) := c]> row) (Z.to_nat (t_row t)) (t_text t);
     t_row := t_row t; t_col := t_col t + 1 |}.

(** A newline starts a new row and is then stored like any other character. *)
Definition term_put (nr nc : Z) (t : terminal) (c : Z) : terminal :=
  let t := term_store (if c =? 10 then term_newline nr nc t else t) c in
  if t_col t =? nc then term_newline nr nc t else t.

Definition terminal_of (self : Console) : terminal :=
  {| t_text := text self; t_row := cursor_row self; t_col := cursor_col self |}.

(** The character stored in a cell. *)
Definition cell (self : Console) (r c : Z) : Z :=
  default 0 (default [] (text self !! Z.to_nat r) !! Z.to_nat c).

(** The colour of a pixel of a character cell. *)
Definition glyph_color (fg bg : PixelColor) (c dx dy : Z) : PixelColor :=
  if decide (glyph_bit c dx dy) then fg else bg.

(** The pixel colour the text prescribes. *)
Definition text_pixel (self : Console) (px py : Z) : PixelColor :=
  glyph_color (fg_color self) (bg_color self) (cell self (py / 16) (px / 8)) (px mod 8) (py mod 16).

(** ** Invariant *)

Record console_base (self : Console) (fb : FrameBuffer) : Prop := {
  ck_fb : fb_ok fb;
  ck_rows : 1 ≤ n_rows self ∧ 16 * n_rows self ≤ vertical_resolution (conf fb);
  ck_cols : 1 ≤ n_cols self ∧ 8 * n_cols self ≤ horizontal_resolution (conf fb);
  ck_len : zlen (text self) = n_rows self;
  ck_row_len : Forall (λ row, zlen row = n_cols self) (text self);
  ck_row : 0 ≤ cursor_row self < n_rows self;
  (** The picture is the text. *)
  ck_shows : ∀ px py, 0 ≤ px < 8 * n_cols self → 0 ≤ py < 16 * n_rows self →
    fb_pixel fb px py = text_pixel self px py;
}.

(** The cells from the cursor on have never been written. [put_char] leaves the grid by
    one column before it starts a new line. *)
Record console_inv (self : Console) (fb : FrameBuffer) : Prop := {
  ck_base : console_base self fb;
  ck_col : 0 ≤ cursor_col self ≤ n_cols self;
  ck_blank : ∀ r c, cursor_row self < r ∨ r = cursor_row self ∧ cursor_col self ≤ c →
    0 ≤ c → cell self r c = 0;
}.

Definition console_ok (self : Console) (fb : FrameBuffer) : Prop :=
  console_inv self fb ∧ cursor_col self < n_cols self.

Lemma glyph_color_in fg bg c dx dy : glyph_bit c dx dy → glyph_color fg bg c dx dy = fg.
Proof. intros. unfold glyph_color. by rewrite decide_True. Qed.

Lemma glyph_color_out fg bg c dx dy : ¬ glyph_bit c dx dy → glyph_color fg bg c dx dy = bg.
Proof. intros. unfold glyph_color. by rewrite decide_False. Qed.

Lemma glyph_zero dx dy : ¬ glyph_bit 0 dx dy.
Proof.
  intros (_ & _ & H). assert (FONTS !! Z.to_nat 0 = Some (replicate 16 0)) as E by (vm_compute; done).
  rewrite E in H. change (default [] (Some (replicate 16 0))) with (replicate 16 0) in H.
  destruct (replicate 16 0 !! Z.to_nat dy) as [b|] eqn:Eb.
  - apply lookup_replicate_1 in Eb as [-> _]. simpl in H. by rewrite Z.bits_0 in H.
  - simpl in H. by rewrite Z.bits_0 in H.
Qed.

(** *** Drawing keeps the configuration *)

Lemma write_conf (fb : FrameBuffer) p c fb' : write fb p c = Ret fb' → conf fb' = conf fb.
Proof. unfold write, FrameBuffer_writer. intros H. inv_outcome. by subst. Qed.

Lemma foldM_conf {A} (f : FrameBuffer → A → outcome FrameBuffer) l fb fb' :
  (∀ fb a fb', f fb a = Ret fb' → conf fb' = conf fb) → foldM f l fb = Ret fb' → conf fb' = conf fb.
Proof.
  intros Hf. apply (foldM_inv_partial (λ _ b, conf b = conf fb)); [done|].
  intros i a b b' _ Hb E. rewrite <- Hb. by eapply Hf.
Qed.

Lemma write_ascii_conf (fb : FrameBuffer) gx gy c col fb' :
  write_ascii fb gx gy c col = Ret fb' → conf fb' = conf fb.
Proof.
  unfold write_ascii. destruct (_ >=? _); [by intros [= ->]|].
  apply foldM_conf. intros b dy b'. apply foldM_conf. intros d dx d' H. inv_outcome.
  destruct (negb _); inv_outcome; subst; [by eapply write_conf|done].
Qed.

Lemma fill_cells_ok fb y0 ye xe c :
  fb_ok fb → 0 ≤ y0 → ye ≤ vertical_resolution (conf fb) → 0 ≤ xe ≤ horizontal_resolution (conf fb) →
  ∃ fb', fill_cells fb y0 ye xe c = Ret fb' ∧ conf fb' = conf fb ∧
    painted fb (λ px py, 0 ≤ px < xe ∧ y0 ≤ py < ye) c fb'.
Proof.
  intros Hok Hy Hye Hxe. pose proof Hok as [? ? ? _].
  assert (∃ fb', fill_cells fb y0 ye xe c = Ret fb' ∧
    painted fb (λ px py, 0 ≤ px < xe ∧ y0 ≤ py < ye) c fb') as (fb' & E & Hp).
  { unfold fill_cells.
    apply (painted_foldM_iff (λ py qx qy, 0 ≤ qx < xe ∧ qy = py)); [apply _|done| |].
    { intros px py. setoid_rewrite elem_of_range. naive_solver. }
    intros py w Hpy%elem_of_range Hw Hs.
    apply (painted_foldM_iff (λ px qx qy, qx = px ∧ qy = py)); [apply _|done| |].
    { intros qx qy. setoid_rewrite elem_of_range. naive_solver. }
    intros px w2 Hpx%elem_of_range Hw2 Hs2. rewrite !as_s_small by (done || (split; lia)).
    apply (painted_write w2 {| x := px; y := py |} c Hw2).
    unfold visible. rewrite Hs2, Hs. simpl. lia. }
  exists fb'. split_and!; try done. revert E. apply foldM_conf. intros b py b'.
  apply foldM_conf. intros d px d'. apply write_conf.
Qed.

(** *** Scrolling *)

Lemma swap_ok {A} (l1 l2 : list A) a b i :
  i = zlen l1 → swap (l1 ++ a :: b :: l2) i (i + 1) = Ret (l1 ++ b :: a :: l2).
Proof.
  intros ->. unfold swap.
  rewrite (vget_ok _ (zlen l1) a), bind_Ret by (lia || (rewrite lookup_app_r, Nat2Z.id, Nat.sub_diag by lia; done)).
  assert (Z.to_nat (zlen l1 + 1) = (length l1 + 1)%nat) as E1 by lia.
  rewrite (vget_ok _ (zlen l1 + 1) b), bind_Ret
    by (lia || (rewrite E1, lookup_app_r by lia; by replace (length l1 + 1 - length l1)%nat with 1%nat by lia)).
  rewrite vset_ok, bind_Ret by (rewrite length_app; simpl; lia).
  rewrite vset_ok by (rewrite length_insert, length_app; simpl; lia). f_equal.
  rewrite Nat2Z.id, E1. rewrite insert_app_r_alt, Nat.sub_diag by lia. simpl.
  rewrite insert_app_r_alt by lia. by replace (length l1 + 1 - length l1)%nat with 1%nat by lia.
Qed.

Lemma rotate_ok {A} (a : A) l :
  zlen l < 2 ^ 63 →
  foldM (λ t row, nxt ← usize_add row 1; swap t row nxt) (range 0 (zlen l)) (a :: l) = Ret (l ++ [a]).
Proof.
  intros Hl.
  destruct (foldM_inv (λ i t, t = take i l ++ a :: drop i l)
    (λ t row, nxt ← usize_add row 1; swap t row nxt) (range 0 (zlen l)) (a :: l))
    as (t & E & ->); [done| |].
  - intros i row t [-> Hi]%range_lookup ->. rewrite usize_add_ok, bind_Ret by lia.
    destruct (drop i l) as [|b r] eqn:Ed; [apply (f_equal length) in Ed; rewrite length_drop in Ed; simpl in Ed; lia|].
    assert (l !! i = Some b) as Hb.
    { rewrite <- (Nat.add_0_r i), <- lookup_drop, Ed. done. }
    rewrite swap_ok by (rewrite length_take; lia). eexists. split; [done|].
    rewrite Nat.add_1_r, (take_S_r _ _ b Hb), <- app_assoc. simpl. do 3 f_equal.
    replace (S i) with (i + 1)%nat by lia. by rewrite <- drop_drop, Ed.
  - rewrite range_length in E. rewrite E. rewrite take_ge, drop_ge by lia. done.
Qed.

Lemma cell_tail self t r c z :
  text self = t → 0 ≤ r → length (tail t) = z →
  default 0 (default [] ((tail t ++ [replicate (Z.to_nat (n_cols self)) 0]) !! Z.to_nat r) !! Z.to_nat c) =
  if r <? Z.of_nat z then cell self (r + 1) c else 0.
Proof.
  intros Ht Hr Hz. destruct (Z.ltb_spec r (Z.of_nat z)) as [Hlt|Hge].
  - rewrite lookup_app_l by lia. unfold cell. rewrite Ht, lookup_tail.
    by replace (Z.to_nat (r + 1)) with (S (Z.to_nat r)) by lia.
  - rewrite lookup_app_r by lia.
    destruct (Z.to_nat r - length (tail t))%nat as [|k]; [|done].
    change (default [] ([?l] !! 0%nat)) with l.
    destruct (replicate (Z.to_nat (n_cols self)) 0 !! Z.to_nat c) as [v|] eqn:E; [|done].
    by apply lookup_replicate_1 in E as [-> _].
Qed.

Lemma cell_div_shift py : (py + 16) / 16 = py / 16 + 1 ∧ (py + 16) mod 16 = py mod 16.
Proof.
  replace (py + 16) with (py + 1 * 16) by lia. by rewrite Z.div_add, Z.mod_add by lia.
Qed.

(** What scrolling does to the picture. *)
Lemma scroll_picture self fb fb1 fb2 :
  console_base self fb →
  moved fb {| x := 0; y := 0 |} {| x1 := 0; y1 := 16; x2 := 8 * n_cols self; y2 := 16 * n_rows self |}
    0 (16 * n_rows self - 16) fb1 →
  painted fb1 (λ px py, 0 ≤ px < 8 * n_cols self ∧
    16 * (n_rows self - 1) ≤ py < 16 * n_rows self) (bg_color self) fb2 →
  let self' := with_text self (tail (text self) ++ [replicate (Z.to_nat (n_cols self)) 0]) in
  ∀ px py, 0 ≤ px < 8 * n_cols self → 0 ≤ py < 16 * n_rows self →
    fb_pixel fb2 px py = text_pixel self' px py.
Proof.
  intros [Hok Hr Hc Hl _ _ Hsh] (Hok1 & Hc1 & Hs1) [_ _ Hin Hout] self' px py Hpx Hpy.
  pose proof Hok as [? ? ? _]. change (@pixel _ _ FrameBuffer_canvas) with fb_pixel in *.
  assert (visible fb1 px py) as Hv by (unfold visible; simpl; rewrite Hc1; lia).
  assert (zlen (tail (text self)) = n_rows self - 1) as Hlt by (destruct (text self); simpl in *; lia).
  assert (0 ≤ py / 16) as Hd by (apply Z.div_pos; lia).
  assert (cell self' (py / 16) (px / 8) =
    if py / 16 <? n_rows self - 1 then cell self (py / 16 + 1) (px / 8) else 0) as Hcell.
  { unfold self', cell. cbn [text with_text]. rewrite <- Hlt. by apply cell_tail. }
  unfold text_pixel. rewrite Hcell. unfold self'. cbn [fg_color bg_color with_text].
  pose proof (Z.div_mod py 16 ltac:(lia)). pose proof (Z.mod_pos_bound py 16 ltac:(lia)).
  destruct (Z.ltb_spec (py / 16) (n_rows self - 1)) as [Hlast|Hlast].
  - rewrite Hout by (done || lia). rewrite Hs1 by (rewrite Hc1; lia). cbn [x y x1 x2 y1 y2].
    rewrite decide_True by lia. rewrite !Z.sub_0_r, Z.add_0_r. rewrite Hsh by lia.
    destruct (cell_div_shift py) as [E1 E2]. unfold text_pixel. by rewrite E1, E2.
  - rewrite Hin by (done || lia). symmetry. apply glyph_color_out, glyph_zero.
Qed.

Lemma scroll_up_ok self fb :
  console_base self fb → cursor_row self = n_rows self - 1 → cursor_col self = 0 →
  let t := tail (text self) ++ [replicate (Z.to_nat (n_cols self)) 0] in
  ∃ fb', scroll_up self fb = Ret (with_text self t, fb') ∧ conf fb' = conf fb ∧
    console_inv (with_text self t) fb'.
Proof.
  intros Hb Hrow Hcol t. pose proof Hb as [Hok [Hr Hrv] [Hc Hch] Hl Hrl Hcr Hsh].
  pose proof Hok as [? ? ? _]. unfold scroll_up, i32_mul.
  rewrite !as_s_small by (done || (split; lia)). rewrite !chk_s_ok, !bind_Ret by (split; lia).
  destruct (move_rect_ok fb {| x := 0; y := 0 |}
    {| x1 := 0; y1 := 16; x2 := 8 * n_cols self; y2 := 16 * n_rows self |} Hok) as (fb1 & -> & Hmv).
  { split; simpl; lia. }
  rewrite bind_Ret. rewrite usize_sub_ok, bind_Ret by lia. rewrite !usize_mul_ok, !bind_Ret by lia.
  pose proof Hmv as (Hok1 & Hc1 & _). cbn [y1 y2] in Hmv.
  destruct (fill_cells_ok fb1 (16 * (n_rows self - 1)) (16 * n_rows self) (8 * n_cols self)
    (bg_color self) Hok1) as (fb2 & -> & Hc2 & Hp); [rewrite ?Hc1; lia..|].
  rewrite bind_Ret.
  destruct (text self) as [|a l] eqn:Et; [simpl in Hl; lia|].
  assert (zlen l = n_rows self - 1) as Hll by (simpl in Hl; lia).
  rewrite <- Hll, rotate_ok, bind_Ret by lia.
  rewrite (vget_ok _ _ a), bind_Ret by (lia || (rewrite lookup_app_r, Nat2Z.id, Nat.sub_diag by lia; done)).
  rewrite vset_ok, bind_Ret by (rewrite length_app; simpl; lia).
  rewrite Nat2Z.id, insert_app_r_alt, Nat.sub_diag by lia. cbn [insert list_insert].
  apply list.Forall_cons in Hrl as [Ha Hrl].
  replace (replicate (length a) 0) with (replicate (Z.to_nat (n_cols self)) 0) by (f_equal; lia).
  change (l ++ [replicate (Z.to_nat (n_cols self)) 0]) with t.
  exists fb2. split; [done|]. split; [congruence|].
  assert (t = tail (text self) ++ [replicate (Z.to_nat (n_cols self)) 0]) as Ht by (by rewrite Et).
  assert (conf fb2 = conf fb) as Hcf by congruence.
  split; [split|..]; cbn [with_text text n_rows n_cols cursor_row cursor_col].
  - apply (pt_ok _ _ _ _ Hp).
  - rewrite Hcf. lia.
  - rewrite Hcf. lia.
  - unfold t. rewrite length_app. simpl. lia.
  - unfold t. apply Forall_app. split; [done|]. constructor; [rewrite length_replicate; lia|done].
  - done.
  - rewrite Ht. by apply (scroll_picture self fb fb1).
  - lia.
  - intros r c Hrc Hc0. unfold cell. cbn [with_text text]. rewrite Ht.
    rewrite (cell_tail self (text self) r c (length l)) by (rewrite ?Et; done || lia).
    by rewrite (proj2 (Z.ltb_ge _ _)) by lia.
Qed.

(** The parameters an operation leaves alone. *)
Definition same_grid (a b : Console) : Prop :=
  n_rows b = n_rows a ∧ n_cols b = n_cols a ∧ fg_color b = fg_color a ∧ bg_color b = bg_color a.

Lemma new_line_ok self fb :
  console_inv self fb →
  ∃ self' fb', new_line self fb = Ret (self', fb') ∧ conf fb' = conf fb ∧ console_ok self' fb' ∧
    same_grid self self' ∧
    terminal_of self' = term_newline (n_rows self) (n_cols self) (terminal_of self).
Proof.
  intros [Hb Hcol Hbl]. pose proof Hb as [Hok [Hr Hrv] [Hc Hch] Hl Hrl Hcr Hsh].
  pose proof Hok as [? ? ? _]. unfold new_line. cbn [n_rows cursor_row with_cursor].
  rewrite usize_sub_ok, bind_Ret by lia. unfold term_newline. cbn [t_row t_text terminal_of].
  destruct (Z.ltb_spec (cursor_row self) (n_rows self - 1)) as [Hlt|Hge].
  - rewrite usize_add_ok, bind_Ret by lia. eexists _, fb. split; [done|]. split; [done|].
    split; [|done]. split; [|simpl; lia].
    split; [split|..]; cbn [with_cursor text n_rows n_cols cursor_row cursor_col]; try done; try lia.
    intros r c Hrc Hc0. apply (Hbl r c); [lia|done].
  - destruct (scroll_up_ok (with_cursor self (cursor_row self) 0) fb) as (fb' & E & Hcf & Hi);
      [by split|simpl; lia|done|].
    eexists _, fb'. split; [exact E|]. split; [done|]. split; [|done].
    split; [done|]. simpl. lia.
Qed.

Lemma alter_insert_lookup {A} (f : A → A) (l : list A) i a :
  l !! i = Some a → alter f i l = <[i := f a]> l.
Proof.
  revert i; induction l as [|b l IH]; intros [|i] H; simpl in *; simplify_eq; [done|].
  f_equal. by apply IH.
Qed.

(** The cells after storing [ch] at the cursor. *)
Lemma cell_store self fb ch row r c :
  console_base self fb → 0 ≤ cursor_col self < n_cols self →
  text self !! Z.to_nat (cursor_row self) = Some row → 0 ≤ r → 0 ≤ c →
  default 0 (default [] (<[Z.to_nat (cursor_row self) := <[Z.to_nat (cursor_col self) := ch]> row]> (text self)
    !! Z.to_nat r) !! Z.to_nat c) =
  if decide (r = cursor_row self ∧ c = cursor_col self) then ch else cell self r c.
Proof.
  intros [_ _ _ Hl Hrl Hcr _] Hcol Hrow Hr Hc.
  assert (zlen row = n_cols self) as Hlen.
  { apply (proj1 (list.Forall_forall _ _) Hrl). by eapply list_elem_of_lookup_2. }
  unfold cell. destruct (decide (r = cursor_row self)) as [->|Hne].
  - rewrite list_lookup_insert_eq by lia. rewrite Hrow. change (default [] (Some ?l)) with l.
    destruct (decide (c = cursor_col self)) as [->|Hne].
    + rewrite list_lookup_insert_eq by lia. by rewrite decide_True.
    + rewrite list_lookup_insert_ne by lia. by rewrite decide_False by lia.
  - rewrite list_lookup_insert_ne by lia. by rewrite decide_False by lia.
Qed.

(** A pixel lies in the cell of the cursor or in another one. *)
Lemma in_cell px py col row :
  (0 ≤ px - 8 * col < 8 ∧ 0 ≤ py - 16 * row < 16) ↔ (py / 16 = row ∧ px / 8 = col).
Proof.
  pose proof (Z.div_mod px 8 ltac:(lia)). pose proof (Z.mod_pos_bound px 8 ltac:(lia)).
  pose proof (Z.div_mod py 16 ltac:(lia)). pose proof (Z.mod_pos_bound py 16 ltac:(lia)). lia.
Qed.

(** Drawing and storing a character in a blank cell keeps the picture in step. *)
Lemma store_ok self fb ch row fb' :
  console_ok self fb → text self !! Z.to_nat (cursor_row self) = Some row →
  painted fb (λ px py, glyph_bit ch (px - 8 * cursor_col self) (py - 16 * cursor_row self))
    (fg_color self) fb' → conf fb' = conf fb →
  console_inv (with_cursor (with_text self
    (<[Z.to_nat (cursor_row self) := <[Z.to_nat (cursor_col self) := ch]> row]> (text self)))
    (cursor_row self) (cursor_col self + 1)) fb'.
Proof.
  intros [[Hb Hcol Hbl] Hlt] Hrow Hp Hcf. pose proof Hb as [Hok [Hr Hrv] [Hc Hch] Hl Hrl Hcr Hsh].
  set (self' := with_cursor _ _ _).
  assert (∀ r c, 0 ≤ r → 0 ≤ c → cell self' r c =
    if decide (r = cursor_row self ∧ c = cursor_col self) then ch else cell self r c) as Hcell.
  { intros r c Hr0 Hc0. unfold self', cell at 1. cbn [text with_text with_cursor].
    apply (cell_store self fb); try done. lia. }
  split; [split|..]; unfold self'; cbn [with_cursor with_text text n_rows n_cols cursor_row cursor_col];
    rewrite ?Hcf; try done; try lia.
  - apply (pt_ok _ _ _ _ Hp).
  - by rewrite length_insert.
  - apply Forall_insert; [done|]. rewrite length_insert.
    apply (proj1 (list.Forall_forall _ _) Hrl). by eapply list_elem_of_lookup_2.
  - intros px py Hpx Hpy. fold self'. pose proof Hok as [? ? ? _].
    assert (visible fb px py) as Hv by (unfold visible; simpl; lia).
    destruct Hp as [_ _ Hin Hout]. change (@pixel _ _ FrameBuffer_canvas) with fb_pixel in *.
    pose proof (in_cell px py (cursor_col self) (cursor_row self)) as Hcl.
    assert (0 ≤ py / 16 ∧ 0 ≤ px / 8) as [? ?] by (split; apply Z.div_pos; lia).
    unfold text_pixel. rewrite Hcell by done.
    change (fg_color self') with (fg_color self). change (bg_color self') with (bg_color self).
    destruct (decide (py / 16 = cursor_row self ∧ px / 8 = cursor_col self)) as [Hcur|Hcur].
    + pose proof (Z.div_mod px 8 ltac:(lia)). pose proof (Z.div_mod py 16 ltac:(lia)).
      assert (px - 8 * cursor_col self = px mod 8) as Ex by lia.
      assert (py - 16 * cursor_row self = py mod 16) as Ey by lia.
      specialize (Hin px py Hv). specialize (Hout px py Hv). rewrite Ex, Ey in Hin, Hout.
      destruct (decide (glyph_bit ch (px mod 8) (py mod 16))) as [Hg|Hg].
      * rewrite Hin by done. symmetry. by apply glyph_color_in.
      * rewrite Hout, Hsh by done. unfold text_pixel. rewrite (Hbl (py / 16) (px / 8)) by lia.
        rewrite !glyph_color_out; [done|done|apply glyph_zero].
    + rewrite Hout; [by apply Hsh|done|]. intros (Hgx & Hgy & _). apply Hcur, Hcl. done.
  - intros r c Hrc Hc0. fold self'. rewrite Hcell by lia. rewrite decide_False by lia.
    apply Hbl; [lia|done].
Qed.

(** [put_char] after the newline test. *)
Lemma put_at_cursor self fb ch :
  console_ok self fb → 0 ≤ ch < 256 →
  ∃ self' fb',
    (gx ← u32_mul 8 (as_u 32 (cursor_col self));
     gy ← u32_mul 16 (as_u 32 (cursor_row self));
     back ← write_ascii fb gx gy ch (fg_color self);
     row ← vget (text self) (cursor_row self);
     row ← vset row (cursor_col self) ch;
     t ← vset (text self) (cursor_row self) row;
     col ← usize_add (cursor_col self) 1;
     let self := with_cursor (with_text self t) (cursor_row self) col in
     if cursor_col self =? n_cols self then new_line self back else Ret (self, back)) = Ret (self', fb') ∧
    conf fb' = conf fb ∧ console_ok self' fb' ∧ same_grid self self' ∧
    terminal_of self' =
      (let t := term_store (terminal_of self) ch in
       if t_col t =? n_cols self then term_newline (n_rows self) (n_cols self) t else t).
Proof.
  intros Hcons Hch. pose proof Hcons as [[Hb Hcol Hbl] Hlt].
  pose proof Hb as [Hok [Hr Hrv] [Hc Hcv] Hl Hrl Hcr Hsh]. pose proof Hok as [? ? ? _].
  unfold u32_mul. rewrite !as_u_small, !chk_u_ok, !bind_Ret by lia.
  destruct (painted_ascii fb (8 * cursor_col self) (16 * cursor_row self) ch (fg_color self))
    as (fb1 & E & Hp); [exact Hok|done|unfold cell_fits; simpl; lia|].
  rewrite E, bind_Ret. pose proof (write_ascii_conf _ _ _ _ _ _ E) as Hc1.
  destruct (vget_range (text self) (cursor_row self)) as (row & -> & Hrow); [lia|]. rewrite bind_Ret.
  assert (zlen row = n_cols self) as Hlen.
  { apply (proj1 (list.Forall_forall _ _) Hrl). by eapply list_elem_of_lookup_2. }
  rewrite vset_ok, bind_Ret by lia. rewrite vset_ok, bind_Ret by lia.
  rewrite usize_add_ok, bind_Ret by lia.
  pose proof (store_ok self fb ch row fb1 Hcons Hrow Hp Hc1) as Hinv.
  set (self1 := with_cursor _ _ _) in *.
  assert (terminal_of self1 = term_store (terminal_of self) ch) as Hterm.
  { unfold term_store, terminal_of, self1. simpl. f_equal. symmetry. by apply alter_insert_lookup. }
  rewrite <- Hterm. change (t_col (terminal_of self1)) with (cursor_col self1).
  cbv zeta. change (n_cols self1) with (n_cols self).
  destruct (Z.eqb_spec (cursor_col self1) (n_cols self)) as [Heq|Hne].
  - destruct (new_line_ok self1 fb1 Hinv) as (self2 & fb2 & -> & Hc2 & Hok2 & Hg & Ht).
    exists self2, fb2. split_and!; try done. congruence.
  - exists self1, fb1. split_and!; try done. split; [done|].
    change (n_cols self1) with (n_cols self). unfold self1 in *. simpl in *. lia.
Qed.

Lemma put_char_ok self fb ch :
  console_ok self fb → 0 ≤ ch < 256 →
  ∃ self' fb', put_char (self, fb) ch = Ret (self', fb') ∧ conf fb' = conf fb ∧
    console_ok self' fb' ∧ same_grid self self' ∧
    terminal_of self' = term_put (n_rows self) (n_cols self) (terminal_of self) ch.
Proof.
  intros Hcons Hch. unfold put_char, term_put. destruct (ch =? 10).
  - destruct (new_line_ok self fb) as (self1 & fb1 & -> & Hc1 & Hok1 & Hg1 & Ht1); [apply Hcons|].
    rewrite bind_Ret.
    destruct (put_at_cursor self1 fb1 ch Hok1 Hch) as (self2 & fb2 & E & Hc2 & Hok2 & Hg2 & Ht2).
    destruct Hg1 as (E1 & E2 & E3 & E4), Hg2 as (F1 & F2 & F3 & F4).
    exists self2, fb2. split; [exact E|]. split; [congruence|]. split; [done|].
    split; [split_and!; congruence|]. rewrite Ht2, Ht1, E1, E2. done.
  - rewrite bind_Ret. exact (put_at_cursor self fb ch Hcons Hch).
Qed.

Lemma put_chars_ok str self fb :
  console_ok self fb → Forall (λ c, 0 ≤ c < 256) str →
  ∃ self' fb', foldM put_char str (self, fb) = Ret (self', fb') ∧ conf fb' = conf fb ∧
    console_ok self' fb' ∧ same_grid self self' ∧
    terminal_of self' = fold_left (term_put (n_rows self) (n_cols self)) str (terminal_of self).
Proof.
  intros Hok Hstr. revert self fb Hok. induction Hstr as [|c str Hc _ IH]; intros self fb Hok.
  { by exists self, fb. }
  cbn [foldM fold_left].
  destruct (put_char_ok self fb c Hok Hc) as (self1 & fb1 & -> & Hc1 & Hok1 & (E1 & E2 & E3 & E4) & Ht1).
  rewrite bind_Ret.
  destruct (IH self1 fb1 Hok1) as (self2 & fb2 & -> & Hc2 & Hok2 & (F1 & F2 & F3 & F4) & Ht2).
  exists self2, fb2. split; [done|]. split; [congruence|]. split; [done|].
  split; [split_and!; congruence|]. by rewrite Ht2, Ht1, E1, E2.
Qed.

(** Front and back buffer of a canvas fit together. *)
Record canvas_pair (b : BufferedCanvas) : Prop := {
  cp_fore : fb_ok (fore b);
  cp_conf : conf (fore b) = conf (back b);
}.

(** C27: the console shows its text. For any bytes, [put_string] does not panic; the
    rows of text and the cursor change as those of a terminal do (characters fill the
    row, a full row or a newline continues on the next one, the last row scrolls; a
    newline is then also stored as a character); and every pixel of the text area, in
    the back buffer and after the flush in the window's front buffer, has the
    foreground colour exactly if it is set in the glyph of the character in its cell. *)
Theorem put_string_shows_text (self : Console) (canvas : BufferedCanvas) (str : list Z) :
  console_ok self (back canvas) → canvas_pair canvas → Forall (λ c, 0 ≤ c < 256) str →
  ∃ self' canvas', put_string self canvas str = Ret (self', canvas') ∧
    console_ok self' (back canvas') ∧ canvas_pair canvas' ∧ is_updated canvas' = true ∧
    terminal_of self' = fold_left (term_put (n_rows self) (n_cols self)) str (terminal_of self) ∧
    ∀ px py, 0 ≤ px < 8 * n_cols self → 0 ≤ py < 16 * n_rows self →
      fb_pixel (fore canvas') px py = text_pixel self' px py.
Proof.
  intros Hok [Hf Hcf] Hstr. unfold put_string.
  destruct (put_chars_ok str self (back canvas) Hok Hstr)
    as (self' & fb' & -> & Hc' & Hok' & (E1 & E2 & E3 & E4) & Ht). rewrite bind_Ret.
  pose proof Hok' as [[[Hfb' [Hr Hrv] [Hc Hcv] _ _ _ Hsh] _ _] _].
  unfold flush. cbn [fore back is_updated]. pose proof Hfb' as [? ? ? _].
  destruct (copy_ok (fore canvas) {| x := 0; y := 0 |} fb' Hf Hfb') as (fr & -> & Hfr & Hcfr & Hpx);
    [congruence|simpl; lia..|].
  rewrite !bind_Ret. eexists self', _. split; [done|]. cbn [fore back is_updated].
  split_and!; try done; [split; simpl; [done|congruence]|].
  intros px py Hx Hy. rewrite <- E1 in Hy. rewrite <- E2 in Hx.
  rewrite Hpx by (rewrite Hcf, <- Hc'; lia).
  rewrite decide_True by (unfold covers; simpl; lia). simpl. rewrite !Z.sub_0_r. by apply Hsh.
Qed.

(** ** Start *)

Lemma FrameBuffer_new_ok fmt w h :
  0 ≤ w < 2 ^ 31 → 0 ≤ h < 2 ^ 31 →
  ∃ fb, FrameBuffer_new (Some fmt) w h = Ret fb ∧ fb_ok fb ∧
    conf fb = {| pixels_per_scanline := w; horizontal_resolution := w;
                 vertical_resolution := h; pixel_format := fmt |}.
Proof.
  intros Hw Hh. unfold FrameBuffer_new. cbn [unwrap]. rewrite bind_Ret.
  assert (0 ≤ w * h ≤ (2 ^ 31 - 1) * (2 ^ 31 - 1)) as Hwh by (split; [lia|apply Z.mul_le_mono_nonneg; lia]).
  assert (bytes_per_pixel fmt = 4) as -> by (by destruct fmt).
  rewrite usize_mul_ok, bind_Ret by lia. rewrite usize_mul_ok, bind_Ret by lia.
  rewrite !as_u_small by lia. eexists. split; [done|]. split; [|done].
  split; simpl; try lia. unfold bytes. simpl. rewrite length_replicate. lia.
Qed.

Lemma cell_blank (t : list (list Z)) nr nc r c :
  t = replicate nr (replicate nc 0) → default 0 (default [] (t !! r) !! c) = 0.
Proof.
  intros ->. destruct (replicate nr (replicate nc 0) !! r) as [row|] eqn:E; [|done].
  apply lookup_replicate_1 in E as [-> _]. simpl.
  destruct (replicate nc 0 !! c) as [v|] eqn:E; [|done]. by apply lookup_replicate_1 in E as [-> _].
Qed.

Lemma console_start_ok fmt w h fg bg :
  8 ≤ w < 2 ^ 31 → 16 ≤ h < 2 ^ 31 →
  ∃ win self win', Window_new (Some fmt) w h = Ret win ∧ Console_new win fg bg = Ret (self, win') ∧
    console_ok self (back (buffer win')) ∧ canvas_pair (buffer win') ∧
    n_cols self = w / 8 ∧ n_rows self = h / 16 ∧ fg_color self = fg ∧ bg_color self = bg ∧
    terminal_of self =
      {| t_text := replicate (Z.to_nat (h / 16)) (replicate (Z.to_nat (w / 8)) 0);
         t_row := 0; t_col := 0 |}.
Proof.
  intros Hw Hh. destruct (FrameBuffer_new_ok fmt w h) as (fb & E & Hok & Hcf); [lia..|].
  unfold Window_new, BufferedCanvas_new. rewrite E, !bind_Ret.
  exists {| pos := {| x := 0; y := 0 |}; width := w; height := h; transparant_color := None;
            buffer := {| fore := fb; back := fb; is_updated := false |} |}.
  pose proof (Z.div_mod w 8 ltac:(lia)). pose proof (Z.mod_pos_bound w 8 ltac:(lia)).
  pose proof (Z.div_mod h 16 ltac:(lia)). pose proof (Z.mod_pos_bound h 16 ltac:(lia)).
  unfold Console_new, write_with, CHAR_W, CHAR_H. cbn [width height buffer back fore].
  rewrite !usize_mul_ok by lia. rewrite !bind_Ret.
  destruct (fill_cells_ok fb 0 (16 * (h / 16)) (8 * (w / 8)) bg Hok) as (fb' & -> & Hc & Hp);
    [rewrite ?Hcf; simpl; lia..|].
  rewrite !bind_Ret. eexists _, _. do 2 (split; [reflexivity|]).
  cbn [buffer with_buffer back fore]. split; [|split; [split; simpl; [done|congruence]|done]].
  split; [split; [split|..]|]; cbn [text n_rows n_cols cursor_row cursor_col fg_color bg_color];
    rewrite ?Hc, ?Hcf; simpl horizontal_resolution; simpl vertical_resolution; try lia.
  - apply (pt_ok _ _ _ _ Hp).
  - rewrite length_replicate. lia.
  - apply Forall_replicate. rewrite length_replicate. lia.
  - intros px py Hx Hy. destruct Hp as [_ _ Hin _].
    change (@pixel _ _ FrameBuffer_canvas) with fb_pixel in *.
    rewrite Hin by (unfold visible; simpl; rewrite ?Hcf; simpl; lia).
    symmetry. unfold text_pixel, cell. cbn [text]. rewrite (cell_blank _ _ _ _ _ eq_refl).
    apply glyph_color_out, glyph_zero.
  - intros r c _ _. unfold cell. cbn [text]. by eapply cell_blank.
Qed.

(** A new console is blank and in step with its window. For every window of at
    least one character cell, creating the window and the console neither panics nor
    leaves the buffer: the grid has the whole cells that fit, the text is all zero bytes,
    the cursor is at the top left and every pixel of the text area has the background
    colour, so that printing ([put_string]) can start. *)
Lemma Console_new_blank (fmt : PixelFormat) (w h : Z) (fg bg : PixelColor) :
  8 ≤ w < 2 ^ 31 → 16 ≤ h < 2 ^ 31 →
  ∃ win self win', Window_new (Some fmt) w h = Ret win ∧ Console_new win fg bg = Ret (self, win') ∧
    console_ok self (back (buffer win')) ∧ canvas_pair (buffer win') ∧
    terminal_of self =
      {| t_text := replicate (Z.to_nat (h / 16)) (replicate (Z.to_nat (w / 8)) 0);
         t_row := 0; t_col := 0 |} ∧
    ∀ px py, 0 ≤ px < 8 * (w / 8) → 0 ≤ py < 16 * (h / 16) →
      fb_pixel (back (buffer win')) px py = bg.
Proof.
  intros Hw Hh. destruct (console_start_ok fmt w h fg bg Hw Hh)
    as (win & self & win' & E1 & E2 & Hok & Hp & En & Em & Ef & Eb & Ht).
  exists win, self, win'. split_and!; try done. intros px py Hx Hy.
  pose proof Hok as [[[_ _ _ _ _ _ Hsh] _ Hbl] _]. rewrite Hsh by lia.
  unfold text_pixel. rewrite <- Eb. unfold cell.
  rewrite (cell_blank (text self) _ _ _ _ (f_equal t_text Ht)). apply glyph_color_out, glyph_zero.
Qed.

Lemma Console_new_blank_witness :
  ∃ win self win', Window_new (Some PixelRGBResv8BitPerColor) 20 40 = Ret win ∧
    Console_new win (255, 255, 255) (0, 0, 64) = Ret (self, win') ∧
    console_ok self (back (buffer win')) ∧ fb_pixel (back (buffer win')) 15 31 = (0, 0, 64).
Proof.
  destruct (Console_new_blank PixelRGBResv8BitPerColor 20 40 (255, 255, 255) (0, 0, 64))
    as (win & self & win' & E1 & E2 & Hok & _ & _ & Hpx); [lia..|].
  exists win, self, win'. split; [exact E1|]. split; [exact E2|]. split; [exact Hok|].
  apply Hpx; vm_compute; intuition congruence.
Defined.

(** Printing two bytes on a console of two columns and two rows. *)
Lemma put_string_shows_text_witness :
  ∃ win self win' self' canvas', Window_new (Some PixelRGBResv8BitPerColor) 20 40 = Ret win ∧
    Console_new win (255, 255, 255) (0, 0, 64) = Ret (self, win') ∧
    put_string self (buffer win') [72; 10] = Ret (self', canvas') ∧
    terminal_of self' = {| t_text := [[72; 0]; [10; 0]]; t_row := 1; t_col := 1 |}.
Proof.
  destruct (console_start_ok PixelRGBResv8BitPerColor 20 40 (255, 255, 255) (0, 0, 64))
    as (win & self & win' & E1 & E2 & Hok & Hp & En & Em & _ & _ & Ht); [lia..|].
  destruct (put_string_shows_text self (buffer win') [72; 10])
    as (self' & canvas' & E3 & _ & _ & _ & Ht' & _); [exact Hok|exact Hp|repeat constructor; lia|].
  exists win, self, win', self', canvas'. split; [exact E1|]. split; [exact E2|].
  split; [exact E3|]. rewrite Ht', Ht, En, Em. reflexivity.
Defined.
