(* ===== verification/Task.v ===== *)
(** task.rs: the context switch, as the assembly it is, over a small model of the
    processor, and the round-robin scheduler around it.

    Memory is a map from addresses to 64-bit words; the code only accesses words at
    offsets that are multiples of eight from the two contexts and the stack. Faults,
    privilege checks and reserved flag bits of [iretq] are not modelled. *)

From S2P Require Import Prelude.

(** ** The processor *)

Inductive reg :=
  | RAX | RBX | RCX | RDX | RDI | RSI | RSP | RBP
  | R8 | R9 | R10 | R11 | R12 | R13 | R14 | R15.

Inductive sreg := CS | SS | FS | GS.

#[export] Instance reg_eq_dec : EqDecision reg.
Proof. solve_decision. Defined.
#[export] Instance sreg_eq_dec : EqDecision sreg.
Proof. solve_decision. Defined.

Record gprs := {
  rax : Z; rbx : Z; rcx : Z; rdx : Z; rdi : Z; rsi : Z; rsp : Z; rbp : Z;
  r8 : Z; r9 : Z; r10 : Z; r11 : Z; r12 : Z; r13 : Z; r14 : Z; r15 : Z;
}.

Record segments := { cs : Z; ss : Z; fs : Z; gs : Z }.

Definition get_reg (g : gprs) (r : reg) : Z :=
  match r with
  | RAX => rax g
  | RBX => rbx g
  | RCX => rcx g
  | RDX => rdx g
  | RDI => rdi g
  | RSI => rsi g
  | RSP => rsp g
  | RBP => rbp g
  | R8 => r8 g
  | R9 => r9 g
  | R10 => r10 g
  | R11 => r11 g
  | R12 => r12 g
  | R13 => r13 g
  | R14 => r14 g
  | R15 => r15 g
  end.

Definition set_reg (g : gprs) (r : reg) (v : Z) : gprs :=
  let '(Build_gprs a b c d di si sp bp n8 n9 n10 n11 n12 n13 n14 n15) := g in
  match r with
  | RAX => Build_gprs v b c d di si sp bp n8 n9 n10 n11 n12 n13 n14 n15
  | RBX => Build_gprs a v c d di si sp bp n8 n9 n10 n11 n12 n13 n14 n15
  | RCX => Build_gprs a b v d di si sp bp n8 n9 n10 n11 n12 n13 n14 n15
  | RDX => Build_gprs a b c v di si sp bp n8 n9 n10 n11 n12 n13 n14 n15
  | RDI => Build_gprs a b c d v si sp bp n8 n9 n10 n11 n12 n13 n14 n15
  | RSI => Build_gprs a b c d di v sp bp n8 n9 n10 n11 n12 n13 n14 n15
  | RSP => Build_gprs a b c d di si v bp n8 n9 n10 n11 n12 n13 n14 n15
  | RBP => Build_gprs a b c d di si sp v n8 n9 n10 n11 n12 n13 n14 n15
  | R8 => Build_gprs a b c d di si sp bp v n9 n10 n11 n12 n13 n14 n15
  | R9 => Build_gprs a b c d di si sp bp n8 v n10 n11 n12 n13 n14 n15
  | R10 => Build_gprs a b c d di si sp bp n8 n9 v n11 n12 n13 n14 n15
  | R11 => Build_gprs a b c d di si sp bp n8 n9 n10 v n12 n13 n14 n15
  | R12 => Build_gprs a b c d di si sp bp n8 n9 n10 n11 v n13 n14 n15
  | R13 => Build_gprs a b c d di si sp bp n8 n9 n10 n11 n12 v n14 n15
  | R14 => Build_gprs a b c d di si sp bp n8 n9 n10 n11 n12 n13 v n15
  | R15 => Build_gprs a b c d di si sp bp n8 n9 n10 n11 n12 n13 n14 v
  end.

Definition get_sreg (g : segments) (r : sreg) : Z :=
  match r with CS => cs g | SS => ss g | FS => fs g | GS => gs g end.

Definition set_sreg (g : segments) (r : sreg) (v : Z) : segments :=
  let '(Build_segments c s f h) := g in
  match r with
  | CS => Build_segments v s f h
  | SS => Build_segments c v f h
  | FS => Build_segments c s v h
  | GS => Build_segments c s f v
  end.

(** [fx] is the x87/SSE state, as the 64 words [fxsave] stores. *)
Record cpu := {
  gpr : gprs;
  seg : segments;
  rip : Z;
  rflags : Z;
  cr3 : Z;
  fx : list Z;
  mem : Z → Z;
}.

Definition regs (s : cpu) (r : reg) : Z := get_reg (gpr s) r.
Definition sregs (s : cpu) (r : sreg) : Z := get_sreg (seg s) r.

Definition upd (m : Z → Z) (a v : Z) : Z → Z := λ b, if b =? a then v else m b.

Definition with_reg (s : cpu) (r : reg) (v : Z) : cpu :=
  let '(Build_cpu g sg ip fl c3 f m) := s in Build_cpu (set_reg g r v) sg ip fl c3 f m.
Definition with_mem (s : cpu) (m : Z → Z) : cpu :=
  let '(Build_cpu g sg ip fl c3 f _) := s in Build_cpu g sg ip fl c3 f m.
Definition with_sreg (s : cpu) (r : sreg) (v : Z) : cpu :=
  let '(Build_cpu g sg ip fl c3 f m) := s in Build_cpu g (set_sreg sg r v) ip fl c3 f m.
Definition with_cr3 (s : cpu) (v : Z) : cpu :=
  let '(Build_cpu g sg ip fl _ f m) := s in Build_cpu g sg ip fl v f m.
Definition with_fx (s : cpu) (v : list Z) : cpu :=
  let '(Build_cpu g sg ip fl c3 _ m) := s in Build_cpu g sg ip fl c3 v m.

(** Writing, reading consecutive words. *)
Definition store_words (m : Z → Z) (a : Z) (ws : list Z) : Z → Z := λ b,
  if (a <=? b) && (b <? a + 8 * zlen ws) && ((b - a) mod 8 =? 0)
  then default 0 (ws !! Z.to_nat ((b - a) / 8)) else m b.

Definition load_words (m : Z → Z) (a : Z) (n : Z) : list Z :=
  map (λ i, m (a + 8 * i)) (seqZ 0 n).

(** A 16-bit write leaves the rest of the register alone. *)
Definition set_low16 (v w : Z) : Z := v - v mod 2 ^ 16 + w mod 2 ^ 16.

(** The instructions of [switch_context]; memory operands are [[base + off]]. *)
Inductive instr :=
  | MovMR (base : reg) (off : Z) (r : reg)
  | MovRM (r base : reg) (off : Z)
  | Lea (r base : reg) (off : Z)
  | MovRCr3 (r : reg)
  | MovCr3R (r : reg)
  | Mov16RS (r : reg) (s : sreg)
  | Mov16SR (s : sreg) (r : reg)
  | Pushfq
  | PopM (base : reg) (off : Z)
  | PushM (base : reg) (off : Z)
  | Fxsave (base : reg) (off : Z)
  | Fxrstor (base : reg) (off : Z)
  | Iretq.

Definition addr (s : cpu) (base : reg) (off : Z) : Z := regs s base + off.

Definition push (s : cpu) (v : Z) : cpu :=
  let sp := regs s RSP - 8 in with_reg (with_mem s (upd (mem s) sp v)) RSP sp.

Definition exec (s : cpu) (i : instr) : cpu :=
  match i with
  | MovMR base off r => with_mem s (upd (mem s) (addr s base off) (regs s r))
  | MovRM r base off => with_reg s r (mem s (addr s base off))
  | Lea r base off => with_reg s r (addr s base off)
  | MovRCr3 r => with_reg s r (cr3 s)
  | MovCr3R r => with_cr3 s (regs s r)
  | Mov16RS r sr => with_reg s r (set_low16 (regs s r) (sregs s sr))
  | Mov16SR sr r => with_sreg s sr (regs s r mod 2 ^ 16)
  | Pushfq => push s (rflags s)
  | PopM base off =>
      let v := mem s (regs s RSP) in
      let s := with_reg s RSP (regs s RSP + 8) in
      with_mem s (upd (mem s) (addr s base off) v)
  | PushM base off => push s (mem s (addr s base off))
  | Fxsave base off => with_mem s (store_words (mem s) (addr s base off) (fx s))
  | Fxrstor base off => with_fx s (load_words (mem s) (addr s base off) 64)
  | Iretq =>
      let sp := regs s RSP in
      {| gpr := set_reg (gpr s) RSP (mem s (sp + 24));
         seg := set_sreg (set_sreg (seg s) CS (mem s (sp + 8) mod 2 ^ 16)) SS
                         (mem s (sp + 32) mod 2 ^ 16);
         rip := mem s sp; rflags := mem s (sp + 16);
         cr3 := cr3 s; fx := fx s; mem := mem s |}
  end.

(** ** switch_context *)

(** Saves the general registers into the context at [rsi]. *)
Definition save_regs : list instr :=
  [ MovMR RSI 0x40 RAX; MovMR RSI 0x48 RBX; MovMR RSI 0x50 RCX; MovMR RSI 0x58 RDX;
    MovMR RSI 0x60 RDI; MovMR RSI 0x68 RSI;
    Lea RAX RSP 8; MovMR RSI 0x70 RAX; MovMR RSI 0x78 RBP;
    MovMR RSI 0x80 R8; MovMR RSI 0x88 R9; MovMR RSI 0x90 R10; MovMR RSI 0x98 R11;
    MovMR RSI 0xa0 R12; MovMR RSI 0xa8 R13; MovMR RSI 0xb0 R14; MovMR RSI 0xb8 R15 ].

(** Saves the page table, return address, flags, segments and floating point state. *)
Definition save_control : list instr :=
  [ MovRCr3 RAX; MovMR RSI 0x00 RAX; MovRM RAX RSP 0; MovMR RSI 0x08 RAX;
    Pushfq; PopM RSI 0x10;
    Mov16RS RAX CS; MovMR RSI 0x20 RAX; Mov16RS RBX SS; MovMR RSI 0x28 RBX;
    Mov16RS RCX FS; MovMR RSI 0x30 RCX; Mov16RS RDX GS; MovMR RSI 0x38 RDX;
    Fxsave RSI 0xc0 ].

(** Builds the frame for [iretq] and restores the rest from the context at [rdi]. *)
Definition load_control : list instr :=
  [ PushM RDI 0x28; PushM RDI 0x70; PushM RDI 0x10; PushM RDI 0x20; PushM RDI 0x08;
    Fxrstor RDI 0xc0;
    MovRM RAX RDI 0x00; MovCr3R RAX; MovRM RAX RDI 0x30; Mov16SR FS RAX;
    MovRM RAX RDI 0x38; Mov16SR GS RAX ].

Definition load_regs : list instr :=
  [ MovRM RAX RDI 0x40; MovRM RBX RDI 0x48; MovRM RCX RDI 0x50; MovRM RDX RDI 0x58;
    MovRM RSI RDI 0x68; MovRM RBP RDI 0x78;
    MovRM R8 RDI 0x80; MovRM R9 RDI 0x88; MovRM R10 RDI 0x90; MovRM R11 RDI 0x98;
    MovRM R12 RDI 0xa0; MovRM R13 RDI 0xa8; MovRM R14 RDI 0xb0; MovRM R15 RDI 0xb8;
    MovRM RDI RDI 0x60; Iretq ].

Definition switch_context : list instr := save_regs ++ save_control ++ load_control ++ load_regs.

Definition run (p : list instr) (s : cpu) : cpu := fold_left exec p s.

(** ** What a context holds *)

(** The layout of [TaskContext] ([repr(C)]). *)
Definition reg_off (r : reg) : Z :=
  match r with
  | RAX => 0x40 | RBX => 0x48 | RCX => 0x50 | RDX => 0x58
  | RDI => 0x60 | RSI => 0x68 | RSP => 0x70 | RBP => 0x78
  | R8 => 0x80 | R9 => 0x88 | R10 => 0x90 | R11 => 0x98
  | R12 => 0xa0 | R13 => 0xa8 | R14 => 0xb0 | R15 => 0xb8
  end.

Definition sreg_off (r : sreg) : Z :=
  match r with CS => 0x20 | SS => 0x28 | FS => 0x30 | GS => 0x38 end.

(** [size_of::<TaskContext>()] *)
Definition CONTEXT_SIZE : Z := 0xc0 + 512.

(** The value of each register when a call of [switch_context] made in state [s]
    returns: the return address is off the stack, nothing else has changed. *)
Definition after_ret (s : cpu) (r : reg) : Z :=
  match r with RSP => regs s RSP + 8 | _ => regs s r end.

(** The context at [a] holds the task that called [switch_context] in state [s]. *)
Record saved (m : Z → Z) (a : Z) (s : cpu) : Prop := {
  sv_regs : ∀ r, m (a + reg_off r) = after_ret s r;
  sv_cr3 : m (a + 0x00) = cr3 s;
  sv_rip : m (a + 0x08) = mem s (regs s RSP);
  sv_rflags : m (a + 0x10) = rflags s;
  sv_sregs : ∀ r, m (a + sreg_off r) mod 2 ^ 16 = sregs s r;
  sv_fx : load_words m (a + 0xc0) 64 = fx s;
}.

(** [s'] is where the task that called in [s] continues. *)
Record resumed (s s' : cpu) : Prop := {
  rs_regs : ∀ r, regs s' r = after_ret s r;
  rs_cr3 : cr3 s' = cr3 s;
  rs_rip : rip s' = mem s (regs s RSP);
  rs_rflags : rflags s' = rflags s;
  rs_sregs : ∀ r, sregs s' r = sregs s r;
  rs_fx : fx s' = fx s;
}.

Record cpu_ok (s : cpu) : Prop := {
  co_sregs : ∀ r, 0 ≤ sregs s r < 2 ^ 16;
  co_fx : length (fx s) = 64%nat;
}.

(** Two memory areas do not overlap. *)
Definition apart (a la b lb : Z) : Prop := a + la ≤ b ∨ b + lb ≤ a.

Lemma upd_eq m a v b : b = a → upd m a v b = v.
Proof. intros ->. unfold upd. by rewrite Z.eqb_refl. Qed.

Lemma upd_ne m a v b : b ≠ a → upd m a v b = m b.
Proof. intros. unfold upd. by rewrite (proj2 (Z.eqb_neq _ _)). Qed.

Lemma store_words_out m a ws b :
  b < a ∨ a + 8 * zlen ws ≤ b → store_words m a ws b = m b.
Proof.
  intros H. unfold store_words.
  destruct (Z.leb_spec a b), (Z.ltb_spec b (a + 8 * zlen ws)); simpl; try done; lia.
Qed.

Lemma load_store_words m a ws n : n = zlen ws → load_words (store_words m a ws) a n = ws.
Proof.
  intros ->. unfold load_words. apply list_eq. intros i.
  change (map ?f ?l) with (f <$> l). rewrite list_lookup_fmap.
  destruct (decide (i < length ws)%nat) as [Hi|Hi].
  - rewrite lookup_seqZ_lt by lia. cbn [fmap option_fmap option_map].
    destruct (lookup_lt_is_Some_2 ws i Hi) as [w Hw]. rewrite Hw. f_equal. unfold store_words.
    rewrite (proj2 (Z.leb_le _ _)), (proj2 (Z.ltb_lt _ _)) by lia.
    replace (a + 8 * (0 + Z.of_nat i) - a) with (Z.of_nat i * 8) by lia.
    rewrite Z.mod_mul, Z.div_mul by lia. simpl. by rewrite Nat2Z.id, Hw.
  - rewrite lookup_seqZ_ge by lia. by rewrite lookup_ge_None_2 by lia.
Qed.

Lemma load_words_ext m m' a a' n :
  (∀ i, 0 ≤ i < n → m (a + 8 * i) = m' (a' + 8 * i)) → load_words m a n = load_words m' a' n.
Proof.
  intros H. unfold load_words. apply map_ext_in. intros i Hi.
  apply list_elem_of_In, elem_of_seqZ in Hi. apply H. lia.
Qed.

Lemma set_low16_mod v w : 0 ≤ w < 2 ^ 16 → set_low16 v w mod 2 ^ 16 = w.
Proof.
  intros Hw. unfold set_low16. rewrite (Z.mod_small w) by lia.
  replace (v - v mod 2 ^ 16 + w) with (w + v / 2 ^ 16 * 2 ^ 16)
    by (pose proof (Z.div_mod v (2 ^ 16)); lia).
  rewrite Z.mod_add by lia. by apply Z.mod_small.
Qed.

Lemma run_app p q s : run (p ++ q) s = run q (run p s).
Proof. apply fold_left_app. Qed.

(** Symbolic execution of straight-line code. *)
Ltac symrun :=
  lazy [run fold_left exec with_reg with_mem with_sreg with_cr3 with_fx push addr
        set_reg get_reg set_sreg get_sreg regs sregs gpr seg rip rflags cr3 fx mem
        rax rbx rcx rdx rdi rsi rsp rbp r8 r9 r10 r11 r12 r13 r14 r15 cs ss fs gs
        save_regs save_control load_control load_regs] in *.

(** Resolves a read from a chain of writes. *)
Ltac memrd :=
  repeat match goal with
  | |- context [upd ?m ?a ?v ?b] =>
      first [rewrite (upd_eq m a v b) by lia | rewrite (upd_ne m a v b) by lia]
  | |- context [store_words ?m ?a ?ws ?b] => rewrite (store_words_out m a ws b) by lia
  end.

Lemma run_save_regs s :
  let s' := run save_regs s in
  (∀ r, mem s' (regs s RSI + reg_off r) = after_ret s r) ∧
  (∀ b, (b < regs s RSI + 0x40 ∨ regs s RSI + 0xc0 ≤ b) → mem s' b = mem s b) ∧
  (∀ r, r ≠ RAX → regs s' r = regs s r) ∧
  seg s' = seg s ∧ rflags s' = rflags s ∧ cr3 s' = cr3 s ∧ fx s' = fx s.
Proof.
  destruct s as [[] [] ip fl c3 f m]. symrun. split_and!; try done.
  - intros r. destruct r; cbn [reg_off after_ret]; symrun; memrd; reflexivity.
  - intros b Hb. memrd. reflexivity.
  - by intros [].
Qed.

Lemma run_save_control s :
  apart (regs s RSP - 40) 48 (regs s RSI) CONTEXT_SIZE → cpu_ok s →
  let s' := run save_control s in
  mem s' (regs s RSI + 0x00) = cr3 s ∧
  mem s' (regs s RSI + 0x08) = mem s (regs s RSP) ∧
  mem s' (regs s RSI + 0x10) = rflags s ∧
  (∀ r, mem s' (regs s RSI + sreg_off r) mod 2 ^ 16 = sregs s r) ∧
  load_words (mem s') (regs s RSI + 0xc0) 64 = fx s ∧
  (∀ b, (b < regs s RSI ∨ regs s RSI + 0x40 ≤ b < regs s RSI + 0xc0 ∨
         regs s RSI + CONTEXT_SIZE ≤ b) → b ≠ regs s RSP - 8 → mem s' b = mem s b) ∧
  regs s' RDI = regs s RDI ∧ regs s' RSP = regs s RSP.
Proof.
  intros Hd [Hs Hf]. unfold apart, CONTEXT_SIZE in *.
  destruct s as [[] [] ip fl c3 f m]. symrun.
  split_and!; try (memrd; reflexivity).
  - memrd. by rewrite Z.add_0_r.
  - intros r. pose proof (Hs r) as Hr. revert Hr. symrun.
    destruct r; cbn [sreg_off]; intros Hr; memrd; by rewrite set_low16_mod.
  - apply load_store_words. by rewrite Hf.
  - intros b Hb Hne. memrd. reflexivity.
  - lia.
Qed.

Lemma run_load s s0 :
  apart (regs s RSP - 40) 48 (regs s RDI) CONTEXT_SIZE → saved (mem s) (regs s RDI) s0 →
  let s' := run (load_control ++ load_regs) s in
  resumed s0 s' ∧
  (∀ b, (b < regs s RSP - 40 ∨ regs s RSP ≤ b) → mem s' b = mem s b).
Proof.
  intros Hd [Hr Hc Hi Hf Hs Hx]. unfold apart, CONTEXT_SIZE in *. rewrite run_app.
  destruct s as [[] [] ip fl c3 f m]. symrun. split; [split|].
  - intros r. pose proof (Hr r) as E. destruct r; cbn [reg_off after_ret] in *; symrun; memrd; done.
  - symrun. memrd. done.
  - symrun. memrd. done.
  - symrun. memrd. done.
  - intros r. pose proof (Hs r) as E. destruct r; cbn [sreg_off] in *; symrun; memrd; done.
  - symrun. rewrite <- Hx. apply load_words_ext. intros i Hi'. memrd. done.
  - intros b Hb. symrun. memrd. reflexivity.
Qed.

(** The memory areas a switch uses are disjoint: the two contexts and the part of the
    current stack around its top. *)
Record switch_areas (s : cpu) : Prop := {
  sa_stack_cur : apart (regs s RSP - 40) 48 (regs s RSI) CONTEXT_SIZE;
  sa_stack_next : apart (regs s RSP - 40) 48 (regs s RDI) CONTEXT_SIZE;
  sa_contexts : apart (regs s RSI) CONTEXT_SIZE (regs s RDI) CONTEXT_SIZE;
}.

(** Everything a switch may write: the current context, five words of stack. *)
Definition switch_writes (s : cpu) (b : Z) : Prop :=
  regs s RSI ≤ b < regs s RSI + CONTEXT_SIZE ∨ regs s RSP - 40 ≤ b < regs s RSP.

Lemma saved_frame m m' a s :
  (∀ b, a ≤ b < a + CONTEXT_SIZE → m' b = m b) → saved m a s → saved m' a s.
Proof.
  unfold CONTEXT_SIZE. intros Hm [Hr Hc Hi Hf Hs Hx]. split.
  - intros r. rewrite Hm; [done|]. destruct r; cbn [reg_off]; lia.
  - rewrite Hm; [done|lia].
  - rewrite Hm; [done|lia].
  - rewrite Hm; [done|lia].
  - intros r. rewrite Hm; [done|]. destruct r; cbn [sreg_off]; lia.
  - rewrite <- Hx. apply load_words_ext. intros i Hb. apply Hm. lia.
Qed.

Lemma switch_context_ok s s0 :
  cpu_ok s → switch_areas s → saved (mem s) (regs s RDI) s0 →
  let s' := run switch_context s in
  resumed s0 s' ∧ saved (mem s') (regs s RSI) s ∧
  (∀ b, ¬ switch_writes s b → mem s' b = mem s b).
Proof.
  intros Hok [Hsc Hsn Hcc] Hsv. unfold switch_context. rewrite app_assoc, !run_app.
  destruct (run_save_regs s) as (Hr1 & Hm1 & Hg1 & Hsg & Hfl & Hc3 & Hfx).
  set (s1 := run save_regs s) in *.
  assert (cpu_ok s1) as Hok1.
  { destruct Hok as [H1 H2]. split; unfold sregs; rewrite ?Hsg, ?Hfx; done. }
  destruct (run_save_control s1) as (Ec & Ei & Ef & Es & Ex & Hm2 & Hdi & Hsp);
    [by rewrite !Hg1 by done|done|].
  set (s2 := run save_control s1) in *. rewrite !Hg1 in * by done.
  unfold apart, CONTEXT_SIZE in *.
  destruct (run_load s2 s0) as [Hres Hm3].
  { rewrite Hsp, Hdi. exact Hsn. }
  { rewrite Hdi. eapply saved_frame; [|exact Hsv]. unfold CONTEXT_SIZE. intros b Hb.
    rewrite Hm2 by lia. apply Hm1. lia. }
  rewrite run_app in Hres, Hm3. rewrite Hsp in Hm3.
  split; [exact Hres|]. split.
  - apply (saved_frame (mem s2)); [unfold CONTEXT_SIZE; intros b Hb; apply Hm3; lia|].
    split.
    + intros r. rewrite Hm2, Hr1; [done|..]; destruct r; cbn [reg_off]; lia.
    + by rewrite Ec, Hc3.
    + rewrite Ei, Hm1; [done|lia].
    + by rewrite Ef, Hfl.
    + intros r. rewrite Es. unfold sregs. by rewrite Hsg.
    + by rewrite Ex, Hfx.
  - unfold switch_writes, CONTEXT_SIZE. intros b Hb. rewrite Hm3, Hm2, Hm1 by lia. done.
Qed.

(** C4: [switch_context] saves the caller and resumes the other task. If the next
    context holds a task (saved by an earlier switch), the switch continues that task
    with every register, segment, flag, page table and floating point state it had when
    it was switched out; the current context then holds the caller in the same sense;
    and nothing else in memory changes but five words of the caller's stack. *)
Theorem switch_context_swaps (s s0 : cpu) :
  cpu_ok s → switch_areas s → saved (mem s) (regs s RDI) s0 →
  let s' := run switch_context s in
  resumed s0 s' ∧ saved (mem s') (regs s RSI) s ∧
  (∀ b, ¬ switch_writes s b → mem s' b = mem s b).
Proof. apply switch_context_ok. Qed.

(** A task that is switched out and back in does not notice. After task A switches
    away in state [s], whatever runs in between, as long as A's context is left alone,
    the switch back to A ([t], with A's context as the next one) continues after A's
    call with A's registers. *)
Lemma switch_away_and_back (s s0 t : cpu) :
  cpu_ok s → switch_areas s → saved (mem s) (regs s RDI) s0 →
  cpu_ok t → switch_areas t → regs t RDI = regs s RSI →
  (∀ b, regs s RSI ≤ b < regs s RSI + CONTEXT_SIZE →
     mem t b = mem (run switch_context s) b) →
  resumed s (run switch_context t).
Proof.
  intros Hs Ha Hsv Ht Hat Hdi Hkeep.
  destruct (switch_context_ok s s0 Hs Ha Hsv) as (_ & Hsaved & _).
  apply (switch_context_ok t s Ht Hat). rewrite Hdi.
  by apply (saved_frame (mem (run switch_context s))).
Qed.

(** ** The task manager *)

(** [TaskContext::new], as words in memory. *)
Definition TaskContext_new : list Z := replicate (Z.to_nat (CONTEXT_SIZE / 8)) 0.

Section manager.
Context {T : Type}.

(** [VecDeque::as_mut_slices] splits the deque where its ring buffer wraps; [k] is that
    point, and the first slice is empty only if the deque is. *)
Definition as_mut_slices (k : nat) (ctxs : list T) : list T * list T := (take k ctxs, drop k ctxs).

(** [TaskManager::switch_tasks] up to the call of [switch_context]: the new deque and
    the positions of the next and the current task in it. *)
Definition switch_tasks (k : nat) (ctxs : list T) : outcome (list T * nat * nat) :=
  old_task ← unwrap (head ctxs);
  let ctxs := tail ctxs ++ [old_task] in
  let '(front, rear) := as_mut_slices k ctxs in
  match rear with
  | [] =>
      let '(f, t) := (take 1 front, drop 1 front) in
      _ ← unwrap (head f);
      _ ← unwrap (last t);
      Ret (ctxs, 0%nat, (length f + (length t - 1))%nat)
  | _ =>
      _ ← unwrap (head front);
      _ ← unwrap (last rear);
      Ret (ctxs, 0%nat, (length front + (length rear - 1))%nat)
  end.

Definition init_task_manager (ctx_main ctx_taskB : T) : list T := [ctx_main; ctx_taskB].

(** The effect of a whole switch on the running task's state [c] and the saved ones:
    [switch_context] stores [c] in the current context and continues the next one. *)
Definition task_switch (k : nat) (c : T) (ctxs : list T) : outcome (T * list T) :=
  '(ctxs, new_task, old_task) ← switch_tasks k ctxs;
  c' ← unwrap (ctxs !! new_task);
  Ret (c', <[old_task := c]> ctxs).

Lemma last_is_Some_cons (x : T) l : is_Some (last (x :: l)).
Proof. revert x; induction l as [|y l IH]; intros x; [by exists x|]. apply IH. Qed.

(** Wherever the ring buffer wraps, the next task is the front of the rotated deque and
    the current one its back; a single task cannot be switched. *)
Lemma switch_tasks_ok k c ctxs :
  (1 ≤ k)%nat →
  switch_tasks k (c :: ctxs) =
  match ctxs with
  | [] => Panic UnwrapNone
  | _ => Ret (ctxs ++ [c], 0%nat, length ctxs)
  end.
Proof.
  intros Hk. unfold switch_tasks, as_mut_slices. simpl.
  destruct k as [|k]; [lia|].
  destruct ctxs as [|d ctxs]; [by destruct k|]. simpl.
  pose proof (length_take (ctxs ++ [c]) k) as Ht. pose proof (length_drop (ctxs ++ [c]) k) as Hd.
  rewrite length_app in Ht, Hd; simpl in Ht, Hd.
  destruct (drop k (ctxs ++ [c])) as [|e r] eqn:E; simpl.
  - destruct (take k (ctxs ++ [c])) as [|e t] eqn:E'; simpl in *; [lia|].
    destruct (last_is_Some_cons e t) as [l Hl]. simpl in Hl. rewrite Hl. simpl. do 2 f_equal. lia.
  - destruct (last_is_Some_cons e r) as [l Hl]. simpl in Hl. rewrite Hl. simpl in *. do 2 f_equal. lia.
Qed.

(** The abstract scheduler: a queue of suspended tasks, the running one outside it. *)
Definition round_robin (c : T) (q : list T) : T * list T :=
  match q with [] => (c, []) | d :: q => (d, q ++ [c]) end.

(** The front entry of the deque is the stale context of the running task. *)
Lemma task_switch_ok k c stale q :
  (1 ≤ k)%nat → q ≠ [] →
  ∃ stale', task_switch k c (stale :: q) = Ret ((round_robin c q).1, stale' :: (round_robin c q).2).
Proof.
  intros Hk Hq. unfold task_switch. rewrite switch_tasks_ok by done.
  destruct q as [|d q]; [done|]. rewrite bind_Ret. simpl. exists d.
  do 3 f_equal. rewrite insert_app_r_alt by lia. by rewrite Nat.sub_diag.
Qed.

(** Runs time slices: slice [f] moves the running task from [c] to [f c], then the
    timer switches. [k] is where the ring buffer wraps at that moment. *)
Fixpoint run_slices (c : T) (ctxs : list T) (fs : list (nat * (T → T))) : outcome (T * list T) :=
  match fs with
  | [] => Ret (c, ctxs)
  | (k, f) :: fs =>
      '(c', ctxs') ← task_switch k (f c) ctxs;
      run_slices c' ctxs' fs
  end.

Lemma run_slices_ok fs c stale q done_ :
  Forall (λ kf, (1 ≤ kf.1)%nat) fs → (length fs ≤ length q)%nat → q ++ done_ ≠ [] →
  ∃ stale' fin, run_slices c (stale :: q ++ done_) fs =
    Ret (default c (((c :: q) !! length fs)), stale' :: drop (length fs) q ++ done_ ++ fin) ∧
    length fin = length fs ∧
    ∀ i k f t, fs !! i = Some (k, f) → (c :: q) !! i = Some t → fin !! i = Some (f t).
Proof.
  revert c stale q done_. induction fs as [|[k f] fs IH]; intros c stale q d Hk Hl Hq; simpl.
  - exists stale, []. split; [by rewrite !app_nil_r|]. split; [done|]. intros i k f t H.
    by rewrite lookup_nil in H.
  - apply list.Forall_cons in Hk as [Hk1 Hk]. simpl in Hk1, Hl.
    destruct (task_switch_ok k (f c) stale (q ++ d) Hk1 Hq) as (stale1 & ->). rewrite bind_Ret.
    destruct q as [|c1 q]; [simpl in Hl; lia|]. simpl.
    rewrite <- app_assoc.
    destruct (IH c1 stale1 q (d ++ [f c]) Hk) as (stale2 & fin & -> & Hlen & Hfin);
      [simpl in Hl; lia|by destruct q, d|].
    exists stale2, (f c :: fin). split; [|split; [simpl; lia|]].
    + rewrite <- !app_assoc. simpl.
      destruct (lookup_lt_is_Some_2 (c1 :: q) (length fs)) as [t Ht]; [simpl in *; lia|].
      by rewrite Ht.
    + intros [|i] k' f' t Hi Ht; simpl in *; simplify_eq; [done|]. by eapply Hfin.
Qed.

Lemma run_slices_app fs1 fs2 c ctxs :
  run_slices c ctxs (fs1 ++ fs2) =
  ('(c', ctxs') ← run_slices c ctxs fs1; run_slices c' ctxs' fs2).
Proof.
  revert c ctxs. induction fs1 as [|[k f] fs1 IH]; intros c ctxs; simpl; [done|].
  destruct (task_switch k (f c) ctxs) as [[c' ctxs']|p|]; simpl; auto.
Qed.

(** C31: round robin. With [n] tasks, after [n] time slices (and timer switches) every
    task has run exactly once, in order, from the state it was suspended in, and the
    first task continues from the state in which it was switched out; this does not
    depend on where the deque's ring buffer wraps. *)
Theorem round_robin_fair (c stale : T) (q : list T) (fs : list (nat * (T → T))) :
  q ≠ [] → length fs = S (length q) → Forall (λ kf, (1 ≤ kf.1)%nat) fs →
  ∃ stale' c' fin,
    run_slices c (stale :: q) fs = Ret (c', stale' :: fin) ∧
    length fin = length q ∧
    ∀ i k f t, fs !! i = Some (k, f) → (c :: q) !! i = Some t → (c' :: fin) !! i = Some (f t).
Proof.
  intros Hq Hlen Hk. destruct fs as [|[k f] fs _] using rev_ind; [done|].
  rewrite length_app in Hlen. simpl in Hlen. apply Forall_app in Hk as [Hk Hk1].
  apply list.Forall_cons in Hk1 as [Hk1 _]. simpl in Hk1.
  destruct (run_slices_ok fs c stale q [] Hk) as (stale1 & fin & E & Hf & Hall);
    [lia|by rewrite app_nil_r|].
  rewrite app_nil_r in E. rewrite run_slices_app, E, bind_Ret.
  rewrite (drop_ge q), !app_nil_l by lia. simpl.
  set (t := default c ((c :: q) !! length fs)) in *.
  destruct (task_switch_ok k (f t) stale1 fin Hk1) as (stale2 & ->).
  { intros ->. destruct q; [done|]. simpl in *. lia. }
  rewrite bind_Ret. destruct fin as [|c' fin]; [destruct q; [done|]; simpl in *; lia|].
  exists stale2, c', (fin ++ [f t]). simpl in *. split; [done|]. split; [rewrite length_app; simpl; lia|].
  intros i k' f' t' Hi Ht. rewrite app_comm_cons.
  destruct (decide (i < length fs)%nat) as [Hlt|Hge].
  - rewrite lookup_app_l in Hi by done. rewrite lookup_app_l by (simpl; lia). by eapply Hall.
  - apply lookup_lt_Some in Hi as Hb. rewrite length_app in Hb. simpl in Hb.
    assert (i = length fs) as -> by lia. rewrite lookup_app_r, Nat.sub_diag in Hi by lia.
    simpl in Hi. simplify_eq. rewrite lookup_app_r by (simpl; lia). simpl.
    rewrite <- Hf. simpl. rewrite Nat.sub_diag. simpl. unfold t. by rewrite Ht.
Qed.
End manager.

(** ** Concrete runs *)

(** Two tasks: A, running, with its context at 0x10000, and B, suspended, at 0x20000. *)
Definition demo_cpu : cpu :=
  {| gpr := {| rax := 1; rbx := 2; rcx := 3; rdx := 4; rdi := 0x20000; rsi := 0x10000;
               rsp := 0x8000; rbp := 0x8100; r8 := 8; r9 := 9; r10 := 10; r11 := 11;
               r12 := 12; r13 := 13; r14 := 14; r15 := 15 |};
     seg := {| cs := 8; ss := 16; fs := 0; gs := 0 |};
     rip := 0x1234; rflags := 0x202; cr3 := 0x5000; fx := replicate 64 7;
     mem := upd (λ _, 0) 0x8000 0x4321 |}.

(** The state B called [switch_context] in, and A's state with B's context in memory. *)
Definition demo_b : cpu := with_reg (with_reg demo_cpu RSI 0x20000) RDI 0x10000.

Definition demo_a : cpu := with_mem demo_cpu (mem (run (save_regs ++ save_control) demo_b)).

Lemma demo_cpu_ok s : seg s = seg demo_cpu → fx s = fx demo_cpu → cpu_ok s.
Proof.
  intros Hs Hf. split; [|by rewrite Hf]. unfold sregs. rewrite Hs.
  intros []; vm_compute; intuition congruence.
Qed.

Lemma demo_a_saved : saved (mem demo_a) (regs demo_a RDI) demo_b.
Proof.
  split; try (intros []); vm_compute; reflexivity.
Qed.

Lemma demo_a_areas : switch_areas demo_a.
Proof. split; unfold apart, CONTEXT_SIZE; vm_compute; intuition congruence. Qed.

Lemma switch_context_swaps_witness :
  let s' := run switch_context demo_a in
  resumed demo_b s' ∧ saved (mem s') (regs demo_a RSI) demo_a.
Proof.
  destruct (switch_context_swaps demo_a demo_b) as (H1 & H2 & _);
    [by apply demo_cpu_ok|exact demo_a_areas|exact demo_a_saved|].
  split; [exact H1|exact H2].
Defined.

(** B runs for a while and switches back to A. *)
Definition demo_back : cpu :=
  with_reg (with_reg (with_reg (run switch_context demo_a) RAX 99) RDI 0x10000) RSI 0x20000.

Lemma mem_with_reg s r v : mem (with_reg s r v) = mem s.
Proof. by destruct s. Qed.

Lemma switch_away_and_back_witness : resumed demo_a (run switch_context demo_back).
Proof.
  apply (switch_away_and_back demo_a demo_b demo_back);
    [by apply demo_cpu_ok|exact demo_a_areas|exact demo_a_saved
    |apply demo_cpu_ok; vm_compute; reflexivity| |vm_compute; reflexivity
    |intros b _; unfold demo_back; by rewrite !mem_with_reg].
  split; unfold apart, CONTEXT_SIZE; vm_compute; intuition congruence.
Defined.

Lemma round_robin_fair_witness :
  ∃ stale' c' fin, run_slices 10 [0; 20; 30] [(1%nat, Z.add 1); (2%nat, Z.add 2); (3%nat, Z.add 3)] =
    Ret (c', stale' :: fin) ∧ c' = 11.
Proof.
  destruct (round_robin_fair 10 0 [20; 30] [(1%nat, Z.add 1); (2%nat, Z.add 2); (3%nat, Z.add 3)])
    as (st & c' & fin & E & _ & Hall); [done|done|repeat constructor|].
  exists st, c', fin. split; [exact E|].
  specialize (Hall 0%nat 1%nat (Z.add 1) 10 eq_refl eq_refl). injection Hall as Hall. exact Hall.
Defined.
