(* ===== verification/Paging.v ===== *)
(** paging.rs: the identity page table set up at boot, and the processor's walk through
    it (four levels, 2 MiB pages), which gives the table its meaning. *)

From S2P Require Import Prelude.

Definition PAGESIZE_4K : Z := 4096.
Definition PAGESIZE_2M : Z := 512 * PAGESIZE_4K.
Definition PAGESIZE_1G : Z := 512 * PAGESIZE_2M.

(** The three static tables and [cr3]. *)
Record Tables := {
  PML4_TABLE : list Z;
  PDP_TABLE : list Z;
  PAGE_DIRS : list (list Z);
  CR3 : Z;
}.

(** Where the linker put them: [&PML4_TABLE.0[0]], [&PDP_TABLE.0[0]], [&PAGE_DIRS.0[0]]. *)
Record Placement := { pml4_addr : Z; pdp_addr : Z; dirs_addr : Z }.

(** The statics before [setup_identity_page_table]. *)
Definition zero_tables (cr3 : Z) : Tables :=
  {| PML4_TABLE := replicate 512 0; PDP_TABLE := replicate 512 0;
     PAGE_DIRS := replicate 64 (replicate 512 0); CR3 := cr3 |}.

(** The inner loop: the 512 entries of directory [i_pdpt]. *)
Definition fill_dir (i_pdpt : Z) (dirs : list (list Z)) : outcome (list (list Z)) :=
  foldM (λ dirs i_pd,
    dir ← vget dirs i_pdpt;
    a ← usize_mul i_pdpt PAGESIZE_1G;
    b ← usize_mul i_pd PAGESIZE_2M;
    c ← usize_add a b;
    dir ← vset dir i_pd (Z.lor c 0x083);
    vset dirs i_pdpt dir) (range 0 512) dirs.

Definition setup_identity_page_table (p : Placement) (t : Tables) : outcome Tables :=
  pml4 ← vset (PML4_TABLE t) 0 (Z.lor (pdp_addr p) 0x003);
  '(pdp, dirs) ← foldM (λ '(pdp, dirs) i_pdpt,
      pdp ← vset pdp i_pdpt (Z.lor (dirs_addr p + PAGESIZE_4K * i_pdpt) 0x003);
      dirs ← fill_dir i_pdpt dirs;
      Ret (pdp, dirs))
    (range 0 (zlen (PAGE_DIRS t))) (PDP_TABLE t, PAGE_DIRS t);
  Ret {| PML4_TABLE := pml4; PDP_TABLE := pdp; PAGE_DIRS := dirs; CR3 := pml4_addr p |}.

(** ** The page walk *)

(** The table of 512 entries at a physical address. *)
Definition table_at (p : Placement) (t : Tables) (a : Z) : option (list Z) :=
  if a =? pml4_addr p then Some (PML4_TABLE t)
  else if a =? pdp_addr p then Some (PDP_TABLE t)
  else if (dirs_addr p <=? a) && ((a - dirs_addr p) mod PAGESIZE_4K =? 0)
  then PAGE_DIRS t !! Z.to_nat ((a - dirs_addr p) / PAGESIZE_4K)
  else None.

Definition present (e : Z) : bool := Z.testbit e 0.
Definition huge (e : Z) : bool := Z.testbit e 7.
(** Bits 12 to 51 of an entry: a physical address. *)
Definition entry_addr (e : Z) : Z := Z.land e (Z.shiftl (Z.ones 40) 12).

(** The entry of the table at [a] for the nine address bits from [shift] on. *)
Definition entry (p : Placement) (t : Tables) (a va shift : Z) : option Z :=
  tbl ← table_at p t a;
  tbl !! Z.to_nat (Z.land (Z.shiftr va shift) 511).

(** Translates a virtual address; [None] is a page fault. The lowest level (4 KiB
    pages) and 1 GiB pages do not occur in this table. *)
Definition translate (p : Placement) (t : Tables) (va : Z) : option Z :=
  e4 ← entry p t (entry_addr (CR3 t)) va 39;
  if negb (present e4) then None else
  e3 ← entry p t (entry_addr e4) va 30;
  if negb (present e3) || huge e3 then None else
  e2 ← entry p t (entry_addr e3) va 21;
  if negb (present e2) || negb (huge e2) then None else
  Some (Z.land e2 (Z.shiftl (Z.ones 31) 21) + va mod PAGESIZE_2M).

(** ** Correctness *)

(** The statics are page aligned ([repr(align(4096))]), distinct, and at physical
    addresses an entry can hold. *)
Record placed (p : Placement) : Prop := {
  pl_pml4 : 0 ≤ pml4_addr p < 2 ^ 52 ∧ pml4_addr p mod PAGESIZE_4K = 0;
  pl_pdp : 0 ≤ pdp_addr p < 2 ^ 52 ∧ pdp_addr p mod PAGESIZE_4K = 0;
  pl_dirs : 0 ≤ dirs_addr p ∧ dirs_addr p + 64 * PAGESIZE_4K ≤ 2 ^ 52 ∧ dirs_addr p mod PAGESIZE_4K = 0;
  pl_apart : pml4_addr p ≠ pdp_addr p ∧
    (pml4_addr p < dirs_addr p ∨ dirs_addr p + 64 * PAGESIZE_4K ≤ pml4_addr p) ∧
    (pdp_addr p < dirs_addr p ∨ dirs_addr p + 64 * PAGESIZE_4K ≤ pdp_addr p);
}.

Lemma sizes : PAGESIZE_4K = 2 ^ 12 ∧ PAGESIZE_2M = 2 ^ 21 ∧ PAGESIZE_1G = 2 ^ 30.
Proof. done. Qed.

Lemma aligned_bit a k n : a mod 2 ^ k = 0 → 0 ≤ n < k → Z.testbit a n = false.
Proof. intros Ha Hn. rewrite <- (Z.mod_pow2_bits_low a k n) by lia. by rewrite Ha, Z.bits_0. Qed.

Lemma small_bit a k n : 0 ≤ a < 2 ^ k → 0 ≤ k ≤ n → Z.testbit a n = false.
Proof.
  intros Ha Hn. rewrite <- (Z.mod_small a (2 ^ k)) by lia. by apply Z.mod_pow2_bits_high.
Qed.

(** The address part of an entry [a | flags]: the mask selects bits [k .. k + w]. *)
Lemma mask_entry a f k w :
  0 ≤ k → 0 ≤ w → 0 ≤ a < 2 ^ (k + w) → a mod 2 ^ k = 0 → 0 ≤ f < 2 ^ k →
  Z.land (Z.lor a f) (Z.shiftl (Z.ones w) k) = a.
Proof.
  intros Hk Hw Ha Hal Hf. apply Z.bits_inj'. intros n Hn.
  rewrite Z.land_spec, Z.lor_spec, Z.shiftl_spec, Z.testbit_ones by lia.
  destruct (Z.lt_ge_cases n k).
  - rewrite (aligned_bit a k), (proj2 (Z.leb_gt _ _)) by (done || lia). apply andb_false_r.
  - rewrite (small_bit f k n), orb_false_r, (proj2 (Z.leb_le _ _)) by lia.
    destruct (Z.ltb_spec (n - k) w); simpl; rewrite ?andb_true_r; [done|].
    rewrite (small_bit a (k + w) n) by lia. done.
Qed.

(** A flag bit of an entry. *)
Lemma flag_entry a f k n :
  a mod 2 ^ k = 0 → 0 ≤ n < k → Z.testbit (Z.lor a f) n = Z.testbit f n.
Proof. intros Ha Hn. by rewrite Z.lor_spec, (aligned_bit a k n). Qed.

(** What [setup_identity_page_table] writes. *)
Definition dir_entry (i j : Z) : Z := Z.lor (i * PAGESIZE_1G + j * PAGESIZE_2M) 0x083.

Definition pdp_entry (p : Placement) (i : Z) : Z := Z.lor (dirs_addr p + PAGESIZE_4K * i) 0x003.

(** The directory [i] has its first [n] entries. *)
Definition dir_filled (i n : Z) (dir : list Z) : Prop :=
  length dir = 512%nat ∧ ∀ j, 0 ≤ j < n → dir !! Z.to_nat j = Some (dir_entry i j).

Lemma vset_fill {A} (P : Z → A → Prop) (l : list A) n x :
  0 ≤ n < zlen l → (∀ j, 0 ≤ j < n → ∃ y, l !! Z.to_nat j = Some y ∧ P j y) → P n x →
  ∃ l', vset l n x = Ret l' ∧ length l' = length l ∧
    (∀ j, 0 ≤ j < n + 1 → ∃ y, l' !! Z.to_nat j = Some y ∧ P j y) ∧
    (∀ j, n < j → l' !! Z.to_nat j = l !! Z.to_nat j).
Proof.
  intros Hn Hl Hx. rewrite vset_ok by done. eexists. split; [done|].
  split; [apply length_insert|]. split.
  - intros j Hj. destruct (decide (j = n)) as [->|].
    + exists x. rewrite list_lookup_insert_eq by lia. done.
    + rewrite list_lookup_insert_ne by lia. apply Hl. lia.
  - intros j Hj. by rewrite list_lookup_insert_ne by lia.
Qed.

Lemma fill_dir_ok i dirs dir :
  0 ≤ i < 64 → zlen dirs = 64 → dirs !! Z.to_nat i = Some dir → length dir = 512%nat →
  ∃ dir', fill_dir i dirs = Ret (<[Z.to_nat i := dir']> dirs) ∧ dir_filled i 512 dir'.
Proof.
  intros Hi Hd Hdir Hlen. destruct sizes as (_ & E2 & E1).
  destruct (foldM_inv (λ k dirs', ∃ dir', dirs' = <[Z.to_nat i := dir']> dirs ∧
      dir_filled i (Z.of_nat k) dir')
    (λ dirs i_pd,
      dir ← vget dirs i; a ← usize_mul i PAGESIZE_1G; b ← usize_mul i_pd PAGESIZE_2M;
      c ← usize_add a b; dir ← vset dir i_pd (Z.lor c 0x083); vset dirs i dir)
    (range 0 512) dirs) as (dirs' & E & dir' & -> & Hf).
  - exists dir. rewrite list_insert_id by done. split; [done|]. split; [done|lia].
  - intros k j dirs' [-> Hj]%range_lookup (dir' & -> & Hl' & Hf').
    rewrite (vget_ok _ _ dir'), bind_Ret
      by (try rewrite list_lookup_insert_eq; done || lia).
    rewrite E1, E2. rewrite (usize_mul_ok i), bind_Ret by lia.
    rewrite (usize_mul_ok (0 + Z.of_nat k)), bind_Ret by lia. rewrite usize_add_ok, bind_Ret by lia.
    destruct (vset_fill (λ j y, y = dir_entry i j) dir' (Z.of_nat k) (dir_entry i (Z.of_nat k)))
      as (dir'' & Es & Hl'' & Hf'' & _); [lia|by eauto|done|].
    unfold dir_entry in Es. rewrite E1, E2 in Es. rewrite Z.add_0_l, Es, bind_Ret.
    rewrite vset_ok by (rewrite length_insert; lia). rewrite list_insert_insert_eq.
    eexists. split; [done|]. exists dir''. split; [done|]. split; [lia|].
    intros j Hj'. destruct (Hf'' j) as (y & ? & ->); [lia|done].
  - exists dir'. split; [exact E|]. by rewrite range_length in Hf.
Qed.

(** The tables after [setup_identity_page_table]. *)
Record identity_tables (p : Placement) (t : Tables) : Prop := {
  it_cr3 : CR3 t = pml4_addr p;
  it_pml4 : PML4_TABLE t = Z.lor (pdp_addr p) 0x003 :: replicate 511 0;
  it_pdp : ∀ i, 0 ≤ i < 64 → PDP_TABLE t !! Z.to_nat i = Some (pdp_entry p i);
  it_pdp_rest : ∀ i, 64 ≤ i < 512 → PDP_TABLE t !! Z.to_nat i = Some 0;
  it_dirs : ∀ i, 0 ≤ i < 64 → ∃ dir, PAGE_DIRS t !! Z.to_nat i = Some dir ∧ dir_filled i 512 dir;
}.

(** State of the outer loop after [k] directories. *)
Record setup_inv (p : Placement) (k : nat) (st : list Z * list (list Z)) : Prop := {
  si_pdp_len : length st.1 = 512%nat;
  si_pdp : ∀ i, 0 ≤ i < Z.of_nat k → ∃ e, st.1 !! Z.to_nat i = Some e ∧ e = pdp_entry p i;
  si_pdp_rest : ∀ i, Z.of_nat k ≤ i < 512 → st.1 !! Z.to_nat i = Some 0;
  si_dirs_len : length st.2 = 64%nat;
  si_dirs : ∀ i, 0 ≤ i < Z.of_nat k → ∃ dir, st.2 !! Z.to_nat i = Some dir ∧ dir_filled i 512 dir;
  si_dirs_rest : ∀ i, Z.of_nat k ≤ i < 64 → st.2 !! Z.to_nat i = Some (replicate 512 0);
}.

Lemma setup_step p k pdp dirs :
  (k < 64)%nat → setup_inv p k (pdp, dirs) →
  ∃ st', (pdp ← vset pdp (Z.of_nat k) (Z.lor (dirs_addr p + PAGESIZE_4K * Z.of_nat k) 0x003);
          dirs ← fill_dir (Z.of_nat k) dirs; Ret (pdp, dirs)) = Ret st' ∧ setup_inv p (k + 1) st'.
Proof.
  intros Hk [Hpl Hp Hpr Hdl Hd Hdr]; simpl in *.
  destruct (vset_fill (λ j y, y = pdp_entry p j) pdp (Z.of_nat k) (pdp_entry p (Z.of_nat k)))
    as (pdp' & E & Hl' & Hp' & Hr'); [lia|exact Hp|done|].
  change (Z.lor (dirs_addr p + PAGESIZE_4K * Z.of_nat k) 3) with (pdp_entry p (Z.of_nat k)).
  rewrite E, bind_Ret.
  destruct (fill_dir_ok (Z.of_nat k) dirs (replicate 512 0)) as (dir' & -> & Hf);
    [lia|lia|by apply Hdr; lia|apply length_replicate|]. rewrite bind_Ret.
  eexists. split; [done|]. rewrite Nat2Z.id. split; simpl.
  - lia.
  - intros i Hi. apply Hp'. lia.
  - intros i Hi. rewrite Hr' by lia. apply Hpr. lia.
  - by rewrite length_insert.
  - intros i Hi. destruct (decide (i = Z.of_nat k)) as [->|].
    + exists dir'. rewrite Nat2Z.id, list_lookup_insert_eq by lia. done.
    + rewrite list_lookup_insert_ne by lia. apply Hd. lia.
  - intros i Hi. rewrite list_lookup_insert_ne by lia. apply Hdr. lia.
Qed.

Lemma setup_ok p c :
  ∃ t, setup_identity_page_table p (zero_tables c) = Ret t ∧ identity_tables p t.
Proof.
  unfold setup_identity_page_table, zero_tables. cbn [PML4_TABLE PDP_TABLE PAGE_DIRS].
  rewrite vset_ok, bind_Ret by (rewrite length_replicate; lia). rewrite length_replicate.
  match goal with |- context [foldM ?f ?l ?st] =>
    destruct (foldM_inv (setup_inv p) f l st) as ([pdp dirs] & -> & Hinv) end.
  - split; cbn [fst snd].
    + apply length_replicate.
    + lia.
    + intros i Hi. apply lookup_replicate_2. lia.
    + apply length_replicate.
    + lia.
    + intros i Hi. apply lookup_replicate_2. lia.
  - intros k i [pdp dirs] [-> Hi]%range_lookup Hst. apply setup_step; [lia|done].
  - rewrite bind_Ret. eexists. split; [done|]. rewrite range_length in Hinv.
    destruct Hinv as [? Hp Hpr ? Hd ?]; simpl in *. split; try done.
    + intros i Hi. by destruct (Hp i Hi) as (e & ? & ->).
Qed.

(** The nine index bits of an address. *)
Lemma index_bits va k : 0 ≤ k → Z.land (Z.shiftr va k) 511 = va / 2 ^ k mod 512.
Proof.
  intros Hk. change 511 with (Z.ones 9). rewrite Z.land_ones, Z.shiftr_div_pow2 by lia. done.
Qed.

Lemma entry_addr_ok a f :
  0 ≤ a < 2 ^ 52 → a mod PAGESIZE_4K = 0 → 0 ≤ f < 2 ^ 12 → entry_addr (Z.lor a f) = a.
Proof. intros. by apply mask_entry. Qed.

Lemma table_at_dir p t i :
  placed p → 0 ≤ i < 64 →
  table_at p t (dirs_addr p + PAGESIZE_4K * i) = PAGE_DIRS t !! Z.to_nat i.
Proof.
  intros [_ _ _ (_ & H4 & H3)] Hi. unfold table_at, PAGESIZE_4K in *.
  rewrite !(proj2 (Z.eqb_neq _ _)) by lia. rewrite (proj2 (Z.leb_le _ _)) by lia.
  replace (dirs_addr p + 4096 * i - dirs_addr p) with (i * 4096) by lia.
  by rewrite Z.mod_mul, Z.div_mul by lia.
Qed.

Lemma lookup_pml4 p t n :
  identity_tables p t → 0 ≤ n < 512 →
  PML4_TABLE t !! Z.to_nat n = Some (if n =? 0 then Z.lor (pdp_addr p) 0x003 else 0).
Proof.
  intros Ht Hn. rewrite (it_pml4 _ _ Ht). destruct (Z.eqb_spec n 0) as [->|]; [done|].
  replace (Z.to_nat n) with (S (Z.to_nat (n - 1))) by lia.
  cbn [lookup list_lookup]. apply lookup_replicate_2. lia.
Qed.

(** The first two levels of the walk. *)
Lemma walk_pml4 p t va :
  placed p → identity_tables p t →
  entry p t (entry_addr (CR3 t)) va 39 =
  Some (if va / 2 ^ 39 mod 512 =? 0 then Z.lor (pdp_addr p) 0x003 else 0).
Proof.
  intros Hp Ht. unfold entry. rewrite index_bits, (it_cr3 _ _ Ht) by lia.
  rewrite <- (Z.lor_0_r (pml4_addr p)). rewrite entry_addr_ok by (apply (pl_pml4 _ Hp) || lia).
  unfold table_at. rewrite Z.eqb_refl. cbn [mbind option_bind].
  apply lookup_pml4; [done|]. apply Z.mod_pos_bound. lia.
Qed.

Lemma walk_pdp p t va :
  placed p → identity_tables p t →
  entry p t (entry_addr (Z.lor (pdp_addr p) 0x003)) va 30 =
  Some (if va / 2 ^ 30 mod 512 <? 64 then pdp_entry p (va / 2 ^ 30 mod 512) else 0).
Proof.
  intros Hp Ht. unfold entry. rewrite index_bits by lia.
  rewrite entry_addr_ok by (apply (pl_pdp _ Hp) || lia).
  unfold table_at. destruct (pl_apart _ Hp) as (Hne & _).
  rewrite (proj2 (Z.eqb_neq _ _)) by congruence. rewrite Z.eqb_refl. cbn [mbind option_bind].
  pose proof (Z.mod_pos_bound (va / 2 ^ 30) 512 ltac:(lia)) as Hb.
  destruct (Z.ltb_spec (va / 2 ^ 30 mod 512) 64).
  - apply (it_pdp _ _ Ht). lia.
  - apply (it_pdp_rest _ _ Ht). lia.
Qed.

Lemma walk_dir p t va i :
  placed p → identity_tables p t → 0 ≤ i < 64 →
  entry p t (entry_addr (pdp_entry p i)) va 21 = Some (dir_entry i (va / 2 ^ 21 mod 512)).
Proof.
  intros Hp Ht Hi. unfold entry. rewrite index_bits by lia. unfold pdp_entry.
  destruct (pl_dirs _ Hp) as (H0 & H1 & H2).
  rewrite entry_addr_ok; [|unfold PAGESIZE_4K in *; lia| |lia].
  2:{ unfold PAGESIZE_4K in *. rewrite Z.mul_comm, Z.mod_add by lia. done. }
  rewrite table_at_dir by done. destruct (it_dirs _ _ Ht i Hi) as (dir & -> & Hl & Hd).
  cbn [mbind option_bind]. apply Hd, Z.mod_pos_bound. lia.
Qed.

Lemma present_entry a f : a mod 2 ^ 12 = 0 → present (Z.lor a f) = Z.testbit f 0 ∧ huge (Z.lor a f) = Z.testbit f 7.
Proof. intros Ha. unfold present, huge. by rewrite !(flag_entry a f 12) by (done || lia). Qed.

Lemma translate_identity p t va :
  placed p → identity_tables p t → 0 ≤ va < 2 ^ 48 →
  translate p t va = if va <? 64 * PAGESIZE_1G then Some va else None.
Proof.
  intros Hp Ht Hva. destruct sizes as (E4 & E2 & E1). unfold translate.
  rewrite walk_pml4 by done. cbn [mbind option_bind].
  destruct (Z.eqb_spec (va / 2 ^ 39 mod 512) 0) as [H39|H39].
  2:{ cbn [negb present]. change (present 0) with false. simpl.
      destruct (Z.ltb_spec va (64 * PAGESIZE_1G)); [|done].
      exfalso. apply H39. rewrite Z.div_small by lia. done. }
  destruct (present_entry (pdp_addr p) 3) as [-> _]; [by apply (pl_pdp _ Hp)|].
  cbn [Z.testbit negb]. rewrite walk_pdp by done. cbn [mbind option_bind].
  assert (va < 2 ^ 39) as Hva39.
  { rewrite Z.mod_small in H39 by (split; [apply Z.div_pos; lia|apply Z.div_lt_upper_bound; lia]).
    apply Z.div_small_iff in H39; lia. }
  assert (0 ≤ va / 2 ^ 30 < 512) as Hi
    by (split; [apply Z.div_pos; lia|apply Z.div_lt_upper_bound; lia]).
  rewrite (Z.mod_small (va / 2 ^ 30)) by done.
  pose proof (Z.div_mod va (2 ^ 30) ltac:(lia)). pose proof (Z.mod_pos_bound va (2 ^ 30) ltac:(lia)).
  destruct (Z.ltb_spec (va / 2 ^ 30) 64) as [H64|H64];
    destruct (Z.ltb_spec va (64 * PAGESIZE_1G)) as [Hl|Hl]; try (exfalso; lia); [|done].
  destruct (present_entry (dirs_addr p + PAGESIZE_4K * (va / 2 ^ 30)) 3) as [Hpr Hhg].
  { rewrite <- E4, Z.mul_comm, Z.mod_add by lia. apply (pl_dirs _ Hp). }
  fold (pdp_entry p (va / 2 ^ 30)) in Hpr, Hhg. rewrite Hpr, Hhg. cbn [Z.testbit negb orb].
  rewrite walk_dir by (done || lia). cbn [mbind option_bind].
  set (q := va / 2 ^ 21).
  assert (va / 2 ^ 30 = q / 512) as Eq by (unfold q; rewrite Z.div_div by lia; done).
  pose proof (Z.div_mod va (2 ^ 21) ltac:(lia)) as Hdm. fold q in Hdm.
  pose proof (Z.div_mod q 512 ltac:(lia)) as Hq. pose proof (Z.mod_pos_bound q 512 ltac:(lia)).
  rewrite Eq in *. unfold dir_entry. rewrite E1, E2.
  assert ((q / 512 * 2 ^ 30 + q mod 512 * 2 ^ 21) mod 2 ^ 21 = 0) as Hal.
  { replace (q / 512 * 2 ^ 30 + q mod 512 * 2 ^ 21) with ((q / 512 * 2 ^ 9 + q mod 512) * 2 ^ 21) by lia.
    by rewrite Z.mod_mul. }
  unfold present, huge. rewrite !(flag_entry _ _ 21) by (done || lia). cbn [Z.testbit negb orb].
  rewrite (mask_entry _ _ 21 31) by (done || lia). f_equal. lia.
Qed.

(** C18: the boot page table maps the first 64 GiB onto themselves and nothing else. For
    the tables wherever the linker places them, [setup_identity_page_table] does not
    panic, and the processor's walk then translates every address below 64 GiB to
    itself and faults on every other address of the lower half. *)
Theorem setup_identity_maps (p : Placement) (c : Z) :
  placed p →
  ∃ t, setup_identity_page_table p (zero_tables c) = Ret t ∧
    ∀ va, 0 ≤ va < 2 ^ 48 →
      translate p t va = if va <? 64 * PAGESIZE_1G then Some va else None.
Proof.
  intros Hp. destruct (setup_ok p c) as (t & E & Ht). exists t. split; [done|].
  intros va Hva. by apply translate_identity.
Qed.

Definition demo_placement : Placement :=
  {| pml4_addr := 0x100000; pdp_addr := 0x101000; dirs_addr := 0x102000 |}.

Lemma demo_placed : placed demo_placement.
Proof. split; vm_compute; intuition congruence. Qed.

Lemma setup_identity_maps_witness :
  ∃ t, setup_identity_page_table demo_placement (zero_tables 0) = Ret t ∧
    translate demo_placement t 0x123456789 = Some 0x123456789 ∧
    translate demo_placement t (64 * PAGESIZE_1G) = None.
Proof.
  destruct (setup_identity_maps demo_placement 0 demo_placed) as (t & E & Ht).
  exists t. split; [exact E|]. split.
  - rewrite (Ht 0x123456789) by lia. vm_compute. reflexivity.
  - rewrite (Ht (64 * PAGESIZE_1G)) by (vm_compute; intuition congruence). vm_compute. reflexivity.
Defined.
