(* ===== verification/Rings.v ===== *)
(** usb/ring/ring.rs and usb/ring/command.rs: the rings of transfer request blocks the
    kernel shares with the USB host controller, and the command ring on top.

    A TRB is a type with the few operations the code uses ([TrbOps]): the accessors the
    bitfield crate generates for bit 96 and the xhci crate's [Link] block. The host
    controller is the other side of the ring: it follows the consumer's rule of the xHCI
    specification (take a block while its cycle bit equals the consumer's cycle state,
    toggle that state at the link block). *)

From S2P Require Import Prelude.

(** ** Transfer request blocks *)

Class TrbOps (TRB : Type) := {
  trb_default : TRB;
  trb_link : Z → TRB;
  cycle_bit : TRB → bool;
  set_cycle_bit : TRB → bool → TRB;
  cycle_bit_default : cycle_bit trb_default = false;
  cycle_bit_link : ∀ a, cycle_bit (trb_link a) = false;
  cycle_bit_set : ∀ t b, cycle_bit (set_cycle_bit t b) = b;
}.

Definition TRB_SIZE : Z := 16.

(** [XhciError], the case the rings raise. *)
Inductive XhciError := RingIsFull.

Section rings.
Context {TRB : Type} `{!TrbOps TRB}.

(** [buf_ptr] is the address of [data]. *)
Record ProducerRing := {
  data : list TRB;
  cycle_state : bool;
  enque : Z;
  deque : Z;
  buf_ptr : Z;
}.

Definition ProducerRing_new (addr size : Z) : outcome ProducerRing :=
  let data := replicate (Z.to_nat size) trb_default in
  last ← usize_sub size 1;
  data ← vset data last (trb_link addr);
  Ret {| data := data; cycle_state := true; enque := 0; deque := 0; buf_ptr := addr |}.

Definition next_ptr (self : ProducerRing) (ptr : Z) : outcome Z :=
  lim ← usize_sub (zlen (data self)) 2;
  _ ← assert_ (ptr <=? lim);
  p ← usize_add ptr 1;
  l ← usize_sub (zlen (data self)) 1;
  if p =? l then Ret 0 else Ret p.

Definition advance_enque_ptr (self : ProducerRing) : outcome ProducerRing :=
  e ← usize_add (enque self) 1;
  l ← usize_sub (zlen (data self)) 1;
  if e =? l then
    link ← vget (data self) e;
    data ← vset (data self) e (set_cycle_bit link (cycle_state self));
    Ret {| data := data; cycle_state := negb (cycle_state self); enque := 0;
           deque := deque self; buf_ptr := buf_ptr self |}
  else
    Ret {| data := data self; cycle_state := cycle_state self; enque := e;
           deque := deque self; buf_ptr := buf_ptr self |}.

(** [Ok(ptr)] is [inl], [Err(e)] is [inr]. *)
Definition push (self : ProducerRing) (trb : TRB) : outcome (ProducerRing * (Z + XhciError)) :=
  nxt ← next_ptr self (enque self);
  if nxt =? deque self then Ret (self, inr RingIsFull)
  else
    let trb := set_cycle_bit trb (cycle_state self) in
    data ← vset (data self) (enque self) trb;
    let ret_ptr := buf_ptr self + TRB_SIZE * enque self in
    self ← advance_enque_ptr {| data := data; cycle_state := cycle_state self;
                                enque := enque self; deque := deque self; buf_ptr := buf_ptr self |};
    Ret (self, inl ret_ptr).

Definition set_deque_ptr (self : ProducerRing) (deque_ptr : Z) : outcome ProducerRing :=
  d ← usize_sub deque_ptr (buf_ptr self);
  let index := d / TRB_SIZE in
  dq ← next_ptr self index;
  Ret {| data := data self; cycle_state := cycle_state self; enque := enque self;
         deque := dq; buf_ptr := buf_ptr self |}.

Definition get_enque_ptr (self : ProducerRing) : outcome Z :=
  _ ← vget (data self) (enque self);
  Ret (buf_ptr self + TRB_SIZE * enque self).

Record ConsumerRing := { c_data : list TRB; c_cycle_state : bool; c_deque : Z }.

Definition ConsumerRing_new (size : Z) : ConsumerRing :=
  {| c_data := replicate (Z.to_nat size) trb_default; c_cycle_state := true; c_deque := 0 |}.

Definition pop (self : ConsumerRing) : outcome (ConsumerRing * option TRB) :=
  trb ← vget (c_data self) (c_deque self);
  if negb (Bool.eqb (cycle_bit trb) (c_cycle_state self)) then Ret (self, None)
  else
    d ← usize_add (c_deque self) 1;
    if d =? zlen (c_data self)
    then Ret ({| c_data := c_data self; c_cycle_state := negb (c_cycle_state self); c_deque := 0 |}, Some trb)
    else Ret ({| c_data := c_data self; c_cycle_state := c_cycle_state self; c_deque := d |}, Some trb).

(** ** The controller's side of a producer ring *)

(** Position and consumer cycle state. *)
Record controller := { ctl_idx : Z; ctl_ccs : bool }.

(** One look at the ring: [Some (c, Some t)] consumes [t], [Some (c, None)] follows the
    link block, [None] finds nothing new. *)
Definition controller_step (ring : list TRB) (c : controller) : option (controller * option TRB) :=
  t ← ring !! Z.to_nat (ctl_idx c);
  if Bool.eqb (cycle_bit t) (ctl_ccs c) then
    if ctl_idx c =? zlen ring - 1
    then Some ({| ctl_idx := 0; ctl_ccs := negb (ctl_ccs c) |}, None)
    else Some ({| ctl_idx := ctl_idx c + 1; ctl_ccs := ctl_ccs c |}, Some t)
  else None.

(** The kernel and the controller together. [pushed] and [consumed] are histories;
    [completed] blocks have been reported back by events. *)
Record system := {
  ring : ProducerRing;
  ctl : controller;
  pushed : list TRB;
  consumed : list TRB;
  completed : Z;
}.

Inductive step : system → system → Prop :=
  | step_push s t r p :
      push (ring s) t = Ret (r, inl p) →
      step s {| ring := r; ctl := ctl s; pushed := pushed s ++ [t];
                consumed := consumed s; completed := completed s |}
  | step_consume s c o :
      controller_step (data (ring s)) (ctl s) = Some (c, o) →
      step s {| ring := ring s; ctl := c; pushed := pushed s;
                consumed := consumed s ++ option_list o; completed := completed s |}
  (** An event for block number [k], one the controller has consumed. *)
  | step_complete s k r :
      completed s ≤ k < zlen (consumed s) →
      set_deque_ptr (ring s) (buf_ptr (ring s) + TRB_SIZE * (k mod (zlen (data (ring s)) - 1))) = Ret r →
      step s {| ring := r; ctl := ctl s; pushed := pushed s;
                consumed := consumed s; completed := k + 1 |}.

Definition start (r : ProducerRing) : system :=
  {| ring := r; ctl := {| ctl_idx := 0; ctl_ccs := true |};
     pushed := []; consumed := []; completed := 0 |}.

(** ** Invariant *)

(** The cycle state with which block number [k] is written, in a ring of [n] blocks. *)
Definition phase (n k : Z) : bool := Z.even (k / n).

Lemma succ_div_mod n k :
  0 < n → 0 ≤ k →
  (k + 1) mod n = (if k mod n + 1 =? n then 0 else k mod n + 1) ∧
  (k + 1) / n = (if k mod n + 1 =? n then k / n + 1 else k / n).
Proof.
  intros Hn Hk. pose proof (Z.div_mod k n ltac:(lia)) as E. pose proof (Z.mod_pos_bound k n Hn).
  destruct (Z.eqb_spec (k mod n + 1) n).
  - split; symmetry; [apply (Z.mod_unique_pos _ _ (k / n + 1))|apply (Z.div_unique_pos _ _ _ 0)]; lia.
  - split; symmetry; [apply (Z.mod_unique_pos _ _ (k / n))|apply (Z.div_unique_pos _ _ _ (k mod n + 1))]; lia.
Qed.

Lemma phase_succ n k :
  0 < n → 0 ≤ k →
  phase n (k + 1) = if k mod n + 1 =? n then negb (phase n k) else phase n k.
Proof.
  intros Hn Hk. unfold phase. destruct (succ_div_mod n k Hn Hk) as [_ ->].
  destruct (_ =? _); [|done]. by rewrite Z.add_1_r, Z.even_succ, <- Z.negb_even.
Qed.

Lemma phase_lap n k : 0 < n → phase n (k + n) = negb (phase n k).
Proof.
  intros Hn. unfold phase. replace (k + n) with (k + 1 * n) by lia. rewrite Z.div_add by lia.
  by rewrite Z.add_1_r, Z.even_succ, <- Z.negb_even.
Qed.

(** Numbers less than [n] apart share a slot only if equal. *)
Lemma mod_near n a b : 0 < n → a mod n = b mod n → - n < a - b < n → a = b.
Proof.
  intros Hn H Hab. pose proof (Z.div_mod a n ltac:(lia)). pose proof (Z.div_mod b n ltac:(lia)).
  assert (a - b = n * (a / n - b / n)) by lia. assert (a / n = b / n) by nia. lia.
Qed.

Record ring_inv (n : Z) (s : system) : Prop := {
  ri_n : 1 ≤ n < 2 ^ 32;
  ri_len : zlen (data (ring s)) = n + 1;
  ri_ptr : 0 ≤ buf_ptr (ring s) ∧ buf_ptr (ring s) + TRB_SIZE * (n + 1) < 2 ^ 64;
  ri_order : 0 ≤ completed s ≤ zlen (consumed s) ∧ zlen (consumed s) ≤ zlen (pushed s) ≤ completed s + n - 1;
  ri_enque : enque (ring s) = zlen (pushed s) mod n;
  ri_cycle : cycle_state (ring s) = phase n (zlen (pushed s));
  ri_deque : deque (ring s) = completed s mod n;
  ri_slots : ∀ k t, zlen (pushed s) - n ≤ k < zlen (pushed s) → 0 ≤ k →
    pushed s !! Z.to_nat k = Some t →
    data (ring s) !! Z.to_nat (k mod n) = Some (set_cycle_bit t (phase n k));
  ri_fresh : ∀ i, zlen (pushed s) ≤ i < n → data (ring s) !! Z.to_nat i = Some trb_default;
  ri_link : ∃ l, data (ring s) !! Z.to_nat n = Some l ∧ cycle_bit l = negb (phase n (zlen (pushed s)));
  ri_ctl : ctl_idx (ctl s) = zlen (consumed s) mod n ∧ ctl_ccs (ctl s) = phase n (zlen (consumed s)) ∨
    ctl_idx (ctl s) = n ∧ zlen (consumed s) mod n = 0 ∧ 0 < zlen (consumed s) ∧
    ctl_ccs (ctl s) = negb (phase n (zlen (consumed s)));
  ri_consumed : ∀ k t, 0 ≤ k < zlen (consumed s) → pushed s !! Z.to_nat k = Some t →
    consumed s !! Z.to_nat k = Some (set_cycle_bit t (phase n k));
}.

Lemma ring_inv_start addr size r :
  2 ≤ size ≤ 2 ^ 32 → 0 ≤ addr → addr + TRB_SIZE * size < 2 ^ 64 →
  ProducerRing_new addr size = Ret r → ring_inv (size - 1) (start r).
Proof.
  intros Hs Ha Hb. unfold ProducerRing_new. rewrite usize_sub_ok, bind_Ret by lia.
  rewrite vset_ok, bind_Ret by (rewrite length_replicate; lia). intros [= <-].
  split; simpl; try done; try (unfold TRB_SIZE in *; lia).
  - rewrite length_insert, length_replicate. lia.
  - intros i Hi. rewrite list_lookup_insert_ne by lia. apply lookup_replicate_2. lia.
  - exists (trb_link addr). split; [|apply cycle_bit_link].
    apply list_lookup_insert_eq. rewrite length_replicate. lia.
  - left. rewrite Z.mod_0_l by lia. done.
Qed.

Lemma next_ptr_ok n (r : ProducerRing) i :
  1 ≤ n < 2 ^ 32 → zlen (data r) = n + 1 → 0 ≤ i < n →
  next_ptr r i = Ret (if i + 1 =? n then 0 else i + 1).
Proof.
  intros Hn Hl Hi. unfold next_ptr. rewrite Hl. rewrite (usize_sub_ok (n + 1) 2), bind_Ret by lia.
  rewrite (proj2 (Z.leb_le _ _)) by lia. cbn [assert_]. rewrite bind_Ret.
  rewrite usize_add_ok, bind_Ret by lia. rewrite usize_sub_ok, bind_Ret by lia.
  replace (n + 1 - 1) with n by lia. by destruct (_ =? _).
Qed.

Lemma lookup_snoc {A} (l : list A) x k y :
  0 ≤ k → (l ++ [x]) !! Z.to_nat k = Some y →
  k < zlen l ∧ l !! Z.to_nat k = Some y ∨ k = zlen l ∧ y = x.
Proof.
  intros Hk H. destruct (Z.lt_ge_cases k (zlen l)).
  - left. by rewrite lookup_app_l in H by lia.
  - right. rewrite lookup_app_r in H by lia.
    destruct (Z.to_nat k - length l)%nat as [|j] eqn:Ej; simpl in H; [|done].
    injection H as ->. split; [lia|done].
Qed.

(** Whether the ring is full, as [push] finds out. *)
Lemma full_iff n s :
  ring_inv n s →
  ((zlen (pushed s) + 1) mod n = completed s mod n ↔ zlen (pushed s) = completed s + n - 1).
Proof.
  intros [? ? ? Ho _ _ _ _ _ _ _ _]. split.
  - intros H.
    assert (zlen (pushed s) + 1 - n = completed s); [|lia].
    apply (mod_near n); [lia| |lia]. rewrite <- H.
    replace (zlen (pushed s) + 1 - n) with (zlen (pushed s) + 1 + (-1) * n) by lia.
    apply Z.mod_add. lia.
  - intros ->. replace (completed s + n - 1 + 1) with (completed s + 1 * n) by lia.
    apply Z.mod_add. lia.
Qed.

(** What [push] leaves in memory and in the pointers, when it accepts [t]. *)
Lemma push_effect n s t :
  ring_inv n s → zlen (pushed s) < completed s + n - 1 →
  ∃ r, push (ring s) t = Ret (r, inl (buf_ptr (ring s) + TRB_SIZE * (zlen (pushed s) mod n))) ∧
    zlen (data r) = n + 1 ∧ buf_ptr r = buf_ptr (ring s) ∧ deque r = deque (ring s) ∧
    enque r = (zlen (pushed s) + 1) mod n ∧ cycle_state r = phase n (zlen (pushed s) + 1) ∧
    data r !! Z.to_nat (zlen (pushed s) mod n) = Some (set_cycle_bit t (phase n (zlen (pushed s)))) ∧
    (∀ i, 0 ≤ i < n → i ≠ zlen (pushed s) mod n →
       data r !! Z.to_nat i = data (ring s) !! Z.to_nat i) ∧
    (∃ l, data r !! Z.to_nat n = Some l ∧ cycle_bit l = negb (phase n (zlen (pushed s) + 1))).
Proof.
  intros Hi Hroom. pose proof (full_iff n s Hi) as Hfull.
  destruct Hi as [Hn Hl Hp Ho He Hc Hd Hs Hf (l & Hlk & Hlc) _ _].
  set (E := zlen (pushed s)) in *.
  pose proof (Z.mod_pos_bound E n ltac:(lia)) as Hm.
  destruct (succ_div_mod n E ltac:(lia) ltac:(lia)) as [Hsm _].
  pose proof (phase_succ n E ltac:(lia) ltac:(lia)) as Hph.
  unfold push. rewrite He, (next_ptr_ok n) by done. rewrite bind_Ret, <- Hsm, Hd.
  rewrite (proj2 (Z.eqb_neq _ _)) by lia. rewrite vset_ok, bind_Ret by lia.
  unfold advance_enque_ptr. cbn [enque data cycle_state deque buf_ptr].
  rewrite length_insert, Hl. rewrite usize_add_ok, bind_Ret by lia. rewrite usize_sub_ok, bind_Ret by lia.
  replace (n + 1 - 1) with n by lia. rewrite Hsm, Hph, Hc.
  destruct (Z.eqb_spec (E mod n + 1) n) as [Hw|Hw].
  - rewrite (vget_ok _ _ l), bind_Ret by (rewrite ?list_lookup_insert_ne by lia; rewrite ?Hw; done || lia).
    rewrite vset_ok, !bind_Ret by (rewrite length_insert; lia).
    eexists. split; [done|]. cbn [enque data cycle_state deque buf_ptr]. rewrite Hw.
    split_and!; try done.
    + rewrite !length_insert. lia.
    + rewrite list_lookup_insert_ne by lia. apply list_lookup_insert_eq. lia.
    + intros i Hi Hne. rewrite !list_lookup_insert_ne by lia. done.
    + eexists. split; [apply list_lookup_insert_eq; rewrite length_insert; lia|].
      by rewrite cycle_bit_set, negb_involutive.
  - rewrite !bind_Ret. eexists. split; [done|]. cbn [enque data cycle_state deque buf_ptr].
    split_and!; try done.
    + rewrite !length_insert. lia.
    + apply list_lookup_insert_eq. lia.
    + intros i Hi Hne. rewrite !list_lookup_insert_ne by lia. done.
    + exists l. rewrite list_lookup_insert_ne by lia. done.
Qed.

Lemma push_ring_inv n s t :
  ring_inv n s → zlen (pushed s) < completed s + n - 1 →
  ∃ r p, push (ring s) t = Ret (r, inl p) ∧
    ring_inv n {| ring := r; ctl := ctl s; pushed := pushed s ++ [t];
                  consumed := consumed s; completed := completed s |}.
Proof.
  intros Hi Hroom.
  destruct (push_effect n s t Hi Hroom) as (r & E & Hl' & Hb' & Hd' & He' & Hc' & Hnew & Hold & Hlk').
  destruct Hi as [Hn Hl Hp Ho He Hc Hd Hs Hf _ Hct Hcs].
  exists r. eexists. split; [exact E|].
  assert (zlen (pushed s ++ [t]) = zlen (pushed s) + 1) as Hlen by (rewrite length_app; simpl; lia).
  split; simpl; rewrite ?Hlen, ?Hb', ?Hd'; try done; try lia.
  - intros k u Hk Hk0 Hu. apply lookup_snoc in Hu as [[Hk1 Hu]|[-> ->]]; [|done|done].
    rewrite Hold; [apply Hs; [lia|done..]|apply Z.mod_pos_bound; lia|].
    intros Heq. apply mod_near in Heq; lia.
  - intros i Hi. rewrite Hold; [apply Hf; lia|lia|].
    rewrite Z.mod_small by lia. lia.
  - intros k u Hk Hu. apply lookup_snoc in Hu as [[_ Hu]|[-> ->]]; [by apply Hcs|lia|lia].
Qed.

Lemma push_ring_full n s t :
  ring_inv n s → zlen (pushed s) = completed s + n - 1 →
  push (ring s) t = Ret (ring s, inr RingIsFull).
Proof.
  intros Hi Hfull. pose proof (proj2 (full_iff n s Hi) Hfull) as Heq.
  destruct Hi as [Hn Hl Hp Ho He Hc Hd _ _ _ _ _].
  pose proof (Z.mod_pos_bound (zlen (pushed s)) n ltac:(lia)).
  destruct (succ_div_mod n (zlen (pushed s)) ltac:(lia) ltac:(lia)) as [Hsm _].
  unfold push. rewrite He, (next_ptr_ok n), bind_Ret by done. rewrite <- Hsm, Hd, Heq.
  by rewrite Z.eqb_refl.
Qed.

(** What the controller finds in the slot of the block it expects next. *)
Lemma expected_slot n s :
  ring_inv n s →
  if zlen (consumed s) <? zlen (pushed s)
  then ∃ t, pushed s !! Z.to_nat (zlen (consumed s)) = Some t ∧
    data (ring s) !! Z.to_nat (zlen (consumed s) mod n) =
      Some (set_cycle_bit t (phase n (zlen (consumed s))))
  else ∃ t, data (ring s) !! Z.to_nat (zlen (consumed s) mod n) = Some t ∧
    cycle_bit t = negb (phase n (zlen (consumed s))).
Proof.
  intros [Hn Hl Hp Ho He Hc Hd Hs Hf _ _ _].
  set (C := zlen (consumed s)) in *. destruct (Z.ltb_spec C (zlen (pushed s))) as [Hlt|Hge].
  - destruct (lookup_lt_is_Some_2 (pushed s) (Z.to_nat C)) as [t Ht]; [lia|].
    exists t. split; [done|]. by apply Hs; [lia..|].
  - destruct (Z.lt_ge_cases C n).
    + exists trb_default. rewrite Z.mod_small by lia. split; [apply Hf; lia|].
      unfold phase. rewrite cycle_bit_default, Z.div_small by lia. done.
    + destruct (lookup_lt_is_Some_2 (pushed s) (Z.to_nat (C - n))) as [t Ht]; [lia|].
      specialize (Hs (C - n) t ltac:(lia) ltac:(lia) Ht).
      replace ((C - n) mod n) with (C mod n) in Hs
        by (replace (C - n) with (C + (-1) * n) by lia; by rewrite Z.mod_add by lia).
      eexists. split; [exact Hs|]. rewrite cycle_bit_set.
      pose proof (phase_lap n (C - n) ltac:(lia)) as Hph. replace (C - n + n) with C in Hph by lia.
      by rewrite Hph, negb_involutive.
Qed.

Definition after_consume (s : system) (c : controller) (o : option TRB) : system :=
  {| ring := ring s; ctl := c; pushed := pushed s;
     consumed := consumed s ++ option_list o; completed := completed s |}.

Lemma controller_step_inv n s :
  ring_inv n s →
  match controller_step (data (ring s)) (ctl s) with
  | None => zlen (consumed s) = zlen (pushed s)
  | Some (c, o) => ring_inv n (after_consume s c o) ∧ (o = None → ctl_idx (ctl s) = n ∧ ctl_idx c = 0)
  end.
Proof.
  intros Hi. pose proof (expected_slot n s Hi) as Hslot.
  pose proof Hi as [Hn Hl Hp Ho He Hc Hd Hs Hf (l & Hlk & Hlc) Hctl Hcs].
  pose proof (Z.mod_pos_bound (zlen (consumed s)) n ltac:(lia)) as Hm.
  destruct (ctl s) as [idx ccs] eqn:Ectl. simpl in Hctl. unfold controller_step. simpl.
  destruct Hctl as [[-> ->]|(-> & Hm0 & Hpos & ->)].
  - destruct (Z.ltb_spec (zlen (consumed s)) (zlen (pushed s))) as [Hlt|Hge].
    + destruct Hslot as (t & Ht & ->). simpl. rewrite cycle_bit_set, eqb_reflx, Hl.
      rewrite (proj2 (Z.eqb_neq _ _)) by lia. split; [|done].
      assert (zlen (consumed s ++ [set_cycle_bit t (phase n (zlen (consumed s)))]) =
        zlen (consumed s) + 1) as Hlen by (rewrite length_app; simpl; lia).
      destruct (succ_div_mod n (zlen (consumed s)) ltac:(lia) ltac:(lia)) as [Hsm _].
      pose proof (phase_succ n (zlen (consumed s)) ltac:(lia) ltac:(lia)) as Hph.
      split; simpl; rewrite ?Hlen; try done; try lia.
      * by exists l.
      * rewrite Hsm, Hph. destruct (Z.eqb_spec (zlen (consumed s) mod n + 1) n) as [Hw|Hw].
        { right. rewrite negb_involutive. split_and!; done || lia. }
        left. done.
      * intros k u Hk Hu. destruct (Z.lt_ge_cases k (zlen (consumed s))).
        { rewrite lookup_app_l by lia. apply Hcs; [lia|done]. }
        assert (k = zlen (consumed s)) as -> by lia.
        rewrite lookup_app_r, Nat2Z.id, Nat.sub_diag by lia. simpl. rewrite Ht in Hu. by simplify_eq.
    + destruct Hslot as (t & -> & Ht). simpl. rewrite Ht.
      destruct (phase n (zlen (consumed s))); simpl; lia.
  - rewrite Hlk. simpl.
    assert (zlen (pushed s) / n = zlen (consumed s) / n) as Hq.
    { pose proof (Z.div_mod (zlen (consumed s)) n ltac:(lia)).
      symmetry. apply (Z.div_unique_pos _ _ _ (zlen (pushed s) - zlen (consumed s))); lia. }
    assert (phase n (zlen (pushed s)) = phase n (zlen (consumed s))) as Hpq
      by (unfold phase; by rewrite Hq).
    rewrite Hlc, Hpq, eqb_reflx, Hl. rewrite (proj2 (Z.eqb_eq _ _)) by lia.
    split; [|done]. split; simpl; rewrite ?app_nil_r; try done.
    + exists l. done.
    + left. rewrite negb_involutive. done.
Qed.

Lemma complete_inv n s k :
  ring_inv n s → completed s ≤ k < zlen (consumed s) →
  ∃ r, set_deque_ptr (ring s) (buf_ptr (ring s) + TRB_SIZE * (k mod n)) = Ret r ∧
    buf_ptr r = buf_ptr (ring s) ∧
    ring_inv n {| ring := r; ctl := ctl s; pushed := pushed s;
                  consumed := consumed s; completed := k + 1 |}.
Proof.
  intros [Hn Hl Hp Ho He Hc Hd Hs Hf Hlk Hctl Hcs] Hk. unfold set_deque_ptr, TRB_SIZE in *.
  pose proof (Z.mod_pos_bound k n ltac:(lia)) as Hm.
  rewrite usize_sub_ok, bind_Ret by lia.
  replace (buf_ptr (ring s) + 16 * (k mod n) - buf_ptr (ring s)) with (k mod n * 16) by lia.
  rewrite Z.div_mul by lia. rewrite (next_ptr_ok n), bind_Ret by done.
  eexists. split; [done|]. split; [done|]. split; simpl; try done; try lia.
  destruct (succ_div_mod n k ltac:(lia) ltac:(lia)) as [-> _]. done.
Qed.

Lemma step_inv n s s' : ring_inv n s → step s s' → ring_inv n s'.
Proof.
  intros Hi Hs. destruct Hs as [s t r p Hp|s c o Hc|s k r Hk Hr].
  - destruct (Z.lt_ge_cases (zlen (pushed s)) (completed s + n - 1)) as [Hlt|Hge].
    + destruct (push_ring_inv n s t Hi Hlt) as (r' & p' & E & H'). rewrite Hp in E. by simplify_eq.
    + pose proof (ri_order _ _ Hi).
      rewrite (push_ring_full n s t Hi) in Hp by lia. by simplify_eq.
  - pose proof (controller_step_inv n s Hi) as H'. rewrite Hc in H'. apply H'.
  - pose proof (ri_len _ _ Hi) as Hl. rewrite Hl in Hr.
    replace (n + 1 - 1) with n in Hr by lia.
    destruct (complete_inv n s k Hi Hk) as (r' & E & _ & H'). rewrite Hr in E. by simplify_eq.
Qed.

Lemma steps_inv n s s' : rtc step s s' → ring_inv n s → ring_inv n s'.
Proof. induction 1 as [|s1 s2 s3 Hs _ IH]; [done|]. intros. apply IH. by eapply step_inv. Qed.

(** The controller alone takes everything that was pushed. *)
Lemma drain n s :
  ring_inv n s →
  ∃ s', rtc step s s' ∧ pushed s' = pushed s ∧ zlen (consumed s') = zlen (pushed s) ∧
    ring s' = ring s ∧ completed s' = completed s.
Proof.
  intros Hi. remember (Z.to_nat (2 * (zlen (pushed s) - zlen (consumed s)) +
    (if ctl_idx (ctl s) =? n then 1 else 0))) as m eqn:Hm.
  revert s Hi Hm. induction m as [m IH] using lt_wf_ind. intros s Hi Hm.
  pose proof (controller_step_inv n s Hi) as Hstep. pose proof (ri_order _ _ Hi) as Ho.
  destruct (controller_step (data (ring s)) (ctl s)) as [[c o]|] eqn:E; [|by exists s].
  destruct Hstep as [Hi' Hnone].
  edestruct (λ H, IH _ H (after_consume s c o) Hi' eq_refl) as (s' & Hr & Hp & Hc & Hrest).
  { pose proof (ri_order _ _ Hi') as Ho'. simpl in *. rewrite length_app in *.
    destruct o as [t|]; simpl in *.
    - subst m. destruct (ctl_idx c =? n), (ctl_idx (ctl s) =? n); lia.
    - destruct (Hnone eq_refl) as [E1 E2]. subst m. rewrite E1, E2, Z.eqb_refl.
      pose proof (ri_n _ _ Hi). rewrite (proj2 (Z.eqb_neq _ _)) by lia. lia. }
  exists s'. split; [|done]. eapply rtc_l; [by apply step_consume|exact Hr].
Qed.

(** C5: the controller receives exactly what the kernel pushed, in order, whatever the
    interleaving of pushes, the controller's reads and completion events. In every
    reachable state the blocks consumed are a prefix of the blocks pushed (each with
    the cycle bit of its lap); the controller can go on and consume all the others; and
    [push] never panics and refuses a block only when every slot but one holds a block
    not yet reported complete, so no unread block is ever overwritten. *)
Theorem producer_ring_delivers (addr size : Z) (r : ProducerRing) (s : system) :
  2 ≤ size ≤ 2 ^ 32 → 0 ≤ addr → addr + TRB_SIZE * size < 2 ^ 64 →
  ProducerRing_new addr size = Ret r → rtc step (start r) s →
  (zlen (consumed s) ≤ zlen (pushed s) ∧
   ∀ k t, 0 ≤ k < zlen (consumed s) → pushed s !! Z.to_nat k = Some t →
     consumed s !! Z.to_nat k = Some (set_cycle_bit t (phase (size - 1) k))) ∧
  (∃ s', rtc step s s' ∧ pushed s' = pushed s ∧ zlen (consumed s') = zlen (pushed s)) ∧
  (∀ t, ∃ r' res, push (ring s) t = Ret (r', res) ∧
     (res = inr RingIsFull ↔ zlen (pushed s) - completed s = size - 2)).
Proof.
  intros Hs Ha Hb Hnew Hr.
  pose proof (steps_inv _ _ _ Hr (ring_inv_start addr size r Hs Ha Hb Hnew)) as Hi.
  split_and!.
  - pose proof (ri_order _ _ Hi). lia.
  - apply (ri_consumed _ _ Hi).
  - destruct (drain (size - 1) s Hi) as (s' & ? & ? & ? & _). by exists s'.
  - intros t. pose proof (ri_order _ _ Hi).
    destruct (Z.lt_ge_cases (zlen (pushed s)) (completed s + (size - 1) - 1)) as [Hlt|Hge].
    + destruct (push_ring_inv _ s t Hi Hlt) as (r' & p & E & _). exists r', (inl p).
      split; [done|]. split; [done|lia].
    + exists (ring s), (inr RingIsFull). rewrite (push_ring_full _ s t Hi) by lia.
      split; [done|]. split; [lia|done].
Qed.

End rings.
Arguments ProducerRing : clear implicits.
Arguments ConsumerRing : clear implicits.
Arguments system : clear implicits.

(** ** The event ring

    Here the controller is the producer: it writes events with its own cycle state, one
    lap after the other, and stays within the slots the kernel has read. *)

Section events.
Context {TRB : Type} `{!TrbOps TRB}.

(** [on_xhc_interrupt]: reads until [pop] finds nothing new. Returns the events handed
    to [process_event], in order. *)
Definition on_xhc_interrupt (fuel : nat) (self : ConsumerRing TRB) : outcome (ConsumerRing TRB * list TRB) :=
  loop fuel (λ '(self, evs),
    '(self, o) ← pop self;
    match o with
    | None => Ret (inr (self, evs))
    | Some trb => Ret (inl (self, evs ++ [trb]))
    end) (self, []).

(** The value written back to [erdp]. *)
Definition erdp (buf : Z) (self : ConsumerRing TRB) : outcome Z :=
  o ← usize_mul (c_deque self) TRB_SIZE;
  usize_add o buf.

Record event_system := { e_ring : ConsumerRing TRB; written : list TRB; popped : list TRB }.

Definition controller_write (n : Z) (r : ConsumerRing TRB) (k : Z) (t : TRB) : ConsumerRing TRB :=
  {| c_data := <[Z.to_nat (k mod n) := set_cycle_bit t (phase n k)]> (c_data r);
     c_cycle_state := c_cycle_state r; c_deque := c_deque r |}.

Inductive estep : event_system → event_system → Prop :=
  | estep_write s t :
      zlen (written s) - zlen (popped s) < zlen (c_data (e_ring s)) →
      estep s {| e_ring := controller_write (zlen (c_data (e_ring s))) (e_ring s) (zlen (written s)) t;
                 written := written s ++ [t]; popped := popped s |}
  | estep_pop s r o :
      pop (e_ring s) = Ret (r, o) →
      estep s {| e_ring := r; written := written s; popped := popped s ++ option_list o |}.

Definition estart (size : Z) : event_system :=
  {| e_ring := ConsumerRing_new size; written := []; popped := [] |}.

Record event_inv (n : Z) (s : event_system) : Prop := {
  ei_n : 1 ≤ n < 2 ^ 32;
  ei_len : zlen (c_data (e_ring s)) = n;
  ei_order : zlen (popped s) ≤ zlen (written s) ≤ zlen (popped s) + n;
  ei_deque : c_deque (e_ring s) = zlen (popped s) mod n;
  ei_cycle : c_cycle_state (e_ring s) = phase n (zlen (popped s));
  ei_slots : ∀ k t, zlen (written s) - n ≤ k < zlen (written s) → 0 ≤ k →
    written s !! Z.to_nat k = Some t →
    c_data (e_ring s) !! Z.to_nat (k mod n) = Some (set_cycle_bit t (phase n k));
  ei_fresh : ∀ i, zlen (written s) ≤ i < n → c_data (e_ring s) !! Z.to_nat i = Some trb_default;
  ei_popped : ∀ k t, 0 ≤ k < zlen (popped s) → written s !! Z.to_nat k = Some t →
    popped s !! Z.to_nat k = Some (set_cycle_bit t (phase n k));
}.

Lemma event_inv_start size : 1 ≤ size < 2 ^ 32 → event_inv size (estart size).
Proof.
  intros Hs. split; simpl; try done; try lia.
  - rewrite length_replicate. lia.
  - intros i Hi. apply lookup_replicate_2. lia.
Qed.

Lemma event_write_inv n s t :
  event_inv n s → zlen (written s) - zlen (popped s) < n →
  event_inv n {| e_ring := controller_write n (e_ring s) (zlen (written s)) t;
                 written := written s ++ [t]; popped := popped s |}.
Proof.
  intros [Hn Hl Ho Hd Hc Hs Hf Hp] Hroom.
  assert (zlen (written s ++ [t]) = zlen (written s) + 1) as Hlen by (rewrite length_app; simpl; lia).
  pose proof (Z.mod_pos_bound (zlen (written s)) n ltac:(lia)).
  split; simpl; rewrite ?Hlen; try done; try lia.
  - rewrite length_insert. lia.
  - intros k u Hk Hk0 Hu. apply lookup_snoc in Hu as [[Hk1 Hu]|[-> ->]]; [| |done].
    + pose proof (Z.mod_pos_bound k n ltac:(lia)).
      rewrite list_lookup_insert_ne; [apply Hs; [lia|done..]|].
      intros Heq. apply Z2Nat.inj in Heq; [|lia..]. apply mod_near in Heq; lia.
    + apply list_lookup_insert_eq. lia.
  - intros i Hi. rewrite list_lookup_insert_ne; [apply Hf; lia|]. rewrite Z.mod_small by lia. lia.
  - intros k u Hk Hu. apply lookup_snoc in Hu as [[_ Hu]|[-> ->]]; [by apply Hp|lia|lia].
Qed.

(** [pop] returns the oldest event not read yet, or nothing. *)
Lemma event_pop n s :
  event_inv n s →
  ∃ r o, pop (e_ring s) = Ret (r, o) ∧
    event_inv n {| e_ring := r; written := written s; popped := popped s ++ option_list o |} ∧
    (o = None ↔ zlen (popped s) = zlen (written s)).
Proof.
  intros Hi. pose proof Hi as [Hn Hl Ho Hd Hc Hs Hf Hp].
  pose proof (Z.mod_pos_bound (zlen (popped s)) n ltac:(lia)) as Hm.
  unfold pop. rewrite Hd.
  destruct (Z.lt_ge_cases (zlen (popped s)) (zlen (written s))) as [Hlt|Hge].
  - destruct (lookup_lt_is_Some_2 (written s) (Z.to_nat (zlen (popped s)))) as [t Ht]; [lia|].
    rewrite (vget_ok _ _ (set_cycle_bit t (phase n (zlen (popped s))))), bind_Ret
      by (done || lia || by apply Hs; [lia..|]).
    rewrite cycle_bit_set, Hc, eqb_reflx. cbn [negb]. rewrite usize_add_ok, bind_Ret by lia. rewrite Hl.
    set (t' := set_cycle_bit t (phase n (zlen (popped s)))).
    assert (zlen (popped s ++ [t']) = zlen (popped s) + 1) as Hlen by (rewrite length_app; simpl; lia).
    destruct (succ_div_mod n (zlen (popped s)) ltac:(lia) ltac:(lia)) as [Hsm _].
    pose proof (phase_succ n (zlen (popped s)) ltac:(lia) ltac:(lia)) as Hph.
    assert (∀ k u, 0 ≤ k < zlen (popped s) + 1 → written s !! Z.to_nat k = Some u →
      (popped s ++ [t']) !! Z.to_nat k = Some (set_cycle_bit u (phase n k))) as Hp'.
    { intros k u Hk Hu. destruct (Z.lt_ge_cases k (zlen (popped s))).
      - rewrite lookup_app_l by lia. apply Hp; [lia|done].
      - assert (k = zlen (popped s)) as -> by lia.
        rewrite lookup_app_r, Nat2Z.id, Nat.sub_diag by lia. simpl. rewrite Ht in Hu. by simplify_eq. }
    destruct (zlen (popped s) mod n + 1 =? n); eexists _, (Some t'); (split; [done|]); (split; [|split; [done|lia]]);
      split; simpl; rewrite ?Hlen, ?Hsm, ?Hph; done || lia.
  - assert (∃ u, c_data (e_ring s) !! Z.to_nat (zlen (popped s) mod n) = Some u ∧
      cycle_bit u = negb (phase n (zlen (popped s)))) as (u & Hu & Hcu).
    { destruct (Z.lt_ge_cases (zlen (popped s)) n).
      - exists trb_default. rewrite Z.mod_small by lia. split; [apply Hf; lia|].
        unfold phase. rewrite cycle_bit_default, Z.div_small by lia. done.
      - destruct (lookup_lt_is_Some_2 (written s) (Z.to_nat (zlen (popped s) - n))) as [t Ht]; [lia|].
        specialize (Hs (zlen (popped s) - n) t ltac:(lia) ltac:(lia) Ht).
        pose proof (phase_lap n (zlen (popped s) - n) ltac:(lia)) as Hph.
        replace (zlen (popped s) - n + n) with (zlen (popped s)) in Hph by lia.
        replace ((zlen (popped s) - n) mod n) with (zlen (popped s) mod n) in Hs
          by (replace (zlen (popped s) - n) with (zlen (popped s) + (-1) * n) by lia; by rewrite Z.mod_add by lia).
        eexists. split; [exact Hs|]. by rewrite cycle_bit_set, Hph, negb_involutive. }
    rewrite (vget_ok _ _ u), bind_Ret by (done || lia). rewrite Hcu, Hc.
    eexists _, None. split; [by destruct (phase n (zlen (popped s)))|].
    simpl. rewrite app_nil_r. split; [by destruct s|]. split; [lia|done].
Qed.

Lemma esteps_inv n s s' : rtc estep s s' → event_inv n s → event_inv n s'.
Proof.
  induction 1 as [|s1 s2 s3 Hs _ IH]; [done|]. intros Hi. apply IH.
  destruct Hs as [s t Hroom|s r o Hp].
  - rewrite (ei_len _ _ Hi) in *. by apply event_write_inv.
  - destruct (event_pop n s Hi) as (r' & o' & E & Hi' & _). rewrite Hp in E. by simplify_eq.
Qed.

Lemma interrupt_drains n s :
  event_inv n s →
  ∃ r evs, on_xhc_interrupt (S (Z.to_nat n)) (e_ring s) = Ret (r, evs) ∧
    event_inv n {| e_ring := r; written := written s; popped := popped s ++ evs |} ∧
    zlen (popped s ++ evs) = zlen (written s).
Proof.
  intros Hi. unfold on_xhc_interrupt.
  destruct (loop_total
    (λ st : ConsumerRing TRB * list TRB,
      event_inv n {| e_ring := st.1; written := written s; popped := popped s ++ st.2 |})
    (λ st : ConsumerRing TRB * list TRB,
      event_inv n {| e_ring := st.1; written := written s; popped := popped s ++ st.2 |} ∧
      zlen (popped s ++ st.2) = zlen (written s))
    (λ st, Z.to_nat (zlen (written s) - zlen (popped s ++ st.2)))
    (λ '(self, evs), '(self, o) ← pop self;
      match o with None => Ret (inr (self, evs)) | Some trb => Ret (inl (self, evs ++ [trb])) end)
    (S (Z.to_nat n)) (e_ring s, [])) as ([r evs] & -> & Hi' & Hlen).
  - intros [r evs] Hst. simpl in Hst.
    destruct (event_pop n _ Hst) as (r' & o & E & Hi' & Ho). simpl in E, Hi', Ho. rewrite E, bind_Ret.
    pose proof (ei_order _ _ Hi') as Hord. simpl in Hord. rewrite <- app_assoc in Hi', Hord.
    destruct o as [t|]; eexists; (split; [done|]); simpl in *.
    + split; [done|]. rewrite !length_app in *. simpl in *. lia.
    + rewrite app_nil_r in Hi'. split; [done|]. by apply Ho.
  - simpl. rewrite app_nil_r. by destruct s.
  - simpl. rewrite app_nil_r. pose proof (ei_order _ _ Hi). lia.
  - by exists r, evs.
Qed.

(** The event ring loses and repeats nothing. Whenever the controller interrupts,
    after any interleaving of its writes and the kernel's reads, [on_xhc_interrupt]
    terminates without a panic and hands on exactly the events written and not yet
    read, in the order the controller wrote them. *)
Lemma event_ring_in_order (size : Z) (s : event_system) :
  1 ≤ size < 2 ^ 32 → rtc estep (estart size) s →
  ∃ r evs, on_xhc_interrupt (S (Z.to_nat size)) (e_ring s) = Ret (r, evs) ∧
    zlen evs = zlen (written s) - zlen (popped s) ∧
    ∀ k t, zlen (popped s) ≤ k → written s !! Z.to_nat k = Some t →
      evs !! Z.to_nat (k - zlen (popped s)) = Some (set_cycle_bit t (phase size k)).
Proof.
  intros Hs Hr. pose proof (esteps_inv _ _ _ Hr (event_inv_start size Hs)) as Hi.
  destruct (interrupt_drains size s Hi) as (r & evs & E & Hi' & Hlen).
  exists r, evs. split; [done|]. rewrite length_app in Hlen. split; [lia|].
  intros k t Hk Ht. apply lookup_lt_Some in Ht as Hlt.
  pose proof (ei_popped _ _ Hi' k t) as Hev. simpl in Hev. rewrite length_app in Hev.
  rewrite lookup_app_r in Hev by lia. rewrite <- Hev; [|lia|done]. f_equal. lia.
Qed.

End events.
Arguments event_system : clear implicits.

(** ** The command ring *)

Section commands.
(** [S] is the type of the one-shot channels' senders. *)
Context {TRB : Type} `{!TrbOps TRB} {S : Type}.

Record CommandRing := {
  cmd_ring : ProducerRing TRB;
  listener : gmap Z S;
}.

(** [init_command_ring]; its [size] argument is not used. [addr] is where the ring is
    allocated; programming [crcr] is device I/O. *)
Definition init_command_ring (size addr : Z) : outcome CommandRing :=
  ring ← ProducerRing_new addr 32;
  Ret {| cmd_ring := ring; listener := ∅ |}.

(** [send] is the sender of the channel the call creates; [Ok] hands out its receiver. *)
Definition push_command (self : CommandRing) (trb : TRB) (send : S)
    : outcome (CommandRing * (S + XhciError)) :=
  '(ring, r) ← push (cmd_ring self) trb;
  match r with
  | inr e => Ret ({| cmd_ring := ring; listener := listener self |}, inr e)
  | inl ptr => Ret ({| cmd_ring := ring; listener := <[ptr := send]> (listener self) |}, inl send)
  end.

(** The completion of the command at [ptr] goes to the sender it returns. *)
Definition on_command_completion (self : CommandRing) (ptr : Z) : CommandRing * option S :=
  ({| cmd_ring := cmd_ring self; listener := delete ptr (listener self) |}, listener self !! ptr).

Inductive cmd_op := Command (trb : TRB) (send : S) | Completion (ptr : Z).

(** Runs operations and collects the answers of the [push_command] calls. *)
Fixpoint run_commands (c : CommandRing) (os : list cmd_op) : outcome (list (S + XhciError)) :=
  match os with
  | [] => Ret []
  | Command t s :: os =>
      '(c, r) ← push_command c t s;
      rs ← run_commands c os;
      Ret (r :: rs)
  | Completion p :: os => run_commands (on_command_completion c p).1 os
  end.

Definition senders (os : list cmd_op) : list S :=
  omap (λ o, match o with Command _ s => Some s | _ => None end) os.

(** The first 30 commands are accepted, all later ones refused. *)
Definition answers (ss : list S) (room : nat) : list (S + XhciError) :=
  (inl <$> take room ss) ++ replicate (length ss - room) (inr RingIsFull).

(** The ring as a system in which nothing is ever reported complete. *)
Definition as_system (c : CommandRing) (ps : list TRB) : system TRB :=
  {| ring := cmd_ring c; ctl := {| ctl_idx := 0; ctl_ccs := true |};
     pushed := ps; consumed := []; completed := 0 |}.

Lemma run_commands_ok os c ps :
  ring_inv 31 (as_system c ps) →
  run_commands c os = Ret (answers (senders os) (30 - length ps)).
Proof.
  revert c ps. induction os as [|[t s|p] os IH]; intros c ps Hi; simpl.
  - unfold answers. by rewrite take_nil.
  - pose proof (ri_order _ _ Hi) as Ho. simpl in Ho. unfold push_command.
    destruct (Z.lt_ge_cases (zlen ps) 30) as [Hlt|Hge].
    + destruct (push_ring_inv 31 (as_system c ps) t Hi) as (r & p & E & Hi'); [simpl; lia|].
      simpl in E. rewrite E, !bind_Ret.
      rewrite (IH {| cmd_ring := r; listener := <[p:=s]> (listener c) |} (ps ++ [t]) Hi'), bind_Ret.
      rewrite length_app. cbn [length]. unfold answers.
      replace (30 - length ps)%nat with (Datatypes.S (30 - (length ps + 1))) by lia.
      done.
    + pose proof (push_ring_full 31 (as_system c ps) t Hi) as E. simpl in E.
      rewrite E by lia. rewrite !bind_Ret.
      rewrite (IH {| cmd_ring := cmd_ring c; listener := listener c |} ps Hi), bind_Ret.
      unfold answers. replace (30 - length ps)%nat with 0%nat by lia. simpl.
      by rewrite Nat.sub_0_r.
  - by apply IH.
Qed.

(** The command ring dies after 30 commands. [on_command_completion] never moves the
    ring's dequeue pointer, so, whatever completions arrive in between, exactly the
    first 30 commands of a session are accepted and every later one is answered
    [RingIsFull]. *)
Lemma command_ring_exhausts (size addr : Z) (c : CommandRing) (os : list cmd_op) :
  0 ≤ addr → addr + TRB_SIZE * 32 < 2 ^ 64 → init_command_ring size addr = Ret c →
  run_commands c os = Ret (answers (senders os) 30).
Proof.
  intros Ha Hb. unfold init_command_ring. intros H. inv_outcome. subst c.
  apply (run_commands_ok os _ []).
  by apply (ring_inv_start addr 32 a).
Qed.

(** A completion reaches the sender of its command, once. *)
Lemma command_completion_routed c t s c' s' :
  push_command c t s = Ret (c', inl s') →
  ∃ p, listener c' = <[p := s]> (listener c) ∧
    (on_command_completion c' p).2 = Some s ∧
    (on_command_completion (on_command_completion c' p).1 p).2 = None.
Proof.
  unfold push_command. intros H. inv_outcome. destruct a as [r [p|e]]; simplify_eq.
  exists p. split; [done|]. simpl. split; [by rewrite lookup_insert_eq|].
  by rewrite lookup_delete_eq.
Qed.

End commands.
Arguments CommandRing : clear implicits.
Arguments cmd_op : clear implicits.

(** ** A concrete block: 128 bits, cycle bit 96, toggle bit 97, type in bits 106 to 111 *)

#[export] Program Instance Z_TrbOps : TrbOps Z := {|
  trb_default := 0;
  trb_link a := Z.lor (a mod 2 ^ 64) (Z.lor (Z.shiftl 1 97) (Z.shiftl 6 106));
  cycle_bit t := Z.testbit t 96;
  set_cycle_bit t b := if b then Z.setbit t 96 else Z.clearbit t 96;
|}.
Next Obligation. done. Qed.
Next Obligation.
  intros a. cbn beta. rewrite Z.lor_spec, Z.mod_pow2_bits_high by lia. reflexivity.
Qed.
Next Obligation.
  intros t [|]; cbn beta iota; [apply Z.setbit_eq; lia|apply Z.clearbit_eq].
Qed.

Definition demo_ring : ProducerRing Z :=
  {| data := [0; 0; trb_link 0x1000]; cycle_state := true; enque := 0; deque := 0;
     buf_ptr := 0x1000 |}.

(** After a push the ring holds the block with its cycle bit. *)
Definition demo_ring_1 : ProducerRing Z :=
  {| data := [2 ^ 96 + 5; 0; trb_link 0x1000]; cycle_state := true; enque := 1; deque := 0;
     buf_ptr := 0x1000 |}.

Definition demo_system : system Z :=
  {| ring := demo_ring_1; ctl := {| ctl_idx := 1; ctl_ccs := true |};
     pushed := [5]; consumed := [2 ^ 96 + 5]; completed := 0 |}.

Lemma demo_system_reachable : rtc step (start demo_ring) demo_system.
Proof.
  eapply rtc_l; [by apply (step_push (start demo_ring) 5 demo_ring_1 0x1000)|].
  eapply rtc_l; [by apply (step_consume _ {| ctl_idx := 1; ctl_ccs := true |} (Some (2 ^ 96 + 5)))|].
  apply rtc_refl.
Qed.

Lemma producer_ring_delivers_witness :
  ∃ s', rtc step demo_system s' ∧ pushed s' = [5] ∧ zlen (consumed s') = 1.
Proof.
  apply (producer_ring_delivers 0x1000 3 demo_ring demo_system);
    [lia|lia|vm_compute; reflexivity|vm_compute; reflexivity|exact demo_system_reachable].
Defined.

Lemma command_ring_exhausts_witness :
  ∃ c : CommandRing Z nat, init_command_ring 32 0x1000 = Ret c ∧
    run_commands c ((λ i, Command (TRB := Z) 7 i) <$> seq 0 32) =
      Ret ((inl <$> seq 0 30) ++ [inr RingIsFull; inr RingIsFull]).
Proof.
  eexists. split; [reflexivity|].
  rewrite (command_ring_exhausts 32 0x1000);
    [vm_compute; reflexivity|lia|vm_compute; reflexivity|reflexivity].
Defined.

(** Two events written, one read. *)
Definition demo_events : event_system Z :=
  {| e_ring := {| c_data := [2 ^ 96 + 5; 2 ^ 96 + 9]; c_cycle_state := true; c_deque := 1 |};
     written := [5; 9]; popped := [2 ^ 96 + 5] |}.

Lemma demo_events_reachable : rtc estep (estart 2) demo_events.
Proof.
  eapply rtc_l; [by apply (estep_write (estart 2) 5)|].
  eapply rtc_l; [by apply (estep_write _ 9)|].
  eapply rtc_l; [eapply estep_pop; reflexivity|]. apply rtc_refl.
Qed.

Lemma event_ring_in_order_witness :
  ∃ r evs, on_xhc_interrupt 3 (e_ring demo_events) = Ret (r, evs) ∧ zlen evs = 1.
Proof.
  destruct (event_ring_in_order 2 demo_events) as (r & evs & E & Hl & _);
    [lia|exact demo_events_reachable|].
  exists r, evs. split; [exact E|exact Hl].
Defined.
