(* ===== verification/Dma.v ===== *)
(** Memory shared with the xHCI controller: the buffers usb/ring/ring.rs, usb/ring/event.rs,
    usb/device.rs and the class drivers take from the heap and give the controller's
    addresses of. The controller asks more of them than their layouts do, and transfers are
    not bounded by the buffers; what holds comes from the heap's size classes. *)

From S2P Require Import Prelude FrameAlloc ObjectAlloc Rings.

(** A buffer by its use: rings and tables with their number of entries, a device or input
    context with the size of its type. *)
Inductive dma_buffer :=
  | TrbRing (size : Z)
  | SegmentTable
  | PointerTable (len : Z)
  | ContextBuf (size_of : Z)
  | MouseBuf
  | KeyBuf.

(** [#[repr(C)]] sizes of [MouseReport] and [KeyReport]. *)
Definition size_of_MouseReport : Z := 3.
Definition size_of_KeyReport : Z := 8.

(** The length both [subscribe_once] functions put into the transfer request block. *)
Definition trb_transfer_length : Z := 8.

(** What the heap is asked for. *)
Definition buffer_layout (b : dma_buffer) : Layout :=
  match b with
  | TrbRing size => {| layout_size := size * TRB_SIZE; layout_align := 16 |}
  | SegmentTable => {| layout_size := 16; layout_align := 8 |}
  | PointerTable len => {| layout_size := len * 8; layout_align := 64 |}
  | ContextBuf size_of => {| layout_size := size_of; layout_align := 64 |}
  | MouseBuf => {| layout_size := size_of_MouseReport; layout_align := 1 |}
  | KeyBuf => {| layout_size := size_of_KeyReport; layout_align := 1 |}
  end.

(** How many bytes the controller reads or writes. *)
Definition buffer_extent (b : dma_buffer) : Z :=
  match b with
  | MouseBuf | KeyBuf => trb_transfer_length
  | _ => layout_size (buffer_layout b)
  end.

(** The sizes the heap serves from its size classes. *)
Definition buffer_fits (b : dma_buffer) : Prop := 0 < layout_size (buffer_layout b) < 2048.

(** Whether an allocation is apart from the [len] bytes at [a]. *)
Definition clear_of (a len : Z) (y : Z * Layout) : Prop := a + len ≤ y.1 ∨ y.1 + layout_size y.2 ≤ a.

(** The whole block behind a small allocation is its own. *)
Lemma block_apart s gs L i a l y j :
  heap_inv s gs L → Forall (λ al, layout_ok al.2 ∧ layout_size al.2 ≠ 2048 ∧ al.1 mod layout_align al.2 = 0) L →
  layout_size l < 2048 → L !! i = Some (a, l) → L !! j = Some y → i ≠ j →
  ∃ sz, sz ∈ BLOCK_SZ ∧ layout_size l < sz ∧ clear_of a sz y.
Proof.
  intros HI HL Hl Hi Hj Hne. destruct y as [a' l']. destruct (pick_two L i j _ _ Hi Hj Hne) as [L' HP].
  apply (heap_inv_perm _ _ _ _ HP) in HI. rewrite HP in HL.
  apply list.Forall_cons in HL as [(O1 & _) [(O2 & N2 & _) _]%list.Forall_cons]. simpl in *.
  destruct (class_of_cases l) as [[c C1]|?]; [apply O1| |lia].
  destruct (class_of_cases l') as [[c' C2]|[?|B2]]; [apply O2| |done|].
  - destruct (small_small_apart _ _ _ _ _ _ _ _ _ HI C1 C2) as (sz & sz' & ?%list_elem_of_lookup_2 & ? & _ & ? & ?).
    exists sz. split; [done|]. split; [done|]. unfold clear_of. cbn. lia.
  - destruct (small_big_apart _ _ _ _ _ _ a' l' HI C1) as (sz & ?%list_elem_of_lookup_2 & ? & ?); [by left|done|].
    by exists sz.
Qed.

Lemma block_place s gs L i a l :
  heap_inv s gs L → 0 ≤ layout_size l < 2048 → L !! i = Some (a, l) →
  ∃ sz, sz ∈ BLOCK_SZ ∧ layout_size l < sz ∧ a mod sz = 0.
Proof.
  intros HI Hl Hi. apply list_elem_of_lookup_2, elem_of_Permutation in Hi as [L' HP].
  apply (heap_inv_perm _ _ _ _ HP) in HI. destruct (class_of_cases l) as [[c C]|?]; [lia| |lia].
  destruct (small_extent _ _ _ _ _ _ HI C) as (sz & g & ?%list_elem_of_lookup_2 & _ & ? & ? & _). by exists sz.
Qed.

Lemma block_64 sz a : sz ∈ BLOCK_SZ → a mod sz = 0 → a mod 64 = 0.
Proof.
  intros Hsz Ha. assert ((64 | sz)) as [k ->].
  { unfold BLOCK_SZ in Hsz. repeat (apply elem_of_cons in Hsz as [->|Hsz]; [eapply Z.mod_divide; [done|reflexivity]|]).
    by apply elem_of_nil in Hsz. }
  apply Z.mod_divide in Ha as [q ->]; [|apply block_size_divides in Hsz; lia]. rewrite Z.mul_assoc. by apply Z.mod_mul.
Qed.

Lemma extent_in_block b sz :
  buffer_fits b → sz ∈ BLOCK_SZ → layout_size (buffer_layout b) < sz → 0 < buffer_extent b ≤ sz.
Proof.
  intros [H1 H2] Hsz Hlt. apply block_size_divides in Hsz as [Hr _].
  destruct b; cbn [buffer_extent] in *; unfold trb_transfer_length; lia.
Qed.

(** C38: what the controller uses of a buffer is safe. After any history of the heap, a ring,
    segment table, pointer table, context or report buffer is 64-byte aligned and does
    not cross a page boundary, as the controller requires (though only some of the layouts ask
    for it), and the bytes the controller accesses, which for a mouse report are more than the
    buffer has, overlap no other live allocation. *)
Theorem dma_buffers_safe s0 gs0 s L i a b :
  heap_inv s0 gs0 [] → rtc hstep (s0, []) (s, L) → buffer_fits b → L !! i = Some (a, buffer_layout b) →
  a mod 64 = 0 ∧ a / BYTES_PER_FRAME = (a + buffer_extent b - 1) / BYTES_PER_FRAME ∧
  ∀ j y, L !! j = Some y → j ≠ i → clear_of a (buffer_extent b) y.
Proof.
  intros HI0 Hrtc Hb Hi. destruct (history_ok s0 gs0 (s, L) HI0 Hrtc) as [[gs HI] HL]. cbn [fst snd] in *.
  pose proof Hb as [Hb1 Hb2].
  destruct (block_place s gs L i a (buffer_layout b) HI) as (sz & Hsz & Hlt & Ha); [lia|done|].
  split; [by eapply block_64|]. split.
  - pose proof (extent_in_block b sz Hb Hsz Hlt). destruct (object_in_frame sz a Hsz Ha) as [H1 H2].
    apply Z.div_unique with (a + buffer_extent b - 1 - BYTES_PER_FRAME * (a / BYTES_PER_FRAME)); [left|ring].
    assert (BYTES_PER_FRAME = 4096) as HB by done. rewrite HB in *. lia.
  - intros j y Hj Hne. destruct (block_apart s gs L i a (buffer_layout b) y j HI HL) as (sz' & Hsz' & Hlt' & Hc); [done..|].
    pose proof (extent_in_block b sz' Hb Hsz' Hlt'). unfold clear_of in *. lia.
Qed.

(** ** A mouse report and the event ring, side by side *)

Definition dma_after (bs : list dma_buffer) : Heap * list (Z * Layout) :=
  foldl (λ st b, match alloc st.1 (buffer_layout b) with
                 | Ret (s, a) => (s, (a, buffer_layout b) :: st.2) | _ => st end) (demo_heap, []) bs.

Lemma dma_layout_ring : layout_ok (buffer_layout (TrbRing 32)).
Proof. split; [done|]. split; [done|by exists 256]. Qed.

Lemma dma_layout_mouse : layout_ok (buffer_layout MouseBuf).
Proof. split; [done|]. split; [done|by exists 4096]. Qed.

Lemma dma_after_steps :
  ∃ a1 a2, alloc demo_heap (buffer_layout (TrbRing 32)) = Ret ((dma_after [TrbRing 32]).1, a1) ∧
    alloc (dma_after [TrbRing 32]).1 (buffer_layout MouseBuf) = Ret ((dma_after [TrbRing 32; MouseBuf]).1, a2) ∧
    a1 ≠ null ∧ a2 ≠ null.
Proof. do 2 eexists. split; [vm_compute; reflexivity|]. split; [vm_compute; reflexivity|]. by split. Qed.

Lemma dma_buffers_safe_witness :
  ∃ a1 a2 s, rtc hstep (demo_heap, []) (s, [(a2, buffer_layout MouseBuf); (a1, buffer_layout (TrbRing 32))]) ∧
    clear_of a2 8 (a1, buffer_layout (TrbRing 32)).
Proof.
  destruct demo_heap_inv as [gs HI]. destruct dma_after_steps as (a1 & a2 & E1 & E2 & N1 & N2).
  assert (rtc hstep (demo_heap, []) ((dma_after [TrbRing 32; MouseBuf]).1,
    [(a2, buffer_layout MouseBuf); (a1, buffer_layout (TrbRing 32))])) as Hr.
  { eapply rtc_l; [apply (hstep_alloc demo_heap [] (buffer_layout (TrbRing 32)) (dma_after [TrbRing 32]).1 a1); [|exact E1|exact N1]|].
    { exact dma_layout_ring. }
    eapply rtc_l; [apply (hstep_alloc (dma_after [TrbRing 32]).1 [(a1, buffer_layout (TrbRing 32))] (buffer_layout MouseBuf)
      (dma_after [TrbRing 32; MouseBuf]).1 a2); [|exact E2|exact N2]|reflexivity].
    exact dma_layout_mouse. }
  exists a1, a2, (dma_after [TrbRing 32; MouseBuf]).1. split; [exact Hr|].
  destruct (dma_buffers_safe demo_heap gs _ _ 0 a2 MouseBuf HI Hr) as (_ & _ & H); [split; reflexivity|reflexivity|].
  apply (H 1%nat); [reflexivity|lia].
Defined.
