(* ===== verification/Bitfield.v ===== *)
(** The accessors the bitfield crate generates for a word: [field, set_field: msb, lsb]
    and the single-bit [flag, set_flag: bit]. The crate is not part of the repository, so
    its clients are verified against this interface, which states what its documentation
    says of the accessors; [word_bitfield] shows that it can be implemented. *)

From S2P Require Import Prelude.

Class Bitfield := {
  bit_range : Z → Z → Z → Z;
  set_bit_range : Z → Z → Z → Z → Z;
  bf_bit : Z → Z → bool;
  bf_set_bit : Z → Z → bool → Z;
  bit_range_spec w msb lsb :
    0 ≤ lsb ≤ msb → bit_range w msb lsb = (w / 2 ^ lsb) mod 2 ^ (msb - lsb + 1);
  set_bit_range_spec w msb lsb v i :
    0 ≤ lsb ≤ msb → 0 ≤ v < 2 ^ (msb - lsb + 1) → 0 ≤ i →
    Z.testbit (set_bit_range w msb lsb v) i =
    if (lsb <=? i) && (i <=? msb) then Z.testbit v (i - lsb) else Z.testbit w i;
  bf_bit_spec w n : 0 ≤ n → bf_bit w n = Z.testbit w n;
  bf_set_bit_spec w n b i :
    0 ≤ n → 0 ≤ i → Z.testbit (bf_set_bit w n b) i = if i =? n then b else Z.testbit w i;
}.

(** The field and the rest of the word, put together by bit operations. *)
Definition word_set_range (w msb lsb v : Z) : Z :=
  Z.lor (Z.ldiff w (Z.shiftl (Z.ones (msb - lsb + 1)) lsb)) (Z.shiftl v lsb).

Lemma word_set_range_spec w msb lsb v i :
  0 ≤ lsb ≤ msb → 0 ≤ v < 2 ^ (msb - lsb + 1) → 0 ≤ i →
  Z.testbit (word_set_range w msb lsb v) i =
  if (lsb <=? i) && (i <=? msb) then Z.testbit v (i - lsb) else Z.testbit w i.
Proof.
  intros Hl Hv Hi. unfold word_set_range.
  rewrite Z.lor_spec, Z.ldiff_spec, !Z.shiftl_spec by lia.
  destruct (Z.leb_spec lsb i) as [H1|H1]; simpl.
  - rewrite Z.testbit_ones by lia. rewrite (proj2 (Z.leb_le 0 (i - lsb))) by lia. simpl.
    destruct (Z.leb_spec i msb) as [H2|H2].
    + rewrite (proj2 (Z.ltb_lt _ _)) by lia. by rewrite andb_false_r.
    + rewrite (proj2 (Z.ltb_ge (i - lsb) (msb - lsb + 1))) by lia. rewrite andb_true_r.
      rewrite <- (Z.mod_small v (2 ^ (msb - lsb + 1))) by done.
      by rewrite Z.mod_pow2_bits_high, orb_false_r by lia.
  - rewrite !(Z.testbit_neg_r _ (i - lsb)) by lia. by rewrite andb_true_r, orb_false_r.
Qed.

#[export, refine] Instance word_bitfield : Bitfield := {|
  bit_range w msb lsb := Z.land (Z.shiftr w lsb) (Z.ones (msb - lsb + 1));
  set_bit_range := word_set_range;
  bf_bit w n := Z.testbit w n;
  bf_set_bit w n b := if b then Z.setbit w n else Z.clearbit w n;
|}.
Proof.
  - intros w msb lsb H. by rewrite Z.land_ones, Z.shiftr_div_pow2 by lia.
  - intros. by apply word_set_range_spec.
  - done.
  - intros w n b i Hn Hi. destruct (Z.eqb_spec i n) as [->|Hne], b.
    + by apply Z.setbit_eq.
    + by apply Z.clearbit_eq.
    + by apply Z.setbit_neq.
    + apply Z.clearbit_neq; lia.
Defined.

(** ** Fields that were set *)

Section fields.
Context `{!Bitfield}.

Lemma bit_range_bits w msb lsb i :
  0 ≤ lsb ≤ msb → 0 ≤ i →
  Z.testbit (bit_range w msb lsb) i = (i <=? msb - lsb) && Z.testbit w (i + lsb).
Proof.
  intros Hl Hi. rewrite bit_range_spec by done. destruct (Z.leb_spec i (msb - lsb)); simpl.
  - by rewrite Z.mod_pow2_bits_low, Z.div_pow2_bits by lia.
  - by apply Z.mod_pow2_bits_high; lia.
Qed.

Lemma bit_range_bound w msb lsb : 0 ≤ lsb ≤ msb → 0 ≤ bit_range w msb lsb < 2 ^ (msb - lsb + 1).
Proof. intros. rewrite bit_range_spec by done. apply Z.mod_pos_bound. lia. Qed.

Lemma get_set_same w msb lsb v :
  0 ≤ lsb ≤ msb → 0 ≤ v < 2 ^ (msb - lsb + 1) → bit_range (set_bit_range w msb lsb v) msb lsb = v.
Proof.
  intros Hl Hv. apply Z.bits_inj'. intros i Hi.
  rewrite bit_range_bits, set_bit_range_spec by lia. rewrite (proj2 (Z.leb_le lsb _)) by lia. simpl.
  destruct (Z.leb_spec i (msb - lsb)); simpl.
  - rewrite (proj2 (Z.leb_le _ _)) by lia. f_equal. lia.
  - rewrite <- (Z.mod_small v (2 ^ (msb - lsb + 1))) by done. by rewrite Z.mod_pow2_bits_high by lia.
Qed.

Lemma get_set_other w msb lsb v m l :
  0 ≤ l ≤ m → 0 ≤ lsb ≤ msb → 0 ≤ v < 2 ^ (msb - lsb + 1) → m < lsb ∨ msb < l →
  bit_range (set_bit_range w msb lsb v) m l = bit_range w m l.
Proof.
  intros Hl Hl' Hv Hd. apply Z.bits_inj'. intros i Hi. rewrite !bit_range_bits by lia.
  destruct (Z.leb_spec i (m - l)); simpl; [|done]. rewrite set_bit_range_spec by lia.
  by destruct (Z.leb_spec lsb (i + l)), (Z.leb_spec (i + l) msb); simpl; [lia|..].
Qed.

Lemma get_set_bit w n b m l :
  0 ≤ l ≤ m → 0 ≤ n → n < l ∨ m < n → bit_range (bf_set_bit w n b) m l = bit_range w m l.
Proof.
  intros Hl Hn Hd. apply Z.bits_inj'. intros i Hi. rewrite !bit_range_bits by lia.
  destruct (Z.leb_spec i (m - l)); simpl; [|done]. rewrite bf_set_bit_spec by lia.
  by rewrite (proj2 (Z.eqb_neq _ _)) by lia.
Qed.

Lemma bit_set_same w n b : 0 ≤ n → bf_bit (bf_set_bit w n b) n = b.
Proof. intros. by rewrite bf_bit_spec, bf_set_bit_spec, Z.eqb_refl. Qed.

Lemma bit_set_other w n b k : 0 ≤ n → 0 ≤ k → k ≠ n → bf_bit (bf_set_bit w n b) k = bf_bit w k.
Proof. intros. rewrite !bf_bit_spec, bf_set_bit_spec by done. by rewrite (proj2 (Z.eqb_neq _ _)). Qed.

Lemma bit_set_range w msb lsb v k :
  0 ≤ lsb ≤ msb → 0 ≤ v < 2 ^ (msb - lsb + 1) → 0 ≤ k → k < lsb ∨ msb < k →
  bf_bit (set_bit_range w msb lsb v) k = bf_bit w k.
Proof.
  intros Hl Hv Hk Hd. rewrite !bf_bit_spec, set_bit_range_spec by done.
  by destruct (Z.leb_spec lsb k), (Z.leb_spec k msb); simpl; [lia|..].
Qed.

Lemma bit_range_single w n : 0 ≤ n → bit_range w n n = Z.b2z (bf_bit w n).
Proof.
  intros Hn. apply Z.bits_inj'. intros i Hi. rewrite bit_range_bits, bf_bit_spec by lia.
  destruct (Z.leb_spec i (n - n)); simpl.
  - replace i with 0 by lia. by rewrite Z.b2z_bit0.
  - destruct (Z.testbit w n); simpl; [|by rewrite Z.bits_0]. by rewrite (Z.bits_above_log2 1) by (simpl; lia).
Qed.

(** Setting fields below bit [n] keeps a word within [n] bits. *)
Lemma bits_bound a n : 0 ≤ n → (∀ i, n ≤ i → Z.testbit a i = false) → 0 ≤ a < 2 ^ n.
Proof.
  intros Hn Hb. replace a with (a mod 2 ^ n); [apply Z.mod_pos_bound; lia|].
  apply Z.bits_inj'. intros i Hi. destruct (Z.lt_ge_cases i n).
  - by rewrite Z.mod_pow2_bits_low by lia.
  - by rewrite Z.mod_pow2_bits_high, Hb by lia.
Qed.

Lemma bound_high a n i : 0 ≤ n ≤ i → 0 ≤ a < 2 ^ n → Z.testbit a i = false.
Proof.
  intros Hn Ha. rewrite <- (Z.mod_small a (2 ^ n)) by done. by apply Z.mod_pow2_bits_high; lia.
Qed.

Lemma set_bit_range_bound w msb lsb v n :
  0 ≤ lsb ≤ msb → msb < n → 0 ≤ v < 2 ^ (msb - lsb + 1) → 0 ≤ w < 2 ^ n →
  0 ≤ set_bit_range w msb lsb v < 2 ^ n.
Proof.
  intros Hl Hn Hv Hw. apply bits_bound; [lia|]. intros i Hi. rewrite set_bit_range_spec by lia.
  rewrite (proj2 (Z.leb_gt i msb)) by lia. rewrite andb_false_r. apply (bound_high _ n); [lia|done].
Qed.

Lemma bf_set_bit_bound w k b n : 0 ≤ k < n → 0 ≤ w < 2 ^ n → 0 ≤ bf_set_bit w k b < 2 ^ n.
Proof.
  intros Hk Hw. apply bits_bound; [lia|]. intros i Hi. rewrite bf_set_bit_spec by lia.
  rewrite (proj2 (Z.eqb_neq i k)) by lia. apply (bound_high _ n); [lia|done].
Qed.

End fields.

(** A field or flag of a word built by setters: skips the setters of other fields. *)

Ltac bf_read :=
  repeat first
    [ rewrite get_set_bit by lia | rewrite get_set_other by (simpl; lia)
    | rewrite bit_set_other by lia | rewrite bit_set_range by (simpl; lia) ];
  first [ rewrite get_set_same by (simpl; lia) | rewrite bit_set_same by lia | idtac ].
