(* ===== verification/Pci.v ===== *)
(** pci.rs: PCI configuration space through the two I/O ports, the recursive scan of the
    buses, base address registers and message-signalled interrupts.

    The configuration space is the devices' own: [cfg_read] and [cfg_write] are
    parameters, and nothing is assumed of what is read, in particular not that the bridges
    form a tree. Printing is left out. *)

From S2P Require Import Prelude Bitfield.

Inductive PCIError := DevicesAreFull.

Record PCIDevice := { bus : Z; device : Z; function : Z }.

#[export] Instance PCIDevice_eq_dec : EqDecision PCIDevice.
Proof. solve_decision. Defined.

Definition PCIDevice_new (bus device function : Z) : PCIDevice :=
  {| bus := bus; device := device; function := function |}.

Record ClassCode := { base : Z; sub : Z; interface : Z }.

Definition matches (self : ClassCode) (b s i : Z) : bool :=
  (base self =? b) && (sub self =? s) && (interface self =? i).

Definition make_address (bus device function reg_addr : Z) : Z :=
  Z.lor (Z.lor (Z.lor (Z.lor (as_u 32 (Z.shiftl 1 31)) (as_u 32 (Z.shiftl bus 16)))
    (as_u 32 (Z.shiftl device 11))) (as_u 32 (Z.shiftl function 8))) (Z.land reg_addr 0xfc).

Definition CONFIG_ADDRESS : Z := 0x0cf8.
Definition CONFIG_DATA : Z := 0x0cfc.

Section pci.
Context {S : Type} (cfg_read : S → Z → Z) (cfg_write : S → Z → Z → S).

(** ** Ports *)

(** The address register and the space behind the data port. *)
Record Ports := { config_address : Z; space : S }.

(** The [out] instruction, for the two ports of the configuration mechanism. *)
Definition io_out_32 (addr data : Z) (io : Ports) : outcome Ports :=
  if addr =? CONFIG_ADDRESS then Ret {| config_address := data; space := space io |}
  else if addr =? CONFIG_DATA then
    Ret {| config_address := config_address io;
           space := cfg_write (space io) (config_address io) data |}
  else Panic Undefined.

(** The [in] instruction. *)
Definition io_in_32 (addr : Z) (io : Ports) : outcome Z :=
  if addr =? CONFIG_ADDRESS then Ret (config_address io)
  else if addr =? CONFIG_DATA then Ret (as_u 32 (cfg_read (space io) (config_address io)))
  else Panic Undefined.

(** Code that uses the ports. *)
Definition IO (A : Type) : Type := Ports → outcome (A * Ports).
Definition io_ret {A} (a : A) : IO A := λ io, Ret (a, io).
Definition io_bind {A B} (m : IO A) (k : A → IO B) : IO B := λ io, '(a, io) ← m io; k a io.

Definition port_read_confreg (address : Z) : IO Z := λ io,
  io ← io_out_32 CONFIG_ADDRESS address io;
  v ← io_in_32 CONFIG_DATA io;
  Ret (v, io).

Definition port_write_confreg (address value : Z) : IO () := λ io,
  io ← io_out_32 CONFIG_ADDRESS address io;
  io ← io_out_32 CONFIG_DATA value io;
  Ret ((), io).

(** ** PCIDevice *)

Definition read_confreg (self : PCIDevice) (reg_addr : Z) : IO Z :=
  port_read_confreg (make_address (bus self) (device self) (function self) reg_addr).

Definition write_confreg (self : PCIDevice) (reg_addr value : Z) : IO () :=
  port_write_confreg (make_address (bus self) (device self) (function self) reg_addr) value.

Definition read_header_type (self : PCIDevice) : IO Z :=
  io_bind (read_confreg self 0x0c) (λ data,
  io_ret (as_u 8 (Z.land (Z.shiftr data 16) 0x00ff))).

Definition read_vendor_id (self : PCIDevice) : IO Z :=
  io_bind (read_confreg self 0x0) (λ data, io_ret (as_u 16 (Z.land data 0xffff))).

Definition is_single_function_device (self : PCIDevice) : IO bool :=
  io_bind (read_header_type self) (λ header_type,
  io_ret (Z.land header_type 0x80 =? 0)).

Definition read_class_code (self : PCIDevice) : IO ClassCode :=
  io_bind (read_confreg self 0x08) (λ reg,
  io_ret {| base := as_u 8 (Z.land (Z.shiftr reg 24) 0xff);
            sub := as_u 8 (Z.land (Z.shiftr reg 16) 0xff);
            interface := as_u 8 (Z.land (Z.shiftr reg 8) 0xff) |}).

Definition read_bus_numbers (self : PCIDevice) : IO Z := read_confreg self 0x18.

Definition read_cap_ptr (self : PCIDevice) : IO Z :=
  io_bind (read_confreg self 0x34) (λ v, io_ret (as_u 8 (Z.land v 0xff))).

Definition is_valid (self : PCIDevice) : IO bool :=
  io_bind (read_vendor_id self) (λ v, io_ret (negb (v =? 0xffff))).

Definition u8_add (a b : Z) : outcome Z := chk_u 8 (a + b).
Definition u8_mul (a b : Z) : outcome Z := chk_u 8 (a * b).
Definition io_lift {A} (m : outcome A) : IO A := λ io, a ← m; Ret (a, io).

(** [0x10 + 0x04 * index] *)
Definition bar_register (index : Z) : outcome Z := o ← u8_mul 0x04 index; u8_add 0x10 o.

Definition read_bar (self : PCIDevice) (index : Z) : IO Z :=
  if index >=? 6 then io_lift (Panic ExplicitPanic)
  else
    io_bind (io_lift (bar_register index)) (λ reg,
    io_bind (read_confreg self reg) (λ bar,
    if Z.land bar 4 =? 0 then io_ret bar
    else if index =? 5 then io_lift (Panic ExplicitPanic)
    else
      io_bind (io_lift (i ← u8_add index 1; bar_register i)) (λ reg,
      io_bind (read_confreg self reg) (λ bar_upper,
      io_ret (Z.lor (as_u 64 (Z.shiftl bar_upper 32)) bar))))).

(** ** PCIController *)

(** [None] is an array element that was never written. *)
Record PCIController := { devices : list (option PCIDevice); num_devices : Z }.

Definition PCIController_new : PCIController :=
  {| devices := replicate 32 None; num_devices := 0 |}.

(** [transmute(&self.devices[..self.num_devices])] *)
Definition get_devices (self : PCIController) : outcome (list PCIDevice) :=
  if num_devices self <=? zlen (devices self) then
    match mapM id (take (Z.to_nat (num_devices self)) (devices self)) with
    | Some l => Ret l
    | None => Panic Undefined
    end
  else Panic IndexOutOfBounds.

(** Methods of the controller that use the ports and can fail; [?] is [try_bind]. *)
Definition Scan (A : Type) : Type := PCIController → IO ((A + PCIError) * PCIController).
Definition ok {A} (a : A) : Scan A := λ c, io_ret (inl a, c).
Definition try_bind {A B} (m : Scan A) (k : A → Scan B) : Scan B := λ c,
  io_bind (m c) (λ rc, match rc.1 with inl a => k a rc.2 | inr e => io_ret (inr e, rc.2) end).
Definition lift {A} (m : IO A) : Scan A := λ c, io_bind m (λ a, io_ret (inl a, c)).
Definition for_each (f : Z → Scan ()) : list Z → Scan () :=
  foldr (λ a k, try_bind (f a) (λ _, k)) (ok ()).

Definition add_device (dev : PCIDevice) : Scan () := λ self,
  if num_devices self =? zlen (devices self) then io_ret (inr DevicesAreFull, self)
  else io_lift (
    l ← vset (devices self) (num_devices self) (Some dev);
    n ← usize_add (num_devices self) 1;
    Ret (inl (), {| devices := l; num_devices := n |})).

Definition scan_function (scan_bus : Z → Scan ()) (bus dev func : Z) : Scan PCIDevice :=
  let device := PCIDevice_new bus dev func in
  try_bind (add_device device) (λ _,
  try_bind (lift (read_class_code device)) (λ class_code,
  if (base class_code =? 0x06) && (sub class_code =? 0x04) then
    try_bind (lift (read_bus_numbers device)) (λ bus_numbers,
    let secondary_bus := as_u 8 (Z.land (Z.shiftr bus_numbers 8) 0xff) in
    try_bind (scan_bus secondary_bus) (λ _, ok device))
  else ok device)).

Definition scan_device (scan_bus : Z → Scan ()) (bus dev : Z) : Scan () :=
  try_bind (scan_function scan_bus bus dev 0) (λ device_zero,
  try_bind (lift (is_single_function_device device_zero)) (λ single,
  if (single : bool) then ok ()
  else for_each (λ func,
    try_bind (lift (is_valid (PCIDevice_new bus dev func))) (λ valid,
    if (valid : bool) then try_bind (scan_function scan_bus bus dev func) (λ _, ok ()) else ok ()))
    (range 1 8))).

(** [fuel] bounds the depth of the recursion through bridges. *)
Fixpoint scan_bus (fuel : nat) (bus : Z) : Scan () :=
  match fuel with
  | O => λ _ _, OutOfFuel
  | Datatypes.S fuel =>
      for_each (λ dev,
        try_bind (lift (is_valid (PCIDevice_new bus dev 0))) (λ valid,
        if (valid : bool) then scan_device (scan_bus fuel) bus dev else ok ()))
        (range 0 32)
  end.

(** Every level of the recursion records a device, and there is room for 32. *)
Definition SCAN_FUEL : nat := 33.

Definition scan_all_bus : Scan () :=
  try_bind (lift (is_single_function_device (PCIDevice_new 0 0 0))) (λ single,
  if (single : bool) then scan_bus SCAN_FUEL 0
  else for_each (λ func,
    try_bind (lift (read_vendor_id (PCIDevice_new 0 0 func))) (λ v,
    if negb (v =? 0xffff) then scan_bus SCAN_FUEL func else ok ()))
    (range 0 8)).

(** ** What there is to find *)

Definition conf (s : S) (d : PCIDevice) (reg : Z) : Z :=
  as_u 32 (cfg_read s (make_address (bus d) (device d) (function d) reg)).

Definition vendor (s : S) (d : PCIDevice) : Z := as_u 16 (Z.land (conf s d 0) 0xffff).
Definition answers (s : S) (d : PCIDevice) : Prop := vendor s d ≠ 0xffff.
Definition single_function (s : S) (d : PCIDevice) : Prop :=
  Z.land (as_u 8 (Z.land (Z.shiftr (conf s d 0x0c) 16) 0x00ff)) 0x80 = 0.

(** A PCI-PCI bridge and the bus behind it. *)
Definition bridge_to (s : S) (d : PCIDevice) (b : Z) : Prop :=
  as_u 8 (Z.land (Z.shiftr (conf s d 8) 24) 0xff) = 0x06 ∧
  as_u 8 (Z.land (Z.shiftr (conf s d 8) 16) 0xff) = 0x04 ∧
  b = as_u 8 (Z.land (Z.shiftr (conf s d 0x18) 8) 0xff).

(** A function of slot [dv] on bus [b]: function 0 must answer; the others count only
    if the device says it has several functions. *)
Definition in_slot (s : S) (b dv : Z) (d : PCIDevice) : Prop :=
  bus d = b ∧ device d = dv ∧ 0 ≤ function d < 8 ∧ answers s d ∧
  answers s (PCIDevice_new b dv 0) ∧
  (function d = 0 ∨ ¬ single_function s (PCIDevice_new b dv 0)).

Definition present (s : S) (b : Z) (d : PCIDevice) : Prop :=
  ∃ dv, 0 ≤ dv < 32 ∧ in_slot s b dv d.

(** The functions on the bus [b] and on the buses behind its bridges. *)
Inductive reach (s : S) (b : Z) : PCIDevice → Prop :=
  | reach_here d : present s b d → reach s b d
  | reach_behind d b' d' : reach s b d → bridge_to s d b' → present s b' d' → reach s b d'.

(** The buses the host bridge leads to. *)
Definition root_bus (s : S) (b : Z) : Prop :=
  single_function s (PCIDevice_new 0 0 0) ∧ b = 0 ∨
  ¬ single_function s (PCIDevice_new 0 0 0) ∧ 0 ≤ b < 8 ∧ answers s (PCIDevice_new 0 0 b).

Definition reachable (s : S) (d : PCIDevice) : Prop := ∃ b, root_bus s b ∧ reach s b d.

(** ** Reasoning about scans *)

(** [m] reads [v] and leaves the space alone. *)
Definition reads {A} (s : S) (m : IO A) (v : A) : Prop :=
  ∀ io, space io = s → ∃ io', m io = Ret (v, io') ∧ space io' = s.

Lemma reads_ret {A} s (v : A) : reads s (io_ret v) v.
Proof. intros io H. by exists io. Qed.

Lemma reads_bind {A B} s (m : IO A) (k : A → IO B) a b :
  reads s m a → reads s (k a) b → reads s (io_bind m k) b.
Proof.
  intros Hm Hk io H. unfold io_bind. destruct (Hm io H) as (io1 & -> & H1). rewrite bind_Ret.
  by apply Hk.
Qed.

Lemma reads_confreg s d reg : reads s (read_confreg d reg) (conf s d reg).
Proof. intros io <-. by eexists. Qed.

Lemma reads_is_valid s d : reads s (is_valid d) (negb (vendor s d =? 0xffff)).
Proof. eapply reads_bind; [eapply reads_bind; [apply reads_confreg|]|]; apply reads_ret. Qed.

Lemma reads_vendor s d : reads s (read_vendor_id d) (vendor s d).
Proof. eapply reads_bind; [apply reads_confreg|apply reads_ret]. Qed.

Lemma reads_single s d : ∃ v, reads s (is_single_function_device d) v ∧
  if (v : bool) then single_function s d else ¬ single_function s d.
Proof.
  eexists. split; [eapply reads_bind; [eapply reads_bind; [apply reads_confreg|]|]; apply reads_ret|].
  unfold single_function. by destruct (Z.eqb_spec
    (Z.land (as_u 8 (Z.land (Z.shiftr (conf s d 0x0c) 16) 0x00ff)) 0x80) 0).
Qed.

(** The controller has recorded [l]. *)
Definition holds (c : PCIController) (l : list PCIDevice) : Prop :=
  length (devices c) = 32%nat ∧ num_devices c = zlen l ∧
  take (length l) (devices c) = Some <$> l.

(** Every bridge of the list has what is on its secondary bus in the list too. *)
Definition closed (s : S) (l : list PCIDevice) : Prop :=
  ∀ d b x, d ∈ l → bridge_to s d b → present s b x → x ∈ l.

(** [m] appends devices that are [sound]. If it succeeds they include the [want]ed
    ones and what is behind their bridges; if it fails the controller is full. [n]
    bounds how many devices may still be recorded. *)
Definition scans {A} (s : S) (n : nat) (m : Scan A) (sound want : PCIDevice → Prop)
    (V : A → Prop) : Prop :=
  ∀ c l io, holds c l → (33 ≤ n + length l)%nat → space io = s →
  ∃ r c' io' new, m c io = Ret ((r, c'), io') ∧ space io' = s ∧ holds c' (l ++ new) ∧
    Forall sound new ∧
    match r with
    | inl v => V v ∧ (∀ x, want x → x ∈ new) ∧ closed s new
    | inr _ => length (l ++ new) = 32%nat
    end.

Lemma closed_app s l1 l2 : closed s l1 → closed s l2 → closed s (l1 ++ l2).
Proof.
  intros H1 H2 d b x [?|?]%elem_of_app Hb Hx; apply elem_of_app; [left; by eapply H1|right; by eapply H2].
Qed.

Lemma scans_ok {A} s n (v : A) sound : scans s n (ok v) sound (λ _, False) (λ w, w = v).
Proof.
  intros c l io Hc _ Hs. exists (inl v), c, io, []. rewrite app_nil_r.
  split_and!; try done. intros d b x Hd. by apply elem_of_nil in Hd.
Qed.

Lemma scans_bind {A B} s n (m : Scan A) (k : A → Scan B) sound want1 want2 V W :
  scans s n m sound want1 V → (∀ v, V v → scans s n (k v) sound want2 W) →
  scans s n (try_bind m k) sound (λ x, want1 x ∨ want2 x) W.
Proof.
  intros Hm Hk c l io Hc Hn Hs. unfold try_bind, io_bind.
  destruct (Hm c l io Hc Hn Hs) as (r & c1 & io1 & new1 & -> & Hs1 & Hc1 & Hf1 & Hr). rewrite bind_Ret.
  simpl. destruct r as [v|e].
  - destruct Hr as (HV & Hw1 & Hcl1).
    destruct (Hk v HV c1 (l ++ new1) io1) as (r & c2 & io2 & new2 & -> & Hs2 & Hc2 & Hf2 & Hr); try done.
    { rewrite length_app. lia. }
    exists r, c2, io2, (new1 ++ new2). rewrite app_assoc. split_and!; try done; [by apply Forall_app|].
    destruct r as [w|e]; [|done]. destruct Hr as (HW & Hw2 & Hcl2). split_and!; [done| |by apply closed_app].
    intros x [?|?]; apply elem_of_app; auto.
  - exists (inr e), c1, io1, new1. split_and!; done.
Qed.

Lemma scans_read {A B} s n (m : IO A) (k : A → Scan B) v sound want W :
  reads s m v → scans s n (k v) sound want W → scans s n (try_bind (lift m) k) sound want W.
Proof.
  intros Hm Hk c l io Hc Hn Hs. unfold try_bind, lift, io_bind.
  destruct (Hm io Hs) as (io1 & -> & Hs1). by apply Hk.
Qed.

Lemma scans_weaken {A} s n (m : Scan A) (sound sound' want want' : PCIDevice → Prop) (V V' : A → Prop) :
  scans s n m sound want V →
  (∀ x, sound x → sound' x) → (∀ x, want' x → want x) → (∀ v, V v → V' v) →
  scans s n m sound' want' V'.
Proof.
  intros Hm H1 H2 H3 c l io Hc Hn Hs.
  destruct (Hm c l io) as (r & c' & io' & new & ? & ? & ? & ? & Hr); [done..|].
  exists r, c', io', new. split_and!; try done; [by eapply Forall_impl|].
  destruct r; [|done]. destruct Hr as (? & ? & ?). split_and!; auto.
Qed.

Lemma scans_skip {A} s n (v : A) sound (want : PCIDevice → Prop) (V : A → Prop) :
  V v → (∀ x, ¬ want x) → scans s n (ok v) sound want V.
Proof. intros Hv Hw. eapply scans_weaken; [apply scans_ok|done|done|by intros ? ->]. Qed.

Lemma scans_for s n (f : Z → Scan ()) L sound (want : Z → PCIDevice → Prop) :
  (∀ a, a ∈ L → scans s n (f a) sound (want a) (λ _, True)) →
  scans s n (for_each f L) sound (λ x, ∃ a, a ∈ L ∧ want a x) (λ _, True).
Proof.
  induction L as [|a L IH]; intros Hf; simpl.
  - apply scans_skip; [done|]. intros x (a & Ha & _). by apply elem_of_nil in Ha.
  - eapply scans_weaken; [eapply scans_bind; [apply Hf; left|intros ? _; apply IH]|..]; try done.
    + intros a' Ha'. apply Hf. by right.
    + intros x (a' & [->|Ha']%elem_of_cons & Hx); [by left|right; by exists a'].
Qed.

(** Recording a device; what follows must find what is behind it. *)
Lemma scans_add {A} s n d (k : () → Scan A) (sound want : PCIDevice → Prop) V :
  sound d → (∀ b x, bridge_to s d b → present s b x → want x) →
  scans s n (k ()) sound want V →
  scans s (Datatypes.S n) (try_bind (add_device d) k) sound (λ x, x = d ∨ want x) V.
Proof.
  intros Hd Hb Hk c l io (Hlen & Hnum & Htake) Hn Hs. unfold try_bind, io_bind, add_device.
  assert (length l ≤ 32)%nat as Hl.
  { apply (f_equal length) in Htake. rewrite length_take, length_fmap in Htake. lia. }
  rewrite Hnum, Hlen. destruct (Z.eqb_spec (zlen l) (Z.of_nat 32)) as [Heq|Hne].
  { exists (inr DevicesAreFull), c, io, []. rewrite app_nil_r. split_and!; try done. lia. }
  unfold io_lift. rewrite vset_ok, bind_Ret by lia. rewrite usize_add_ok, !bind_Ret by lia. simpl.
  rewrite Nat2Z.id.
  destruct (Hk {| devices := <[length l := Some d]> (devices c); num_devices := zlen l + 1 |} (l ++ [d]) io)
    as (r & c' & io' & new & E & Hs' & Hc' & Hf & Hr); try done.
  { split_and!; simpl; [by rewrite length_insert|rewrite length_app; simpl; lia|].
    rewrite length_app, Nat.add_1_r, fmap_app, <- Htake.
    rewrite (take_S_r _ _ (Some d)) by (by rewrite list_lookup_insert_eq by lia).
    by rewrite take_insert_ge by lia. }
  { rewrite length_app. simpl. lia. }
  exists r, c', io', (d :: new). rewrite <- app_assoc in Hc', Hr. split_and!; try done.
  { by constructor. }
  destruct r as [v|e]; [|done]. destruct Hr as (HV & Hw & Hcl). split_and!; [done| |].
  - intros x [->|Hx]; [by left|right; auto].
  - intros d' b x [->|Hd']%elem_of_cons Hbr Hx; right; [by eauto|by eapply Hcl].
Qed.

Lemma bridge_class s d (v1 v2 : Z) :
  v1 = as_u 8 (Z.land (Z.shiftr (conf s d 8) 24) 0xff) →
  v2 = as_u 8 (Z.land (Z.shiftr (conf s d 8) 16) 0xff) →
  if (v1 =? 0x06) && (v2 =? 0x04)
  then bridge_to s d (as_u 8 (Z.land (Z.shiftr (conf s d 0x18) 8) 0xff))
  else ∀ b, ¬ bridge_to s d b.
Proof.
  intros -> ->. unfold bridge_to.
  destruct (Z.eqb_spec (as_u 8 (Z.land (Z.shiftr (conf s d 8) 24) 0xff)) 0x06);
    destruct (Z.eqb_spec (as_u 8 (Z.land (Z.shiftr (conf s d 8) 16) 0xff)) 0x04); simpl; naive_solver.
Qed.

Section body.
Context (s : S) (n : nat) (rec : Z → Scan ()).
Context (Hrec : ∀ b, scans s n (rec b) (reach s b) (present s b) (λ _, True)).

Lemma scan_function_ok b dv f :
  let d := PCIDevice_new b dv f in
  scans s (Datatypes.S n) (scan_function rec b dv f)
    (λ x, x = d ∨ ∃ b', bridge_to s d b' ∧ reach s b' x) (λ x, x = d) (λ v, v = d).
Proof.
  intros d. set (sound := λ x, x = d ∨ ∃ b', bridge_to s d b' ∧ reach s b' x).
  apply (scans_weaken _ _ _ sound sound (λ x, x = d ∨ ∃ b', bridge_to s d b' ∧ present s b' x) _
    (λ v, v = d)); [|done|by left|done].
  apply scans_add; [by left|by eauto|].
  eapply scans_read; [eapply reads_bind; [apply reads_confreg|apply reads_ret]|]. cbn [base sub].
  fold d. pose proof (bridge_class s d _ _ eq_refl eq_refl) as Hb.
  destruct (_ && _).
  - eapply scans_read; [exact (reads_confreg s d 0x18)|].
    eapply scans_weaken; [eapply scans_bind|..]; [|intros _ _; apply scans_ok|done| |done].
    + eapply scans_weaken; [apply Hrec|..]; [|done|done]. intros x Hx. right. by eexists.
    + intros x (b' & (_ & _ & ->) & Hp). by left.
  - apply scans_skip; [done|]. intros x (b' & Hb' & _). by apply (Hb b').
Qed.

(** What is behind a bridge on the bus is reached from the bus. *)
Lemma reach_trans b d b' x : reach s b d → bridge_to s d b' → reach s b' x → reach s b x.
Proof. intros Hd Hb. induction 1; [by eapply reach_behind|by eapply reach_behind]. Qed.

Lemma scan_function_on_bus b dv f :
  present s b (PCIDevice_new b dv f) →
  scans s (Datatypes.S n) (scan_function rec b dv f) (reach s b)
    (λ x, x = PCIDevice_new b dv f) (λ v, v = PCIDevice_new b dv f).
Proof.
  intros Hp. eapply scans_weaken; [apply scan_function_ok|..]; [|done|done].
  intros x [->|(b' & Hb & Hx)]; [by apply reach_here|].
  eapply reach_trans; [by apply reach_here|done..].
Qed.

Lemma answers_vendor d : if negb (vendor s d =? 0xffff) then answers s d else ¬ answers s d.
Proof. unfold answers. destruct (Z.eqb_spec (vendor s d) 0xffff); simpl; congruence. Qed.

Lemma scan_device_ok b dv :
  0 ≤ dv < 32 → answers s (PCIDevice_new b dv 0) →
  scans s (Datatypes.S n) (scan_device rec b dv) (reach s b) (in_slot s b dv) (λ _, True).
Proof.
  intros Hdv Ha. set (d0 := PCIDevice_new b dv 0) in *.
  apply (scans_weaken _ _ _ (reach s b) _
    (λ x, x = d0 ∨ ¬ single_function s d0 ∧ ∃ f, f ∈ range 1 8 ∧ answers s x ∧ x = PCIDevice_new b dv f)
    _ (λ _, True)); [|done| |done].
  2:{ intros [b' dv' f] (Hb & Hd & Hf & Hx & _ & Hor). simpl in *. subst b' dv'.
      destruct (decide (f = 0)) as [->|Hne]; [by left|]. right. destruct Hor as [?|Hs]; [done|].
      split; [done|]. exists f. split_and!; try done. apply elem_of_seqZ. lia. }
  eapply scans_bind; [apply scan_function_on_bus|intros ? ->].
  { exists dv. split; [done|]. split_and!; simpl; try done. by left. }
  destruct (reads_single s d0) as ([] & Hr & Hs).
  { eapply scans_read; [exact Hr|]. apply scans_skip; [done|]. by intros x [? _]. }
  eapply scans_read; [exact Hr|]. cbv beta iota.
  eapply scans_weaken with (want := λ x, ∃ f, f ∈ range 1 8 ∧ answers s x ∧ x = PCIDevice_new b dv f)
    (V := λ _, True); [|done|by intros x [_ ?]|done].
  apply (scans_for _ _ _ _ _ (λ f x, answers s x ∧ x = PCIDevice_new b dv f)).
  intros f [? ?]%elem_of_seqZ. eapply scans_read; [apply reads_is_valid|].
  pose proof (answers_vendor (PCIDevice_new b dv f)) as Hv. destruct (negb _).
  - eapply scans_weaken with (V := λ _, True); [eapply scans_bind|..];
      [apply scan_function_on_bus|intros ? _; apply scans_skip with (want := λ _, False)|..]; try done.
    + exists dv. split; [done|]. split_and!; simpl; try done; try lia. by right.
    + by intros x [].
    + intros x [_ ->]. by left.
  - apply scans_skip; [done|]. by intros x [? ->].
Qed.

End body.

Lemma scan_bus_ok s n b : scans s n (scan_bus n b) (reach s b) (present s b) (λ _, True).
Proof.
  revert b. induction n as [|n IH]; intros b.
  { intros c l io (Hlen & _ & Ht) Hn _. apply (f_equal length) in Ht.
    rewrite length_take, length_fmap in Ht. lia. }
  cbn [scan_bus].
  eapply scans_weaken; [apply (scans_for _ _ _ _ _ (in_slot s b))|done| |done].
  - intros dv [? ?]%elem_of_seqZ. eapply scans_read; [apply reads_is_valid|].
    pose proof (answers_vendor s (PCIDevice_new b dv 0)) as Hv. destruct (negb _).
    + apply scan_device_ok; [exact IH|lia|done].
    + apply scans_skip; [done|]. by intros x (_ & _ & _ & _ & ? & _).
  - intros x (dv & Hdv & Hx). exists dv. split; [|done]. apply elem_of_seqZ. lia.
Qed.

Lemma scan_all_bus_ok s :
  scans s SCAN_FUEL scan_all_bus (reachable s) (λ x, ∃ b, root_bus s b ∧ present s b x) (λ _, True).
Proof.
  unfold scan_all_bus. destruct (reads_single s (PCIDevice_new 0 0 0)) as ([] & Hr & Hs).
  - eapply scans_read; [exact Hr|]. cbv beta iota.
    eapply scans_weaken; [apply scan_bus_ok|..]; [|intros x (b & [[_ ->]|[? _]] & Hb); done|done].
    intros x Hx. exists 0. split; [by left|done].
  - eapply scans_read; [exact Hr|]. cbv beta iota.
    eapply scans_weaken; [apply (scans_for _ _ _ _ _ (λ f x, root_bus s f ∧ present s f x))|done| |done].
    + intros f [? ?]%elem_of_seqZ. eapply scans_read; [apply reads_vendor|].
      pose proof (answers_vendor s (PCIDevice_new 0 0 f)) as Hv. destruct (negb _).
      * eapply scans_weaken; [apply scan_bus_ok|..]; [|by intros x [_ ?]|done].
        intros x Hx. exists f. split; [right; split_and!; try done; lia|done].
      * apply scans_skip; [done|]. by intros x [[[? _]|(_ & _ & ?)] _].
    + intros x (b & Hb & Hx). exists b. split_and!; try done. apply elem_of_seqZ.
      destruct Hb as [[? _]|(_ & ? & _)]; [done|lia].
Qed.

Lemma closed_reach s b l x :
  (∀ d, present s b d → d ∈ l) → closed s l → reach s b x → x ∈ l.
Proof. intros Hp Hc. induction 1; [by apply Hp|by eapply Hc]. Qed.

Lemma holds_new : holds PCIController_new [].
Proof. done. Qed.

Lemma holds_get c l : holds c l → get_devices c = Ret l.
Proof.
  intros (Hlen & Hnum & Ht). unfold get_devices.
  assert (length l ≤ 32)%nat by (apply (f_equal length) in Ht; rewrite length_take, length_fmap in Ht; lia).
  rewrite Hnum, (proj2 (Z.leb_le _ _)), Nat2Z.id, Ht by lia.
  assert (mapM (M := option) id (Some <$> l) = Some l) as Hm; [|by rewrite Hm].
  by apply mapM_Some, Forall2_fmap_l, Forall_Forall2_diag, Forall_true.
Qed.

(** The bus scan. Whatever the devices answer, also when bridges point at each
    other, [scan_all_bus] returns without a panic and does not change the configuration
    space. Every recorded device is a function that answers and is reachable from the
    host bridge through PCI-PCI bridges; if the scan reports success it has found every
    such function, and it reports [DevicesAreFull] only with all 32 places taken. *)
Lemma scan_all_bus_finds (io : Ports) :
  ∃ r c io' l, scan_all_bus PCIController_new io = Ret ((r, c), io') ∧ space io' = space io ∧
    get_devices c = Ret l ∧ (∀ d, d ∈ l → reachable (space io) d) ∧
    match r with
    | inl _ => ∀ d, reachable (space io) d → d ∈ l
    | inr DevicesAreFull => length l = 32%nat
    end.
Proof.
  destruct (scan_all_bus_ok (space io) PCIController_new [] io holds_new)
    as (r & c & io' & l & E & Hs & Hc & Hf & Hr); [done|done|].
  exists r, c, io', l. split_and!; try done.
  - by apply holds_get.
  - by apply list.Forall_forall.
  - destruct r as [[]|[]]; [|done]. destruct Hr as (_ & Hw & Hcl). intros d (b & Hb & Hd).
    eapply closed_reach; [|done..]. intros x Hx. apply Hw. by exists b.
Qed.

(** ** Addresses and base address registers *)

Lemma lor_add a b k : 0 ≤ k → 0 ≤ b < 2 ^ k → Z.lor (a * 2 ^ k) b = a * 2 ^ k + b.
Proof.
  intros Hk Hb. rewrite <- Z.lxor_lor, <- Z.add_nocarry_lxor; [done|..].
  all: rewrite <- Z.shiftl_mul_pow2 by done; apply Z.bits_inj'; intros n Hn;
    rewrite Z.land_spec, Z.shiftl_spec, Z.bits_0 by done;
    destruct (Z.ltb_spec n k); [by rewrite Z.testbit_neg_r by lia|];
    rewrite <- (Z.mod_small b (2 ^ k)) by done;
    by rewrite Z.mod_pow2_bits_high, andb_false_r by lia.
Qed.

(** The address of a register: the fields side by side, bit 31 set. *)
Lemma make_address_fields b d f r :
  0 ≤ b < 256 → 0 ≤ d < 32 → 0 ≤ f < 8 → 0 ≤ r < 64 →
  make_address b d f (4 * r) = 2 ^ 31 + b * 2 ^ 16 + d * 2 ^ 11 + f * 2 ^ 8 + 4 * r.
Proof.
  intros Hb Hd Hf Hr. unfold make_address, as_u. rewrite !Z.shiftl_mul_pow2 by lia.
  rewrite !Z.mod_small by lia.
  assert (Z.land (4 * r) 0xfc = 4 * r) as ->.
  { apply Z.bits_inj'. intros n Hn. rewrite Z.land_spec.
    replace (4 * r) with (r * 2 ^ 2) by lia. rewrite <- Z.shiftl_mul_pow2, Z.shiftl_spec by lia.
    change 0xfc with (Z.shiftl (Z.ones 6) 2). rewrite Z.shiftl_spec by lia.
    destruct (Z.ltb_spec n 2); [by rewrite Z.testbit_neg_r by lia|].
    rewrite Z.testbit_ones, (proj2 (Z.leb_le 0 _)) by lia. simpl.
    destruct (Z.ltb_spec (n - 2) 6); [by rewrite andb_true_r|].
    rewrite <- (Z.mod_small r (2 ^ 6)) by lia. by rewrite Z.mod_pow2_bits_high by lia. }
  replace (1 * 2 ^ 31) with (2 ^ 15 * 2 ^ 16) by lia.
  replace (Z.lor (2 ^ 15 * 2 ^ 16) (b * 2 ^ 16)) with (2 ^ 15 * 2 ^ 16 + b * 2 ^ 16).
  2:{ change (2 ^ 15 * 2 ^ 16) with (1 * 2 ^ 31). symmetry. apply lor_add; lia. }
  replace (2 ^ 15 * 2 ^ 16 + b * 2 ^ 16) with ((2 ^ 15 + b) * 2 ^ 16) by lia.
  rewrite (lor_add _ _ 16) by lia.
  replace ((2 ^ 15 + b) * 2 ^ 16 + d * 2 ^ 11) with (((2 ^ 15 + b) * 2 ^ 5 + d) * 2 ^ 11) by lia.
  rewrite (lor_add _ _ 11) by lia.
  replace (((2 ^ 15 + b) * 2 ^ 5 + d) * 2 ^ 11 + f * 2 ^ 8)
    with ((((2 ^ 15 + b) * 2 ^ 5 + d) * 2 ^ 3 + f) * 2 ^ 8) by lia.
  rewrite (lor_add _ _ 8) by lia. lia.
Qed.

(** Different registers have different addresses. *)
Lemma make_address_inj b d f r b' d' f' r' :
  0 ≤ b < 256 → 0 ≤ d < 32 → 0 ≤ f < 8 → 0 ≤ r < 64 →
  0 ≤ b' < 256 → 0 ≤ d' < 32 → 0 ≤ f' < 8 → 0 ≤ r' < 64 →
  make_address b d f (4 * r) = make_address b' d' f' (4 * r') →
  b = b' ∧ d = d' ∧ f = f' ∧ r = r'.
Proof. intros. rewrite !make_address_fields in * by done. lia. Qed.

(** ** Message-signalled interrupts *)

Definition MSI : Z := 0x05.

Record PCICapabilityHeader := { cap_id : Z; next_cap_ptr : Z }.

(** [transmute] of the register: the struct is packed, little-endian. *)
Definition PCICapabilityHeader_of (reg : Z) : PCICapabilityHeader :=
  {| cap_id := as_u 8 reg; next_cap_ptr := as_u 8 (Z.shiftr reg 8) |}.

Context `{!Bitfield}.

(** The accessors of the three [bitfield!] structs that the code uses. *)
Definition addr_64_capable (header : Z) : bool := bf_bit header 23.
Definition set_msi_enable (header : Z) (b : bool) : Z := bf_set_bit header 16 b.
Definition set_destination_id (msg_addr v : Z) : Z := set_bit_range msg_addr 19 12 v.
Definition set_FEE (msg_addr v : Z) : Z := set_bit_range msg_addr 31 20 v.
Definition set_redirection_hint (msg_addr : Z) (b : bool) : Z := bf_set_bit msg_addr 3 b.
Definition set_vector (msg_data v : Z) : Z := set_bit_range msg_data 7 0 v.
Definition set_delivery_mode (msg_data v : Z) : Z := set_bit_range msg_data 10 8 v.
Definition set_trigger_level (msg_data : Z) (b : bool) : Z := bf_set_bit msg_data 14 b.
Definition set_trigger_mode (msg_data : Z) (b : bool) : Z := bf_set_bit msg_data 15 b.

Definition configure_msi_register (dev : PCIDevice) (cap_addr apic_id vector : Z) : IO () :=
  io_bind (read_confreg dev cap_addr) (λ header,
  io_bind (io_lift (u8_add cap_addr 4)) (λ a4,
  io_bind (read_confreg dev a4) (λ msg_addr,
  io_bind (io_lift (if addr_64_capable header then u8_add cap_addr 12 else u8_add cap_addr 8))
    (λ msg_data_addr,
  io_bind (read_confreg dev msg_data_addr) (λ msg_data,
  let header := set_msi_enable header true in
  let msg_addr := set_destination_id msg_addr apic_id in
  let msg_addr := set_FEE msg_addr 0xfee in
  let msg_data := set_delivery_mode msg_data 0 in
  let msg_data := set_trigger_mode msg_data true in
  let msg_data := set_trigger_level msg_data true in
  let msg_data := set_vector msg_data vector in
  let msg_addr := set_redirection_hint msg_addr false in
  io_bind (write_confreg dev cap_addr header) (λ _,
  io_bind (io_lift (u8_add cap_addr 4)) (λ a4,
  io_bind (write_confreg dev a4 msg_addr) (λ _,
  io_bind (write_confreg dev msg_data_addr msg_data) (λ _,
  io_bind (read_confreg dev cap_addr) (λ _,
  io_bind (io_lift (u8_add cap_addr 4)) (λ a4,
  io_bind (read_confreg dev a4) (λ _,
  io_bind (read_confreg dev msg_data_addr) (λ _, io_ret ()))))))))))))).

(** The body of the [while cap_addr != 0] loop: the next address, or the end. *)
Definition msi_step (dev : PCIDevice) (apic_id vector : Z) (st : Z * Ports)
    : outcome (Z * Ports + Ports) :=
  let '(cap_addr, io) := st in
  if cap_addr =? 0 then Ret (inr io)
  else
    '(reg, io) ← read_confreg dev cap_addr io;
    let header := PCICapabilityHeader_of reg in
    if cap_id header =? MSI then
      '(_, io) ← configure_msi_register dev cap_addr apic_id vector io; Ret (inr io)
    else Ret (inl (next_cap_ptr header, io)).

Definition configure_msi_fixed_destination (fuel : nat) (dev : PCIDevice) (apic_id vector : Z)
    : IO () := λ io,
  '(cap_addr, io) ← read_cap_ptr dev io;
  io ← loop fuel (msi_step dev apic_id vector) (cap_addr, io);
  Ret ((), io).

(** The search through the capability list from [p] ends after [k] links, at an MSI
    capability or at the end of the list. *)
Inductive cap_search (s : S) (dev : PCIDevice) : Z → option Z → nat → Prop :=
  | cap_end : cap_search s dev 0 None 0
  | cap_found p :
      p ≠ 0 → cap_id (PCICapabilityHeader_of (conf s dev p)) = MSI → cap_search s dev p (Some p) 0
  | cap_link p r k :
      p ≠ 0 → cap_id (PCICapabilityHeader_of (conf s dev p)) ≠ MSI →
      cap_search s dev (next_cap_ptr (PCICapabilityHeader_of (conf s dev p))) r k →
      cap_search s dev p r (Datatypes.S k).

Definition register_of (dev : PCIDevice) (reg : Z) : Z :=
  make_address (bus dev) (device dev) (function dev) reg.

(** The three registers of the capability at [p] were written, and what: enable bit;
    destination and 0xfee prefix; vector, fixed delivery, level triggered. *)
Record programmed (s : S) (dev : PCIDevice) (p apic_id vector : Z) (s' : S) (h a d : Z) : Prop := {
  pg_space :
    let data := if Z.testbit (conf s dev p) 23 then p + 12 else p + 8 in
    s' = cfg_write (cfg_write (cfg_write s (register_of dev p) h) (register_of dev (p + 4)) a)
           (register_of dev data) d;
  pg_header i : 0 ≤ i → Z.testbit h i = if i =? 16 then true else Z.testbit (conf s dev p) i;
  pg_addr i : 0 ≤ i → Z.testbit a i =
    if i =? 3 then false
    else if (20 <=? i) && (i <=? 31) then Z.testbit 0xfee (i - 20)
    else if (12 <=? i) && (i <=? 19) then Z.testbit apic_id (i - 12)
    else Z.testbit (conf s dev (p + 4)) i;
  pg_data i : 0 ≤ i → Z.testbit d i =
    if (0 <=? i) && (i <=? 7) then Z.testbit vector i
    else if (14 <=? i) && (i <=? 15) then true
    else if (8 <=? i) && (i <=? 10) then false
    else Z.testbit (conf s dev (if Z.testbit (conf s dev p) 23 then p + 12 else p + 8)) i;
}.

Lemma io_bind_read {A} dev reg (k : Z → IO A) io :
  io_bind (read_confreg dev reg) k io =
  k (conf (space io) dev reg) {| config_address := register_of dev reg; space := space io |}.
Proof. done. Qed.

Lemma io_bind_write {A} dev reg v (k : () → IO A) io :
  io_bind (write_confreg dev reg v) k io =
  k () {| config_address := register_of dev reg;
          space := cfg_write (space io) (register_of dev reg) v |}.
Proof. done. Qed.

Lemma io_bind_lift {A B} (m : outcome A) (k : A → IO B) a io :
  m = Ret a → io_bind (io_lift m) k io = k a io.
Proof. by intros ->. Qed.

Lemma msi_data_bits w v i :
  0 ≤ v < 256 → 0 ≤ i →
  Z.testbit (set_vector (set_trigger_level (set_trigger_mode (set_delivery_mode w 0) true) true) v) i =
  if (0 <=? i) && (i <=? 7) then Z.testbit v i
  else if (14 <=? i) && (i <=? 15) then true
  else if (8 <=? i) && (i <=? 10) then false
  else Z.testbit w i.
Proof.
  intros Hv Hi. unfold set_vector, set_trigger_level, set_trigger_mode, set_delivery_mode.
  rewrite set_bit_range_spec, Z.sub_0_r by lia. rewrite !bf_set_bit_spec, set_bit_range_spec by lia.
  rewrite Z.bits_0. destruct ((0 <=? i) && (i <=? 7)); [done|].
  destruct (Z.eqb_spec i 14) as [->|?]; [done|]. destruct (Z.eqb_spec i 15) as [->|?]; [done|].
  destruct (Z.leb_spec 14 i), (Z.leb_spec i 15); simpl; try done; lia.
Qed.

Lemma msi_addr_bits w v i :
  0 ≤ v < 256 → 0 ≤ i →
  Z.testbit (set_redirection_hint (set_FEE (set_destination_id w v) 0xfee) false) i =
  if i =? 3 then false
  else if (20 <=? i) && (i <=? 31) then Z.testbit 0xfee (i - 20)
  else if (12 <=? i) && (i <=? 19) then Z.testbit v (i - 12)
  else Z.testbit w i.
Proof.
  intros Hv Hi. unfold set_redirection_hint, set_FEE, set_destination_id.
  by rewrite bf_set_bit_spec, !set_bit_range_spec by lia.
Qed.

Lemma configure_msi_register_ok dev p apic_id vector io :
  0 ≤ p → p + 12 < 256 → 0 ≤ apic_id < 256 → 0 ≤ vector < 256 →
  ∃ io' h a d, configure_msi_register dev p apic_id vector io = Ret ((), io') ∧
    programmed (space io) dev p apic_id vector (space io') h a d.
Proof.
  intros Hp Hp12 Ha Hv. unfold configure_msi_register.
  assert (u8_add p 4 = Ret (p + 4)) as E4 by (apply chk_u_ok; lia).
  rewrite io_bind_read, (io_bind_lift _ _ _ _ E4), io_bind_read. cbn [space].
  set (data := if Z.testbit (conf (space io) dev p) 23 then p + 12 else p + 8).
  erewrite (io_bind_lift _ _ data).
  2:{ unfold addr_64_capable, data. rewrite bf_bit_spec by lia.
      destruct (Z.testbit _ 23); apply chk_u_ok; lia. }
  rewrite io_bind_read. cbn [space]. cbv zeta.
  rewrite io_bind_write, (io_bind_lift _ _ _ _ E4), !io_bind_write. cbn [space].
  rewrite io_bind_read, (io_bind_lift _ _ _ _ E4), !io_bind_read. cbn [space].
  eexists _, _, _, _. split; [reflexivity|]. split; [reflexivity|..].
  - intros i Hi. apply bf_set_bit_spec; lia.
  - intros i Hi. by apply msi_addr_bits.
  - intros i Hi. by apply msi_data_bits.
Qed.

(** C34: MSI set-up. If following the capability list from the pointer in the device
    comes to an end, after [k] links, then [configure_msi_fixed_destination] returns:
    without touching the device if there is no MSI capability, and otherwise having
    written exactly its three registers, with the interrupt enabled and addressed to the
    given processor and vector (fixed delivery, level triggered) and all other bits kept. *)
Theorem configure_msi_programs (dev : PCIDevice) (apic_id vector : Z) (io : Ports) (fuel : nat)
    (r : option Z) (k : nat) :
  0 ≤ apic_id < 256 → 0 ≤ vector < 256 →
  cap_search (space io) dev (as_u 8 (Z.land (conf (space io) dev 0x34) 0xff)) r k → (k < fuel)%nat →
  (∀ p, r = Some p → p + 12 < 256) →
  ∃ io', configure_msi_fixed_destination fuel dev apic_id vector io = Ret ((), io') ∧
    match r with
    | None => space io' = space io
    | Some p => ∃ h a d, programmed (space io) dev p apic_id vector (space io') h a d
    end.
Proof.
  intros Ha Hv Hc Hk Hr. unfold configure_msi_fixed_destination, read_cap_ptr.
  rewrite io_bind_read. unfold io_ret. rewrite bind_Ret.
  assert (0 ≤ as_u 8 (Z.land (conf (space io) dev 0x34) 0xff)) as Hp0 by (apply Z.mod_pos_bound; lia).
  revert Hc Hp0. generalize (as_u 8 (Z.land (conf (space io) dev 0x34) 0xff)) as p.
  assert (space {| config_address := register_of dev 0x34; space := space io |} = space io) as Hs by done.
  revert Hs. generalize {| config_address := register_of dev 0x34; space := space io |} as io1.
  intros io1 Hs p Hc. revert fuel Hk io1 Hs.
  induction Hc as [|p Hp Hid|p r k Hp Hid _ IH]; intros [|fuel] Hk io1 Hs Hp0; try lia; cbn [loop msi_step].
  - eexists. split; [reflexivity|done].
  - rewrite (proj2 (Z.eqb_neq _ _) Hp), bind_assoc.
    change (read_confreg dev p io1) with
      (Ret (conf (space io1) dev p, {| config_address := register_of dev p; space := space io1 |})).
    rewrite bind_Ret. rewrite Hs, (proj2 (Z.eqb_eq _ _) Hid).
    destruct (configure_msi_register_ok dev p apic_id vector
      {| config_address := register_of dev p; space := space io |}) as (io' & h & a & d & -> & Hpr);
      [done|by apply Hr|done..|].
    rewrite !bind_Ret. exists io'. split; [done|]. by exists h, a, d.
  - rewrite (proj2 (Z.eqb_neq _ _) Hp), bind_assoc.
    change (read_confreg dev p io1) with
      (Ret (conf (space io1) dev p, {| config_address := register_of dev p; space := space io1 |})).
    rewrite bind_Ret. rewrite Hs, (proj2 (Z.eqb_neq _ _) Hid), bind_Ret.
    apply IH; [done|lia|done|]. apply Z.mod_pos_bound. lia.
Qed.

End pci.

(** ** Concrete runs *)

(** A configuration space is a map of registers; nothing answers elsewhere. *)
Definition map_read (s : gmap Z Z) (a : Z) : Z := default 0xffffffff (s !! a).
Definition map_write (s : gmap Z Z) (a v : Z) : gmap Z Z := <[a := v]> s.

(** Vendor, class, header type, bus numbers and capability pointer of a function. *)
Definition fn_regs (b d f vendor class header buses cap : Z) : list (Z * Z) :=
  [(make_address b d f 0, vendor); (make_address b d f 0x08, class);
   (make_address b d f 0x0c, header); (make_address b d f 0x18, buses);
   (make_address b d f 0x34, cap)].

(** A host bridge, a bridge to the bus [sec] and on bus 1 a device with two functions, the
    second with a power management and an MSI capability. *)
Definition demo_space (sec : Z) : gmap Z Z := list_to_map (
  fn_regs 0 0 0 0x12378086 0x06000000 0 0 0 ++
  fn_regs 0 3 0 0x244e8086 0x06040100 0x00010000 (Z.shiftl sec 8) 0 ++
  fn_regs 1 0 0 0x10001234 0x02000000 0x00800000 0 0 ++
  fn_regs 1 0 2 0x10011234 0x0c033000 0x00800000 0 0x40 ++
  [(make_address 1 0 2 0x40, 0x5001); (make_address 1 0 2 0x50, 0x00800005);
   (make_address 1 0 2 0x54, 0); (make_address 1 0 2 0x5c, 0)]).

Definition demo_io (sec : Z) : Ports := {| config_address := 0; space := demo_space sec |}.

(** What a scan returns and records. *)
Definition scan_result (io : Ports) : outcome (() + PCIError) * outcome (list PCIDevice) :=
  match scan_all_bus map_read map_write PCIController_new io with
  | Ret ((r, c), _) => (Ret r, get_devices c)
  | Panic p => (Panic p, Panic p)
  | OutOfFuel => (OutOfFuel, OutOfFuel)
  end.

Example scan_demo : scan_result (demo_io 1) =
  (Ret (inl ()), Ret [PCIDevice_new 0 0 0; PCIDevice_new 0 3 0; PCIDevice_new 1 0 0; PCIDevice_new 1 0 2]).
Proof. vm_compute. reflexivity. Qed.

(** A bridge to its own bus fills the table and ends the scan. *)
Example scan_cycle : (scan_result (demo_io 0)).1 = Ret (inr DevicesAreFull).
Proof. vm_compute. reflexivity. Qed.

Lemma configure_msi_programs_witness :
  ∃ io', configure_msi_fixed_destination map_read map_write 5 (PCIDevice_new 1 0 2) 3 0x41 (demo_io 1)
      = Ret ((), io') ∧
    ∃ h a d, programmed map_read map_write (demo_space 1) (PCIDevice_new 1 0 2) 0x50 3 0x41 (space io') h a d.
Proof.
  destruct (configure_msi_programs map_read map_write (PCIDevice_new 1 0 2) 3 0x41 (demo_io 1) 5
    (Some 0x50) 1) as (io' & E & H).
  - lia.
  - lia.
  - apply cap_link; [vm_compute; congruence|vm_compute; congruence|].
    apply (cap_found map_read (demo_space 1) (PCIDevice_new 1 0 2) 0x50); vm_compute; congruence.
  - lia.
  - intros p [= <-]. lia.
  - exists io'. split; [exact E|exact H].
Defined.
