(* ===== verification/Usbd.v ===== *)
(** usb/usbd.rs: USB descriptors. Reading a configuration from a device, parsing its bytes
    into descriptors and building the tree of interfaces and alternate settings.

    A buffer is a list of bytes and a pointer into it an index; a read that leaves the
    buffer is [Panic Undefined]. The device is the parameter [control_in]: the contents of
    the buffer when a control transfer has completed, or an error. Waiting for the
    completion and printing are left out. The [bitfield!] structs over bytes are read
    through [Bitfield], on the little-endian integer of their bytes. *)

From S2P Require Import Prelude Bitfield.

(** Error cases; the event blocks some of them carry are left out. *)
Inductive XhciError :=
  | InvalidTrb
  | RingIsFull
  | InvalidCommandCompletionTrb
  | AddressDeviceCommandFailed
  | UnexpectedDescriptor
  | TransferError.

(** ** Descriptors *)

Record EndpointDescriptor := {
  ep_length : Z;
  ep_descriptor_type : Z;
  endpoint_addr : Z;
  ep_bm_attributes : Z;
  max_packet_size : Z;
  interval : Z;
}.

Definition u8_mul (a b : Z) : outcome Z := chk_u 8 (a * b).
Definition u8_add (a b : Z) : outcome Z := chk_u 8 (a + b).

Definition calc_dci (self : EndpointDescriptor) : outcome Z :=
  let addr := endpoint_addr self in
  a ← u8_mul 2 (Z.land addr 0xf);
  u8_add a (Z.shiftr addr 7).

(** Configuration, interface and HID descriptors are their nine bytes. *)
Inductive Descriptor :=
  | Configuration (d : list Z)
  | Interface (d : list Z)
  | Endpoint (d : EndpointDescriptor)
  | Hid (d : list Z)
  | Unknown (content : list Z).

(** Reads [n] bytes through a raw pointer. *)
Definition read_bytes (buf : list Z) (ptr n : Z) : outcome (list Z) :=
  if (0 <=? ptr) && (ptr + n <=? zlen buf) then Ret (take (Z.to_nat n) (drop (Z.to_nat ptr) buf))
  else Panic Undefined.

Definition EndpointDescriptor_at (buf : list Z) (ptr : Z) : outcome EndpointDescriptor :=
  l ← read_le buf ptr 1;
  t ← read_le buf (ptr + 1) 1;
  a ← read_le buf (ptr + 2) 1;
  b ← read_le buf (ptr + 3) 1;
  m ← read_le buf (ptr + 4) 2;
  i ← read_le buf (ptr + 6) 1;
  Ret {| ep_length := l; ep_descriptor_type := t; endpoint_addr := a; ep_bm_attributes := b;
         max_packet_size := m; interval := i |}.

(** [UnknownDescriptor::clone_from_ptr] *)
Definition clone_from_ptr (buf : list Z) (ptr : Z) : outcome (list Z) :=
  length ← read_le buf ptr 1;
  read_bytes buf ptr length.

Definition read_descriptor (buf : list Z) (ptr : Z) : outcome (option (Descriptor * Z)) :=
  length ← read_le buf ptr 1;
  if length =? 0 then Ret None
  else
    desc_type ← read_le buf (ptr + 1) 1;
    desc ←
      (if desc_type =? 2 then d ← read_bytes buf ptr 9; Ret (Configuration d)
       else if desc_type =? 4 then d ← read_bytes buf ptr 9; Ret (Interface d)
       else if desc_type =? 5 then d ← EndpointDescriptor_at buf ptr; Ret (Endpoint d)
       else if desc_type =? 33 then d ← read_bytes buf ptr 9; Ret (Hid d)
       else d ← clone_from_ptr buf ptr; Ret (Unknown d));
    Ret (Some (desc, ptr + length)).

(** The [while ptr < buf_end] loop of [read_config]. *)
Definition parse_descriptors (buf : list Z) (buf_end : Z) : outcome (list Descriptor) :=
  loop (S (Z.to_nat buf_end)) (λ st,
    let '(ptr, descs) := st in
    if ptr <? buf_end then
      r ← read_descriptor buf ptr;
      match r with
      | None => Ret (inr descs)
      | Some (desc, next_ptr) => Ret (inl (next_ptr, descs ++ [desc]))
      end
    else Ret (inr descs)) (0, []).

(** ** Control requests *)

Inductive ControlRequestType := GetDescriptor | SetConfigutation | SetProtocol | SetInterface.

Record SetupData := {
  request_type : ControlRequestType;
  setup_value : Z;
  setup_index : Z;
  setup_length : Z;
}.

Section usbd.
(** The buffer after a transfer of that many bytes, or an error. *)
Context (control_in : SetupData → Z → list Z + XhciError).

(** The inner result is the buffer or the size to ask for. *)
Definition get_config_descriptor (i_conf buf_sz : Z) : outcome ((list Z + Z) + XhciError) :=
  let setup := {| request_type := GetDescriptor; setup_value := Z.lor 0x0200 (as_u 16 i_conf);
                  setup_index := 0; setup_length := as_u 16 buf_sz |} in
  match control_in setup buf_sz with
  | inr e => Ret (inr e)
  | inl buf =>
      b2 ← vget buf 2;
      b3 ← vget buf 3;
      let total_len := b2 + 256 * b3 in
      if total_len <? buf_sz then Ret (inl (inr total_len)) else Ret (inl (inl buf))
  end.

Definition read_config (i_conf buf_sz : Z) : outcome (list Descriptor + XhciError) :=
  r ← get_config_descriptor i_conf buf_sz;
  match r with
  | inr e => Ret (inr e)
  | inl first =>
      buf ← (match first with
             | inl desc => Ret (inl desc)
             | inr total_size =>
                 r ← get_config_descriptor i_conf total_size;
                 match r with
                 | inr e => Ret (inr e)
                 | inl (inl desc) => Ret (inl desc)
                 | inl (inr _) => Panic UnwrapNone
                 end
             end);
      match buf with
      | inr e => Ret (inr e)
      | inl buf =>
          b2 ← vget buf 2;
          b3 ← vget buf 3;
          descs ← parse_descriptors buf (b2 + 256 * b3);
          Ret (inl descs)
      end
  end.

End usbd.

(** ** Parsing the bytes of a configuration *)

Definition encode (d : Descriptor) : list Z :=
  match d with
  | Configuration b | Interface b | Hid b | Unknown b => b
  | Endpoint e =>
      [ep_length e; ep_descriptor_type e; endpoint_addr e; ep_bm_attributes e] ++
      le_split 2 (max_packet_size e) ++ [interval e]
  end.

(** The first two bytes are the length and the type. *)
Definition starts (b : list Z) (len ty : Z) : Prop :=
  zlen b = len ∧ b !! 0%nat = Some len ∧ b !! 1%nat = Some ty.

Definition descriptor_ok (d : Descriptor) : Prop :=
  match d with
  | Configuration b => starts b 9 2
  | Interface b => starts b 9 4
  | Hid b => starts b 9 33
  | Endpoint e => starts (encode d) 7 5 ∧ in_u 16 (max_packet_size e)
  | Unknown b => ∃ len ty, starts b len ty ∧ 2 ≤ len ∧ ty ≠ 2 ∧ ty ≠ 4 ∧ ty ≠ 5 ∧ ty ≠ 33
  end.

Lemma descriptor_starts d : descriptor_ok d → ∃ len ty, starts (encode d) len ty ∧ 2 ≤ len.
Proof.
  destruct d; simpl; try (intros H; exists 9; eexists; split; [exact H|lia]).
  - intros [H _]. exists 7, 5. split; [exact H|lia].
  - intros (len & ty & H & Hl & _). by exists len, ty.
Qed.

Lemma read_u8 buf p b : 0 ≤ p → buf !! Z.to_nat p = Some b → read_le buf p 1 = Ret b.
Proof.
  intros Hp Hb. pose proof (lookup_lt_Some _ _ _ Hb). unfold read_le.
  rewrite !(proj2 (Z.leb_le _ _)) by lia. cbn [andb]. rewrite (drop_S _ _ _ Hb).
  change (Z.to_nat 1) with 1%nat. simpl. rewrite ?take_0. simpl. f_equal. lia.
Qed.

Lemma read_le_cases buf p n : read_le buf p n = Panic Undefined ∨ ∃ v, read_le buf p n = Ret v.
Proof. unfold read_le. destruct (_ && _); eauto. Qed.

Lemma read_le_out buf p n : zlen buf < p + n → read_le buf p n = Panic Undefined.
Proof.
  intros H. unfold read_le. by rewrite (proj2 (Z.leb_gt (p + n) (zlen buf))), andb_false_r by lia.
Qed.

Lemma read_bytes_out buf p n : zlen buf < p + n → read_bytes buf p n = Panic Undefined.
Proof.
  intros H. unfold read_bytes. by rewrite (proj2 (Z.leb_gt (p + n) (zlen buf))), andb_false_r by lia.
Qed.

(** A buffer that holds the first [n] bytes of [pre ++ b ++ post]. *)
Section window.
Context (pre b post buf : list Z) (n : Z) (len ty : Z).
Context (Hbuf : buf = take (Z.to_nat n) (pre ++ b ++ post)) (Hn : zlen buf = n).
Context (Hb : starts b len ty).

Lemma window_lookup i v :
  b !! i = Some v → zlen pre + Z.of_nat i < n → buf !! (length pre + i)%nat = Some v.
Proof using Hbuf.
  intros Hi Hlt. rewrite Hbuf, lookup_take_lt by lia. rewrite lookup_app_r by lia.
  replace (length pre + i - length pre)%nat with i by lia.
  by rewrite lookup_app_l by (by eapply lookup_lt_Some).
Qed.

Lemma window_u8 i v p :
  p = zlen pre + i → 0 ≤ i → b !! Z.to_nat i = Some v → p < n → read_le buf p 1 = Ret v.
Proof using Hbuf.
  intros -> Hi Hv Hlt. apply read_u8; [lia|].
  replace (Z.to_nat (zlen pre + i)) with (length pre + Z.to_nat i)%nat by lia.
  apply window_lookup; [done|lia].
Qed.

Lemma window_fits : zlen pre + len ≤ n → ∃ post', buf = pre ++ b ++ post'.
Proof using Hbuf Hb.
  intros Hf. destruct Hb as (Hl & _). exists (take (Z.to_nat n - length pre - length b) post).
  rewrite Hbuf. rewrite take_app_ge by lia. f_equal. rewrite take_app_ge by lia. done.
Qed.

Lemma window_bytes k : k = len → read_bytes buf (zlen pre) k =
  if zlen pre + len <=? n then Ret b else Panic Undefined.
Proof using Hbuf Hn Hb.
  intros ->. destruct (Z.leb_spec (zlen pre + len) n) as [Hf|Hf].
  - destruct (window_fits Hf) as (post' & E). unfold read_bytes.
    rewrite !(proj2 (Z.leb_le _ _)) by lia. cbn [andb]. destruct Hb as (Hl & _).
    rewrite E, Nat2Z.id, drop_app_length, take_app_length' by lia. done.
  - apply read_bytes_out. lia.
Qed.

End window.

Lemma read_endpoint pre e post buf n :
  buf = take (Z.to_nat n) (pre ++ encode (Endpoint e) ++ post) → zlen buf = n →
  descriptor_ok (Endpoint e) →
  EndpointDescriptor_at buf (zlen pre) =
  if zlen pre + 7 <=? n then Ret e else Panic Undefined.
Proof.
  intros Hbuf Hn [Hs Hm]. unfold EndpointDescriptor_at.
  destruct (Z.leb_spec (zlen pre + 7) n) as [Hf|Hf].
  - rewrite (window_u8 pre (encode (Endpoint e)) post buf n Hbuf 0 (ep_length e) (zlen pre)), bind_Ret by (done || lia).
    rewrite (window_u8 pre (encode (Endpoint e)) post buf n Hbuf 1 (ep_descriptor_type e) (zlen pre + 1)), bind_Ret by (done || lia).
    rewrite (window_u8 pre (encode (Endpoint e)) post buf n Hbuf 2 (endpoint_addr e) (zlen pre + 2)), bind_Ret by (done || lia).
    rewrite (window_u8 pre (encode (Endpoint e)) post buf n Hbuf 3 (ep_bm_attributes e) (zlen pre + 3)), bind_Ret by (done || lia).
    destruct (window_fits _ _ _ _ _ _ _ Hbuf Hs Hf) as (post' & E).
    assert (read_le buf (zlen pre + 4) 2 = Ret (max_packet_size e)) as ->.
    { rewrite E, (read_le_skip pre _ _ (zlen pre)) by lia.
      replace (zlen pre + 4 - zlen pre) with 4 by lia. cbn [encode]. rewrite <- !app_assoc.
      rewrite (read_le_skip [_; _; _; _] _ _ 4) by (done || lia). change (4 - 4) with 0.
      apply read_le_head; [done|]. exact Hm. }
    rewrite bind_Ret.
    rewrite (window_u8 pre (encode (Endpoint e)) post buf n Hbuf 6 (interval e) (zlen pre + 6)), bind_Ret by (done || lia).
    by destruct e.
  - destruct (read_le_cases buf (zlen pre) 1) as [->|[? ->]]; [done|]. rewrite bind_Ret.
    do 3 (lazymatch goal with |- context [read_le buf ?p 1 ≫= _] =>
      destruct (read_le_cases buf p 1) as [->|[? ->]]; [done|]; rewrite bind_Ret end).
    destruct (read_le_cases buf (zlen pre + 4) 2) as [->|[? ->]]; [done|]. rewrite bind_Ret.
    by rewrite read_le_out by lia.
Qed.

(** Reading one descriptor of a possibly truncated configuration. *)
Lemma read_descriptor_ok pre d post buf n :
  buf = take (Z.to_nat n) (pre ++ encode d ++ post) → zlen buf = n → descriptor_ok d →
  read_descriptor buf (zlen pre) =
  if zlen pre + zlen (encode d) <=? n then Ret (Some (d, zlen pre + zlen (encode d))) else Panic Undefined.
Proof.
  intros Hbuf Hn Hd. destruct (descriptor_starts d Hd) as (len & ty & Hs & Hlen).
  pose proof Hs as (Hl & H0 & H1). rewrite Hl. unfold read_descriptor.
  destruct (Z.ltb_spec (zlen pre + 1) n) as [Hlt|Hge].
  2:{ rewrite (proj2 (Z.leb_gt _ _)) by lia.
      destruct (read_le_cases buf (zlen pre) 1) as [->|[v E]]; [done|].
      assert (zlen pre < n) by (destruct (Z.ltb_spec (zlen pre) n); [done|]; by rewrite read_le_out in E by lia).
      rewrite (window_u8 pre (encode d) post buf n Hbuf 0 len (zlen pre)), bind_Ret by (done || lia).
      rewrite (proj2 (Z.eqb_neq _ _)) by lia. by rewrite read_le_out by lia. }
  rewrite (window_u8 pre (encode d) post buf n Hbuf 0 len (zlen pre)), bind_Ret by (done || lia).
  rewrite (proj2 (Z.eqb_neq len 0)) by lia.
  rewrite (window_u8 pre (encode d) post buf n Hbuf 1 ty (zlen pre + 1)), bind_Ret by (done || lia).
  destruct d as [b|b|e|b|b]; cbn [descriptor_ok encode] in *.
  - destruct Hd as (Hl' & H0' & H1'). assert (len = 9 ∧ ty = 2) as [-> ->] by (split; congruence). simpl.
    rewrite (window_bytes pre b post buf n 9 2 Hbuf Hn Hs 9 eq_refl). by destruct (_ <=? _).
  - destruct Hd as (Hl' & H0' & H1'). assert (len = 9 ∧ ty = 4) as [-> ->] by (split; congruence). simpl.
    rewrite (window_bytes pre b post buf n 9 4 Hbuf Hn Hs 9 eq_refl). by destruct (_ <=? _).
  - pose proof Hd as [(Hl' & H0' & H1') _]. cbn [encode] in Hl', H0', H1'.
    assert (len = 7 ∧ ty = 5) as [-> ->] by (split; congruence). simpl.
    rewrite (read_endpoint pre e post buf n Hbuf Hn Hd). by destruct (_ <=? _).
  - destruct Hd as (Hl' & H0' & H1'). assert (len = 9 ∧ ty = 33) as [-> ->] by (split; congruence). simpl.
    rewrite (window_bytes pre b post buf n 9 33 Hbuf Hn Hs 9 eq_refl). by destruct (_ <=? _).
  - destruct Hd as (len' & ty' & (Hl' & H0' & H1') & _ & ? & ? & ? & ?).
    assert (ty' = ty) as -> by congruence. rewrite !(proj2 (Z.eqb_neq ty _)) by done.
    unfold clone_from_ptr.
    rewrite (window_u8 pre b post buf n Hbuf 0 len (zlen pre)), bind_Ret by (done || lia).
    rewrite (window_bytes pre b post buf n len ty Hbuf Hn Hs len eq_refl). by destruct (_ <=? _).
Qed.

Definition encode_all (ds : list Descriptor) : list Z := concat (encode <$> ds).

Lemma encode_all_app ds1 ds2 : encode_all (ds1 ++ ds2) = encode_all ds1 ++ encode_all ds2.
Proof. unfold encode_all. by rewrite fmap_app, concat_app. Qed.

Lemma encode_pos d : descriptor_ok d → 0 < zlen (encode d).
Proof. intros Hd. destruct (descriptor_starts d Hd) as (len & ty & (Hl & _) & ?). lia. Qed.

(** Parsing the first [n] bytes of a configuration up to its total length. *)
Lemma parse_descriptors_ok ds buf n :
  Forall descriptor_ok ds → buf = take (Z.to_nat n) (encode_all ds) → zlen buf = n →
  parse_descriptors buf (zlen (encode_all ds)) =
  if zlen (encode_all ds) <=? n then Ret ds else Panic Undefined.
Proof.
  intros Hok Hbuf Hn. unfold parse_descriptors. set (total := zlen (encode_all ds)) in *.
  apply (loop_ends (λ st, ∃ rest, ds = st.2 ++ rest ∧ st.1 = zlen (encode_all st.2) ∧ st.1 ≤ n)
    (λ o, o = if total <=? n then Ret ds else Panic Undefined) (λ st, Z.to_nat (total - st.1))).
  - intros [ptr descs] (rest & Hds & Hptr & Hin). simpl in *.
    assert (total = ptr + zlen (encode_all rest)) as Ht.
    { unfold total. rewrite Hds, encode_all_app, length_app. lia. }
    destruct (Z.ltb_spec ptr total) as [Hlt|Hge].
    + destruct rest as [|d rest]; [simpl in Ht; lia|].
      assert (descriptor_ok d) as Hd.
      { rewrite Hds in Hok. apply Forall_app in Hok as [_ Hok]. by apply list.Forall_cons in Hok as [? _]. }
      pose proof (encode_pos d Hd) as Hpos.
      rewrite Hptr, (read_descriptor_ok (encode_all descs) d (encode_all rest) buf n); [|..]; try done.
      2:{ rewrite Hbuf, Hds, encode_all_app. done. }
      rewrite <- Hptr. change (encode_all (d :: rest)) with (encode d ++ encode_all rest) in Ht.
      rewrite length_app in Ht. destruct (Z.leb_spec (ptr + zlen (encode d)) n) as [Hf|Hf].
      * simpl. split; [|lia]. exists rest. split_and!; [by rewrite Hds, <- app_assoc|..]; [|lia].
        rewrite encode_all_app, length_app. unfold encode_all at 2. simpl. rewrite app_nil_r. lia.
      * simpl. by rewrite (proj2 (Z.leb_gt _ _)) by lia.
    + rewrite (proj2 (Z.leb_le _ _)) by lia. destruct rest as [|d rest]; [by rewrite app_nil_r in Hds; subst|].
      assert (descriptor_ok d) as Hd.
      { rewrite Hds in Hok. apply Forall_app in Hok as [_ Hok]. by apply list.Forall_cons in Hok as [? _]. }
      pose proof (encode_pos d Hd). change (encode_all (d :: rest)) with (encode d ++ encode_all rest) in Ht.
      rewrite length_app in Ht. lia.
  - exists ds. split_and!; try done. simpl. lia.
  - simpl. lia.
Qed.

(** The device holds the configuration [ds]: it answers a request for [n] bytes with its
    first [n] bytes, and leaves the rest of the buffer as it was, zero. *)
Definition holds_config (control_in : SetupData → Z → list Z + XhciError) (i_conf : Z)
    (ds : list Descriptor) : Prop :=
  ∀ n, 0 ≤ n → control_in {| request_type := GetDescriptor;
      setup_value := Z.lor 0x0200 (as_u 16 i_conf); setup_index := 0; setup_length := as_u 16 n |} n =
    inl (take (Z.to_nat n) (encode_all ds) ++ replicate (Z.to_nat n - length (encode_all ds)) 0).

(** A configuration starts with its own descriptor, which has the total length. *)
Record config_ok (ds : list Descriptor) : Prop := {
  co_ok : Forall descriptor_ok ds;
  co_head : ∃ b rest b2 b3, ds = Configuration b :: rest ∧ b !! 2%nat = Some b2 ∧ b !! 3%nat = Some b3 ∧
    b2 + 256 * b3 = zlen (encode_all ds);
}.

Lemma get_config_ok control_in i_conf ds n :
  holds_config control_in i_conf ds → config_ok ds → 4 ≤ n →
  ∃ buf b2 b3, get_config_descriptor control_in i_conf n =
      Ret (inl (if zlen (encode_all ds) <? n then inr (zlen (encode_all ds)) else inl buf)) ∧
    buf !! 2%nat = Some b2 ∧ buf !! 3%nat = Some b3 ∧ b2 + 256 * b3 = zlen (encode_all ds) ∧
    (n ≤ zlen (encode_all ds) → buf = take (Z.to_nat n) (encode_all ds)).
Proof.
  intros Hdev [Hok (b & rest & b2 & b3 & -> & H2 & H3 & Ht)] Hn. unfold get_config_descriptor.
  rewrite Hdev by lia. set (ds := Configuration b :: rest) in *.
  set (buf := take _ _ ++ replicate _ 0).
  assert (∀ i v, (i < 4)%nat → b !! i = Some v → buf !! i = Some v) as Hlk.
  { intros i v Hi Hv. assert (encode_all ds !! i = Some v) as Hv'.
    { unfold ds, encode_all. simpl. by rewrite lookup_app_l by (by eapply lookup_lt_Some). }
    unfold buf. rewrite lookup_app_l, lookup_take_lt; [done|lia|].
    rewrite length_take. pose proof (lookup_lt_Some _ _ _ Hv'). lia. }
  exists buf, b2, b3. rewrite (vget_ok buf 2 b2), bind_Ret by (lia || by apply Hlk; [lia|]).
  rewrite (vget_ok buf 3 b3), bind_Ret by (lia || by apply Hlk; [lia|]). rewrite Ht.
  split; [by destruct (_ <? _)|]. split_and!; [apply Hlk; [lia|done]|apply Hlk; [lia|done]|done|].
  intros Hle. unfold buf. replace (Z.to_nat n - length (encode_all ds))%nat with 0%nat by lia.
  by rewrite app_nil_r.
Qed.

(** What [read_config] returns for a device with the configuration [ds]. *)
Lemma read_config_ok (control_in : SetupData → Z → list Z + XhciError) (i_conf buf_sz : Z)
    (ds : list Descriptor) :
  holds_config control_in i_conf ds → config_ok ds → 9 ≤ buf_sz →
  read_config control_in i_conf buf_sz =
  if zlen (encode_all ds) <=? buf_sz then Ret (inl ds) else Panic Undefined.
Proof.
  intros Hdev Hc Hsz. pose proof Hc as [Hok (b & rest & _ & _ & Hds & _)].
  assert (9 ≤ zlen (encode_all ds)) as H9.
  { rewrite Hds in Hok |- *. apply list.Forall_cons in Hok as [(Hb & _) _].
    unfold encode_all. simpl. rewrite length_app. lia. }
  unfold read_config.
  destruct (get_config_ok control_in i_conf ds buf_sz Hdev Hc) as (buf & b2 & b3 & -> & H2 & H3 & Ht & Hbuf); [lia|].
  rewrite bind_Ret. destruct (Z.ltb_spec (zlen (encode_all ds)) buf_sz) as [Hlt|Hge].
  - destruct (get_config_ok control_in i_conf ds (zlen (encode_all ds)) Hdev Hc)
      as (buf' & c2 & c3 & -> & H2' & H3' & Ht' & Hbuf'); [lia|].
    rewrite bind_Ret, Z.ltb_irrefl, bind_Ret.
    rewrite (vget_ok buf' 2 c2), bind_Ret by (done || lia). rewrite (vget_ok buf' 3 c3), bind_Ret by (done || lia).
    rewrite Ht', (parse_descriptors_ok ds buf' (zlen (encode_all ds))); [|done|by apply Hbuf'|].
    + by rewrite !(proj2 (Z.leb_le _ _)) by lia.
    + rewrite Hbuf' by lia. rewrite length_take. lia.
  - rewrite bind_Ret.
    rewrite (vget_ok buf 2 b2), bind_Ret by (done || lia). rewrite (vget_ok buf 3 b3), bind_Ret by (done || lia).
    rewrite Ht, (parse_descriptors_ok ds buf buf_sz); [|done|by apply Hbuf|].
    + by destruct (_ <=? _).
    + rewrite Hbuf by done. rewrite length_take. lia.
Qed.

(** Reading a configuration. A device whose configuration fits the buffer is read
    completely: the descriptors come back as the device has them, after a second request
    of the exact length if the buffer was larger. A configuration longer than the buffer
    is not asked for again: the parser runs past the end of the buffer (undefined
    behaviour) at the first descriptor that is not inside it. *)
Lemma read_config_parses (control_in : SetupData → Z → list Z + XhciError) (i_conf buf_sz : Z)
    (ds : list Descriptor) :
  holds_config control_in i_conf ds → config_ok ds → 9 ≤ buf_sz →
  read_config control_in i_conf buf_sz =
  if zlen (encode_all ds) <=? buf_sz then Ret (inl ds) else Panic Undefined.
Proof. apply read_config_ok. Qed.

(** ** The tree of interfaces *)

Section tree.
Context `{!Bitfield}.

(** Accessors of the descriptor structs, by the bit ranges of their declarations. *)
Definition configuration_value (d : list Z) : Z := bit_range (le_combine d) 47 40.
Definition i_configuration (d : list Z) : Z := bit_range (le_combine d) 55 48.
Definition bm_attributes (d : list Z) : Z := bit_range (le_combine d) 63 56.
Definition max_power (d : list Z) : Z := bit_range (le_combine d) 71 64.
Definition interface_number (d : list Z) : Z := bit_range (le_combine d) 23 16.
Definition alternate_setting (d : list Z) : Z := bit_range (le_combine d) 31 24.
Definition interface_class (d : list Z) : Z := bit_range (le_combine d) 47 40.
Definition interface_subclass (d : list Z) : Z := bit_range (le_combine d) 55 48.
Definition interface_protocol (d : list Z) : Z := bit_range (le_combine d) 63 56.
Definition i_interface (d : list Z) : Z := bit_range (le_combine d) 71 64.

(** Such a field of eight bits is a byte of the descriptor. *)
Lemma byte_field d k b :
  Forall (in_u 8) d → d !! k = Some b →
  bit_range (le_combine d) (8 * Z.of_nat k + 7) (8 * Z.of_nat k) = b.
Proof.
  intros Hd Hk. assert (∀ l, Forall (in_u 8) l → 0 ≤ le_combine l < 256 ^ zlen l) as Hr.
  { induction 1 as [|x l Hx _ IH]; [simpl; lia|]. cbn [le_combine length]. unfold in_u in Hx.
    rewrite Nat2Z.inj_succ, Z.pow_succ_r by lia. lia. }
  pose proof (lookup_lt_Some _ _ _ Hk) as Hlt. pose proof (proj1 (Forall_lookup _ _) Hd k b Hk) as Hb. unfold in_u in Hb.
  pose proof (Hr _ (Forall_take _ k _ Hd)) as Hp. rewrite length_take_le in Hp by lia.
  rewrite <- (take_drop_middle d k b Hk), le_combine_app, length_take_le by lia. cbn [le_combine].
  rewrite bit_range_spec by lia. replace (8 * Z.of_nat k + 7 - 8 * Z.of_nat k + 1) with 8 by lia.
  change 256 with (2 ^ 8) in *. rewrite <- Z.pow_mul_r in * by lia. set (q := 2 ^ (8 * Z.of_nat k)) in *.
  rewrite (Z.mul_comm q), Z.div_add, Z.div_small, Z.add_0_l by lia. rewrite Z.mul_comm, Z.mod_add by lia. by apply Z.mod_small.
Qed.

(** The configuration's number and the interface's are bytes 5 and 2. *)
Lemma number_bytes c alt v i :
  Forall (in_u 8) c → c !! 5%nat = Some v → Forall (in_u 8) alt → alt !! 2%nat = Some i →
  configuration_value c = v ∧ interface_number alt = i.
Proof. intros Hc Hv Ha Hi. split; [exact (byte_field c 5 v Hc Hv)|exact (byte_field alt 2 i Ha Hi)]. Qed.

Record UsbInterfaceAlternate := {
  endpoints : list Descriptor;
  alt_interface_num : Z;
  alternate_setting_num : Z;
  class : Z;
  subclass : Z;
  protocol : Z;
  alt_i_interface : Z;
}.

Definition UsbInterfaceAlternate_new (desc : list Z) (eps : list Descriptor) : UsbInterfaceAlternate :=
  {| endpoints := eps; alt_interface_num := interface_number desc;
     alternate_setting_num := alternate_setting desc; class := interface_class desc;
     subclass := interface_subclass desc; protocol := interface_protocol desc;
     alt_i_interface := i_interface desc |}.

Record UsbInterface := { alternates : list UsbInterfaceAlternate; interface_num : Z }.

Record UsbConfiguration := {
  interfaces : list UsbInterface;
  configuration_val : Z;
  conf_i_configuration : Z;
  conf_bm_attributes : Z;
  conf_max_power : Z;
}.

Definition UsbConfiguration_new (desc : list Z) (intfs : list UsbInterface) : UsbConfiguration :=
  {| interfaces := intfs; configuration_val := configuration_value desc;
     conf_i_configuration := i_configuration desc; conf_bm_attributes := bm_attributes desc;
     conf_max_power := max_power desc |}.

(** The [for i in 1..desc_arr.len()] loop, from the rest of the slice on. *)
Fixpoint collect_endpoints (alt : list Z) (eps rest : list Descriptor)
    : option (UsbInterfaceAlternate * list Descriptor) :=
  match rest with
  | [] => Some (UsbInterfaceAlternate_new alt eps, [])
  | Interface _ :: _ => Some (UsbInterfaceAlternate_new alt eps, rest)
  | Configuration _ :: _ => None
  | desc :: rest => collect_endpoints alt (eps ++ [desc]) rest
  end.

Definition construct_interface_alternate (desc_arr : list Descriptor)
    : option (UsbInterfaceAlternate * list Descriptor) :=
  match desc_arr with
  | Interface alt :: rest => collect_endpoints alt [] rest
  | _ => None
  end.

(** An alternate takes at least one descriptor, so the length of the slice is enough fuel. *)
Definition construct_interface (desc_arr : list Descriptor)
    : outcome (option (UsbInterface * list Descriptor)) :=
  match desc_arr with
  | Interface d :: _ =>
      let intf_num := interface_number d in
      loop (S (length desc_arr)) (λ st,
        let '(desc_arr, alts) := st in
        match construct_interface_alternate desc_arr with
        | Some (alt, remain) =>
            if alt_interface_num alt =? intf_num then Ret (inl (remain, alts ++ [alt]))
            else Ret (inr (Some ({| interface_num := intf_num; alternates := alts |}, desc_arr)))
        | None => Ret (inr (Some ({| interface_num := intf_num; alternates := alts |}, desc_arr)))
        end) (desc_arr, [])
  | _ => Ret None
  end.

(** The [while let Some((intf, remain)) = construct_interface(desc_arr)] loop. *)
Definition configuration_step (conf_desc : list Z) (st : list Descriptor * list UsbInterface)
    : outcome (list Descriptor * list UsbInterface + option UsbConfiguration) :=
  let '(desc_arr, intfs) := st in
  r ← construct_interface desc_arr;
  match r with
  | Some (intf, remain) => Ret (inl (remain, intfs ++ [intf]))
  | None => Ret (inr (Some (UsbConfiguration_new conf_desc intfs)))
  end.

Definition construct_configuration (fuel : nat) (desc_arr : list Descriptor)
    : outcome (option UsbConfiguration) :=
  match desc_arr with
  | Configuration conf_desc :: desc_arr => loop fuel (configuration_step conf_desc) (desc_arr, [])
  | _ => Ret None
  end.

(** ** Building the tree *)

Definition is_leaf (d : Descriptor) : bool :=
  match d with Configuration _ | Interface _ => false | _ => true end.

(** An interface as a device describes it: alternate settings, each with the descriptors
    that follow it. *)
Definition intf_descs (alts : list (list Z * list Descriptor)) : list Descriptor :=
  concat ((λ a, Interface a.1 :: a.2) <$> alts).

Definition intf_of (num : Z) (alts : list (list Z * list Descriptor)) : UsbInterface :=
  {| alternates := (λ a, UsbInterfaceAlternate_new a.1 a.2) <$> alts; interface_num := num |}.

Definition intf_ok (num : Z) (alts : list (list Z * list Descriptor)) : Prop :=
  alts ≠ [] ∧ Forall (λ a, interface_number a.1 = num ∧ Forall (λ d, is_leaf d = true) a.2) alts.

(** Neighbouring interfaces have different numbers. *)
Fixpoint intfs_ok (l : list (Z * list (list Z * list Descriptor))) : Prop :=
  match l with
  | [] => True
  | (num, alts) :: l =>
      intf_ok num alts ∧ intfs_ok l ∧ match l with (num', _) :: _ => num' ≠ num | [] => True end
  end.

(** What can follow an alternate setting in a slice. *)
Definition boundary (rest : list Descriptor) : Prop :=
  match rest with [] => True | Interface _ :: _ => True | _ => False end.

Lemma collect_endpoints_ok alt eps leaves rest :
  Forall (λ d, is_leaf d = true) leaves → boundary rest →
  collect_endpoints alt eps (leaves ++ rest) = Some (UsbInterfaceAlternate_new alt (eps ++ leaves), rest).
Proof.
  intros Hl Hr. revert eps. induction Hl as [|d leaves Hd _ IH]; intros eps; simpl.
  - rewrite app_nil_r. by destruct rest as [|[]].
  - destruct d; simpl in Hd; try done; by rewrite IH, <- app_assoc.
Qed.

Lemma intf_descs_boundary alts rest : boundary rest → boundary (intf_descs alts ++ rest).
Proof. by destruct alts as [|[? ?] ?]. Qed.

Lemma intf_descs_length alts : (length alts ≤ length (intf_descs alts))%nat.
Proof.
  induction alts as [|[d leaves] alts IH]; [simpl; lia|].
  change (intf_descs ((d, leaves) :: alts)) with (Interface d :: leaves ++ intf_descs alts).
  simpl. rewrite length_app. lia.
Qed.

(** Does the slice start with an alternate setting of the interface [num]? *)
Definition continues (num : Z) (rest : list Descriptor) : Prop :=
  match rest with Interface d :: _ => interface_number d = num | _ => False end.

(** A slice that starts with a setting of another interface, or a bad one, ends the loop. *)
Lemma collect_interface_num alt eps rest a r :
  collect_endpoints alt eps rest = Some (a, r) → alt_interface_num a = interface_number alt.
Proof.
  revert eps. induction rest as [|[] rest IH]; intros eps; simpl; intros E; simplify_eq; eauto.
Qed.

Lemma construct_interface_ok num alts rest :
  intf_ok num alts → boundary rest → ¬ continues num rest →
  construct_interface (intf_descs alts ++ rest) = Ret (Some (intf_of num alts, rest)).
Proof.
  intros [Hne Hall] Hrest Hnc.
  assert (∀ todo done fuel, Forall (λ a, interface_number a.1 = num ∧ Forall (λ d, is_leaf d = true) a.2) todo →
    (length todo < fuel)%nat →
    loop fuel (λ st,
        let '(desc_arr, alts) := st in
        match construct_interface_alternate desc_arr with
        | Some (alt, remain) =>
            if alt_interface_num alt =? num then Ret (inl (remain, alts ++ [alt]))
            else Ret (inr (Some ({| interface_num := num; alternates := alts |}, desc_arr)))
        | None => Ret (inr (Some ({| interface_num := num; alternates := alts |}, desc_arr)))
        end) (intf_descs todo ++ rest, done) =
    Ret (Some ({| alternates := done ++ ((λ a, UsbInterfaceAlternate_new a.1 a.2) <$> todo);
                  interface_num := num |}, rest))) as Hloop.
  { induction todo as [|[d leaves] todo IH]; intros done [|fuel] Hok Hf; simpl in Hf; try lia; cbn [loop].
    - change (intf_descs [] ++ rest) with rest. simpl. rewrite app_nil_r.
      destruct (construct_interface_alternate rest) as [[a r]|] eqn:E; [|done].
      destruct rest as [|[]]; simpl in *; try done. apply collect_interface_num in E.
      by rewrite (proj2 (Z.eqb_neq _ _)) by congruence.
    - apply list.Forall_cons in Hok as [[Hnum Hl] Hok]. simpl in Hnum, Hl.
      change (intf_descs ((d, leaves) :: todo) ++ rest)
        with (Interface d :: (leaves ++ intf_descs todo) ++ rest).
      cbn [construct_interface_alternate]. rewrite <- app_assoc, collect_endpoints_ok; [|done|by apply intf_descs_boundary].
      cbn [alt_interface_num UsbInterfaceAlternate_new]. rewrite Hnum, Z.eqb_refl, bind_Ret.
      rewrite IH by (done || lia). simpl. by rewrite <- app_assoc. }
  destruct alts as [|[d leaves] alts]; [done|].
  change (intf_descs ((d, leaves) :: alts) ++ rest) with (Interface d :: (leaves ++ intf_descs alts) ++ rest).
  unfold construct_interface. cbv zeta. pose proof Hall as Hall'.
  apply list.Forall_cons in Hall as [[Hnum _] _]. simpl in Hnum. rewrite Hnum.
  apply (Hloop ((d, leaves) :: alts) []); [done|].
  pose proof (intf_descs_length alts). simpl. rewrite !length_app. lia.
Qed.

(** Building the tree: from the descriptors of a configuration whose interfaces are
    groups of alternate settings with one number, neighbours differing, and whose settings
    are followed by descriptors that are neither interfaces nor configurations,
    [construct_configuration] returns exactly these interfaces, settings and descriptors,
    in order; fuel above the number of interfaces is enough. *)
Lemma construct_configuration_ok (c : list Z) (l : list (Z * list (list Z * list Descriptor)))
    (fuel : nat) :
  intfs_ok l → (length l < fuel)%nat →
  construct_configuration fuel (Configuration c :: concat ((λ i, intf_descs i.2) <$> l)) =
  Ret (Some (UsbConfiguration_new c ((λ i, intf_of i.1 i.2) <$> l))).
Proof.
  intros Hok Hf. unfold construct_configuration.
  change (UsbConfiguration_new c ((λ i, intf_of i.1 i.2) <$> l))
    with (UsbConfiguration_new c ([] ++ ((λ i, intf_of i.1 i.2) <$> l))).
  generalize (@nil UsbInterface) as acc. revert fuel Hok Hf.
  induction l as [|[num alts] l IH]; intros [|fuel] Hok Hf acc; simpl in Hf; try lia; cbn [loop configuration_step].
  - cbn. by rewrite app_nil_r.
  - destruct Hok as (Hi & Hl & Hn). rewrite !fmap_cons. cbn [concat snd fst].
    rewrite (construct_interface_ok num); [|done|..].
    + rewrite !bind_Ret, (IH fuel Hl) by lia. by rewrite <- app_assoc.
    + destruct l as [|[num' [|[? ?] ?]] ?]; [done| |done]. by destruct Hl as [[[] _] _].
    + destruct l as [|[num' [|[d ?] ?]] ?]; [by intros []|by destruct Hl as [[[] _] _]|].
      destruct Hl as [[_ Hall] _]. apply list.Forall_cons in Hall as [[Hd _] _]. simpl in *. congruence.
Qed.

(** A slice on which the construction makes no end: an interface with a configuration
    descriptor after it. *)
Definition stuck (t : list Descriptor) : Prop :=
  match t with Interface _ :: t => ∃ c, Configuration c ∈ t | _ => False end.

Lemma collect_stuck alt eps rest a r c :
  Configuration c ∈ rest → collect_endpoints alt eps rest = Some (a, r) →
  stuck r ∧ (length r ≤ length rest)%nat.
Proof.
  revert eps. induction rest as [|d rest IH]; intros eps Hc; [by apply elem_of_nil in Hc|].
  apply elem_of_cons in Hc as [<-|Hc]; [done|].
  destruct d; cbn [collect_endpoints]; intros E; simplify_eq;
    try (split; [by exists c|done]); destruct (IH _ Hc E); split; try done; simpl; lia.
Qed.

Lemma construct_interface_stuck t :
  stuck t → ∃ intf r, construct_interface t = Ret (Some (intf, r)) ∧ stuck r.
Proof.
  intros Ht. destruct t as [|[|d| | |] t]; try done. unfold construct_interface. cbv zeta.
  match goal with |- ∃ intf r, loop ?f ?b ?s = _ ∧ _ =>
    destruct (loop_total (λ st, stuck st.1) (λ o, ∃ intf r, o = Some (intf, r) ∧ stuck r)
      (λ st, length st.1) b f s) as (o & -> & intf & r & -> & Hr) end; [|done|simpl; lia|by eauto].
  intros [arr alts] Hs. simpl in Hs. destruct arr as [|[|d'| | |] arr]; try done.
  cbn [construct_interface_alternate].
  destruct (collect_endpoints d' [] arr) as [[a r]|] eqn:E.
  2:{ eexists. split; [done|]. simpl. by eauto. }
  destruct Hs as [c Hc]. destruct (collect_stuck _ _ _ _ _ _ Hc E) as [Hst Hlen].
  destruct (_ =? _); eexists; (split; [done|]); simpl; [split; [done|lia]|].
  eexists _, _. split; [done|]. by exists c.
Qed.

(** C26: a device can hang the kernel. If a configuration's first descriptor is followed
    by an interface and, anywhere later, by another configuration descriptor,
    [construct_configuration] never returns: it adds interfaces to its vector for ever. *)
Theorem construct_configuration_hangs (c c' d : list Z) (t : list Descriptor) (fuel : nat) :
  Configuration c' ∈ t →
  construct_configuration fuel (Configuration c :: Interface d :: t) = OutOfFuel.
Proof.
  intros Hc. unfold construct_configuration. generalize (@nil UsbInterface) as acc.
  assert (stuck (Interface d :: t)) as Hs by (by exists c').
  revert Hs. generalize (Interface d :: t) as arr. induction fuel as [|fuel IH]; intros arr Hs acc; [done|].
  cbn [loop configuration_step]. destruct (construct_interface_stuck arr Hs) as (intf & r & -> & Hr).
  rewrite !bind_Ret. by apply IH.
Qed.

End tree.

(** ** Devices *)

Record UsbDevice := {
  slot_id : Z;
  configs : list UsbConfiguration;
  config_selected : option Z;
  alternates_selected : list Z;
}.

Definition UsbDevice_new (slot : Z) (confs : list UsbConfiguration) : UsbDevice :=
  {| slot_id := slot; configs := confs; config_selected := None; alternates_selected := [] |}.

(** [control_out]: a request without data, what it makes of the device, and how it
    completes. *)
Definition set_configuration {D} (control_out : D → SetupData → D * (() + XhciError)) (dev : D)
    (self : UsbDevice) (config : Z) : outcome (D * UsbDevice * (() + XhciError)) :=
  conf ← vget (configs self) config;
  let setup := {| request_type := SetConfigutation; setup_value := configuration_val conf;
                  setup_index := 0; setup_length := 0 |} in
  match control_out dev setup with
  | (dev, inr e) => Ret (dev, self, inr e)
  | (dev, inl _) =>
      Ret (dev, {| slot_id := slot_id self; configs := configs self; config_selected := Some config;
              alternates_selected := alternates_selected self ++ replicate (length (interfaces conf)) 0 |},
           inl ())
  end.

(** The selection is stored before the request is made. *)
Definition set_interface {D} (control_out : D → SetupData → D * (() + XhciError)) (dev : D) (self : UsbDevice)
    (interface alternate : Z) : outcome (D * UsbDevice * (() + XhciError)) :=
  sel ← unwrap (config_selected self);
  config ← vget (configs self) sel;
  intf ← vget (interfaces config) interface;
  _ ← assert_ (alternate <? zlen (alternates intf));
  alts ← vset (alternates_selected self) interface (as_u 8 alternate);
  let self := {| slot_id := slot_id self; configs := configs self;
                 config_selected := config_selected self; alternates_selected := alts |} in
  let setup := {| request_type := SetInterface; setup_value := as_u 16 alternate;
                  setup_index := as_u 16 interface; setup_length := 0 |} in
  let '(dev, r) := control_out dev setup in
  Ret (dev, self, r).

(** One selected alternate setting per interface of the selected configuration. *)
Definition selection_ok (self : UsbDevice) : Prop :=
  match config_selected self with
  | None => alternates_selected self = []
  | Some c => ∃ conf, vget (configs self) c = Ret conf ∧
      length (alternates_selected self) = length (interfaces conf) ∧
      ∀ i a intf, alternates_selected self !! i = Some a → interfaces conf !! i = Some intf →
        alternates intf ≠ [] → 0 ≤ a < zlen (alternates intf)
  end.

Lemma set_configuration_selects {D} (control_out : D → SetupData → D * (() + XhciError)) dev self config dev' self' r :
  selection_ok self → config_selected self = None →
  set_configuration control_out dev self config = Ret (dev', self', r) → selection_ok self'.
Proof.
  unfold selection_ok at 1. intros Hs Hn. rewrite Hn in Hs. unfold set_configuration. intros H. inv_outcome.
  destruct (control_out _ _) as [? [[]|e]]; inv_outcome; simplify_eq.
  - unfold selection_ok. simpl. exists a. rewrite Hs. simpl. rewrite length_replicate.
    split_and!; [done|done|]. intros i v intf [-> Hi]%lookup_replicate_1 _ Hne.
    destruct (alternates intf); [done|simpl; lia].
  - unfold selection_ok. by rewrite Hn.
Qed.

Lemma set_interface_selects {D} (control_out : D → SetupData → D * (() + XhciError)) dev self i alt dev' self' r :
  selection_ok self → 0 ≤ alt < 256 → set_interface control_out dev self i alt = Ret (dev', self', r) →
  selection_ok self' ∧ alternates_selected self' !! Z.to_nat i = Some alt.
Proof.
  intros Hs Halt H. unfold set_interface in H. inv_outcome. destruct (control_out _ _) as [? ?]. inv_outcome. simplify_eq.
  destruct (config_selected self) as [sel|] eqn:Esel; [|done]. simpl in Hs0. simplify_eq.
  unfold selection_ok in Hs. rewrite Esel in Hs. destruct Hs as (conf & Hc & Hlen & Hall).
  assert (a0 = conf) as -> by congruence.
  apply vset_inv in Hs4 as [Hi ->]. apply vget_inv in Hs2 as [_ Hintf].
  rewrite as_u_small by lia. simpl. split; [|by rewrite list_lookup_insert_eq by lia].
  unfold selection_ok. simpl. exists conf. split_and!; [done|by rewrite length_insert|].
  intros j v intf Hj Hji Hne. destruct (decide (j = Z.to_nat i)) as [->|Hji'].
  - rewrite list_lookup_insert_eq in Hj by lia. simplify_eq. unfold assert_ in Hs3.
    destruct (Z.ltb_spec v (zlen (alternates a1))) as [Hlt|]; [|done]. congruence || lia.
  - rewrite list_lookup_insert_ne in Hj by done. by eapply Hall.
Qed.

(** [KeyboardClass::new] and [MouseClass::new]: slot, interface and the context index of the
    first endpoint. *)
Record HidClass := { hid_slot_id : Z; hid_interface : Z; hid_dci : Z }.

Fixpoint first_dci (eps : list Descriptor) : outcome (option Z) :=
  match eps with
  | [] => Ret None
  | Endpoint desc :: _ => d ← calc_dci desc; Ret (Some d)
  | _ :: eps => first_dci eps
  end.

Definition HidClass_new (slot : Z) (interface : UsbInterfaceAlternate) : outcome (option HidClass) :=
  dci ← first_dci (endpoints interface);
  Ret (d ← dci; Some {| hid_slot_id := slot; hid_interface := alt_interface_num interface; hid_dci := d |}).

(** The device context index: two per endpoint number, odd for the direction to the host. *)
Lemma calc_dci_ok e :
  in_u 8 (endpoint_addr e) →
  calc_dci e = Ret (2 * (endpoint_addr e mod 16) + endpoint_addr e / 128) ∧
  2 * (endpoint_addr e mod 16) + endpoint_addr e / 128 < 32.
Proof.
  intros He. unfold in_u in He. unfold calc_dci, u8_mul, u8_add.
  change 0xf with (Z.ones 4). rewrite Z.land_ones, Z.shiftr_div_pow2 by lia.
  change (2 ^ 4) with 16. change (2 ^ 7) with 128.
  pose proof (Z.mod_pos_bound (endpoint_addr e) 16 ltac:(lia)).
  assert (0 ≤ endpoint_addr e / 128 < 2) by (split; [apply Z.div_pos; lia|apply Z.div_lt_upper_bound; lia]).
  rewrite chk_u_ok, bind_Ret by lia. rewrite chk_u_ok by lia. split; [done|lia].
Qed.

(** ** A concrete device *)

(** A boot-protocol keyboard: one interface, with a HID and an endpoint descriptor. *)
Definition demo_conf : list Z := [9; 2; 34; 0; 1; 1; 0; 160; 50].
Definition demo_intf : list Z := [9; 4; 0; 0; 1; 3; 1; 1; 0].
Definition demo_leaves : list Descriptor :=
  [Hid [9; 33; 17; 1; 0; 1; 34; 63; 0];
   Endpoint {| ep_length := 7; ep_descriptor_type := 5; endpoint_addr := 129; ep_bm_attributes := 3;
               max_packet_size := 8; interval := 10 |}].
Definition demo_config : list Descriptor := Configuration demo_conf :: Interface demo_intf :: demo_leaves.

Definition demo_device (setup : SetupData) (n : Z) : list Z + XhciError :=
  inl (take (Z.to_nat n) (encode_all demo_config) ++
       replicate (Z.to_nat n - length (encode_all demo_config)) 0).

Lemma demo_config_ok : config_ok demo_config.
Proof.
  split.
  - repeat constructor; vm_compute; congruence.
  - by exists demo_conf, (Interface demo_intf :: demo_leaves), 34, 0.
Qed.

Lemma read_config_parses_witness :
  read_config demo_device 0 64 = Ret (inl demo_config) ∧ read_config demo_device 0 20 = Panic Undefined.
Proof.
  split.
  - apply (read_config_parses demo_device 0 64 demo_config); [done|exact demo_config_ok|lia].
  - apply (read_config_parses demo_device 0 20 demo_config); [done|exact demo_config_ok|lia].
Defined.

Lemma construct_configuration_ok_witness :
  construct_configuration 2 demo_config =
  Ret (Some (UsbConfiguration_new demo_conf [intf_of 0 [(demo_intf, demo_leaves)]])).
Proof.
  apply (construct_configuration_ok demo_conf [(0, [(demo_intf, demo_leaves)])] 2); [|simpl; lia].
  split; [|done]. split; [done|]. repeat constructor.
Defined.

Lemma construct_configuration_hangs_witness :
  construct_configuration 1000 [Configuration demo_conf; Interface demo_intf; Configuration demo_conf] = OutOfFuel.
Proof. apply (construct_configuration_hangs demo_conf demo_conf demo_intf [Configuration demo_conf]). left. Defined.
