(* ===== verification/ByteMem.v ===== *)
(** Memory as bytes: what the boot loader, the processor's tables and the assembly routines
    read and write through addresses. *)

From S2P Require Import Prelude.

(** Contents by address. *)
Definition memory : Type := Z → Z.

Definition store (mem : memory) (addr : Z) (bs : list Z) : memory :=
  λ a, if (addr <=? a) && (a <? addr + zlen bs) then default 0 (bs !! Z.to_nat (a - addr)) else mem a.

Definition load (mem : memory) (addr n : Z) : list Z := mem <$> seqZ addr n.

Lemma length_load mem addr n : 0 ≤ n → zlen (load mem addr n) = n.
Proof. intros. unfold load. rewrite length_fmap, length_seqZ. lia. Qed.

Lemma load_store mem addr bs : load (store mem addr bs) addr (zlen bs) = bs.
Proof.
  apply list_eq_same_length with (length bs); [done|unfold load; by rewrite length_fmap, length_seqZ, Nat2Z.id|].
  intros i x y Hi Hx Hy. unfold load in Hx. rewrite list_lookup_fmap in Hx.
  destruct (seqZ addr (zlen bs) !! i) as [a|] eqn:Ea; [|done]. apply lookup_seqZ in Ea as [-> _].
  injection Hx as <-. unfold store. rewrite (proj2 (Z.leb_le _ _)), (proj2 (Z.ltb_lt _ _)) by lia. cbn [andb].
  replace (Z.to_nat (addr + Z.of_nat i - addr)) with i by lia. by rewrite Hy.
Qed.

Definition ranges_apart (a n a' n' : Z) : Prop := a + n ≤ a' ∨ a' + n' ≤ a.

Lemma store_out mem addr bs a : ¬ (addr ≤ a < addr + zlen bs) → store mem addr bs a = mem a.
Proof. intros H. unfold store. destruct (Z.leb_spec addr a), (Z.ltb_spec a (addr + zlen bs)); simpl; done || lia. Qed.

Lemma load_store_apart mem addr bs a n : ranges_apart addr (zlen bs) a n → load (store mem addr bs) a n = load mem a n.
Proof.
  intros H. unfold load. apply list_fmap_ext. intros i x Hx%lookup_seqZ. apply store_out.
  unfold ranges_apart in H. lia.
Qed.

Lemma load_take mem addr n m : 0 ≤ n ≤ m → load mem addr n = take (Z.to_nat n) (load mem addr m).
Proof.
  intros H. unfold load. rewrite <- fmap_take. f_equal. replace m with (n + (m - n)) by lia.
  rewrite seqZ_app by lia. by rewrite take_app_length' by (rewrite length_seqZ; lia).
Qed.


Lemma load_slice mem addr k n m :
  0 ≤ k → 0 ≤ n → k + n ≤ m → load mem (addr + k) n = take (Z.to_nat n) (drop (Z.to_nat k) (load mem addr m)).
Proof.
  intros Hk Hn Hm. unfold load. rewrite <- fmap_drop, <- fmap_take. f_equal.
  replace m with (k + (n + (m - k - n))) by lia. rewrite seqZ_app by lia.
  rewrite drop_app_length' by (rewrite length_seqZ; lia). rewrite seqZ_app by lia.
  by rewrite take_app_length' by (rewrite length_seqZ; lia).
Qed.
