(* ===== verification/Elf.v ===== *)
(** bootloader/src/elf.rs and load_kernel of bootloader/src/main.rs: reading the kernel's
    ELF file and placing its segments in memory.

    The file is the byte vector the firmware returned; physical memory is a function from
    addresses to bytes that does not overlap the file's buffer. The firmware's page
    allocation is a parameter that grants or refuses a range of pages. Printing is left
    out, except for the difference it computes. *)

From S2P Require Import Prelude ByteMem.

Definition u64_add (a b : Z) : outcome Z := chk_u 64 (a + b).
Definition u64_sub (a b : Z) : outcome Z := chk_u 64 (a - b).

Record Elf64_Ehdr := {
  e_ident : list Z;
  e_type : Z;
  e_machine : Z;
  e_version : Z;
  e_entry : Z;
  e_phoff : Z;
  e_shoff : Z;
  e_flags : Z;
  e_ehsize : Z;
  e_phentsize : Z;
  e_phnum : Z;
  e_shentsize : Z;
  e_shnum : Z;
  e_shstrndx : Z;
}.

(** [p_type] is the number in the file: the enum is compared, never matched on. *)
Record Elf64_Phdr := {
  p_type : Z;
  p_flags : Z;
  p_offset : Z;
  p_vaddr : Z;
  p_paddr : Z;
  p_filesz : Z;
  p_memsz : Z;
  p_align : Z;
}.

Definition PT_LOAD : Z := 1.

Definition inmem_range (self : Elf64_Phdr) : outcome (Z * Z) :=
  e ← u64_add (p_vaddr self) (p_memsz self); Ret (p_vaddr self, e).
Definition inmem_size (self : Elf64_Phdr) : Z := p_memsz self.
Definition infile_range (self : Elf64_Phdr) : outcome (Z * Z) :=
  e ← u64_add (p_offset self) (p_filesz self); Ret (p_offset self, e).
Definition infile_size (self : Elf64_Phdr) : Z := p_filesz self.

Record ElfFile := { elf_header : Elf64_Ehdr; prog_headers : list Elf64_Phdr }.

(** A [repr(C)] Elf64_Ehdr at the start of the buffer (64 bytes). *)
Definition Elf64_Ehdr_at (buf : list Z) : outcome Elf64_Ehdr :=
  _ ← read_le buf 0 16;
  ty ← read_le buf 16 2;
  ma ← read_le buf 18 2;
  ve ← read_le buf 20 4;
  en ← read_le buf 24 8;
  ph ← read_le buf 32 8;
  sh ← read_le buf 40 8;
  fl ← read_le buf 48 4;
  eh ← read_le buf 52 2;
  pe ← read_le buf 54 2;
  pn ← read_le buf 56 2;
  se ← read_le buf 58 2;
  sn ← read_le buf 60 2;
  si ← read_le buf 62 2;
  Ret {| e_ident := take 16 buf; e_type := ty; e_machine := ma; e_version := ve; e_entry := en;
         e_phoff := ph; e_shoff := sh; e_flags := fl; e_ehsize := eh; e_phentsize := pe;
         e_phnum := pn; e_shentsize := se; e_shnum := sn; e_shstrndx := si |}.

Definition SIZE_OF_PHDR : Z := 56.

(** A [repr(C)] Elf64_Phdr; the type is a [u16] followed by two bytes of padding. *)
Definition Elf64_Phdr_at (buf : list Z) (off : Z) : outcome Elf64_Phdr :=
  ty ← read_le buf off 2;
  fl ← read_le buf (off + 4) 4;
  po ← read_le buf (off + 8) 8;
  va ← read_le buf (off + 16) 8;
  pa ← read_le buf (off + 24) 8;
  fs ← read_le buf (off + 32) 8;
  ms ← read_le buf (off + 40) 8;
  al ← read_le buf (off + 48) 8;
  Ret {| p_type := ty; p_flags := fl; p_offset := po; p_vaddr := va; p_paddr := pa;
         p_filesz := fs; p_memsz := ms; p_align := al |}.

(** [ElfFile::from_buffer]; the offset is a signed [isize]. *)
Definition from_buffer (buffer : list Z) : outcome ElfFile :=
  hdr ← Elf64_Ehdr_at buffer;
  phs ← foldM (λ acc i,
    ph ← Elf64_Phdr_at buffer (as_s 64 (e_phoff hdr) + SIZE_OF_PHDR * i); Ret (acc ++ [ph]))
    (range 0 (e_phnum hdr)) [];
  Ret {| elf_header := hdr; prog_headers := phs |}.

(** [prog_headers.iter().filter(|h| h.p_type == PT_LOAD)] *)
Definition loads (self : ElfFile) : list Elf64_Phdr :=
  filter (λ h, p_type h = PT_LOAD) (prog_headers self).

Definition calc_load_address_range (self : ElfFile) : outcome (Z * Z) :=
  foldM (λ fl phdr,
    mem_range ← inmem_range phdr;
    Ret (Z.min fl.1 mem_range.1, Z.max fl.2 mem_range.2)) (loads self) (2 ^ 64 - 1, 0).

(** The new contents of a slice of length [to_len]. *)
Definition copy_slice_pad (to_len : Z) (from : list Z) : outcome (list Z) :=
  _ ← assert_ (to_len >=? zlen from);
  Ret (from ++ replicate (Z.to_nat (to_len - zlen from)) 0).

(** [&kernel_file[a..b]] *)
Definition file_slice (file : list Z) (a b : Z) : outcome (list Z) :=
  if (a <=? b) && (b <=? zlen file) then Ret (take (Z.to_nat (b - a)) (drop (Z.to_nat a) file))
  else Panic IndexOutOfBounds.

(** The body of the loop of [load_kernel]. *)
Definition load_segment (file : list Z) (mem : memory) (phdr : Elf64_Phdr) : outcome memory :=
  mr ← inmem_range phdr;
  a ← infile_range phdr;
  b ← infile_range phdr;
  part ← file_slice file a.1 b.2;
  bs ← copy_slice_pad (inmem_size phdr) part;
  _ ← inmem_range phdr;
  Ret (store mem mr.1 bs).

(** [load_kernel] for the contents of kernel.elf; [allocate_pages first n] is the
    firmware's answer. Returns the entry point. *)
Definition load_kernel (allocate_pages : Z → Z → bool) (kernel_file : list Z) (mem : memory)
    : outcome (Z * memory) :=
  elf_file ← from_buffer kernel_file;
  '(first, last) ← calc_load_address_range elf_file;
  _ ← u64_sub last first;
  d ← u64_sub last first;
  n ← usize_add d 0xfff;
  _ ← (if allocate_pages first (n / 0x1000) then Ret () else Panic UnwrapNone);
  mem ← foldM (load_segment kernel_file) (loads elf_file) mem;
  Ret (e_entry (elf_header elf_file), mem).

(** ** Loading *)

(** A segment inside the file, no larger there than in memory. *)
Record segment_ok (file : list Z) (h : Elf64_Phdr) : Prop := {
  sg_vaddr : 0 ≤ p_vaddr h;
  sg_mem : p_vaddr h + p_memsz h ≤ 2 ^ 63;
  sg_offset : 0 ≤ p_offset h;
  sg_file : p_offset h + p_filesz h ≤ zlen file;
  sg_size : 0 ≤ p_filesz h ≤ p_memsz h;
}.

Definition in_segment (h : Elf64_Phdr) (a : Z) : Prop := p_vaddr h ≤ a < p_vaddr h + p_memsz h.

(** The byte a segment prescribes at an address. *)
Definition segment_byte (file : list Z) (h : Elf64_Phdr) (a : Z) : Z :=
  if a - p_vaddr h <? p_filesz h then default 0 (file !! Z.to_nat (p_offset h + (a - p_vaddr h))) else 0.

Lemma load_segment_ok file mem h :
  segment_ok file h → zlen file < 2 ^ 63 →
  ∃ mem', load_segment file mem h = Ret mem' ∧
    (∀ a, in_segment h a → mem' a = segment_byte file h a) ∧
    (∀ a, ¬ in_segment h a → mem' a = mem a).
Proof.
  intros [Hv Hm Ho Hf Hs] Hlen. unfold load_segment, inmem_range, infile_range, u64_add.
  rewrite (chk_u_ok 64 (p_vaddr h + p_memsz h)), !bind_Ret by lia.
  rewrite (chk_u_ok 64 (p_offset h + p_filesz h)), !bind_Ret by lia. cbn [fst snd].
  unfold file_slice. rewrite !(proj2 (Z.leb_le _ _)) by lia. cbn [andb]. rewrite bind_Ret.
  replace (p_offset h + p_filesz h - p_offset h) with (p_filesz h) by lia.
  set (part := take _ _). assert (zlen part = p_filesz h) as Hp.
  { unfold part. rewrite length_take, length_drop. lia. }
  unfold copy_slice_pad, inmem_size, assert_. rewrite Hp, Z.geb_leb, (proj2 (Z.leb_le _ _)) by lia.
  rewrite !bind_Ret. eexists. split; [done|]. unfold store, in_segment, segment_byte.
  rewrite length_app, length_replicate.
  replace (Z.of_nat (length part + Z.to_nat (p_memsz h - p_filesz h))) with (p_memsz h) by lia.
  split; intros a Ha.
  - rewrite (proj2 (Z.leb_le _ _)), (proj2 (Z.ltb_lt a _)) by lia. cbn [andb].
    destruct (Z.ltb_spec (a - p_vaddr h) (p_filesz h)) as [Hlt|Hge].
    + rewrite lookup_app_l by lia. unfold part. rewrite lookup_take_lt, lookup_drop by lia.
      do 2 f_equal. lia.
    + rewrite lookup_app_r by lia. destruct (replicate _ 0 !! _) as [v|] eqn:E; [|done].
      by apply lookup_replicate_1 in E as [-> _].
  - destruct (Z.leb_spec (p_vaddr h) a), (Z.ltb_spec a (p_vaddr h + p_memsz h)); simpl; try done; lia.
Qed.

Lemma load_segments_ok file hs mem :
  Forall (segment_ok file) hs → zlen file < 2 ^ 63 →
  (∀ i j h1 h2 a, hs !! i = Some h1 → hs !! j = Some h2 → in_segment h1 a → in_segment h2 a → i = j) →
  ∃ mem', foldM (load_segment file) hs mem = Ret mem' ∧
    (∀ h a, h ∈ hs → in_segment h a → mem' a = segment_byte file h a) ∧
    (∀ a, (∀ h, h ∈ hs → ¬ in_segment h a) → mem' a = mem a).
Proof.
  intros Hok Hlen. revert mem. induction Hok as [|h hs Hh _ IH]; intros mem Hd.
  { exists mem. split; [done|]. split; [|done]. intros h a Hh. by apply elem_of_nil in Hh. }
  cbn [foldM]. destruct (load_segment_ok file mem h Hh Hlen) as (mem1 & -> & Hin & Hout). rewrite bind_Ret.
  destruct (IH mem1) as (mem2 & -> & Hin2 & Hout2).
  { intros i j h1 h2 a H1 H2 Ha1 Ha2. enough (S i = S j) by lia. by apply (Hd (S i) (S j) h1 h2 a). }
  exists mem2. split; [done|]. split.
  - intros h' a [->|Hh']%elem_of_cons Ha; [|by apply Hin2]. rewrite Hout2; [by apply Hin|].
    intros h2 Hh2 Ha2. apply list_elem_of_lookup in Hh2 as [j Hj].
    by pose proof (Hd 0%nat (S j) h h2 a eq_refl Hj Ha Ha2).
  - intros a Ha. rewrite Hout2, Hout; [done|..]; [apply Ha; by left|].
    intros h' Hh'. apply Ha. by right.
Qed.

Lemma calc_range_ok file ef :
  Forall (segment_ok file) (loads ef) → loads ef ≠ [] →
  ∃ first last, calc_load_address_range ef = Ret (first, last) ∧
    0 ≤ first ≤ last ∧ last ≤ 2 ^ 63 ∧
    (∀ h, h ∈ loads ef → first ≤ p_vaddr h ∧ p_vaddr h + p_memsz h ≤ last) ∧
    (∃ h, h ∈ loads ef ∧ first = p_vaddr h) ∧ (∃ h, h ∈ loads ef ∧ last = p_vaddr h + p_memsz h).
Proof.
  intros Hok Hne. unfold calc_load_address_range.
  destruct (foldM_inv (λ i fl, 0 ≤ fl.1 ∧ (i = 0%nat → fl = (2 ^ 64 - 1, 0)) ∧
    (∀ h, h ∈ take i (loads ef) → fl.1 ≤ p_vaddr h ∧ p_vaddr h + p_memsz h ≤ fl.2) ∧
    ((0 < i)%nat → fl.2 ≤ 2 ^ 63 ∧ (∃ h, h ∈ loads ef ∧ fl.1 = p_vaddr h) ∧
      (∃ h, h ∈ loads ef ∧ fl.2 = p_vaddr h + p_memsz h)))
    (λ fl phdr, mem_range ← inmem_range phdr;
      Ret (Z.min fl.1 mem_range.1, Z.max fl.2 mem_range.2)) (loads ef) (2 ^ 64 - 1, 0))
    as ([first last] & -> & Hf & _ & Hall & Hex).
  - split_and!; [simpl; lia|done| |lia]. intros h Hh. by apply elem_of_nil in Hh.
  - intros i h [f l] Hi (H0 & Hz & Hall & Hex). simpl in *.
    assert (h ∈ loads ef) as Hin by (by eapply list_elem_of_lookup_2).
    pose proof (proj1 (list.Forall_forall _ _) Hok h Hin) as [? ? ? ? ?].
    unfold inmem_range, u64_add. rewrite chk_u_ok, !bind_Ret by lia. eexists. split; [done|]. simpl.
    split_and!; [lia|lia| |].
    + rewrite Nat.add_1_r, (take_S_r _ _ h Hi). intros h' [Hh'|Hh']%elem_of_app.
      * specialize (Hall h' Hh'). lia.
      * apply list_elem_of_singleton in Hh' as ->. lia.
    + intros _. destruct (decide (i = 0%nat)) as [Hi0|Hi0].
      * specialize (Hz Hi0). simplify_eq. split_and!; [lia|exists h; split; [done|lia]|exists h; split; [done|lia]].
      * destruct Hex as (Hl & (h1 & ? & ?) & (h2 & ? & ?)); [lia|]. split_and!; [lia|..].
        -- destruct (Z.min_spec f (p_vaddr h)) as [[_ ->]|[_ ->]]; [by exists h1|by exists h].
        -- destruct (Z.max_spec l (p_vaddr h + p_memsz h)) as [[_ ->]|[_ ->]]; [by exists h|by exists h2].
  - rewrite take_ge in Hall by lia. simpl in *.
    destruct Hex as (Hl & Hm & Hx). { destruct (loads ef); [done|]. simpl. lia. }
    exists first, last. split_and!; try done. destruct Hm as (h & Hh & ->).
    pose proof (proj1 (list.Forall_forall _ _) Hok h Hh) as [? ? ? ? ?]. specialize (Hall h Hh). lia.
Qed.

(** Loading the kernel. If the file parses, has a LOAD segment, and its LOAD segments
    lie inside the file and are disjoint in memory, then [load_kernel] asks for pages that
    start at the lowest segment and cover all segments. If the firmware refuses them the
    loader panics; otherwise it returns the ELF entry point with every byte of every
    segment in memory equal to the byte of the file or, past the file's part, zero, and
    memory outside the segments unchanged. *)
Lemma load_kernel_places_segments (file : list Z) (mem : memory) (ef : ElfFile) :
  from_buffer file = Ret ef → zlen file < 2 ^ 63 →
  loads ef ≠ [] → Forall (segment_ok file) (loads ef) →
  (∀ i j h1 h2 a, loads ef !! i = Some h1 → loads ef !! j = Some h2 →
    in_segment h1 a → in_segment h2 a → i = j) →
  ∃ first n mem',
    (∀ allocate_pages, load_kernel allocate_pages file mem =
      if allocate_pages first n then Ret (e_entry (elf_header ef), mem') else Panic UnwrapNone) ∧
    (∃ h, h ∈ loads ef ∧ first = p_vaddr h) ∧
    (∀ h a, h ∈ loads ef → in_segment h a → first ≤ a < first + 0x1000 * n) ∧
    (∀ h a, h ∈ loads ef → in_segment h a → mem' a = segment_byte file h a) ∧
    (∀ a, (∀ h, h ∈ loads ef → ¬ in_segment h a) → mem' a = mem a).
Proof.
  intros Hef Hlen Hne Hok Hd.
  destruct (calc_range_ok file ef Hok Hne) as (first & last & Hr & Hfl & Hl & Hall & Hfirst & _).
  destruct (load_segments_ok file (loads ef) mem Hok Hlen Hd) as (mem' & E & Hin & Hout).
  exists first, ((last - first + 0xfff) / 0x1000), mem'. split_and!; try done.
  - intros allocate_pages. unfold load_kernel, u64_sub. rewrite Hef, bind_Ret, Hr, bind_Ret.
    rewrite chk_u_ok, !bind_Ret by lia. rewrite usize_add_ok, bind_Ret by lia.
    destruct (allocate_pages _ _); [|done]. by rewrite bind_Ret, E.
  - intros h a Hh [Ha1 Ha2]. specialize (Hall h Hh).
    pose proof (Z.div_mod (last - first + 0xfff) 0x1000 ltac:(lia)).
    pose proof (Z.mod_pos_bound (last - first + 0xfff) 0x1000 ltac:(lia)). lia.
Qed.

(** ** A concrete kernel file *)

Definition encode_phdr (ty off va fs ms : Z) : list Z :=
  le_split 4 ty ++ le_split 4 5 ++ le_split 8 off ++ le_split 8 va ++ le_split 8 va ++
  le_split 8 fs ++ le_split 8 ms ++ le_split 8 0x1000.

(** Three program headers: two LOAD segments and a stack note; five bytes of contents. *)
Definition demo_file : list Z :=
  [127; 69; 76; 70; 2; 1; 1; 0; 0; 0; 0; 0; 0; 0; 0; 0] ++
  le_split 2 2 ++ le_split 2 62 ++ le_split 4 1 ++ le_split 8 0x100002 ++ le_split 8 64 ++ le_split 8 0 ++
  le_split 4 0 ++ le_split 2 64 ++ le_split 2 56 ++ le_split 2 3 ++ le_split 2 64 ++ le_split 2 0 ++
  le_split 2 0 ++
  encode_phdr 1 232 0x100000 3 3 ++ encode_phdr 0x6474e551 0 0 0 0 ++
  encode_phdr 1 235 0x101000 2 8 ++ [10; 20; 30; 40; 50].

Definition demo_elf : ElfFile :=
  match from_buffer demo_file with
  | Ret ef => ef
  | _ => {| elf_header := {| e_ident := []; e_type := 0; e_machine := 0; e_version := 0; e_entry := 0;
              e_phoff := 0; e_shoff := 0; e_flags := 0; e_ehsize := 0; e_phentsize := 0; e_phnum := 0;
              e_shentsize := 0; e_shnum := 0; e_shstrndx := 0 |}; prog_headers := [] |}
  end.

Definition demo_h1 : Elf64_Phdr :=
  {| p_type := 1; p_flags := 5; p_offset := 232; p_vaddr := 0x100000; p_paddr := 0x100000;
     p_filesz := 3; p_memsz := 3; p_align := 0x1000 |}.
Definition demo_h2 : Elf64_Phdr :=
  {| p_type := 1; p_flags := 5; p_offset := 235; p_vaddr := 0x101000; p_paddr := 0x101000;
     p_filesz := 2; p_memsz := 8; p_align := 0x1000 |}.

Lemma demo_loads : loads demo_elf = [demo_h1; demo_h2].
Proof. vm_compute. reflexivity. Qed.

Lemma load_kernel_places_segments_witness :
  ∃ first n mem',
    load_kernel (λ _ _, true) demo_file (λ _, 7) = Ret (e_entry (elf_header demo_elf), mem') ∧
    load_kernel (λ _ _, false) demo_file (λ _, 7) = Panic UnwrapNone ∧
    first ≤ 0x101007 < first + 0x1000 * n ∧
    mem' 0x100001 = 20 ∧ mem' 0x101001 = 50 ∧ mem' 0x101004 = 0 ∧ mem' 0x100003 = 7.
Proof.
  destruct (load_kernel_places_segments demo_file (λ _, 7) demo_elf)
    as (first & n & mem' & Hl & _ & Hc & Hin & Hout).
  - vm_compute. reflexivity.
  - vm_compute. reflexivity.
  - rewrite demo_loads. discriminate.
  - rewrite demo_loads. repeat constructor; vm_compute; intuition congruence.
  - rewrite demo_loads. intros [|[|]] [|[|]] ? ? a H1 H2; simplify_eq/=; unfold in_segment; simpl; lia.
  - exists first, n, mem'. rewrite !Hl. rewrite demo_loads in Hin, Hout, Hc.
    split; [reflexivity|]. split; [reflexivity|]. split_and!.
    + apply (Hc demo_h2); [right; left|unfold in_segment; simpl; lia].
    + apply (Hc demo_h2); [right; left|unfold in_segment; simpl; lia].
    + rewrite (Hin demo_h1); [vm_compute; reflexivity|left|unfold in_segment; simpl; lia].
    + rewrite (Hin demo_h2); [vm_compute; reflexivity|right; left|unfold in_segment; simpl; lia].
    + rewrite (Hin demo_h2); [vm_compute; reflexivity|right; left|unfold in_segment; simpl; lia].
    + rewrite Hout; [reflexivity|]. intros h [->|[->|[]%elem_of_nil]%elem_of_cons]%elem_of_cons;
        unfold in_segment; simpl; lia.
Defined.

Example demo_entry : e_entry (elf_header demo_elf) = 0x100002.
Proof. vm_compute. reflexivity. Qed.
