(* ===== verification/Handover.v ===== *)
(** bootloader/src/main.rs with its frame_buffer.rs and memory_map.rs, and the reading side
    in kernel/src/memory_map.rs and graphic/frame_buffer.rs: what the boot loader leaves in
    memory for the kernel, and what the kernel reads there.

    The firmware's services are the record [firmware]; where the loader's locals lie is an
    argument. Structures are the bytes of their [repr(C)] layout in physical memory. Printing
    is left out, and so are [init] of uefi_services and the call of [exit_boot_services]: what
    the firmware does to memory while it leaves is not modelled. *)

From S2P Require Import Prelude ByteMem MemoryMap FrameBuffer Elf.

(** ** The boot loader *)

Module Loader.

Inductive PixelFormat := PixelRGBResv8BitPerColor | PixelBGRResv8BitPerColor.

Record FrameBufferConfig := {
  frame_buffer : Z;
  pixels_per_scanline : Z;
  horizontal_resolution : Z;
  vertical_resolution : Z;
  pixel_format : PixelFormat;
}.

Record MemoryMapRaw := {
  buffer : Z;
  map_size : Z;
  map_key : Z;
  descriptor_size : Z;
}.

(** A [repr(C)] enum is four bytes wide. *)
Definition pixel_format_u32 (f : PixelFormat) : Z :=
  match f with PixelRGBResv8BitPerColor => 0 | PixelBGRResv8BitPerColor => 1 end.

Definition config_bytes (c : FrameBufferConfig) : list Z :=
  le_split 8 (frame_buffer c) ++ le_split 4 (pixels_per_scanline c) ++ le_split 4 (horizontal_resolution c) ++
  le_split 4 (vertical_resolution c) ++ le_split 4 (pixel_format_u32 (pixel_format c)).

Definition memmap_bytes (m : MemoryMapRaw) : list Z :=
  le_split 8 (buffer m) ++ le_split 8 (map_size m) ++ le_split 8 (map_key m) ++ le_split 8 (descriptor_size m).

(** The graphics output protocol's current mode. *)
Inductive gop_format := Rgb | Bgr | Bitmask | BltOnly.

Record GraphicsOutput := {
  gop_frame_buffer : Z;
  gop_resolution : Z * Z;
  gop_stride : Z;
  gop_pixel_format : gop_format;
}.

(** What the firmware answers: the kernel's file, page allocation, the configuration table
    (identifier and address), the graphics protocol, the size of the memory map (of an
    entry, of the map) and the map itself with its key, for a buffer of a given length. *)
Record firmware := {
  kernel_elf : option (list Z);
  allocate_pages : Z → Z → bool;
  config_table : list (Z * Z);
  graphics : option GraphicsOutput;
  memory_map_size : Z * Z;
  memory_map : Z → option (list Z * Z);
}.

(** Where the locals of [main] lie. *)
Record locals := { at_config : Z; at_memmap_buf : Z; at_memmap : Z }.

Section loader.
Context (ACPI2_GUID : Z).

(** The contents of [buf] afterwards, and the map. *)
Definition get_memory_map (fw : firmware) (buf_ptr : Z) (buf : list Z) : outcome (list Z * MemoryMapRaw) :=
  let '(entry_size, size) := memory_map_size fw in
  _ ← assert_ (size <=? zlen buf);
  _ ← vget buf 0;
  '(bs, key) ← unwrap (memory_map fw (zlen buf));
  Ret (bs ++ drop (length bs) buf,
       {| buffer := buf_ptr; map_size := size; map_key := key; descriptor_size := entry_size |}).

Definition construct_frame_buffer (fw : firmware) : outcome (option FrameBufferConfig) :=
  match graphics fw with
  | None => Ret None
  | Some gop =>
      fmt ← match gop_pixel_format gop with
            | Rgb => Ret PixelRGBResv8BitPerColor
            | Bgr => Ret PixelBGRResv8BitPerColor
            | _ => Panic ExplicitPanic
            end;
      Ret (Some {| frame_buffer := gop_frame_buffer gop;
                   pixels_per_scanline := as_u 32 (gop_stride gop);
                   horizontal_resolution := as_u 32 (gop_resolution gop).1;
                   vertical_resolution := as_u 32 (gop_resolution gop).2;
                   pixel_format := fmt |})
  end.

Definition find_acpi_table (fw : firmware) : outcome Z :=
  e ← unwrap (list_find (λ e, e.1 = ACPI2_GUID) (config_table fw));
  Ret (e.2).2.

(** Up to the call of the kernel: its entry point, its three arguments, and memory. Leaving
    the boot services, just before the call, gives results that are dropped; it is the
    firmware's business and has no part here. *)
Definition main (fw : firmware) (at_ : locals) (mem : memory) : outcome (Z * (Z * Z * Z) * memory) :=
  kernel_file ← unwrap (kernel_elf fw);
  '(entry_point, mem) ← load_kernel (allocate_pages fw) kernel_file mem;
  acpi_table_address ← find_acpi_table fw;
  config ← construct_frame_buffer fw;
  config ← unwrap config;
  let mem := store mem (at_config at_) (config_bytes config) in
  let memmap_buf := replicate (Z.to_nat (4096 * 4)) 0 in
  '(memmap_buf, memmap) ← get_memory_map fw (at_memmap_buf at_) memmap_buf;
  let mem := store mem (at_memmap_buf at_) memmap_buf in
  let mem := store mem (at_memmap at_) (memmap_bytes memmap) in
  Ret (entry_point, (at_config at_, at_memmap at_, acpi_table_address), mem).

End loader.
End Loader.

(** ** The kernel's side *)

(** The fields of [FrameBufferRaw]: the address of the pixels and the rest. *)
Definition FrameBufferRaw_at (mem : memory) (fb : Z) : outcome (Z * FrameBufferConf) :=
  let bs := load mem fb 24 in
  buf ← read_le bs 0 8;
  pps ← read_le bs 8 4;
  hr ← read_le bs 12 4;
  vr ← read_le bs 16 4;
  f ← read_le bs 20 4;
  fmt ← (if f =? 0 then Ret PixelRGBResv8BitPerColor
         else if f =? 1 then Ret PixelBGRResv8BitPerColor else Panic Undefined);
  Ret (buf, {| pixels_per_scanline := pps; horizontal_resolution := hr; vertical_resolution := vr; pixel_format := fmt |}).

(** [Into<MemoryMap> for &MemoryMapRaw], for the structure at [mm]. *)
Definition MemoryMap_at (mem : memory) (mm : Z) : outcome MemoryMap :=
  let bs := load mem mm 32 in
  buffer ← read_le bs 0 8;
  map_size ← read_le bs 8 8;
  map_key ← read_le bs 16 8;
  descriptor_size ← read_le bs 24 8;
  Ret {| MemoryMap.buffer := load mem buffer map_size; MemoryMap.map_key := map_key;
         MemoryMap.descriptor_size := descriptor_size |}.

(** Both sides of the structures agree. *)
Definition kernel_format (f : Loader.PixelFormat) : PixelFormat :=
  match f with
  | Loader.PixelRGBResv8BitPerColor => PixelRGBResv8BitPerColor
  | Loader.PixelBGRResv8BitPerColor => PixelBGRResv8BitPerColor
  end.

Definition kernel_conf (c : Loader.FrameBufferConfig) : FrameBufferConf :=
  {| pixels_per_scanline := Loader.pixels_per_scanline c; horizontal_resolution := Loader.horizontal_resolution c;
     vertical_resolution := Loader.vertical_resolution c; pixel_format := kernel_format (Loader.pixel_format c) |}.

Record config_ok (c : Loader.FrameBufferConfig) : Prop := {
  cf_addr : in_u 64 (Loader.frame_buffer c);
  cf_pps : in_u 32 (Loader.pixels_per_scanline c);
  cf_hr : in_u 32 (Loader.horizontal_resolution c);
  cf_vr : in_u 32 (Loader.vertical_resolution c);
}.

(** Reading field after field of a structure. *)
Ltac read_field := rewrite read_le_head by (done || lia); rewrite bind_Ret.
Ltac skip_field n v := rewrite !(read_le_skip (le_split n v) _ _ (Z.of_nat n) _) by (rewrite ?length_le_split; lia).

Lemma FrameBufferRaw_at_config mem fb c :
  config_ok c → load mem fb 24 = Loader.config_bytes c →
  FrameBufferRaw_at mem fb = Ret (Loader.frame_buffer c, kernel_conf c).
Proof.
  intros [H1 H2 H3 H4] E. unfold FrameBufferRaw_at. rewrite E. unfold Loader.config_bytes.
  rewrite <- (app_nil_r (le_split 4 (Loader.pixel_format_u32 _))). unfold in_u in *.
  read_field. skip_field 8%nat (Loader.frame_buffer c). read_field. skip_field 4%nat (Loader.pixels_per_scanline c).
  read_field. skip_field 4%nat (Loader.horizontal_resolution c). read_field. skip_field 4%nat (Loader.vertical_resolution c).
  by destruct c as [? ? ? ? []].
Qed.

Lemma MemoryMap_at_raw mem mm m :
  in_u 64 (Loader.buffer m) → in_u 64 (Loader.map_size m) → in_u 64 (Loader.map_key m) →
  in_u 64 (Loader.descriptor_size m) → load mem mm 32 = Loader.memmap_bytes m →
  MemoryMap_at mem mm = Ret {| MemoryMap.buffer := load mem (Loader.buffer m) (Loader.map_size m);
    MemoryMap.map_key := Loader.map_key m; MemoryMap.descriptor_size := Loader.descriptor_size m |}.
Proof.
  unfold in_u. intros H1 H2 H3 H4 E. unfold MemoryMap_at. rewrite E. unfold Loader.memmap_bytes.
  rewrite <- (app_nil_r (le_split 8 (Loader.descriptor_size m))).
  read_field. skip_field 8%nat (Loader.buffer m). read_field. skip_field 8%nat (Loader.map_size m).
  read_field. skip_field 8%nat (Loader.map_key m). by read_field.
Qed.

(** ** From the firmware to the kernel *)

(** A zero-filled rest ends the map. *)
Lemma zeros_end_map dsz n : 40 ≤ dsz → end_of_map dsz (replicate n 0).
Proof.
  intros Hd. destruct (Z.lt_ge_cases (Z.of_nat n) dsz) as [Hlt|Hge]; [left; by rewrite length_replicate|right].
  exists {| type_ := EfiReservedMemoryType; physical_start := 0; virtual_start := 0; num_pages := 0; attribute := 0 |},
    (replicate (n - 40) 0). replace n with (40 + (n - 40))%nat at 1 by lia. by rewrite replicate_add.
Qed.

(** A firmware that answers: a loadable kernel [ef], an ACPI table, a graphics mode and the
    descriptors [ds]; the size it announced for the map may be larger than the map. *)
Record firmware_ok (ACPI2_GUID : Z) (fw : Loader.firmware) (file : list Z) (ef : ElfFile) (rsdp : Z)
    (gop : Loader.GraphicsOutput) (ds : list MemoryDescriptor) (pad : list Z) (key : Z) : Prop := {
  fo_file : Loader.kernel_elf fw = Some file;
  fo_elf : from_buffer file = Ret ef;
  fo_len : zlen file < 2 ^ 63;
  fo_loads : loads ef ≠ [];
  fo_segments : Forall (segment_ok file) (loads ef);
  fo_apart : ∀ i j h1 h2 a, loads ef !! i = Some h1 → loads ef !! j = Some h2 →
    in_segment h1 a → in_segment h2 a → i = j;
  fo_pages : ∀ first n, Loader.allocate_pages fw first n = true;
  fo_acpi : snd <$> list_find (λ e, e.1 = ACPI2_GUID) (Loader.config_table fw) = Some (ACPI2_GUID, rsdp);
  fo_gop : Loader.graphics fw = Some gop;
  fo_format : Loader.gop_pixel_format gop = Loader.Rgb ∨ Loader.gop_pixel_format gop = Loader.Bgr;
  fo_vram : in_u 64 (Loader.gop_frame_buffer gop);
  fo_stride : in_u 32 (Loader.gop_stride gop);
  fo_width : in_u 32 (Loader.gop_resolution gop).1;
  fo_height : in_u 32 (Loader.gop_resolution gop).2;
  fo_entry : (Loader.memory_map_size fw).1 = 40 + zlen pad;
  fo_size : zlen (encode_entries pad ds) ≤ (Loader.memory_map_size fw).2 ≤ 16384;
  fo_map : Loader.memory_map fw 16384 = Some (encode_entries pad ds, key);
  fo_key : in_u 64 key;
  fo_pad : zlen pad < 2 ^ 32;
  fo_ds : Forall (λ d, descriptor_ok d ∧ attribute d ≠ 0) ds;
}.

(** The locals do not overlap each other or the kernel. *)
Record locals_ok (at_ : Loader.locals) (ef : ElfFile) : Prop := {
  lo_buf : 0 ≤ Loader.at_memmap_buf at_ < 2 ^ 63;
  lo_12 : ranges_apart (Loader.at_config at_) 24 (Loader.at_memmap_buf at_) 16384;
  lo_13 : ranges_apart (Loader.at_config at_) 24 (Loader.at_memmap at_) 32;
  lo_23 : ranges_apart (Loader.at_memmap_buf at_) 16384 (Loader.at_memmap at_) 32;
  lo_kernel : ∀ h a, h ∈ loads ef → in_segment h a →
    ¬ (Loader.at_config at_ ≤ a < Loader.at_config at_ + 24) ∧
    ¬ (Loader.at_memmap_buf at_ ≤ a < Loader.at_memmap_buf at_ + 16384) ∧
    ¬ (Loader.at_memmap at_ ≤ a < Loader.at_memmap at_ + 32);
}.

Definition gop_kernel_format (f : Loader.gop_format) : PixelFormat :=
  match f with Loader.Bgr => PixelBGRResv8BitPerColor | _ => PixelRGBResv8BitPerColor end.

Lemma construct_frame_buffer_ok G fw file ef rsdp gop ds pad key :
  firmware_ok G fw file ef rsdp gop ds pad key →
  ∃ c, Loader.construct_frame_buffer fw = Ret (Some c) ∧ config_ok c ∧ Loader.frame_buffer c = Loader.gop_frame_buffer gop ∧
    kernel_conf c = {| pixels_per_scanline := Loader.gop_stride gop;
                       horizontal_resolution := (Loader.gop_resolution gop).1;
                       vertical_resolution := (Loader.gop_resolution gop).2;
                       pixel_format := gop_kernel_format (Loader.gop_pixel_format gop) |}.
Proof.
  intros []. unfold Loader.construct_frame_buffer. rewrite fo_gop0, !as_u_small by done.
  destruct fo_format0 as [E|E]; rewrite E, bind_Ret; eexists; split_and!; try done; by split.
Qed.

Lemma get_memory_map_ok G fw file ef rsdp gop ds pad key buf_ptr :
  firmware_ok G fw file ef rsdp gop ds pad key →
  Loader.get_memory_map fw buf_ptr (replicate (Z.to_nat 16384) 0) =
    Ret (encode_entries pad ds ++ replicate (Z.to_nat 16384 - length (encode_entries pad ds)) 0,
         {| Loader.buffer := buf_ptr; Loader.map_size := (Loader.memory_map_size fw).2; Loader.map_key := key;
            Loader.descriptor_size := 40 + zlen pad |}).
Proof.
  intros []. unfold Loader.get_memory_map. destruct (Loader.memory_map_size fw) as [es sz]. cbn [fst snd] in *. subst es.
  rewrite length_replicate, Z2Nat.id by lia. unfold assert_.
  rewrite (proj2 (Z.leb_le _ _)) by lia. rewrite bind_Ret.
  destruct (vget_range (replicate (Z.to_nat 16384) 0) 0) as (x & -> & _); [rewrite length_replicate; lia|].
  rewrite fo_map0, !bind_Ret. cbn [unwrap]. by rewrite bind_Ret, drop_replicate.
Qed.

(** The map read back at the announced size: the entries and zeros. *)
Lemma map_read_back mem addr bs size :
  zlen bs ≤ size ≤ 16384 → load mem addr 16384 = bs ++ replicate (Z.to_nat 16384 - length bs) 0 →
  load mem addr size = bs ++ replicate (Z.to_nat size - length bs) 0.
Proof.
  intros Hs E. rewrite (load_take mem addr size 16384), E by lia. rewrite take_app_ge by lia. f_equal.
  rewrite take_replicate. f_equal. lia.
Qed.

Lemma length_config c : zlen (Loader.config_bytes c) = 24.
Proof. unfold Loader.config_bytes. by rewrite !length_app, !length_le_split. Qed.
Lemma length_memmap m : zlen (Loader.memmap_bytes m) = 32.
Proof. unfold Loader.memmap_bytes. by rewrite !length_app, !length_le_split. Qed.

(** The three stores of [main] in a row. *)
Lemma locals_stored mem at_ ef c bs m :
  locals_ok at_ ef → zlen bs = 16384 →
  let mem' := store (store (store mem (Loader.at_config at_) (Loader.config_bytes c)) (Loader.at_memmap_buf at_) bs)
                (Loader.at_memmap at_) (Loader.memmap_bytes m) in
  load mem' (Loader.at_config at_) 24 = Loader.config_bytes c ∧ load mem' (Loader.at_memmap_buf at_) 16384 = bs ∧
  load mem' (Loader.at_memmap at_) 32 = Loader.memmap_bytes m ∧
  ∀ h a, h ∈ loads ef → in_segment h a → mem' a = mem a.
Proof.
  intros [? H12 H13 H23 Hk] Hbs mem'. unfold ranges_apart in *.
  pose proof (length_config c) as Hc. pose proof (length_memmap m) as Hm.
  split_and!.
  - unfold mem'. rewrite !load_store_apart by (unfold ranges_apart; lia). rewrite <- Hc. apply load_store.
  - unfold mem'. rewrite load_store_apart by (unfold ranges_apart; lia). rewrite <- Hbs. apply load_store.
  - unfold mem'. rewrite <- Hm. apply load_store.
  - intros h a Hh Ha. destruct (Hk h a Hh Ha) as (? & ? & ?). unfold mem'. rewrite !store_out by lia. done.
Qed.

(** C37: what the boot loader hands over. On a firmware that answers, [main] calls the kernel's
    entry point with every segment of the kernel in place; the address of the ACPI 2.0 table is
    passed on; the kernel reads from its first argument the frame buffer the graphics protocol
    described, field by field, and from its second a memory map whose walk visits exactly the
    firmware's descriptors, in order, even when the map was shorter than announced. *)
Theorem boot_loader_hands_over (G : Z) (fw : Loader.firmware) (file : list Z) (ef : ElfFile) (rsdp : Z)
    (gop : Loader.GraphicsOutput) (ds : list MemoryDescriptor) (pad : list Z) (key : Z)
    (at_ : Loader.locals) (mem : memory) :
  firmware_ok G fw file ef rsdp gop ds pad key → locals_ok at_ ef →
  ∃ fb mm mem', Loader.main G fw at_ mem = Ret (e_entry (elf_header ef), (fb, mm, rsdp), mem') ∧
    (∀ h a, h ∈ loads ef → in_segment h a → mem' a = segment_byte file h a) ∧
    FrameBufferRaw_at mem' fb = Ret (Loader.gop_frame_buffer gop,
      {| pixels_per_scanline := Loader.gop_stride gop;
         horizontal_resolution := (Loader.gop_resolution gop).1; vertical_resolution := (Loader.gop_resolution gop).2;
         pixel_format := gop_kernel_format (Loader.gop_pixel_format gop) |}) ∧
    ∃ m, MemoryMap_at mem' mm = Ret m ∧
      ∀ (S : Type) (f : S → MemoryDescriptor → outcome S) (fuel : nat) (s : S), (length ds < fuel)%nat →
        for_entries fuel f m s = foldM f ds s.
Proof.
  intros Hfw Hlo. destruct (construct_frame_buffer_ok _ _ _ _ _ _ _ _ _ Hfw) as (c & Ec & Hc & Hvram & Hconf).
  pose proof (get_memory_map_ok _ _ _ _ _ _ _ _ _ (Loader.at_memmap_buf at_) Hfw) as Em.
  destruct Hfw. destruct (load_kernel_places_segments file mem ef) as (first & n & mem1 & El & _ & _ & Hin & _); [done..|].
  specialize (El (Loader.allocate_pages fw)). rewrite fo_pages0 in El.
  set (bs := encode_entries pad ds ++ _) in Em. set (m := {| Loader.buffer := _ |}) in Em.
  destruct (locals_stored mem1 at_ ef c bs m Hlo) as (L1 & L2 & L3 & Lk).
  { unfold bs. rewrite length_app, length_replicate. lia. }
  eexists (Loader.at_config at_), (Loader.at_memmap at_), _. split.
  { unfold Loader.main. rewrite fo_file0. cbn [unwrap]. rewrite bind_Ret, El, bind_Ret.
    unfold Loader.find_acpi_table. destruct (list_find _ _) as [[i e]|]; [|done]. cbn in fo_acpi0. injection fo_acpi0 as ->.
    cbn [unwrap]. rewrite bind_Ret, bind_Ret, Ec, bind_Ret. cbn [unwrap]. rewrite bind_Ret.
    change (4096 * 4) with 16384. rewrite Em, bind_Ret. reflexivity. }
  split; [|split].
  - intros h a Hh Ha. rewrite (Lk h a Hh Ha). by apply Hin.
  - rewrite (FrameBufferRaw_at_config _ _ c Hc L1). congruence.
  - eexists. split.
    { apply (MemoryMap_at_raw _ _ m); [| | | |exact L3]; unfold m, in_u; cbn; [|lia|done|lia]. destruct Hlo. lia. }
    intros S f fuel s Hfuel. change (Loader.buffer m) with (Loader.at_memmap_buf at_).
    change (Loader.map_size m) with (Loader.memory_map_size fw).2. change (Loader.descriptor_size m) with (40 + zlen pad).
    rewrite (map_read_back _ _ (encode_entries pad ds) _ fo_size0 L2).
    eapply (for_entries_walk f _ pad); cbn [MemoryMap.buffer MemoryMap.descriptor_size]; [done|done| | |done|done].
    + rewrite length_app, length_replicate. lia.
    + apply zeros_end_map. lia.
Qed.

(** ** A small machine *)

Definition hand_gop : Loader.GraphicsOutput :=
  {| Loader.gop_frame_buffer := 0x80000000; Loader.gop_resolution := (800, 600); Loader.gop_stride := 800;
     Loader.gop_pixel_format := Loader.Bgr |}.

Definition hand_ds : list MemoryDescriptor :=
  [{| type_ := EfiConventionalMemory; physical_start := 0; virtual_start := 0; num_pages := 160; attribute := 15 |};
   {| type_ := EfiBootServicesData; physical_start := 0x200000; virtual_start := 0; num_pages := 512; attribute := 15 |}].

Definition hand_fw : Loader.firmware :=
  {| Loader.kernel_elf := Some demo_file; Loader.allocate_pages := λ _ _, true;
     Loader.config_table := [(1, 0xe0000); (2, 0xe0014)]; Loader.graphics := Some hand_gop;
     Loader.memory_map_size := (48, 192); Loader.memory_map := λ _, Some (encode_entries (replicate 8 0) hand_ds, 77) |}.

Definition hand_locals : Loader.locals :=
  {| Loader.at_config := 0x300000; Loader.at_memmap_buf := 0x301000; Loader.at_memmap := 0x300100 |}.

Lemma hand_fw_ok : firmware_ok 2 hand_fw demo_file demo_elf 0xe0014 hand_gop hand_ds (replicate 8 0) 77.
Proof.
  split; rewrite ?demo_loads; try done; [..|by right|repeat constructor; done].
  - repeat constructor; vm_compute; intuition congruence.
  - intros [|[|]] [|[|]] ? ? a H1 H2; simplify_eq/=; unfold in_segment; simpl; lia.
Qed.

Lemma hand_locals_ok : locals_ok hand_locals demo_elf.
Proof.
  split; cbn; [lia|left; lia|left; lia|right; lia|]. rewrite demo_loads.
  intros h a [->|[->|[]%elem_of_nil]%elem_of_cons]%elem_of_cons; unfold in_segment; simpl; lia.
Qed.

Lemma boot_loader_hands_over_witness :
  ∃ fb mm mem' m, Loader.main 2 hand_fw hand_locals (λ _, 7) = Ret (0x100002, (fb, mm, 0xe0014), mem') ∧
    MemoryMap_at mem' mm = Ret m ∧ for_entries 3 (λ n d, Ret (n + num_pages d)) m 0 = Ret 672.
Proof.
  destruct (boot_loader_hands_over 2 hand_fw demo_file demo_elf 0xe0014 hand_gop hand_ds (replicate 8 0) 77 hand_locals
    (λ _, 7) hand_fw_ok hand_locals_ok) as (fb & mm & mem' & E & _ & _ & m & Em & Hw).
  exists fb, mm, mem', m. split; [exact E|]. split; [exact Em|]. rewrite Hw; [reflexivity|simpl; lia].
Defined.
