(* ===== verification/Runtime.v ===== *)
(** usb/runtime.rs: channels, tasks and the cooperative executor of the USB stack, and the
    interrupt loop of usb/mod.rs that drives it.

    A task is known by its index ([Arc<Task>]); a [Waker] is the task it wakes. What a
    future does is a parameter ([poll]). The second half splits the operations at the
    locks they take and lets them interleave: there a future is any sequence of awaits
    and sends. *)

From stdpp Require Import functions.
From S2P Require Import Prelude.

(** ** Channels *)

Section channel.
Context {T : Type}.

(** What [Sender] and [Receiver] share: the queue and the waker of a waiting receiver. *)
Record Channel := { queue : list T; waker : option nat }.

Definition new_channel : Channel := {| queue := []; waker := None |}.

Definition receive (self : Channel) : Channel * option T :=
  match queue self with
  | [] => (self, None)
  | v :: q => ({| queue := q; waker := waker self |}, Some v)
  end.

Definition has_content (self : Channel) : bool := negb (bool_decide (queue self = [])).

(** [Recv::poll] in the task [t]: a value ([Poll::Ready]), or the task's waker is stored. *)
Definition recv_poll (t : nat) (self : Channel) : Channel * option T :=
  match receive self with
  | (self, Some val) => (self, Some val)
  | (self, None) => ({| queue := queue self; waker := Some t |}, None)
  end.

(** The two critical sections of [Sender::send]. *)
Definition push_back (self : Channel) (value : T) : Channel :=
  {| queue := queue self ++ [value]; waker := waker self |}.

Definition take_waker (self : Channel) : Channel * option nat :=
  ({| queue := queue self; waker := None |}, waker self).

(** [Sender::send]; the result is the task to wake. *)
Definition send (self : Channel) (value : T) : Channel * option nat :=
  take_waker (push_back self value).

End channel.
Arguments Channel T : clear implicits.

(** ** Executor *)

Section executor.
Context {F E X : Type}.

(** [slots] holds the future of each task, [None] once it has finished. *)
Record Runtime := { slots : list (option F); task_queue : Channel nat }.

Definition with_queue (rt : Runtime) (q : Channel nat) : Runtime :=
  {| slots := slots rt; task_queue := q |}.

Definition new_executor_and_spawner : Runtime := {| slots := []; task_queue := new_channel |}.

(** [wake_by_ref]: the task sends itself to the task queue. If somebody waited on the task
    queue itself, its wake-up would send to the same queue while [send] still holds the
    lock of the waker, and spin on it without end. *)
Definition wake (rt : Runtime) (t : nat) : outcome Runtime :=
  let '(q, w) := send (task_queue rt) t in
  match w with
  | None => Ret (with_queue rt q)
  | Some _ => OutOfFuel
  end.

Definition spawn (rt : Runtime) (future : F) : outcome Runtime :=
  let t := length (slots rt) in
  wake {| slots := slots rt ++ [Some future]; task_queue := task_queue rt |} t.

(** Polling a future in a task: ready with a value, or pending; the rest of the state,
    the runtime included, may change, and the future may panic. *)
Context (poll : nat → F → Runtime * X → outcome (option E * F * (Runtime * X))).

Definition set_slot (rt : Runtime) (t : nat) (o : option F) : Runtime :=
  {| slots := <[t := o]> (slots rt); task_queue := task_queue rt |}.

(** [Task::exec] *)
Definition exec (t : nat) (st : Runtime * X) : outcome (option E * (Runtime * X)) :=
  match slots st.1 !! t with
  | Some (Some future) =>
      '(r, future, (rt, x)) ← poll t future st;
      match r with
      | Some result => Ret (Some result, (set_slot rt t None, x))
      | None => Ret (None, (set_slot rt t (Some future), x))
      end
  | _ => Ret (None, st)
  end.

(** [inr ()] is [Err(NoMoreTask)]. *)
Definition process_next_task (st : Runtime * X) : outcome ((option E + ()) * (Runtime * X)) :=
  match receive (task_queue st.1) with
  | (q, Some t) => '(r, st) ← exec t (with_queue st.1 q, st.2); Ret (inl r, st)
  | (q, None) => Ret (inr (), (with_queue st.1 q, st.2))
  end.

Definition has_next_task (rt : Runtime) : bool := has_content (task_queue rt).

(** The loop of [on_xhc_interrupt]; the results of finished tasks are collected. *)
Definition run_tasks (fuel : nat) (st : Runtime * X) : outcome (list E * (Runtime * X)) :=
  loop fuel (λ acc,
    let '(es, st) := acc in
    if has_next_task st.1 then
      '(r, st) ← process_next_task st;
      match r with
      | inl (Some e) => Ret (inl (es ++ [e], st))
      | inl None => Ret (inl (es, st))
      | inr _ => Panic UnwrapNone
      end
    else Ret (inr (es, st))) ([], st).

(** Nobody waits on the task queue: the executor only calls [receive]. *)
Definition runtime_ok (rt : Runtime) : Prop := waker (task_queue rt) = None.

Lemma wake_queue rt t :
  runtime_ok rt → ∃ rt', wake rt t = Ret rt' ∧ runtime_ok rt' ∧ slots rt' = slots rt ∧
    queue (task_queue rt') = queue (task_queue rt) ++ [t].
Proof. unfold runtime_ok, wake, send. simpl. intros ->. by eexists. Qed.

(** A spawned task waits at the end of the queue. *)
Lemma spawn_queue rt f :
  runtime_ok rt → ∃ rt', spawn rt f = Ret rt' ∧ runtime_ok rt' ∧
    slots rt' !! length (slots rt) = Some (Some f) ∧
    queue (task_queue rt') = queue (task_queue rt) ++ [length (slots rt)].
Proof.
  intros Hok. unfold spawn.
  destruct (wake_queue {| slots := slots rt ++ [Some f]; task_queue := task_queue rt |} (length (slots rt)))
    as (rt' & -> & ? & E1 & E2); [done|].
  eexists. split_and!; [done..| |done]. rewrite E1. simpl. by rewrite lookup_app_r, Nat.sub_diag by lia.
Qed.

(** The [unwrap] of the loop cannot fail: after the check there is a task to run. *)
Lemma process_after_check st t q :
  queue (task_queue st.1) = t :: q →
  process_next_task st =
    ('(r, st) ← exec t (with_queue st.1 {| queue := q; waker := waker (task_queue st.1) |}, st.2); Ret (inl r, st)).
Proof. unfold process_next_task, receive. by intros ->. Qed.

(** If every queued task that is run keeps an invariant and decreases a measure, the loop
    ends without a panic and with nothing left to run; [J] relates the results of finished
    tasks to the state. *)
Lemma run_tasks_drains (J : list E → Runtime * X → Prop) (m : Runtime * X → nat) fuel st :
  (∀ es rt x t q, J es (rt, x) → queue (task_queue rt) = t :: q →
     ∃ r st', exec t (with_queue rt {| queue := q; waker := waker (task_queue rt) |}, x) = Ret (r, st') ∧
       J (es ++ option_list r) st' ∧ (m st' < m (rt, x))%nat) →
  J [] st → (m st < fuel)%nat →
  ∃ es st', run_tasks fuel st = Ret (es, st') ∧ J es st' ∧ queue (task_queue st'.1) = [].
Proof.
  intros Hdec HI Hf.
  destruct (loop_total (λ acc : list E * _, J acc.1 acc.2)
    (λ r : list E * _, J r.1 r.2 ∧ queue (task_queue r.2.1) = [])
    (λ acc, m acc.2) (λ acc,
    let '(es, st) := acc in
    if has_next_task st.1 then
      '(r, st) ← process_next_task st;
      match r with
      | inl (Some e) => Ret (inl (es ++ [e], st))
      | inl None => Ret (inl (es, st))
      | inr _ => Panic UnwrapNone
      end
    else Ret (inr (es, st))) fuel ([], st)) as ([es st'] & E1 & HI' & Hn); [|done|done|by exists es, st'].
  intros [es [rt x]] HI0. simpl in *. unfold has_next_task, has_content.
  destruct (queue (task_queue rt)) as [|t q] eqn:Hq; [by eexists|].
  rewrite (process_after_check _ t q) by done.
  destruct (Hdec es rt x t q HI0 Hq) as (r & st' & E1 & HJ & Hm). simpl. rewrite E1, !bind_Ret.
  destruct r as [e|]; eexists; (split; [done|]); [done|]. by rewrite app_nil_r in HJ.
Qed.

End executor.
Arguments Runtime F : clear implicits.

(** ** Broadcast channels *)

Record Broadcast := { flag : bool; wakers : list nat }.

Definition new_broadcast_channel : Broadcast := {| flag := false; wakers := [] |}.

(** [BroadcastReceiver::poll]: [true] is ready. *)
Definition broadcast_poll (t : nat) (self : Broadcast) : Broadcast * bool :=
  if flag self then (self, true) else ({| flag := flag self; wakers := wakers self ++ [t] |}, false).

(** [BroadcastSender::send]: all waiting tasks are woken, in order. *)
Definition broadcast_send {F} (self : Broadcast) (rt : Runtime F) : outcome (Broadcast * Runtime F) :=
  rt ← foldM wake (wakers self) rt;
  Ret ({| flag := true; wakers := [] |}, rt).

Lemma foldM_wake {F} l (rt : Runtime F) :
  runtime_ok rt → ∃ rt', foldM wake l rt = Ret rt' ∧ runtime_ok rt' ∧ slots rt' = slots rt ∧
    queue (task_queue rt') = queue (task_queue rt) ++ l.
Proof.
  revert rt. induction l as [|t l IH]; intros rt Hok; simpl.
  { eexists. by rewrite app_nil_r. }
  destruct (wake_queue rt t Hok) as (rt1 & -> & Hok' & Hs & Hq). rewrite bind_Ret.
  destruct (IH rt1 Hok') as (rt2 & -> & ? & Hs2 & Hq2). eexists. by rewrite Hs2, Hq2, Hq, <- app_assoc.
Qed.

Lemma broadcast_wakes_all {F} b (rt : Runtime F) :
  runtime_ok rt → ∃ b' rt', broadcast_send b rt = Ret (b', rt') ∧ runtime_ok rt' ∧
    queue (task_queue rt') = queue (task_queue rt) ++ wakers b ∧
    ∀ t, (broadcast_poll t b').2 = true.
Proof.
  intros Hok. unfold broadcast_send.
  destruct (foldM_wake (wakers b) rt Hok) as (rt' & -> & ? & _ & ?). by eexists _, _.
Qed.

(** ** Interleaved executions

    Senders run anywhere (other tasks, the event ring of an interrupt) and a send is two
    critical sections; the second one holds the lock of the waker until the task is
    queued, so that a wake-up is one step. [Recv::poll] keeps the queue locked until the waker is stored, so
    between its two steps nobody can push. [owner c] is the task that has the receiving
    end of [c]: a [Receiver] cannot be cloned. *)

Module Interleaving.

Section interleaving.
Context {T : Type} (owner : nat → nat).

(** Where the future of a task stands. [Registering c]: found [c] empty, holds its lock. *)
Inductive status := Unborn | Active | Registering (c : nat) | Blocked (c : nat) | Finished.

Record state := {
  chans : nat → Channel T;
  runq : list nat;
  running : option nat;
  st : nat → status;
  (** channels with a sender between its two critical sections *)
  pend : list nat;
  (** histories *)
  sent : nat → list T;
  received : nat → list T;
}.

Definition init : state :=
  {| chans := λ _, new_channel; runq := []; running := None; st := λ _, Unborn; pend := [];
     sent := λ _, []; received := λ _, [] |}.

(** A task can poll the receiver of [c] when it runs freely or resumes where it waited. *)
Definition may_poll (s : state) (t c : nat) : Prop :=
  running s = Some t ∧ owner c = t ∧ (st s t = Active ∨ st s t = Blocked c).

Inductive step : state → state → Prop :=
  | step_spawn s t :
      st s t = Unborn →
      step s {| chans := chans s; runq := runq s ++ [t]; running := running s;
                st := <[t := Active]> (st s); pend := pend s; sent := sent s; received := received s |}
  | step_exec s t q :
      running s = None → runq s = t :: q → st s t ≠ Finished →
      step s {| chans := chans s; runq := q; running := Some t; st := st s; pend := pend s;
                sent := sent s; received := received s |}
  | step_exec_finished s t q :
      running s = None → runq s = t :: q → st s t = Finished →
      step s {| chans := chans s; runq := q; running := None; st := st s; pend := pend s;
                sent := sent s; received := received s |}
  | step_recv s t c ch v :
      may_poll s t c → recv_poll t (chans s c) = (ch, Some v) →
      step s {| chans := <[c := ch]> (chans s); runq := runq s; running := Some t;
                st := <[t := Active]> (st s); pend := pend s; sent := sent s;
                received := <[c := received s c ++ [v]]> (received s) |}
  | step_recv_empty s t c :
      may_poll s t c → (receive (chans s c)).2 = None →
      step s {| chans := chans s; runq := runq s; running := Some t;
                st := <[t := Registering c]> (st s); pend := pend s; sent := sent s;
                received := received s |}
  | step_recv_pending s t c ch :
      running s = Some t → st s t = Registering c → recv_poll t (chans s c) = (ch, None) →
      step s {| chans := <[c := ch]> (chans s); runq := runq s; running := None;
                st := <[t := Blocked c]> (st s); pend := pend s; sent := sent s;
                received := received s |}
  | step_finish s t :
      running s = Some t → st s t = Active →
      step s {| chans := chans s; runq := runq s; running := None;
                st := <[t := Finished]> (st s); pend := pend s; sent := sent s; received := received s |}
  | step_send_push s c v :
      (∀ t, st s t ≠ Registering c) →
      step s {| chans := <[c := push_back (chans s c) v]> (chans s); runq := runq s;
                running := running s; st := st s; pend := pend s ++ [c];
                sent := <[c := sent s c ++ [v]]> (sent s); received := received s |}
  | step_send_wake s c l1 l2 ch w :
      pend s = l1 ++ c :: l2 → take_waker (chans s c) = (ch, w) →
      step s {| chans := <[c := ch]> (chans s); runq := runq s ++ option_list w; running := running s;
                st := st s; pend := l1 ++ l2; sent := sent s; received := received s |}.

(** Every live task runs, is queued, or waits where its waker is and no value is, unless
    a sender is about to take the waker. *)
Definition task_ok (s : state) (t : nat) : Prop :=
  match st s t with
  | Unborn | Finished => True
  | Active => running s = Some t ∨ t ∈ runq s
  | Registering c => running s = Some t ∧ owner c = t ∧ queue (chans s c) = []
  | Blocked c => owner c = t ∧ (running s = Some t ∨ t ∈ runq s ∨
      waker (chans s c) = Some t ∧ (queue (chans s c) = [] ∨ c ∈ pend s))
  end.

Record inv (s : state) : Prop := {
  iv_task : ∀ t, task_ok s t;
  iv_waker : ∀ c t, waker (chans s c) = Some t → owner c = t;
  iv_run : ∀ t, running s = Some t → st s t ≠ Finished;
  iv_fifo : ∀ c, sent s c = received s c ++ queue (chans s c);
}.

Lemma wakeup_inv_init : inv init.
Proof. split; done. Qed.

Lemma receive_none (ch : Channel T) : (receive ch).2 = None → queue ch = [].
Proof. unfold receive. by destruct (queue ch). Qed.

Lemma recv_poll_inv t (ch ch' : Channel T) o :
  recv_poll t ch = (ch', o) →
  match o with
  | Some v => queue ch = v :: queue ch' ∧ waker ch' = waker ch
  | None => queue ch = [] ∧ queue ch' = [] ∧ waker ch' = Some t
  end.
Proof.
  unfold recv_poll, receive. destruct ch as [[|v q] w]; simpl; intros [= <- <-]; done.
Qed.

Ltac fn_case x y := destruct (decide (x = y)) as [->|?];
  [rewrite ?fn_lookup_insert in *|rewrite ?fn_lookup_insert_ne in * by done].

(** What an update of one channel asks of the tasks that wait: their condition on that
    channel, and the rest of the state can only have grown. *)
Lemma task_ok_mono s s' t :
  task_ok s t → st s' t = st s t →
  (running s = Some t → running s' = Some t) →
  (t ∈ runq s → t ∈ runq s' ∨ running s' = Some t) →
  (∀ c, st s t = Registering c → queue (chans s' c) = queue (chans s c)) →
  (∀ c, st s t = Blocked c → waker (chans s c) = Some t →
    queue (chans s c) = [] ∨ c ∈ pend s →
    t ∈ runq s' ∨ waker (chans s' c) = Some t ∧ (queue (chans s' c) = [] ∨ c ∈ pend s')) →
  task_ok s' t.
Proof.
  unfold task_ok. intros Ht -> Hr Hq Hreg Hb. destruct (st s t) as [| |c|c|] eqn:E; try done.
  - destruct Ht as [?|[?|?]%Hq]; auto.
  - destruct Ht as (? & ? & Hc). rewrite Hreg; auto.
  - destruct Ht as (? & [?|[[?|?]%Hq|[Hw Hc]]]); split; auto.
Qed.

Lemma inv_spawn s t :
  inv s → st s t = Unborn →
  inv {| chans := chans s; runq := runq s ++ [t]; running := running s; st := <[t := Active]> (st s);
         pend := pend s; sent := sent s; received := received s |}.
Proof.
  intros [Ht Hw Hr Hf] Hu. split; simpl; try done.
  - intros t'. unfold task_ok. simpl. fn_case t' t; [right; apply elem_of_app; right; by left|].
    specialize (Ht t'). unfold task_ok in Ht. destruct (st s t'); try done; rewrite !elem_of_app; naive_solver.
  - intros t' Hrun. fn_case t' t; [done|]. by apply Hr.
Qed.

Lemma inv_recv s t c ch v :
  inv s → may_poll s t c → recv_poll t (chans s c) = (ch, Some v) →
  inv {| chans := <[c := ch]> (chans s); runq := runq s; running := Some t;
         st := <[t := Active]> (st s); pend := pend s; sent := sent s;
         received := <[c := received s c ++ [v]]> (received s) |}.
Proof.
  intros [Ht Hw Hr Hf] (Hrun & Hown & _) [Hq Hwk]%recv_poll_inv. split; simpl.
  - intros t'. destruct (decide (t' = t)) as [->|?].
    { unfold task_ok. simpl. rewrite fn_lookup_insert. by left. }
    apply (task_ok_mono s); simpl; [apply Ht|by rewrite fn_lookup_insert_ne|congruence|by left|..].
    + intros c' Hc'. specialize (Ht t'). unfold task_ok in Ht. rewrite Hc' in Ht. destruct Ht as (? & ? & ?).
      fn_case c' c; [congruence|done].
    + intros c' Hc' Hwc Hqc. right. fn_case c' c; [|done]. exfalso. by rewrite (Hw c t' Hwc) in Hown.
  - intros c' t'. fn_case c' c; [rewrite Hwk|]; apply Hw.
  - intros t' [= <-]. by rewrite fn_lookup_insert.
  - intros c'. fn_case c' c; [|apply Hf]. by rewrite Hf, Hq, <- app_assoc.
Qed.

Lemma inv_recv_pending s t c ch :
  inv s → running s = Some t → st s t = Registering c → recv_poll t (chans s c) = (ch, None) →
  inv {| chans := <[c := ch]> (chans s); runq := runq s; running := None;
         st := <[t := Blocked c]> (st s); pend := pend s; sent := sent s; received := received s |}.
Proof.
  intros [Ht Hw Hr Hf] Hrun Hst (Hq & Hq' & Hwk)%recv_poll_inv.
  pose proof (Ht t) as Htt. unfold task_ok in Htt. rewrite Hst in Htt. destruct Htt as (_ & Hown & _).
  split; simpl.
  - intros t'. destruct (decide (t' = t)) as [->|?].
    { unfold task_ok. simpl. rewrite !fn_lookup_insert. auto 10. }
    apply (task_ok_mono s); simpl; [apply Ht|by rewrite fn_lookup_insert_ne|congruence|by left|..].
    + intros c' _. fn_case c' c; [congruence|done].
    + intros c' Hc' Hwc Hqc. right. fn_case c' c; [|done]. exfalso. by rewrite (Hw c t' Hwc) in Hown.
  - intros c' t'. fn_case c' c; [|apply Hw]. intros. congruence.
  - done.
  - intros c'. rewrite Hf. fn_case c' c; [by rewrite Hq, Hq'|done].
Qed.

Lemma inv_send_push s c v :
  inv s → (∀ t, st s t ≠ Registering c) →
  inv {| chans := <[c := push_back (chans s c) v]> (chans s); runq := runq s; running := running s;
         st := st s; pend := pend s ++ [c]; sent := <[c := sent s c ++ [v]]> (sent s);
         received := received s |}.
Proof.
  intros [Ht Hw Hr Hf] Hno. split; simpl; try done.
  - intros t'. apply (task_ok_mono s); simpl; [apply Ht|done|done|by left|..].
    + intros c' Hc'. fn_case c' c; [by destruct (Hno t')|done].
    + intros c' Hc' Hwc Hqc. right. fn_case c' c.
      * split; [done|]. right. apply elem_of_app. right. by left.
      * split; [done|]. destruct Hqc; [by left|right; apply elem_of_app; by left].
  - intros c' t'. fn_case c' c; [simpl|]; apply Hw.
  - intros c'. fn_case c' c; [|apply Hf]. simpl. by rewrite Hf, <- app_assoc.
Qed.

Lemma inv_send_wake s c l1 l2 ch w :
  inv s → pend s = l1 ++ c :: l2 → take_waker (chans s c) = (ch, w) →
  inv {| chans := <[c := ch]> (chans s); runq := runq s ++ option_list w; running := running s;
         st := st s; pend := l1 ++ l2; sent := sent s; received := received s |}.
Proof.
  intros [Ht Hw Hr Hf] Hp [= <- <-]. split; simpl; try done.
  - intros t'. apply (task_ok_mono s); simpl; [apply Ht|done|done|rewrite elem_of_app; auto|..].
    + intros c' _. by fn_case c' c.
    + intros c' Hc' Hwc Hqc. fn_case c' c.
      * left. rewrite Hwc. apply elem_of_app. right. by left.
      * right. split; [done|]. destruct Hqc as [?|Hin]; [by left|]. right. rewrite Hp in Hin.
        apply elem_of_app in Hin as [?|[?|?]%elem_of_cons]; [by apply elem_of_app; left|done|by apply elem_of_app; right].
  - intros c' t'. fn_case c' c; [done|apply Hw].
  - intros c'. rewrite Hf. by fn_case c' c.
Qed.


Lemma inv_exec s t q (fin : bool) :
  inv s → running s = None → runq s = t :: q → (if fin then st s t = Finished else st s t ≠ Finished) →
  inv {| chans := chans s; runq := q; running := if fin then None else Some t; st := st s;
         pend := pend s; sent := sent s; received := received s |}.
Proof.
  intros [Ht Hw Hr Hf] Hrun Hq Hst. split; simpl; try done; [|by destruct fin; intros t' [= <-]].
  intros t'. destruct (decide (fin = true ∧ t' = t)) as [[-> ->]|Hne].
  { unfold task_ok. simpl. by rewrite Hst. }
  apply (task_ok_mono s); simpl; [apply Ht|done|by rewrite Hrun|..|done|auto].
  rewrite Hq, elem_of_cons. intros [->|?]; [|by left]. right. destruct fin; [by destruct Hne|done].
Qed.

Lemma inv_recv_empty s t c :
  inv s → may_poll s t c → (receive (chans s c)).2 = None →
  inv {| chans := chans s; runq := runq s; running := Some t; st := <[t := Registering c]> (st s);
         pend := pend s; sent := sent s; received := received s |}.
Proof.
  intros [Ht Hw Hr Hf] (Hrun & Hown & _) Hq%receive_none. split; simpl; try done.
  - intros t'. destruct (decide (t' = t)) as [->|?].
    { unfold task_ok. simpl. by rewrite fn_lookup_insert. }
    apply (task_ok_mono s); simpl; [apply Ht|by rewrite fn_lookup_insert_ne|congruence|by left|done|auto].
  - intros t' [= <-]. by rewrite fn_lookup_insert.
Qed.

Lemma inv_finish s t :
  inv s → running s = Some t → st s t = Active →
  inv {| chans := chans s; runq := runq s; running := None; st := <[t := Finished]> (st s);
         pend := pend s; sent := sent s; received := received s |}.
Proof.
  intros [Ht Hw Hr Hf] Hrun Hst. split; simpl; try done.
  intros t'. destruct (decide (t' = t)) as [->|?].
  { unfold task_ok. simpl. by rewrite fn_lookup_insert. }
  apply (task_ok_mono s); simpl; [apply Ht|by rewrite fn_lookup_insert_ne|congruence|by left|done|auto].
Qed.

Lemma wakeup_inv_step s s' : step s s' → inv s → inv s'.
Proof.
  intros Hstep Hi. destruct Hstep.
  - by apply inv_spawn.
  - by apply (inv_exec s t q false).
  - by apply (inv_exec s t q true).
  - by eapply inv_recv.
  - by apply inv_recv_empty.
  - by eapply inv_recv_pending.
  - by apply inv_finish.
  - by apply inv_send_push.
  - by eapply inv_send_wake.
Qed.

Lemma inv_reachable s : rtc step init s → inv s.
Proof. apply rtc_ind_r; [apply wakeup_inv_init|]. eauto using wakeup_inv_step. Qed.

End interleaving.

(** C9: no wake-up is lost. However tasks and senders interleave, whenever the executor
    is idle and no sender is in the middle of [send], a task that was spawned and has not
    finished is in the run queue, or it waits on a channel that is empty and has its waker
    stored; and every channel has delivered what was sent, in order, up to what is still
    in its queue. *)
Theorem no_lost_wakeup {T} (owner : nat → nat) (s : state (T := T)) :
  rtc (step owner) init s → running s = None → pend s = [] →
  (∀ t, st s t = Unborn ∨ st s t = Finished ∨ t ∈ runq s ∨
     ∃ c, st s t = Blocked c ∧ owner c = t ∧ queue (chans s c) = [] ∧ waker (chans s c) = Some t) ∧
  (∀ c, sent s c = received s c ++ queue (chans s c)).
Proof.
  intros [Ht Hw _ Hf]%inv_reachable Hrun Hp. split; [|done]. intros t. specialize (Ht t).
  unfold task_ok in Ht. rewrite Hrun, Hp in Ht. destruct (st s t) as [| |c|c|]; [naive_solver..| |naive_solver].
  destruct Ht as (Ho & [?|[?|[Hwk [Hq|Hin]]]]); [done|auto| |by apply elem_of_nil in Hin].
  right; right; right. by exists c.
Qed.

(** A receiver that blocks, then a send: the task is queued again and the value waits. *)
Definition blocked_then_sent : state :=
  {| chans := <[0%nat := {| queue := [7]; waker := None |}]>
       (<[0%nat := {| queue := [7]; waker := Some 5%nat |}]>
       (<[0%nat := {| queue := []; waker := Some 5%nat |}]> (λ _, new_channel)));
     runq := [5%nat]; running := None;
     st := <[5%nat := Blocked 0]> (<[5%nat := Registering 0]> (<[5%nat := Active]> (λ _, Unborn)));
     pend := []; sent := <[0%nat := [7]]> (λ _, []); received := λ _, [] |}.

Lemma no_lost_wakeup_witness :
  rtc (step (λ _, 5%nat)) init blocked_then_sent ∧ 5%nat ∈ runq blocked_then_sent ∧
  ((∀ t, st blocked_then_sent t = Unborn ∨ st blocked_then_sent t = Finished ∨ t ∈ runq blocked_then_sent ∨
     ∃ c, st blocked_then_sent t = Blocked c ∧ 5%nat = t ∧ queue (chans blocked_then_sent c) = [] ∧
       waker (chans blocked_then_sent c) = Some t) ∧
   (∀ c, sent blocked_then_sent c = received blocked_then_sent c ++ queue (chans blocked_then_sent c))).
Proof.
  assert (rtc (step (λ _, 5%nat)) init blocked_then_sent) as Hreach.
  { eapply rtc_l; [apply (step_spawn _ _ 5); reflexivity|].
    eapply rtc_l; [eapply (step_exec _ _ 5 []); [reflexivity..|discriminate]|].
    eapply rtc_l; [apply (step_recv_empty _ _ 5 0); [|reflexivity];
      split_and!; [reflexivity..|left; reflexivity]|].
    eapply rtc_l; [eapply (step_recv_pending _ _ 5 0); reflexivity|].
    eapply rtc_l; [apply (step_send_push _ _ 0 7)|].
    { intros t. simpl. destruct (decide (t = 5%nat)) as [->|?]; [rewrite fn_lookup_insert; discriminate|].
      rewrite !fn_lookup_insert_ne by done. discriminate. }
    eapply rtc_l; [eapply (step_send_wake _ _ 0 [] []); reflexivity|]. apply rtc_refl. }
  split; [exact Hreach|]. split; [left|].
  apply (no_lost_wakeup (λ _, 5%nat) blocked_then_sent); [exact Hreach|reflexivity..].
Defined.

End Interleaving.
