(* ===== verification/Transfer.v ===== *)
(** usb/ring/transfer.rs and usb/ring/event.rs: transfer rings of the device endpoints,
    control requests, and the dispatch of the event ring to its listeners.

    The blocks of the xhci crate are records of the values the code sets; their encoding
    is the parameter [into_raw]. A one-shot channel is a number, [channels] counts those
    created so far. Registers that are written appear as a log of doorbells. *)

From S2P Require Import Prelude Rings Usbd Runtime.

(** ** Transfer blocks *)

Inductive TransferType := TransferNo | TransferOut | TransferIn.
Inductive Direction := DirectionOut | DirectionIn.
Inductive TransferDirection := HostToDevice | DeviceToHost.

Inductive Allowed :=
  | SetupStage (request_type request value index length : Z) (transfer_type : TransferType) (ioc : bool)
  | DataStage (data_buffer_pointer trb_transfer_length td_size : Z) (direction : Direction) (isp ioc : bool)
  | StatusStage (direction ioc : bool)
  | Normal (data_buffer_pointer trb_transfer_length : Z) (ioc : bool).

Definition interrupt_on_completion (trb : Allowed) : bool :=
  match trb with
  | SetupStage _ _ _ _ _ _ ioc | DataStage _ _ _ _ _ ioc | StatusStage _ ioc | Normal _ _ ioc => ioc
  end.

Inductive CompletionCode := Success | ShortPacket | OtherCode (code : Z).

(** [completion_code] is [inr] for a code the crate does not know. *)
Record TransferEvent := {
  slot_id : Z;
  endpoint_id : Z;
  trb_pointer : Z;
  completion_code : CompletionCode + Z;
}.

Definition get_actual_value (self : ControlRequestType) : Z * Z :=
  match self with
  | GetDescriptor => (128, 6)
  | SetConfigutation => (0, 9)
  | SetProtocol => (33, 11)
  | SetInterface => (1, 11)
  end.

Section transfer.
Context {TRB : Type} `{!TrbOps TRB} (into_raw : Allowed → TRB).

Record TransferRingSet := {
  rings : gmap (Z * Z) (ProducerRing TRB);
  trf_listener : gmap Z nat;
  ring_size : Z;
  channels : nat;
}.

Definition TransferRingSet_new (ring_size : Z) : TransferRingSet :=
  {| rings := ∅; trf_listener := ∅; ring_size := ring_size; channels := 0 |}.

(** The channel that is notified, and with what: [inr] is [TransferError]. *)
Definition on_trf_event (self : TransferRingSet) (evt : TransferEvent)
    : outcome (TransferRingSet * option (nat * (TransferEvent + TransferEvent))) :=
  match rings self !! (slot_id evt, endpoint_id evt) with
  | None => Panic UnwrapNone
  | Some r =>
      r ← set_deque_ptr r (trb_pointer evt);
      let result := match completion_code evt with
        | inl Success | inl ShortPacket => inl evt
        | _ => inr evt
        end in
      Ret ({| rings := <[(slot_id evt, endpoint_id evt) := r]> (rings self);
              trf_listener := delete (trb_pointer evt) (trf_listener self);
              ring_size := ring_size self; channels := channels self |},
           (λ rcv, (rcv, result)) <$> trf_listener self !! trb_pointer evt)
  end.

(** [addr] is where the new ring is allocated. *)
Definition init_ring_at (self : TransferRingSet) (addr slot_id endpoint_id : Z)
    : outcome (TransferRingSet * Z) :=
  r ← ProducerRing_new addr (ring_size self);
  Ret ({| rings := <[(slot_id, endpoint_id) := r]> (rings self); trf_listener := trf_listener self;
          ring_size := ring_size self; channels := channels self |}, buf_ptr r).

Definition push_transfer_trb (self : TransferRingSet) (slot_id endpoint_id : Z) (trb : Allowed)
    : outcome (TransferRingSet * (option nat + Rings.XhciError)) :=
  match rings self !! (slot_id, endpoint_id) with
  | None => Panic UnwrapNone
  | Some trf_ring =>
      '(trf_ring, r) ← push trf_ring (into_raw trb);
      let rings := <[(slot_id, endpoint_id) := trf_ring]> (rings self) in
      match r with
      | inr e => Ret ({| rings := rings; trf_listener := trf_listener self; ring_size := ring_size self;
                         channels := channels self |}, inr e)
      | inl ptr =>
          let int_on_short_packet := match trb with DataStage _ _ _ _ isp _ => isp | _ => false end in
          if interrupt_on_completion trb || int_on_short_packet then
            Ret ({| rings := rings; trf_listener := <[ptr := channels self]> (trf_listener self);
                    ring_size := ring_size self; channels := S (channels self) |}, inl (Some (channels self)))
          else Ret ({| rings := rings; trf_listener := trf_listener self; ring_size := ring_size self;
                       channels := channels self |}, inl None)
      end
  end.

(** [?] on the result of a push: the state changes so far stay. *)
Definition try_push (r : outcome (TransferRingSet * (option nat + Rings.XhciError))) (db : list (Z * Z))
    (k : TransferRingSet → option nat →
         outcome (TransferRingSet * list (Z * Z) * (nat + Rings.XhciError)))
    : outcome (TransferRingSet * list (Z * Z) * (nat + Rings.XhciError)) :=
  '(self, r) ← r;
  match r with
  | inl o => k self o
  | inr e => Ret (self, db, inr e)
  end.

(** [data] is the address of the buffer, [db] the doorbells rung: slot and target. *)
Definition control_request (self : TransferRingSet) (slot_id : Z) (setup : SetupData)
    (data : option Z) (db : list (Z * Z))
    : outcome (TransferRingSet * list (Z * Z) * (nat + Rings.XhciError)) :=
  let '(req_type, req) := get_actual_value (request_type setup) in
  let direction_bit := if Z.shiftr req_type 7 =? 1 then DeviceToHost else HostToDevice in
  let '(setup_transfer_type, data_dir, status_dir) :=
    match direction_bit, setup_length setup with
    | HostToDevice, 0 => (TransferNo, DirectionOut, DeviceToHost)
    | HostToDevice, _ => (TransferOut, DirectionOut, DeviceToHost)
    | DeviceToHost, 0 => (TransferNo, DirectionIn, DeviceToHost)
    | DeviceToHost, _ => (TransferIn, DirectionIn, HostToDevice)
    end in
  let setup_trb := SetupStage req_type req (setup_value setup) (setup_index setup) (setup_length setup)
    setup_transfer_type true in
  let status_trb := StatusStage (match status_dir with DeviceToHost => true | HostToDevice => false end) true in
  if setup_length setup =? 0 then
    try_push (push_transfer_trb self slot_id 1 setup_trb) db (λ self trb,
      trb ← unwrap trb;
      try_push (push_transfer_trb self slot_id 1 status_trb) db (λ self _,
        Ret (self, db ++ [(slot_id, 1)], inl trb)))
  else
    data ← unwrap data;
    let data_trb := DataStage data (setup_length setup) 0 data_dir true true in
    try_push (push_transfer_trb self slot_id 1 setup_trb) db (λ self _,
      try_push (push_transfer_trb self slot_id 1 data_trb) db (λ self trb,
        trb ← unwrap trb;
        try_push (push_transfer_trb self slot_id 1 status_trb) db (λ self _,
          Ret (self, db ++ [(slot_id, 1)], inl trb)))).

(** [subscribe_once] of the mouse and keyboard drivers; [buf] is where the report goes. *)
Definition subscribe_once (self : HidClass) (ts : TransferRingSet) (buf : Z) (db : list (Z * Z))
    : outcome (TransferRingSet * list (Z * Z) * (nat + Rings.XhciError)) :=
  try_push (push_transfer_trb ts (hid_slot_id self) (hid_dci self) (Normal buf 8 true)) db (λ ts recv,
    recv ← unwrap recv;
    Ret (ts, db ++ [(hid_slot_id self, as_u 8 (hid_dci self))], inl recv)).

(** ** Control requests on a ring *)

(** The stages of a control request as the USB specification has them: a data stage only
    if there is data, and the status stage in the direction opposite to the data, or
    towards the host if there is none. *)
Definition stages (setup : SetupData) (data : Z) : list Allowed :=
  let '(req_type, req) := get_actual_value (request_type setup) in
  let to_host := Z.testbit req_type 7 in
  let has_data := negb (setup_length setup =? 0) in
  [SetupStage req_type req (setup_value setup) (setup_index setup) (setup_length setup)
     (if has_data then if to_host then TransferIn else TransferOut else TransferNo) true] ++
  (if has_data
   then [DataStage data (setup_length setup) 0 (if to_host then DirectionIn else DirectionOut) true true]
   else []) ++
  [StatusStage (negb (has_data && to_host)) true].

(** Pushes blocks up to the first that is refused. *)
Fixpoint push_all (self : TransferRingSet) (slot_id endpoint_id : Z) (l : list Allowed)
    : outcome (TransferRingSet * (list (option nat) + Rings.XhciError)) :=
  match l with
  | [] => Ret (self, inl [])
  | trb :: l =>
      '(self, r) ← push_transfer_trb self slot_id endpoint_id trb;
      match r with
      | inr e => Ret (self, inr e)
      | inl o =>
          '(self, r) ← push_all self slot_id endpoint_id l;
          match r with
          | inr e => Ret (self, inr e)
          | inl os => Ret (self, inl (o :: os))
          end
      end
  end.

(** The blocks a ring has taken after those of [s]. *)
Definition extend (s : system TRB) (ts : list TRB) (r : ProducerRing TRB) : system TRB :=
  {| ring := r; ctl := ctl s; pushed := pushed s ++ ts; consumed := consumed s; completed := completed s |}.

(** Blocks that fit before the ring is full, and where number [i] of them goes. *)
Definition room (n : Z) (s : system TRB) : nat := Z.to_nat (completed s + n - 1 - zlen (pushed s)).
Definition slot_addr (n : Z) (s : system TRB) (i : nat) : Z :=
  buf_ptr (ring s) + TRB_SIZE * ((zlen (pushed s) + Z.of_nat i) mod n).

Lemma extend_extend s t ts r r' :
  extend (extend s [t] r) ts r' = extend s (t :: ts) r'.
Proof. unfold extend. simpl. by rewrite <- app_assoc. Qed.

Lemma room_bound n s : ring_inv n s → Z.of_nat (room n s) ≤ n - 1.
Proof. intros Hi. pose proof (ri_n _ _ Hi). pose proof (ri_order _ _ Hi). unfold room. lia. Qed.

Lemma room_extend n s t r : room n (extend s [t] r) = pred (room n s).
Proof. unfold room, extend. simpl. rewrite length_app. simpl. lia. Qed.

Lemma slot_addr_extend n s t r i :
  buf_ptr r = buf_ptr (ring s) → slot_addr n (extend s [t] r) i = slot_addr n s (S i).
Proof.
  intros Hb. unfold slot_addr, extend. simpl. rewrite Hb, length_app. simpl.
  do 3 f_equal. lia.
Qed.

Lemma slot_addr_inj n s i j :
  0 < n → Z.of_nat i < n → Z.of_nat j < n → slot_addr n s i = slot_addr n s j → i = j.
Proof.
  unfold slot_addr, TRB_SIZE. intros Hn Hi Hj H.
  assert (zlen (pushed s) + Z.of_nat i = zlen (pushed s) + Z.of_nat j); [|lia].
  apply (mod_near n); lia.
Qed.

Lemma push_transfer_trb_ok n s self slot ep trb :
  ring_inv n s → rings self !! (slot, ep) = Some (ring s) → (0 < room n s)%nat →
  interrupt_on_completion trb = true →
  ∃ r, ring_inv n (extend s [into_raw trb] r) ∧ buf_ptr r = buf_ptr (ring s) ∧
    push_transfer_trb self slot ep trb =
      Ret ({| rings := <[(slot, ep) := r]> (rings self);
              trf_listener := <[slot_addr n s 0 := channels self]> (trf_listener self);
              ring_size := ring_size self; channels := S (channels self) |}, inl (Some (channels self))).
Proof.
  intros Hi Hl Hr Hioc. unfold room in Hr.
  destruct (push_effect n s (into_raw trb) Hi) as (r & E & _ & Hb & _); [lia|].
  destruct (push_ring_inv n s (into_raw trb) Hi) as (r' & p & E' & Hi'); [lia|].
  rewrite E in E'. injection E' as <- _. exists r. split_and!; [done..|].
  unfold push_transfer_trb. rewrite Hl, E, bind_Ret. cbn beta iota. rewrite Hioc. simpl.
  unfold slot_addr. by rewrite Z.add_0_r.
Qed.

Lemma push_transfer_trb_full n s self slot ep trb :
  ring_inv n s → rings self !! (slot, ep) = Some (ring s) → room n s = 0%nat →
  push_transfer_trb self slot ep trb = Ret (self, inr Rings.RingIsFull).
Proof.
  intros Hi Hl Hr. pose proof (ri_order _ _ Hi). unfold room in Hr.
  unfold push_transfer_trb. rewrite Hl, (push_ring_full n s) by (done || lia). rewrite bind_Ret.
  rewrite insert_id by done. by destruct self.
Qed.

(** What pushing blocks one after the other leaves behind: those that fit are on the
    ring, each with a channel of its own that waits at the address of the block. *)
Lemma push_all_ok n s self slot ep l :
  ring_inv n s → rings self !! (slot, ep) = Some (ring s) →
  Forall (λ trb, interrupt_on_completion trb = true) l →
  let k := (room n s `min` length l)%nat in
  ∃ r self', push_all self slot ep l = Ret (self',
      if (length l <=? room n s)%nat then inl (Some <$> seq (channels self) (length l))
      else inr Rings.RingIsFull) ∧
    ring_inv n (extend s (into_raw <$> take k l) r) ∧
    rings self' = <[(slot, ep) := r]> (rings self) ∧
    (∀ i, (i < k)%nat → trf_listener self' !! slot_addr n s i = Some (channels self + i)%nat) ∧
    (∀ p, (∀ i, (i < k)%nat → p ≠ slot_addr n s i) → trf_listener self' !! p = trf_listener self !! p).
Proof.
  revert s self. induction l as [|trb l IH]; intros s self Hi Hl Hioc k.
  { exists (ring s), self. subst k. simpl. rewrite Nat.min_0_r. split; [done|].
    unfold extend. simpl. rewrite app_nil_r, insert_id by done.
    split; [by destruct s|]. split; [done|]. split; [lia|done]. }
  apply list.Forall_cons in Hioc as [Ht Hioc]. cbn [push_all].
  destruct (room n s) as [|m] eqn:Hm.
  { rewrite (push_transfer_trb_full n s) by done. rewrite bind_Ret.
    exists (ring s), self. subst k. simpl. split; [done|].
    unfold extend. simpl. rewrite app_nil_r, insert_id by done.
    split; [by destruct s|]. split; [done|]. split; [lia|done]. }
  destruct (push_transfer_trb_ok n s self slot ep trb) as (r & Hi1 & Hb & ->); [done..|lia|done|].
  pose proof (room_bound n s Hi) as Hrb. pose proof (ri_n n s Hi) as Hn. rewrite bind_Ret.
  edestruct (IH (extend s [into_raw trb] r)) as (r2 & self2 & -> & Hi2 & Hr2 & Hlis & Hold);
    [done|simpl; apply lookup_insert_eq|done|].
  rewrite bind_Ret. rewrite room_extend, Hm in *. cbn [pred channels rings trf_listener] in *.
  exists r2, self2. split; [|split; [|split; [|split]]].
  - cbn [length Nat.leb]. by destruct (length l <=? m)%nat.
  - rewrite extend_extend in Hi2. exact Hi2.
  - by rewrite Hr2, insert_insert_eq.
  - intros [|i] Hik; subst k; simpl in Hik.
    + rewrite Hold, Nat.add_0_r; [apply lookup_insert_eq|].
      intros i Hik'. rewrite slot_addr_extend by done. intros E%slot_addr_inj; lia.
    + specialize (Hlis i). rewrite slot_addr_extend in Hlis by done. rewrite Hlis by lia. f_equal. lia.
  - intros p Hp. subst k. simpl in Hp. rewrite Hold.
    + rewrite lookup_insert_ne; [done|]. intros E. apply (Hp 0%nat); [lia|done].
    + intros i Hik. rewrite slot_addr_extend by done. apply Hp. lia.
Qed.

Lemma push_transfer_trb_some self slot ep trb self' o :
  interrupt_on_completion trb = true →
  push_transfer_trb self slot ep trb = Ret (self', inl o) → ∃ t, o = Some t.
Proof.
  unfold push_transfer_trb. intros Hioc H. destruct (rings self !! _); [|done].
  inv_outcome. destruct a as [r [ptr|e]]; [|done]. rewrite Hioc in H. simpl in H. simplify_eq. by eexists.
Qed.

Lemma stages_ioc setup d : Forall (λ trb, interrupt_on_completion trb = true) (stages setup d).
Proof.
  unfold stages. destruct (get_actual_value _), (setup_length setup =? 0); simpl; by repeat constructor.
Qed.

Ltac direction_bit :=
  match goal with
  | |- context [Z.shiftr ?a 7 =? 1] =>
      let b := eval vm_compute in (Z.shiftr a 7 =? 1) in change (Z.shiftr a 7 =? 1) with b
  end; cbn.

Ltac next_push :=
  match goal with
  | |- context [push_transfer_trb ?s ?l ?e ?t] =>
      let E := fresh in
      destruct (push_transfer_trb s l e t) as [[? [?|?]]|?|] eqn:E; [|reflexivity..];
      destruct (push_transfer_trb_some s l e t _ _ eq_refl E) as [? ->]; clear E; cbn
  end.

(** [control_request] pushes the stages and rings the doorbell if all of them fit. The
    channel handed out is that of the data stage, or of the setup stage if there is none. *)
Lemma control_request_push_all self slot setup data d db :
  (setup_length setup ≠ 0 → data = Some d) → 0 ≤ setup_length setup →
  control_request self slot setup data db =
    ('(self, r) ← push_all self slot 1 (stages setup d);
     match r with
     | inr e => Ret (self, db, inr e)
     | inl os =>
         o ← unwrap (mjoin (os !! if setup_length setup =? 0 then 0%nat else 1%nat));
         Ret (self, db ++ [(slot, 1)], inl o)
     end).
Proof.
  intros Hd Hlen. unfold control_request, stages, try_push.
  destruct (Z.eqb_spec (setup_length setup) 0) as [E0|E0].
  - rewrite E0. destruct (request_type setup); cbn; direction_bit; by repeat next_push.
  - rewrite (Hd E0). destruct (setup_length setup) as [|n|n]; [done| |lia].
    destruct (request_type setup); cbn; direction_bit; by repeat next_push.
Qed.

(** C19: a control request puts exactly the setup, data and status stages the USB
    specification asks for on the default pipe of the device, in that order and in one
    piece, after any history of the ring; other rings are untouched. If the ring has room
    for all stages the doorbell is rung once and the caller gets the channel registered
    for the data stage (for the setup stage if there is no data). If not, the stages that
    still fit stay on the ring, the doorbell is not rung and the answer is [RingIsFull]. *)
Theorem control_request_stages (addr size slot d : Z) (r : ProducerRing TRB) (s : system TRB)
    (self : TransferRingSet) (setup : SetupData) (data : option Z) (db : list (Z * Z)) :
  2 ≤ size ≤ 2 ^ 32 → 0 ≤ addr → addr + TRB_SIZE * size < 2 ^ 64 →
  ProducerRing_new addr size = Ret r → rtc step (start r) s →
  rings self !! (slot, 1) = Some (ring s) →
  0 ≤ setup_length setup → (setup_length setup ≠ 0 → data = Some d) →
  let l := stages setup d in
  let free := room (size - 1) s in
  let first := if setup_length setup =? 0 then 0%nat else 1%nat in
  ∃ r' self' db' res, control_request self slot setup data db = Ret (self', db', res) ∧
    rings self' = <[(slot, 1) := r']> (rings self) ∧
    ring_inv (size - 1) (extend s (into_raw <$> take free l) r') ∧
    if (length l <=? free)%nat then
      db' = db ++ [(slot, 1)] ∧ res = inl (channels self + first)%nat ∧
      trf_listener self' !! slot_addr (size - 1) s first = Some (channels self + first)%nat
    else db' = db ∧ res = inr Rings.RingIsFull.
Proof.
  intros Hs Ha Hb Hnew Hr Hl Hlen Hd l free first. subst free.
  pose proof (steps_inv _ _ _ Hr (ring_inv_start addr size r Hs Ha Hb Hnew)) as Hi.
  destruct (push_all_ok (size - 1) s self slot 1 l Hi Hl (stages_ioc _ _)) as (r' & self' & E & Hi' & Hrs & Hlis & _).
  rewrite (control_request_push_all self slot setup data d db Hd Hlen). fold l. rewrite E, bind_Ret.
  assert (take (room (size - 1) s `min` length l) l = take (room (size - 1) s) l) as Htk.
  { rewrite <- take_take, (take_ge l (length l)) by lia. done. }
  rewrite Htk in Hi'. exists r', self'.
  destruct (Nat.leb_spec (length l) (room (size - 1) s)) as [Hle|Hgt]; [|by eexists _, _].
  assert (first < length l)%nat as Hfl.
  { unfold l, first, stages. destruct (get_actual_value _), (_ =? _); simpl; lia. }
  rewrite list_lookup_fmap, (lookup_seq_lt _ _ _ Hfl). simpl.
  eexists _, _. split_and!; [done..|]. apply Hlis. lia.
Qed.

(** The completion event of block [k] frees the ring up to it and notifies the channel
    that waits for the block, with the event or, for a failed transfer, an error; a
    second event for the block finds nobody. *)
Lemma trf_event_routed n s self evt k :
  ring_inv n s → rings self !! (slot_id evt, endpoint_id evt) = Some (ring s) →
  completed s ≤ k < zlen (consumed s) →
  trb_pointer evt = buf_ptr (ring s) + TRB_SIZE * (k mod n) →
  ∃ r self', on_trf_event self evt = Ret (self', (λ c, (c,
      match completion_code evt with inl Success | inl ShortPacket => inl evt | _ => inr evt end)) <$>
        trf_listener self !! trb_pointer evt) ∧
    rings self' = <[(slot_id evt, endpoint_id evt) := r]> (rings self) ∧
    trf_listener self' = delete (trb_pointer evt) (trf_listener self) ∧ channels self' = channels self ∧
    buf_ptr r = buf_ptr (ring s) ∧
    ring_inv n {| ring := r; ctl := ctl s; pushed := pushed s; consumed := consumed s; completed := k + 1 |}.
Proof.
  intros Hi Hl Hk Hp. destruct (complete_inv n s k Hi Hk) as (r & E & Hb & Hi').
  unfold on_trf_event. rewrite Hl, Hp, E, bind_Ret. exists r. eexists. split_and!; [done..|exact Hb|exact Hi'].
Qed.

End transfer.
Arguments TransferRingSet : clear implicits.

(** ** Event dispatch *)

Section dispatch.
(** [C] and [P] are command completions and port changes. *)
Context {TRB : Type} `{!TrbOps TRB} {C P : Type}.

(** [OtherEvent]: the five kinds of event [process_event] leaves as [todo!()]. *)
Inductive event :=
  | EventTransfer (trb : TransferEvent)
  | EventCommand (trb : C)
  | EventPort (trb : P)
  | OtherEvent.

(** [into_event_trb] on the raw block, [None] when it is no event. *)
Context (into_event_trb : TRB → option event).

(** [woken] are the tasks the sends have woken. *)
Record EventRing := {
  ev_ring : ConsumerRing TRB;
  trf_chan : Channel TransferEvent;
  cmd_chan : Channel C;
  port_chan : Channel P;
  woken : list nat;
}.

Definition process_event (self : EventRing) (trb : event) : outcome EventRing :=
  match trb with
  | EventTransfer trb =>
      let '(ch, w) := send (trf_chan self) trb in
      Ret {| ev_ring := ev_ring self; trf_chan := ch; cmd_chan := cmd_chan self;
             port_chan := port_chan self; woken := woken self ++ option_list w |}
  | EventCommand trb =>
      let '(ch, w) := send (cmd_chan self) trb in
      Ret {| ev_ring := ev_ring self; trf_chan := trf_chan self; cmd_chan := ch;
             port_chan := port_chan self; woken := woken self ++ option_list w |}
  | EventPort trb =>
      let '(ch, w) := send (port_chan self) trb in
      Ret {| ev_ring := ev_ring self; trf_chan := trf_chan self; cmd_chan := cmd_chan self;
             port_chan := ch; woken := woken self ++ option_list w |}
  | OtherEvent => Panic ExplicitPanic
  end.

Definition with_ring (self : EventRing) (r : ConsumerRing TRB) : EventRing :=
  {| ev_ring := r; trf_chan := trf_chan self; cmd_chan := cmd_chan self;
     port_chan := port_chan self; woken := woken self |}.

(** One turn of the loop of [EventRing::on_xhc_interrupt]. *)
Definition next_event (self : EventRing) : outcome (EventRing + EventRing) :=
  '(ring, o) ← pop (ev_ring self);
  let self := with_ring self ring in
  match o with
  | None => Ret (inr self)
  | Some trb =>
      trb ← unwrap (into_event_trb trb);
      self ← process_event self trb;
      Ret (inl self)
  end.

(** [EventRing::on_xhc_interrupt], with the value written back to [erdp]. *)
Definition handle_events (fuel : nat) (buf : Z) (self : EventRing) : outcome (EventRing * Z) :=
  self ← loop fuel next_event self;
  p ← erdp buf (ev_ring self);
  Ret (self, p).

Definition transfers (es : list event) : list TransferEvent :=
  omap (λ e, match e with EventTransfer t => Some t | _ => None end) es.
Definition commands (es : list event) : list C :=
  omap (λ e, match e with EventCommand t => Some t | _ => None end) es.
Definition ports (es : list event) : list P :=
  omap (λ e, match e with EventPort t => Some t | _ => None end) es.

(** A channel that got the values [l]: whoever waited has been woken. *)
Definition fed {A} (ch ch' : Channel A) (l : list A) (ws : list nat) : Prop :=
  queue ch' = queue ch ++ l ∧ (l = [] → waker ch' = waker ch) ∧
  (l ≠ [] → waker ch' = None ∧ ∀ t, waker ch = Some t → t ∈ ws).

Lemma fed_refl {A} (ch : Channel A) ws : fed ch ch [] ws.
Proof. split_and!; [by rewrite app_nil_r|done..]. Qed.

Lemma fed_send {A} (ch ch1 ch2 : Channel A) l v w ws :
  fed ch ch1 l ws → send ch1 v = (ch2, w) → fed ch ch2 (l ++ [v]) (ws ++ option_list w).
Proof.
  unfold fed, send, take_waker, push_back. simpl. intros (Hq & Hn & Hw) [= <- <-]. simpl.
  split_and!; [by rewrite Hq, app_assoc|by destruct l|]. intros _. split; [done|]. intros t Ht.
  apply elem_of_app. destruct l as [|x l]; [right; rewrite (Hn eq_refl), Ht; by left|left].
  destruct Hw as [_ Hw]; [done|]. by apply Hw.
Qed.

Lemma fed_mono {A} (ch ch' : Channel A) l ws ws' : fed ch ch' l ws → fed ch ch' l (ws ++ ws').
Proof.
  intros (Hq & Hn & Hw). split_and!; [done..|]. intros Hl. destruct (Hw Hl) as [? Hin].
  split; [done|]. intros t Ht. apply elem_of_app. left. by apply Hin.
Qed.

Lemma omap_total {A B} (f : A → option B) l :
  Forall (λ x, is_Some (f x)) l →
  length (omap f l) = length l ∧ ∀ i x, l !! i = Some x → omap f l !! i = f x.
Proof.
  induction 1 as [|x l [y Hy] _ [IH1 IH2]]; [done|]. simpl. rewrite Hy. simpl. split; [by f_equal|].
  intros [|i] z Hz; simpl in *; [congruence|by apply IH2].
Qed.

(** Whoever is woken waited on a channel that got something. *)
Definition waited (self : EventRing) (es : list event) (t : nat) : Prop :=
  transfers es ≠ [] ∧ waker (trf_chan self) = Some t ∨
  commands es ≠ [] ∧ waker (cmd_chan self) = Some t ∨
  ports es ≠ [] ∧ waker (port_chan self) = Some t.

Lemma fed_waker {A} (ch ch' : Channel A) l ws t : fed ch ch' l ws → waker ch' = Some t → waker ch = Some t.
Proof.
  intros (_ & Hn & Hw) Ht. destruct l as [|x l]; [by rewrite <- Hn|].
  destruct Hw as [E _]; [done|]. by rewrite E in Ht.
Qed.

Lemma waited_app self es es' t : waited self es t → waited self (es ++ es') t.
Proof.
  unfold waited, transfers, commands, ports. rewrite !omap_app.
  intros [[H ?]|[[H ?]|[H ?]]]; [left|right; left|right; right]; (split; [|done]); by intros [? _]%app_eq_nil.
Qed.

(** The channels after the events [es] have been dispatched. *)
Record dispatched (self self' : EventRing) (es : list event) : Prop := {
  dp_woken : ∀ t, t ∈ woken self' → t ∈ woken self ∨ waited self es t;
  dp_count : (length (woken self') ≤ length (woken self) + length es)%nat;
  dp_trf : fed (trf_chan self) (trf_chan self') (transfers es) (woken self');
  dp_cmd : fed (cmd_chan self) (cmd_chan self') (commands es) (woken self');
  dp_port : fed (port_chan self) (port_chan self') (ports es) (woken self');
}.

Lemma process_event_ok self self1 es e :
  e ≠ OtherEvent → dispatched self self1 es →
  ∃ self2, process_event self1 e = Ret self2 ∧ ev_ring self2 = ev_ring self1 ∧ dispatched self self2 (es ++ [e]).
Proof.
  intros He [H0 Hn H1 H2 H3]. unfold process_event.
  destruct e as [t|c|p|]; [..|done]; unfold send; cbn; eexists; (split; [done|]); (split; [done|]);
    (split; [|cbn; rewrite !length_app; cbn; match goal with |- context [option_list ?o] => destruct o end; cbn; lia|
      unfold transfers, commands, ports; rewrite omap_app; cbn; rewrite ?app_nil_r;
      solve [by apply fed_mono|by eapply fed_send]..]); cbn.
  all: intros u [Hu|Hu]%elem_of_app; [destruct (H0 u Hu); [by left|right; by apply waited_app]|right].
  all: apply elem_of_option_list in Hu; unfold waited, transfers, commands, ports; rewrite !omap_app; cbn.
  - left. split; [by intros [_ ?]%app_eq_nil|by eapply fed_waker].
  - right; left. split; [by intros [_ ?]%app_eq_nil|by eapply fed_waker].
  - right; right. split; [by intros [_ ?]%app_eq_nil|by eapply fed_waker].
Qed.

Lemma dispatch_one self self1 es r trb :
  dispatched self self1 es →
  ∃ self2, dispatched self self2 (es ++ option_list (into_event_trb trb)) ∧ ev_ring self2 = r ∧
    ((∃ e, into_event_trb trb = Some e ∧ e ≠ OtherEvent) →
     (trb ← unwrap (into_event_trb trb); process_event (with_ring self1 r) trb) = Ret self2).
Proof.
  intros Hd. assert (dispatched self (with_ring self1 r) es) as Hd' by by destruct Hd.
  destruct (into_event_trb trb) as [e|]; simpl; [|exists (with_ring self1 r); rewrite app_nil_r; naive_solver].
  assert (e = OtherEvent ∨ e ≠ OtherEvent) as [->|He] by (destruct e; auto).
  - exists (with_ring self1 r). split; [|split; [done|naive_solver]]. destruct Hd' as [H0 Hn H1 H2 H3].
    split; [intros u Hu; destruct (H0 u Hu); [by left|right; by apply waited_app]|rewrite length_app; lia|..];
      unfold transfers, commands, ports in *; rewrite omap_app; simpl; by rewrite app_nil_r.
  - destruct (process_event_ok self (with_ring self1 r) es e He Hd') as (self2 & E & Hr & Hd2).
    exists self2. split; [done|]. split; [by rewrite Hr|]. by intros _.
Qed.

(** The loop pops what [Rings.on_xhc_interrupt] pops and dispatches it. *)
Lemma handle_events_loop fuel self self1 ring evs0 fin es0 :
  loop fuel (λ '(self, evs),
    '(self, o) ← pop self;
    match o with
    | None => Ret (inr (self, evs))
    | Some trb => Ret (inl (self, evs ++ [trb]))
    end) (ev_ring self1, evs0) = Ret (ring, fin) →
  dispatched self self1 es0 →
  ∃ evs, fin = evs0 ++ evs ∧
  (Forall (λ trb, ∃ e, into_event_trb trb = Some e ∧ e ≠ OtherEvent) evs →
   ∃ self2, loop fuel next_event self1 = Ret self2 ∧ ev_ring self2 = ring ∧ dispatched self self2 (es0 ++ omap into_event_trb evs)).
Proof.
  revert self1 evs0 es0. induction fuel as [|fuel IH]; intros self1 evs0 es0 H Hd; [done|].
  cbn [loop] in *.
  destruct (pop (ev_ring self1)) as [[r [trb|]]|p|] eqn:Ep; [|..|done|done]; rewrite !bind_Ret in H; cbn in H.
  - assert (∃ self2, dispatched self self2 (es0 ++ option_list (into_event_trb trb)) ∧ ev_ring self2 = r ∧
      ((∃ e, into_event_trb trb = Some e ∧ e ≠ OtherEvent) →
       (trb ← unwrap (into_event_trb trb); process_event (with_ring self1 r) trb) = Ret self2))
      as (self2 & Hd2 & Hr2 & Hp2).
    { by apply dispatch_one. }
    destruct (IH self2 (evs0 ++ [trb]) (es0 ++ option_list (into_event_trb trb))) as (evs & -> & Hrest); [by rewrite Hr2|done|].
    exists (trb :: evs). rewrite <- app_assoc. split; [done|].
    intros [He Hev]%list.Forall_cons. specialize (Hp2 He). destruct (Hrest Hev) as (self3 & E3 & ? & Hd3).
    destruct He as (e & Ee & He). exists self3. rewrite Ee in Hp2, Hd3. cbn in Hp2, Hd3.
    assert (next_event self1 = Ret (inl self2)) as ->.
    { unfold next_event. rewrite Ep, bind_Ret. cbn. rewrite Ee. cbn. by rewrite Hp2. }
    rewrite bind_Ret. split; [exact E3|]. split; [done|]. cbn. rewrite Ee. by rewrite <- app_assoc in Hd3.
  - injection H as <- <-. exists []. split; [by rewrite app_nil_r|]. intros _. exists (with_ring self1 r).
    unfold next_event. rewrite Ep, app_nil_r. split; [done|]. split; [done|]. by destruct Hd.
Qed.

(** The loop over the event ring, after any history of the ring. *)
Lemma handle_events_ok (size buf : Z) (s : event_system TRB) (self : EventRing) :
  1 ≤ size ≤ 2 ^ 16 → 0 ≤ buf → buf + TRB_SIZE * size < 2 ^ 64 →
  event_inv size s → ev_ring self = e_ring s →
  (∀ k t, zlen (popped s) ≤ k → written s !! Z.to_nat k = Some t →
     ∃ e, into_event_trb (set_cycle_bit t (phase size k)) = Some e ∧ e ≠ OtherEvent) →
  ∃ self' evs, handle_events (S (Z.to_nat size)) buf self =
      Ret (self', buf + TRB_SIZE * (zlen (written s) mod size)) ∧
    zlen evs = zlen (written s) - zlen (popped s) ∧
    (∀ k t, zlen (popped s) ≤ k → written s !! Z.to_nat k = Some t →
       evs !! Z.to_nat (k - zlen (popped s)) = into_event_trb (set_cycle_bit t (phase size k))) ∧
    dispatched self self' evs ∧
    ∃ raw, event_inv size {| e_ring := ev_ring self'; written := written s; popped := popped s ++ raw |} ∧
      zlen raw = zlen evs.
Proof.
  intros Hs Hb Hbs Hi Hring Hok.
  destruct (interrupt_drains size s Hi) as (r & raw & E & Hi' & Hlen).
  pose proof (ei_order _ _ Hi') as Ho. pose proof (ei_deque _ _ Hi') as Hdq. simpl in Ho, Hdq. rewrite Hlen in Hdq.
  assert (∀ k t, zlen (popped s) ≤ k → written s !! Z.to_nat k = Some t →
    raw !! Z.to_nat (k - zlen (popped s)) = Some (set_cycle_bit t (phase size k))) as Hraw.
  { intros k t Hk Ht. apply lookup_lt_Some in Ht as Hlt.
    pose proof (ei_popped _ _ Hi' k t) as Hev. simpl in Hev. rewrite length_app in *.
    rewrite lookup_app_r in Hev by lia. rewrite <- Hev; [|lia|done]. f_equal. lia. }
  assert (Forall (λ trb, ∃ e, into_event_trb trb = Some e ∧ e ≠ OtherEvent) raw) as Hdec.
  { apply list.Forall_lookup. intros i x Hx. apply lookup_lt_Some in Hx as Hlt. rewrite length_app in Hlen.
    destruct (lookup_lt_is_Some_2 (written s) (length (popped s) + i)) as [t Ht]; [lia|].
    specialize (Hraw (zlen (popped s) + Z.of_nat i) t). specialize (Hok (zlen (popped s) + Z.of_nat i) t).
    rewrite Z2Nat.inj_add, !Nat2Z.id in Hraw, Hok by lia.
    replace (Z.to_nat (zlen (popped s) + Z.of_nat i - zlen (popped s))) with i in Hraw by lia.
    rewrite Hraw in Hx by (done || lia). injection Hx as <-. apply Hok; [lia|done]. }
  unfold on_xhc_interrupt in E. rewrite <- Hring in E.
  destruct (handle_events_loop _ self self r [] raw [] E) as (evs & Hevs & Hdisp).
  { split; [by left|lia|apply fed_refl..]. }
  simpl in Hevs. subst evs. destruct (Hdisp Hdec) as (self2 & E2 & Hr2 & Hd2). simpl in Hd2.
  exists self2, (omap into_event_trb raw). unfold handle_events. rewrite E2, bind_Ret.
  destruct (omap_total into_event_trb raw) as [Hl Hlook].
  { eapply Forall_impl; [exact Hdec|]. intros x (e & ? & _). by exists e. }
  rewrite length_app in Hlen. split_and!; [|rewrite Hl; lia|intros k t Hk Ht; by apply Hlook, Hraw|done|
    exists raw; by rewrite Hr2, Hl].
  pose proof (Z.mod_pos_bound (zlen (written s)) size ltac:(lia)).
  unfold erdp. rewrite Hr2, Hdq. unfold TRB_SIZE in *. rewrite usize_mul_ok by lia. rewrite bind_Ret.
  rewrite usize_add_ok by lia. rewrite bind_Ret. do 2 f_equal. lia.
Qed.

(** C10: on an interrupt every event the controller has written since the last one is
    handed to the channel of its kind, each kind in the order of the events, and the
    tasks that waited on these channels are woken; nothing panics as long as the events
    are of the three kinds the kernel knows. *)
Theorem events_dispatched (size buf : Z) (s : event_system TRB) (self : EventRing) :
  1 ≤ size ≤ 2 ^ 16 → 0 ≤ buf → buf + TRB_SIZE * size < 2 ^ 64 →
  rtc estep (estart size) s → ev_ring self = e_ring s →
  (∀ k t, zlen (popped s) ≤ k → written s !! Z.to_nat k = Some t →
     ∃ e, into_event_trb (set_cycle_bit t (phase size k)) = Some e ∧ e ≠ OtherEvent) →
  ∃ self' evs, handle_events (S (Z.to_nat size)) buf self =
      Ret (self', buf + TRB_SIZE * (zlen (written s) mod size)) ∧
    zlen evs = zlen (written s) - zlen (popped s) ∧
    (∀ k t, zlen (popped s) ≤ k → written s !! Z.to_nat k = Some t →
       evs !! Z.to_nat (k - zlen (popped s)) = into_event_trb (set_cycle_bit t (phase size k))) ∧
    dispatched self self' evs.
Proof.
  intros Hs Hb Hbs Hr Hring Hok. pose proof (esteps_inv _ _ _ Hr (event_inv_start size ltac:(lia))) as Hi.
  destruct (handle_events_ok size buf s self) as (self' & evs & ? & ? & ? & ? & _); [done..|]. by exists self', evs.
Qed.

End dispatch.

(** ** Concrete rings *)

(** An encoding that only keeps the kind of a block and its lengths. *)
Definition demo_raw (a : Allowed) : Z :=
  match a with
  | SetupStage _ _ _ _ l _ _ => 2 + 64 * l
  | DataStage _ l _ _ _ _ => 3 + 64 * l
  | StatusStage d _ => 4 + 64 * Z.b2z d
  | Normal _ l _ => 1 + 64 * l
  end.

Definition demo_pipe : ProducerRing Z :=
  {| data := replicate 7 0 ++ [trb_link 0x1000]; cycle_state := true; enque := 0; deque := 0;
     buf_ptr := 0x1000 |}.

Definition demo_set : TransferRingSet Z :=
  {| rings := {[ (3, 1) := demo_pipe ]}; trf_listener := ∅; ring_size := 8; channels := 4 |}.

Definition get_device_descriptor : SetupData :=
  {| request_type := GetDescriptor; setup_value := 256; setup_index := 0; setup_length := 18 |}.

Lemma control_request_stages_witness :
  ∃ r' self', control_request demo_raw demo_set 3 get_device_descriptor (Some 0x2000) [] =
      Ret (self', [(3, 1)], inl 5%nat) ∧
    rings self' = <[(3, 1) := r']> (rings demo_set) ∧
    ring_inv 7 (extend (start demo_pipe) [2 + 64 * 18; 3 + 64 * 18; 4] r') ∧
    trf_listener self' !! (0x1000 + 16) = Some 5%nat.
Proof.
  destruct (control_request_stages demo_raw 0x1000 8 3 0x2000 demo_pipe (start demo_pipe) demo_set
    get_device_descriptor (Some 0x2000) []) as (r' & self' & db' & res & E & H1 & H2 & H3 & H4 & H5);
    [lia|lia|vm_compute; reflexivity|vm_compute; reflexivity|apply rtc_refl|vm_compute; reflexivity|
     vm_compute; discriminate|reflexivity|].
  exists r', self'. rewrite E, H3, H4. split_and!; [reflexivity|exact H1|exact H2|exact H5].
Defined.

Definition demo_event_ring : EventRing (TRB := Z) (C := ()) (P := Z) :=
  {| ev_ring := e_ring demo_events; trf_chan := new_channel; cmd_chan := new_channel;
     port_chan := {| queue := []; waker := Some 2%nat |}; woken := [] |}.

Lemma events_dispatched_witness :
  ∃ self', handle_events (λ t, Some (EventPort t)) 3 0x4000 demo_event_ring = Ret (self', 0x4000) ∧
    queue (port_chan self') = [2 ^ 96 + 9] ∧ 2%nat ∈ woken self'.
Proof.
  destruct (events_dispatched (C := ()) (λ t, Some (EventPort t)) 2 0x4000 demo_events demo_event_ring)
    as (self' & evs & E & Hl & Hev & [_ _ _ _ Hp]); [lia|lia|vm_compute; reflexivity|exact demo_events_reachable|
      reflexivity|intros k t _ _; eexists; split; [reflexivity|discriminate]|].
  exists self'. split; [exact E|].
  specialize (Hev 1 9 ltac:(vm_compute; discriminate) eq_refl). vm_compute in Hev.
  destruct evs as [|e [|e2 evs]]; [discriminate| |cbn in Hl; lia].
  injection Hev as ->. destruct Hp as (Hq & _ & Hw). split; [exact Hq|].
  destruct Hw as [_ Hw]; [discriminate|]. apply Hw. reflexivity.
Defined.
