(* ===== verification/Service.v ===== *)
(** usb/mod.rs [on_xhc_interrupt] end to end: the event ring, the channels, the executor and
    the tasks that usb/xhci.rs and usb/usbd.rs spawn, as one system.

    The tasks that serve the rings and those that poll a mouse or a keyboard are defined
    here, as the polls of their futures; other tasks are a parameter ([client]). One-shot
    channels are those of the futures crate: their interface is the class [Oneshots]. *)

From stdpp Require Import functions.
From S2P Require Import Prelude Rings Usbd Runtime Transfer.

(** ** One-shot channels *)

(** [os_value] and [os_waker] are what a channel holds; [os_send] also returns the task it
    wakes, [os_poll] is the poll of the receiver in a task. *)
Class Oneshots (O T : Type) := {
  os_value : O → nat → option T;
  os_waker : O → nat → option nat;
  os_send : O → nat → T → O * option nat;
  os_poll : O → nat → nat → O * option T;
  os_send_wakes o c v : (os_send o c v).2 = os_waker o c;
  os_value_send o c v c' : os_value (os_send o c v).1 c' = if decide (c' = c) then Some v else os_value o c';
  os_waker_send o c v c' : os_waker (os_send o c v).1 c' = if decide (c' = c) then None else os_waker o c';
  os_poll_result o t c : (os_poll o t c).2 = os_value o c;
  os_poll_other o t c c' : c' ≠ c →
    os_value (os_poll o t c).1 c' = os_value o c' ∧ os_waker (os_poll o t c).1 c' = os_waker o c';
  os_poll_empty o t c : os_value o c = None →
    os_value (os_poll o t c).1 c = None ∧ os_waker (os_poll o t c).1 c = Some t;
}.

(** A map of channels. *)
Abbreviation oneshot_map T := (gmap nat (option T * option nat)).

Definition cell {T} (o : oneshot_map T) (c : nat) : option T * option nat := default (None, None) (o !! c).

Lemma cell_insert {T} (o : oneshot_map T) c x c' :
  cell (<[c := x]> o) c' = if decide (c' = c) then x else cell o c'.
Proof.
  unfold cell. case_decide as Hc; [subst; by rewrite lookup_insert_eq|by rewrite lookup_insert_ne].
Qed.

#[export, refine] Instance oneshot_map_ops T : Oneshots (oneshot_map T) T := {|
  os_value o c := (cell o c).1;
  os_waker o c := (cell o c).2;
  os_send o c v := (<[c := (Some v, None)]> o, (cell o c).2);
  os_poll o t c := match (cell o c).1 with
                   | Some v => (o, Some v)
                   | None => (<[c := (None, Some t)]> o, None)
                   end;
|}.
Proof.
  - done.
  - intros o c v c'. simpl. rewrite cell_insert. by case_decide.
  - intros o c v c'. simpl. rewrite cell_insert. by case_decide.
  - intros o t c. by destruct (cell o c).1.
  - intros o t c c' Hc. destruct (cell o c).1; simpl; [done|]. by rewrite cell_insert, decide_False.
  - intros o t c H. rewrite H. simpl. by rewrite cell_insert, decide_True.
Defined.

(** ** Tasks *)

Section service.
Context {TRB : Type} `{!TrbOps TRB} (into_raw : Allowed → TRB).
Context {C P G OC OT : Type} `{!Oneshots OC C} `{!Oneshots OT (TransferEvent + TransferEvent)}.
Context (command_trb_pointer : C → Z) (into_event_trb : TRB → option (event (C := C) (P := P))).
(** Where the buffer of a report is allocated, by the number of transfers before it. *)
Context (report_at : nat → Z).

#[local] Abbreviation Events := (EventRing (TRB := TRB) (C := C) (P := P)).

(** The statics of usb/xhci.rs, the one-shot channels, and what the code does to the
    outside: doorbells, the dequeue pointer written back, calls of the drivers' callbacks
    (by task, with the report). *)
Record world := {
  w_events : Events;
  w_cmds : CommandRing TRB nat;
  w_trfs : TransferRingSet TRB;
  w_cmd_os : OC;
  w_trf_os : OT;
  w_doorbells : list (Z * Z);
  w_erdp : list Z;
  w_calls : list (nat * Z);
}.

(** Where a polling task of [main_loop] stands. *)
Inductive hid_state := HidStart | HidWait (recv : nat) (buf : Z).

Inductive future := CommandLoop | TransferLoop | HidLoop (h : HidClass) (st : hid_state) | Client (g : G).

Definition state : Type := Runtime future * world.

Definition set_events (w : world) (ev : Events) : world :=
  {| w_events := ev; w_cmds := w_cmds w; w_trfs := w_trfs w; w_cmd_os := w_cmd_os w; w_trf_os := w_trf_os w;
     w_doorbells := w_doorbells w; w_erdp := w_erdp w; w_calls := w_calls w |}.
Definition set_cmds (w : world) (cmds : CommandRing TRB nat) (os : OC) : world :=
  {| w_events := w_events w; w_cmds := cmds; w_trfs := w_trfs w; w_cmd_os := os; w_trf_os := w_trf_os w;
     w_doorbells := w_doorbells w; w_erdp := w_erdp w; w_calls := w_calls w |}.
Definition set_trfs (w : world) (ts : TransferRingSet TRB) (os : OT) : world :=
  {| w_events := w_events w; w_cmds := w_cmds w; w_trfs := ts; w_cmd_os := w_cmd_os w; w_trf_os := os;
     w_doorbells := w_doorbells w; w_erdp := w_erdp w; w_calls := w_calls w |}.
Definition set_outside (w : world) (db : list (Z * Z)) (ep : list Z) (calls : list (nat * Z)) : world :=
  {| w_events := w_events w; w_cmds := w_cmds w; w_trfs := w_trfs w; w_cmd_os := w_cmd_os w; w_trf_os := w_trf_os w;
     w_doorbells := db; w_erdp := ep; w_calls := calls |}.

Definition set_cmd_chan (ev : Events) (ch : Channel C) : Events :=
  {| ev_ring := ev_ring ev; trf_chan := trf_chan ev; cmd_chan := ch; port_chan := port_chan ev; woken := woken ev |}.
Definition set_trf_chan (ev : Events) (ch : Channel TransferEvent) : Events :=
  {| ev_ring := ev_ring ev; trf_chan := ch; cmd_chan := cmd_chan ev; port_chan := port_chan ev; woken := woken ev |}.

(** The wake-up a send ends with. *)
Definition wake_opt (rt : Runtime future) (o : option nat) : outcome (Runtime future) :=
  match o with Some t => wake rt t | None => Ret rt end.

(** The loop of the task that receives command completions. *)
Definition command_turn (t : nat) (st : state) : outcome (state + state) :=
  let '(rt, w) := st in
  let '(ch, o) := recv_poll t (cmd_chan (w_events w)) in
  let w := set_events w (set_cmd_chan (w_events w) ch) in
  match o with
  | None => Ret (inr (rt, w))
  | Some completion =>
      let '(cmds, rcv) := on_command_completion (w_cmds w) (command_trb_pointer completion) in
      match rcv with
      | None => Ret (inl (rt, set_cmds w cmds (w_cmd_os w)))
      | Some rcv =>
          let '(os, tw) := os_send (w_cmd_os w) rcv completion in
          rt ← wake_opt rt tw;
          Ret (inl (rt, set_cmds w cmds os))
      end
  end.

(** The loop of the task that receives transfer events. *)
Definition transfer_turn (t : nat) (st : state) : outcome (state + state) :=
  let '(rt, w) := st in
  let '(ch, o) := recv_poll t (trf_chan (w_events w)) in
  let w := set_events w (set_trf_chan (w_events w) ch) in
  match o with
  | None => Ret (inr (rt, w))
  | Some trf_evt =>
      '(ts, note) ← on_trf_event (w_trfs w) trf_evt;
      match note with
      | None => Ret (inl (rt, set_trfs w ts (w_trf_os w)))
      | Some (rcv, result) =>
          let '(os, tw) := os_send (w_trf_os w) rcv result in
          rt ← wake_opt rt tw;
          Ret (inl (rt, set_trfs w ts os))
      end
  end.

(** The loop of a polling task: at its head, or at the [await]. *)
Definition hid_turn (t : nat) (h : HidClass) (st : hid_state * state)
    : outcome (hid_state * state + option Rings.XhciError * hid_state * state) :=
  let '(hs, (rt, w)) := st in
  match hs with
  | HidStart =>
      let buf := report_at (channels (w_trfs w)) in
      '(ts, db, r) ← subscribe_once into_raw h (w_trfs w) buf (w_doorbells w);
      let w := set_outside (set_trfs w ts (w_trf_os w)) db (w_erdp w) (w_calls w) in
      match r with
      | inr e => Ret (inr (Some e, HidStart, (rt, w)))
      | inl recv => Ret (inl (HidWait recv buf, (rt, w)))
      end
  | HidWait recv buf =>
      let '(os, o) := os_poll (w_trf_os w) t recv in
      let w := set_trfs w (w_trfs w) os in
      match o with
      | None => Ret (inr (None, HidWait recv buf, (rt, w)))
      | Some (inl _) =>
          Ret (inl (HidStart, (rt, set_outside w (w_doorbells w) (w_erdp w) (w_calls w ++ [(t, buf)]))))
      | Some (inr _) => Ret (inl (HidStart, (rt, w)))
      end
  end.

Definition result : Type := () + Rings.XhciError.

Context (client : nat → G → state → outcome (option result * G * state)).

(** The loops over channels end when they are empty; a polling task makes three turns at
    most. *)
Definition command_loop (t : nat) (st : state) : outcome state :=
  loop (S (length (queue (cmd_chan (w_events st.2))))) (command_turn t) st.
Definition transfer_loop (t : nat) (st : state) : outcome state :=
  loop (S (length (queue (trf_chan (w_events st.2))))) (transfer_turn t) st.
Definition hid_loop (t : nat) (h : HidClass) (hs : hid_state) (st : state)
    : outcome (option Rings.XhciError * hid_state * state) :=
  loop 3 (hid_turn t h) (hs, st).

(** A task's future polled until it is pending or ready. *)
Definition poll (t : nat) (f : future) (st : state) : outcome (option result * future * state) :=
  match f with
  | CommandLoop => st ← command_loop t st; Ret (None, CommandLoop, st)
  | TransferLoop => st ← transfer_loop t st; Ret (None, TransferLoop, st)
  | HidLoop h hs => '(r, hs, st) ← hid_loop t h hs st; Ret (option_map inr r, HidLoop h hs, st)
  | Client g => '(r, g, st) ← client t g st; Ret (r, Client g, st)
  end.

Definition clear_woken (ev : Events) : Events :=
  {| ev_ring := ev_ring ev; trf_chan := trf_chan ev; cmd_chan := cmd_chan ev; port_chan := port_chan ev; woken := [] |}.

(** [usb::on_xhc_interrupt]; [buf] is the address of the event ring. Errors of tasks that
    end are returned instead of printed. *)
Definition on_xhc_interrupt (ev_fuel fuel : nat) (buf : Z) (st : state) : outcome (list result * state) :=
  let '(rt, w) := st in
  '(ev, p) ← handle_events into_event_trb ev_fuel buf (w_events w);
  rt ← foldM wake (woken ev) rt;
  run_tasks poll fuel (rt, set_outside (set_events w (clear_woken ev)) (w_doorbells w) (w_erdp w ++ [p]) (w_calls w)).

(** ** Polling tasks being served *)

Definition pipe_key (h : HidClass) : Z * Z := (hid_slot_id h, hid_dci h).
Definition evt_key (e : TransferEvent) : Z * Z := (slot_id e, endpoint_id e).

(** Address of block number [k] of a ring of [n] blocks at [b]. *)
Definition block_at (n b k : Z) : Z := b + TRB_SIZE * (k mod n).

(** Whether an event reports a successful transfer. *)
Definition good (e : TransferEvent) : bool :=
  match completion_code e with inl Success | inl ShortPacket => true | _ => false end.

(** The reports handed to the callback of a task. *)
Definition calls_of (t : nat) (w : world) : list Z := (filter (λ c, c.1 = t) (w_calls w)).*2.

Definition events_for (h : HidClass) (w : world) : list TransferEvent :=
  filter (λ e, evt_key e = pipe_key h) (queue (trf_chan (w_events w))).

(** What a polling task waits for: its channel and buffer, and the history of its ring. *)
Record ghost := { g_recv : nat; g_buf : Z; g_sys : system TRB }.

Context (trf_task : nat) (hids : gmap nat HidClass) (n : Z) (base : nat → Z).

Record pipe (rt : Runtime future) (w : world) (t : nat) (h : HidClass) (g : ghost) : Prop := {
  pp_slot : slots rt !! t = Some (Some (HidLoop h (HidWait (g_recv g) (g_buf g))));
  pp_ring : rings (w_trfs w) !! pipe_key h = Some (ring (g_sys g));
  pp_base : buf_ptr (ring (g_sys g)) = base t;
  pp_inv : ring_inv n (g_sys g);
  pp_recv : (g_recv g < channels (w_trfs w))%nat;
}.

(** One block is with the controller, and the task is registered for its completion. *)
Record outstanding (w : world) (t : nat) (g : ghost) : Prop := {
  ot_one : zlen (pushed (g_sys g)) = completed (g_sys g) + 1;
  ot_listener : trf_listener (w_trfs w) !! block_at n (base t) (completed (g_sys g)) = Some (g_recv g);
  ot_value : os_value (w_trf_os w) (g_recv g) = None;
  ot_waker : os_waker (w_trf_os w) (g_recv g) = Some t;
}.

Definition reported (o : bool) (buf : Z) : list Z := if o then [buf] else [].

(** A polling task between the event ring and its callback: nothing to do, the event
    in the channel of the transfer task, or the answer in its own channel and the task
    queued. [E] are the reports its callback will have got in the end, [N] the blocks
    that will have been pushed. *)
Inductive hid_ok (rt : Runtime future) (w : world) (t : nat) (h : HidClass) (g : ghost) (E : list Z) (N : Z) : Prop :=
  | hid_idle :
      pipe rt w t h g → outstanding w t g → events_for h w = [] →
      E = calls_of t w → N = zlen (pushed (g_sys g)) → hid_ok rt w t h g E N
  | hid_reported e :
      pipe rt w t h g → outstanding w t g → events_for h w = [e] →
      trb_pointer e = block_at n (base t) (completed (g_sys g)) →
      zlen (consumed (g_sys g)) = zlen (pushed (g_sys g)) →
      E = calls_of t w ++ reported (good e) (g_buf g) → N = zlen (pushed (g_sys g)) + 1 → hid_ok rt w t h g E N
  | hid_answered v :
      pipe rt w t h g → events_for h w = [] → completed (g_sys g) = zlen (pushed (g_sys g)) → 2 ≤ n →
      os_value (w_trf_os w) (g_recv g) = Some v → t ∈ queue (task_queue rt) →
      E = calls_of t w ++ reported (match v with inl _ => true | inr _ => false end) (g_buf g) →
      N = zlen (pushed (g_sys g)) + 1 → hid_ok rt w t h g E N.

(** The system while tasks run. *)
Record busy (E : nat → list Z) (N : nat → Z) (rt : Runtime future) (w : world) (gs : nat → ghost) : Prop := {
  bz_rt : runtime_ok rt;
  bz_loop : slots rt !! trf_task = Some (Some TransferLoop);
  bz_queue : ∀ t, t ∈ queue (task_queue rt) → t = trf_task ∨ is_Some (hids !! t);
  bz_keys : ∀ e, e ∈ queue (trf_chan (w_events w)) → ∃ t h, hids !! t = Some h ∧ evt_key e = pipe_key h;
  bz_hids : ∀ t h, hids !! t = Some h → hid_ok rt w t h (gs t) (E t) (N t);
  bz_recv : ∀ t t', is_Some (hids !! t) → is_Some (hids !! t') → g_recv (gs t) = g_recv (gs t') → t = t';
  bz_fresh : ∀ c, (channels (w_trfs w) ≤ c)%nat → os_value (w_trf_os w) c = None;
}.

(** Tasks, endpoints and ring buffers are apart. *)
Record apart : Prop := {
  ap_loop : hids !! trf_task = None;
  ap_keys : ∀ t t' h h', hids !! t = Some h → hids !! t' = Some h' → pipe_key h = pipe_key h' → t = t';
  ap_bases : ∀ t t', is_Some (hids !! t) → is_Some (hids !! t') → t ≠ t' →
    base t + TRB_SIZE * n ≤ base t' ∨ base t' + TRB_SIZE * n ≤ base t;
}.

Lemma block_at_apart t t' k k' :
  apart → 0 < n → is_Some (hids !! t) → is_Some (hids !! t') → t ≠ t' →
  block_at n (base t) k ≠ block_at n (base t') k'.
Proof.
  intros Ha Hn Ht Ht' Hne. unfold block_at, TRB_SIZE.
  pose proof (Z.mod_pos_bound k n Hn). pose proof (Z.mod_pos_bound k' n Hn).
  destruct (ap_bases Ha t t' Ht Ht' Hne); unfold TRB_SIZE in *; lia.
Qed.

(** What a step of another task leaves alone. *)
Record untouched (rt : Runtime future) (w : world) (rt' : Runtime future) (w' : world) (t : nat) (h : HidClass)
    (c : nat) : Prop := {
  un_slot : slots rt' !! t = slots rt !! t;
  un_queue : t ∈ queue (task_queue rt) → t ∈ queue (task_queue rt');
  un_ring : rings (w_trfs w') !! pipe_key h = rings (w_trfs w) !! pipe_key h;
  un_channels : (channels (w_trfs w) ≤ channels (w_trfs w'))%nat;
  un_listener : ∀ k, trf_listener (w_trfs w') !! block_at n (base t) k = trf_listener (w_trfs w) !! block_at n (base t) k;
  un_value : os_value (w_trf_os w') c = os_value (w_trf_os w) c;
  un_waker : os_waker (w_trf_os w') c = os_waker (w_trf_os w) c;
  un_events : events_for h w' = events_for h w;
  un_calls : calls_of t w' = calls_of t w;
}.

Lemma hid_ok_untouched rt w rt' w' t h g E N :
  hid_ok rt w t h g E N → untouched rt w rt' w' t h (g_recv g) → hid_ok rt' w' t h g E N.
Proof.
  intros Hok [U1 U2 U3 U4 U5 U6 U7 U8 U9].
  assert (pipe rt w t h g → pipe rt' w' t h g) as Hp.
  { intros []. split; [by rewrite U1|by rewrite U3|done|done|lia]. }
  assert (outstanding w t g → outstanding w' t g) as Ho.
  { intros []. split; [done|by rewrite U5|by rewrite U6|by rewrite U7]. }
  destruct Hok as [? ? ? -> ?|e ? ? ? ? ? -> ?|v ? ? ? ? ? ? -> ?].
  - apply hid_idle; [by auto..|by rewrite U8|by rewrite U9|done].
  - apply (hid_reported _ _ _ _ _ _ _ e); [by auto..|by rewrite U8|done|done|by rewrite U9|done].
  - apply (hid_answered _ _ _ _ _ _ _ v); [by auto|by rewrite U8|done|done|by rewrite U6|by auto|by rewrite U9|done].
Qed.

(** The ring of a task after the controller's report on its oldest block. *)
Definition complete (g : ghost) (r : ProducerRing TRB) : ghost :=
  {| g_recv := g_recv g; g_buf := g_buf g; g_sys := {| ring := r; ctl := ctl (g_sys g); pushed := pushed (g_sys g);
     consumed := consumed (g_sys g); completed := completed (g_sys g) + 1 |} |}.

Lemma complete_recv (gs : nat → ghost) t r u : g_recv (<[t := complete (gs t) r]> gs u) = g_recv (gs u).
Proof. destruct (decide (u = t)) as [->|Hu]; [by rewrite fn_lookup_insert|by rewrite fn_lookup_insert_ne]. Qed.

(** The report of one task's transfer is nothing to another task. *)
Lemma untouched_completed rt w rt' w' t h r k e q u h' c c' :
  apart → 0 < n → hids !! t = Some h → hids !! u = Some h' → u ≠ t → c' ≠ c →
  evt_key e = pipe_key h → queue (trf_chan (w_events w)) = e :: q → queue (trf_chan (w_events w')) = q →
  slots rt' = slots rt → queue (task_queue rt') = queue (task_queue rt) ++ [t] →
  rings (w_trfs w') = <[pipe_key h := r]> (rings (w_trfs w)) → channels (w_trfs w') = channels (w_trfs w) →
  trf_listener (w_trfs w') = delete (block_at n (base t) k) (trf_listener (w_trfs w)) →
  (∀ d, d ≠ c → os_value (w_trf_os w') d = os_value (w_trf_os w) d ∧ os_waker (w_trf_os w') d = os_waker (w_trf_os w) d) →
  w_calls w' = w_calls w → untouched rt w rt' w' u h' c'.
Proof.
  intros Ha Hn Ht Hu Hne Hc Hke Eq Eq' Hsl Hqu Hrs Hcs Hls Hos Hca.
  assert (pipe_key h ≠ pipe_key h') as Hkk by (intros HH; apply Hne; symmetry; by eapply (ap_keys Ha)).
  split; [by rewrite Hsl|rewrite Hqu; intros; apply elem_of_app; by left|by rewrite Hrs, lookup_insert_ne|by rewrite Hcs| |
    by apply Hos|by apply Hos| |unfold calls_of; by rewrite Hca].
  - intros j. rewrite Hls. apply lookup_delete_ne, block_at_apart; [done|done|by eexists..|done].
  - unfold events_for. by rewrite Eq, Eq', filter_cons, decide_False by congruence.
Qed.

(** One event moves on: from the channel of the transfer task to the task that waits. *)
Lemma transfer_turn_ok E N rt w gs e q :
  apart → busy E N rt w gs → queue (trf_chan (w_events w)) = e :: q →
  ∃ rt' w' gs' t, transfer_turn trf_task (rt, w) = Ret (inl (rt', w')) ∧ busy E N rt' w' gs' ∧
    queue (trf_chan (w_events w')) = q ∧ queue (task_queue rt') = queue (task_queue rt) ++ [t] ∧
    woken (w_events w') = woken (w_events w) ∧ ev_ring (w_events w') = ev_ring (w_events w).
Proof.
  intros Ha [Hrt Hloop Hq Hk Hh Hr Hf] Eq.
  destruct (Hk e) as (t & h & Ht & Hke); [rewrite Eq; by left|].
  assert (events_for h w = e :: filter (λ e, evt_key e = pipe_key h) q) as Hev.
  { unfold events_for. by rewrite Eq, filter_cons, decide_True. }
  assert (is_Some (hids !! t)) as Hst by by eexists.
  destruct (Hh t h Ht) as [Hp Ho H1 H2 H3|e' Hp Ho H1 H2 H3 H4 H5|v Hp H1]; rewrite Hev in H1; try done.
  injection H1 as -> Hrest. destruct Hp as [P1 P2 P3 P4 P5]. destruct Ho as [O1 O2 O3 O4].
  pose proof (ri_n _ _ P4) as Hn.
  destruct (trf_event_routed n (g_sys (gs t)) (w_trfs w) e' (completed (g_sys (gs t))) P4)
    as (r & ts & Ee & Hrs & Hls & Hcs & Hb & Hi); [by rewrite <- P2, <- Hke|lia|by rewrite P3|].
  change (slot_id e', endpoint_id e') with (evt_key e') in Hrs. rewrite Hke in Hrs.
  rewrite H2, O2 in Ee. cbn [fmap option_fmap option_map] in Ee.
  destruct (wake_queue rt t Hrt) as (rt' & Ew & Hrt' & Hsl & Hqu).
  unfold transfer_turn, recv_poll, receive. rewrite Eq. cbn [w_trfs set_events]. rewrite Ee, bind_Ret.
  set (res := match completion_code e' with inl Success | inl ShortPacket => inl e' | _ => inr e' end) in *.
  pose proof (os_send_wakes (w_trf_os w) (g_recv (gs t)) res) as Hwk. rewrite O4 in Hwk.
  pose proof (os_value_send (w_trf_os w) (g_recv (gs t)) res) as Hval.
  pose proof (os_waker_send (w_trf_os w) (g_recv (gs t)) res) as Hwak.
  change (w_trf_os (set_events w _)) with (w_trf_os w). destruct (os_send (w_trf_os w) (g_recv (gs t)) res) as [os tw]. cbn [fst snd] in *. subst tw.
  cbn [wake_opt]. rewrite Ew, bind_Ret.
  eexists rt', _, (<[t := complete (gs t) r]> gs), t.
  split; [reflexivity|]. split; [|by rewrite Hqu]. split.
  - done.
  - by rewrite Hsl.
  - intros u Hu. rewrite Hqu in Hu. apply elem_of_app in Hu as [Hu|Hu%list_elem_of_singleton]; [by apply Hq|].
    subst u. by right.
  - intros u Hu. apply Hk. rewrite Eq. by right.
  - intros u h' Hu. destruct (decide (u = t)) as [->|Hne].
    + rewrite fn_lookup_insert. assert (h' = h) as -> by congruence. apply (hid_answered _ _ _ _ _ _ _ res).
      * split; cbn; [by rewrite Hsl|by rewrite Hrs, lookup_insert_eq|congruence|done|by rewrite Hcs].
      * exact Hrest.
      * cbn. lia.
      * pose proof (ri_order _ _ P4). lia.
      * cbn. by rewrite Hval, decide_True.
      * rewrite Hqu. apply elem_of_app. right. by left.
      * rewrite H4. f_equal. unfold good, res. by destruct (completion_code e') as [[]|].
      * done.
    + rewrite fn_lookup_insert_ne by done. apply (hid_ok_untouched rt w); [by apply Hh|].
      eapply (untouched_completed rt w _ _ t h r _ e' q u h' (g_recv (gs t))); try done; [lia|by intros HH; apply Hne, Hr|..].
      * cbn. by rewrite Hls, H2.
      * intros d Hd. cbn. by rewrite Hval, Hwak, !decide_False.
  - intros u u' Hu Hu'. rewrite !complete_recv. by apply Hr.
  - intros c Hc. cbn in *. rewrite Hcs in Hc. rewrite Hval, decide_False by lia. by apply Hf.
Qed.

(** Changes that no task notices. *)
Lemma busy_untouched E N rt w rt' w' gs :
  busy E N rt w gs → runtime_ok rt' → slots rt' = slots rt →
  (∀ t, t ∈ queue (task_queue rt') → t = trf_task ∨ is_Some (hids !! t)) →
  (∀ t, is_Some (hids !! t) → t ∈ queue (task_queue rt) → t ∈ queue (task_queue rt')) →
  w_trfs w' = w_trfs w → w_trf_os w' = w_trf_os w → w_calls w' = w_calls w →
  queue (trf_chan (w_events w')) = queue (trf_chan (w_events w)) →
  busy E N rt' w' gs.
Proof.
  intros [Hrt Hloop Hq Hk Hh Hr Hf] Hrt' Hsl Hq' Hqi Ht Ho Hc Hch. split.
  - done.
  - by rewrite Hsl.
  - done.
  - by rewrite Hch.
  - intros t h Hth. apply (hid_ok_untouched rt w); [by apply Hh|].
    split; rewrite ?Hsl, ?Ht, ?Ho; [done|apply Hqi; by eexists|done..|unfold events_for; by rewrite Hch|unfold calls_of; by rewrite Hc].
  - done.
  - by rewrite Ht, Ho.
Qed.

Lemma transfer_turns_ok E N m rt w gs :
  apart → busy E N rt w gs → length (queue (trf_chan (w_events w))) = m →
  ∃ rt' w' gs' l, loop (S m) (transfer_turn trf_task) (rt, w) = Ret (rt', w') ∧ busy E N rt' w' gs' ∧
    trf_chan (w_events w') = {| queue := []; waker := Some trf_task |} ∧
    queue (task_queue rt') = queue (task_queue rt) ++ l ∧ length l = m ∧ woken (w_events w') = woken (w_events w) ∧
    ev_ring (w_events w') = ev_ring (w_events w).
Proof.
  intros Ha. revert rt w gs. induction m as [|m IH]; intros rt w gs Hb Hm.
  - apply nil_length_inv in Hm. cbn [loop].
    assert (transfer_turn trf_task (rt, w) = Ret (inr (rt, set_events w (set_trf_chan (w_events w)
      {| queue := []; waker := Some trf_task |})))) as ->.
    { unfold transfer_turn, recv_poll, receive. rewrite Hm. cbn. by rewrite Hm. }
    rewrite bind_Ret. eexists rt, _, gs, []. split; [done|]. split_and!; [|done|by rewrite app_nil_r|done..].
    eapply busy_untouched; [exact Hb|apply Hb|done|apply Hb|done|done|done|done|by rewrite Hm].
  - destruct (queue (trf_chan (w_events w))) as [|e q] eqn:Eq; [done|]. injection Hm as Hm.
    destruct (transfer_turn_ok E N rt w gs e q Ha Hb Eq) as (rt1 & w1 & gs1 & t & E1 & Hb1 & Hq1 & Hr1 & Hw1 & He1).
    destruct (IH rt1 w1 gs1 Hb1) as (rt2 & w2 & gs2 & l & E2 & Hb2 & Hc2 & Hr2 & Hl2 & Hw2 & He2); [by rewrite Hq1|].
    exists rt2, w2, gs2, (t :: l). cbn [loop]. cbn [loop] in E2. rewrite E1, bind_Ret.
    split; [exact E2|]. rewrite Hr2, Hr1, <- app_assoc. split_and!; [done..|simpl; by f_equal|congruence|congruence].
Qed.

(** The queue and the measure of the work that is left. *)
Definition work (st : state) : nat :=
  (length (queue (task_queue st.1)) + 2 * length (queue (trf_chan (w_events st.2))))%nat.

Lemma exec_transfer_ok E N rt w gs q :
  apart → busy E N rt w gs → queue (task_queue rt) = trf_task :: q →
  ∃ rt' w' gs', exec poll trf_task (with_queue rt {| queue := q; waker := waker (task_queue rt) |}, w) =
      Ret (None, (rt', w')) ∧
    busy E N rt' w' gs' ∧ trf_chan (w_events w') = {| queue := []; waker := Some trf_task |} ∧
    (work (rt', w') < work (rt, w))%nat ∧ woken (w_events w') = woken (w_events w) ∧
    ev_ring (w_events w') = ev_ring (w_events w).
Proof.
  intros Ha Hb Hq. set (rt0 := with_queue rt _).
  assert (busy E N rt0 w gs) as Hb0.
  { eapply busy_untouched; [exact Hb|exact (bz_rt _ _ _ _ _ Hb)|done|..|done|done|done|done].
    - intros t Ht. apply (bz_queue _ _ _ _ _ Hb). rewrite Hq. by right.
    - intros t Ht Hin. rewrite Hq in Hin. apply elem_of_cons in Hin as [->|]; [|done].
      rewrite (ap_loop Ha) in Ht. by destruct Ht. }
  destruct (transfer_turns_ok E N _ rt0 w gs Ha Hb0 eq_refl) as (rt' & w' & gs' & l & El & Hb' & Hc & Hr & Hl & Hw & He).
  exists rt', w', gs'. unfold exec. cbn [fst snd]. rewrite (bz_loop _ _ _ _ _ Hb0). unfold poll, transfer_loop. cbn [snd].
  rewrite El, !bind_Ret. assert (set_slot rt' trf_task (Some TransferLoop) = rt') as ->.
  { unfold set_slot. rewrite list_insert_id by apply (bz_loop _ _ _ _ _ Hb'). by destruct rt'. }
  split; [done|]. split_and!; [done|done| |done|done].
  unfold work. cbn [fst snd]. rewrite Hr, Hc, Hq, length_app. cbn [queue length rt0 with_queue task_queue]. lia.
Qed.

Lemma hid_ok_pipe rt w t h g E N : hid_ok rt w t h g E N → pipe rt w t h g.
Proof. by intros []. Qed.

(** A step of one polling task, from what it does to the things that are its own. *)
Lemma busy_hid_step E N rt w gs t h q w' g' :
  apart → busy E N rt w gs → hids !! t = Some h → queue (task_queue rt) = t :: q →
  let rt' := set_slot (with_queue rt {| queue := q; waker := waker (task_queue rt) |}) t
               (Some (HidLoop h (HidWait (g_recv g') (g_buf g')))) in
  hid_ok rt' w' t h g' (E t) (N t) →
  (g_recv g' = g_recv (gs t) ∨ (channels (w_trfs w) ≤ g_recv g')%nat) →
  (channels (w_trfs w) ≤ channels (w_trfs w'))%nat →
  (∀ k, k ≠ pipe_key h → rings (w_trfs w') !! k = rings (w_trfs w) !! k) →
  (∀ p, (∀ k, p ≠ block_at n (base t) k) → trf_listener (w_trfs w') !! p = trf_listener (w_trfs w) !! p) →
  (∀ c, c ≠ g_recv (gs t) → c ≠ g_recv g' →
     os_value (w_trf_os w') c = os_value (w_trf_os w) c ∧ os_waker (w_trf_os w') c = os_waker (w_trf_os w) c) →
  (∀ c, (channels (w_trfs w') ≤ c)%nat → os_value (w_trf_os w') c = None) →
  (∀ u, u ≠ t → calls_of u w' = calls_of u w) → w_events w' = w_events w →
  busy E N rt' w' (<[t := g']> gs).
Proof.
  intros Ha Hb Ht Hq rt' Hok Hrc Hch Hri Hli Hos Hfr Hca Hev.
  assert (∀ u h', hids !! u = Some h' → u ≠ t → g_recv (gs u) ≠ g_recv (gs t) ∧ g_recv (gs u) ≠ g_recv g') as Hgr.
  { intros u h' Hu Hne. assert (g_recv (gs u) ≠ g_recv (gs t)) as H1.
    { intros HH. apply Hne. apply (bz_recv _ _ _ _ _ Hb); [by eexists|by eexists|done]. }
    split; [done|]. destruct Hrc as [->|Hle]; [done|].
    pose proof (pp_recv _ _ _ _ _ (hid_ok_pipe _ _ _ _ _ _ _ (bz_hids _ _ _ _ _ Hb u h' Hu))). lia. }
  assert (slots rt' !! trf_task = slots rt !! trf_task) as Hsl.
  { cbn. apply list_lookup_insert_ne. intros ->. pose proof (ap_loop Ha). congruence. }
  pose proof (ri_n _ _ (pp_inv _ _ _ _ _ (hid_ok_pipe _ _ _ _ _ _ _ Hok))) as Hn.
  split.
  - exact (bz_rt _ _ _ _ _ Hb).
  - rewrite Hsl. exact (bz_loop _ _ _ _ _ Hb).
  - intros u Hu. apply (bz_queue _ _ _ _ _ Hb). rewrite Hq. by right.
  - rewrite Hev. exact (bz_keys _ _ _ _ _ Hb).
  - intros u h' Hu. destruct (decide (u = t)) as [->|Hne]; [rewrite fn_lookup_insert; by assert (h' = h) as -> by congruence|].
    rewrite fn_lookup_insert_ne by done. apply (hid_ok_untouched rt w); [by apply (bz_hids _ _ _ _ _ Hb)|].
    destruct (Hgr u h' Hu Hne) as [Hg1 Hg2]. destruct (Hos _ Hg1 Hg2) as [Ho1 Ho2].
    assert (pipe_key h' ≠ pipe_key h) as Hkk by (intros HH; apply Hne; by eapply (ap_keys Ha)).
    split; [cbn; by apply list_lookup_insert_ne| |by apply Hri|done| |done|done|unfold events_for; by rewrite Hev|by apply Hca].
    + cbn. rewrite Hq. intros [->|]%elem_of_cons; done.
    + intros k. apply Hli. intros k'. apply block_at_apart; [done|lia|by eexists|by eexists|done].
  - intros u u' [h1 Hu] [h2 Hu']. destruct (decide (u = t)) as [->|N1], (decide (u' = t)) as [->|N2];
      rewrite ?fn_lookup_insert, ?fn_lookup_insert_ne by done; [done|..].
    + destruct (Hgr u' h2 Hu' N2) as [_ ?]. congruence.
    + destruct (Hgr u h1 Hu N1) as [_ ?]. congruence.
    + apply (bz_recv _ _ _ _ _ Hb); by eexists.
  - done.
Qed.

(** A polling task that is run although it has no answer goes on waiting. *)
Lemma exec_hid_spurious E N rt w gs t h q :
  apart → busy E N rt w gs → hids !! t = Some h → queue (task_queue rt) = t :: q →
  outstanding w t (gs t) →
  let g := gs t in
  let rt' := set_slot (with_queue rt {| queue := q; waker := waker (task_queue rt) |}) t
               (Some (HidLoop h (HidWait (g_recv g) (g_buf g)))) in
  let w' := set_trfs w (w_trfs w) (os_poll (w_trf_os w) t (g_recv g)).1 in
  exec poll t (with_queue rt {| queue := q; waker := waker (task_queue rt) |}, w) = Ret (None, (rt', w')) ∧
  busy E N rt' w' (<[t := g]> gs).
Proof.
  intros Ha Hb Ht Hq Ho g rt' w'. pose proof (bz_hids _ _ _ _ _ Hb t h Ht) as Hok.
  pose proof (hid_ok_pipe _ _ _ _ _ _ _ Hok) as [P1 P2 P3 P4 P5]. destruct Ho as [O1 O2 O3 O4]. fold g in P1, P2, P3, P4, P5, O1, O2, O3, O4, Hok.
  pose proof (os_poll_result (w_trf_os w) t (g_recv g)) as Hres. rewrite O3 in Hres.
  destruct (os_poll_empty (w_trf_os w) t (g_recv g) O3) as [Hv Hw]. split.
  - unfold exec. cbn [fst snd with_queue slots]. rewrite P1. unfold poll, hid_loop. cbn [loop hid_turn]. fold g.
    subst rt' w'. destruct (os_poll (w_trf_os w) t (g_recv g)) as [os o]. cbn [fst snd] in *. by subst o.
  - apply (busy_hid_step E N rt w gs t h q); try done.
    + assert (outstanding w t g → outstanding w' t g) as Ho'.
      { intros []. split; [done|done|exact Hv|exact Hw]. }
      assert (pipe rt' w' t h g) as Hp'.
      { split; [|done..]. cbn. apply list_lookup_insert_eq. by eapply lookup_lt_Some. }
      destruct Hok as [? Hout ? -> ?|e ? Hout ? ? ? -> ?|v ? ? ? ? Hval]; [..|congruence].
      * by apply hid_idle; auto.
      * apply (hid_reported _ _ _ _ _ _ _ e); auto.
    + by left.
    + intros c Hc _. apply os_poll_other. done.
    + intros c Hc. destruct (decide (c = g_recv g)) as [->|Hne]; [done|].
      cbn. destruct (os_poll_other (w_trf_os w) t (g_recv g) c Hne) as [-> _]. by apply (bz_fresh _ _ _ _ _ Hb).
Qed.

Lemma calls_of_call t u buf w db ep :
  calls_of u (set_outside w db ep (w_calls w ++ [(t, buf)])) = calls_of u w ++ if decide (u = t) then [buf] else [].
Proof.
  unfold calls_of. cbn. rewrite filter_app, fmap_app, filter_cons, filter_nil. cbn [fst].
  destruct (decide (u = t)) as [->|Hne]; [by rewrite decide_True|by rewrite decide_False].
Qed.

(** The state after the answer: the callback has run, and the next transfer is on the
    ring with the task registered for it. *)
Definition answer (w : world) (t : nat) (h : HidClass) (g : ghost) (v : TransferEvent + TransferEvent)
    (ts : TransferRingSet TRB) : world :=
  let os := (os_poll (w_trf_os w) t (g_recv g)).1 in
  let w := set_trfs w (w_trfs w) os in
  let w := match v with
           | inl _ => set_outside w (w_doorbells w) (w_erdp w) (w_calls w ++ [(t, g_buf g)])
           | inr _ => w
           end in
  set_trfs (set_outside w (w_doorbells w ++ [(hid_slot_id h, as_u 8 (hid_dci h))]) (w_erdp w) (w_calls w)) ts
    (os_poll os t (channels (w_trfs w))).1.

Lemma hid_answered_runs rt w t h g q v ts :
  slots rt !! t = Some (Some (HidLoop h (HidWait (g_recv g) (g_buf g)))) →
  os_value (w_trf_os w) (g_recv g) = Some v →
  os_value (os_poll (w_trf_os w) t (g_recv g)).1 (channels (w_trfs w)) = None →
  push_transfer_trb into_raw (w_trfs w) (hid_slot_id h) (hid_dci h) (Normal (report_at (channels (w_trfs w))) 8 true) =
    Ret (ts, inl (Some (channels (w_trfs w)))) →
  let rt := with_queue rt {| queue := q; waker := waker (task_queue rt) |} in
  exec poll t (rt, w) = Ret (None,
    (set_slot rt t (Some (HidLoop h (HidWait (channels (w_trfs w)) (report_at (channels (w_trfs w)))))), answer w t h g v ts)).
Proof.
  intros Hs Hval Hvk Ep. cbn zeta. unfold exec. cbn [fst snd with_queue slots]. rewrite Hs.
  unfold poll, hid_loop. cbn [loop hid_turn]. set (k := channels (w_trfs w)) in *.
  pose proof (os_poll_result (w_trf_os w) t (g_recv g)) as Hres. rewrite Hval in Hres.
  pose proof (os_poll_result (os_poll (w_trf_os w) t (g_recv g)).1 t k) as Hres2. rewrite Hvk in Hres2.
  unfold answer. destruct (os_poll (w_trf_os w) t (g_recv g)) as [os o]. cbn [fst snd] in *. subst o.
  destruct v as [v|v]; rewrite bind_Ret; cbn [hid_turn w_trfs set_trfs set_outside w_doorbells];
    unfold subscribe_once, try_push; fold k; rewrite Ep, !bind_Ret; cbn [unwrap]; rewrite !bind_Ret; fold k;
    cbn [loop hid_turn w_trf_os set_trfs set_outside];
    destruct (os_poll os t k) as [os2 o2]; cbn [fst snd] in *; subst o2; done.
Qed.

Lemma answer_reads w t h g v ts :
  w_trf_os (answer w t h g v ts) = (os_poll (os_poll (w_trf_os w) t (g_recv g)).1 t (channels (w_trfs w))).1 ∧
  w_trfs (answer w t h g v ts) = ts ∧ w_events (answer w t h g v ts) = w_events w.
Proof. unfold answer. by destruct v. Qed.

Lemma exec_hid_answered E N rt w gs t h q v :
  apart → busy E N rt w gs → hids !! t = Some h → queue (task_queue rt) = t :: q →
  completed (g_sys (gs t)) = zlen (pushed (g_sys (gs t))) → 2 ≤ n → events_for h w = [] →
  os_value (w_trf_os w) (g_recv (gs t)) = Some v →
  E t = calls_of t w ++ reported (match v with inl _ => true | inr _ => false end) (g_buf (gs t)) →
  N t = zlen (pushed (g_sys (gs t))) + 1 →
  ∃ rt' ts g', exec poll t (with_queue rt {| queue := q; waker := waker (task_queue rt) |}, w) =
      Ret (None, (rt', answer w t h (gs t) v ts)) ∧
    queue (task_queue rt') = q ∧
    busy E N rt' (answer w t h (gs t) v ts) (<[t := g']> gs).
Proof.
  intros Ha Hb Ht Hq Hcp Hn2 Hev Hval HE HN.
  pose proof (hid_ok_pipe _ _ _ _ _ _ _ (bz_hids _ _ _ _ _ Hb t h Ht)) as [P1 P2 P3 P4 P5].
  set (k := channels (w_trfs w)). set (buf := report_at k).
  destruct (push_transfer_trb_ok into_raw n (g_sys (gs t)) (w_trfs w) (hid_slot_id h) (hid_dci h) (Normal buf 8 true) P4 P2)
    as (r & Hi & Hbp & Ep); [unfold room; lia|done|].
  set (ts := {| rings := _; trf_listener := _; ring_size := _; channels := _ |}) in Ep.
  set (g' := {| g_recv := k; g_buf := buf; g_sys := extend (g_sys (gs t)) [into_raw (Normal buf 8 true)] r |}).
  set (rt' := set_slot (with_queue rt {| queue := q; waker := waker (task_queue rt) |}) t
               (Some (HidLoop h (HidWait (g_recv g') (g_buf g'))))).
  assert (g_recv (gs t) ≠ k) as Hnek by (unfold k; lia).
  destruct (os_poll_other (w_trf_os w) t (g_recv (gs t)) k) as [Hvk Hwk]; [done|].
  rewrite (bz_fresh _ _ _ _ _ Hb k) in Hvk by (unfold k; lia).
  destruct (os_poll_empty (os_poll (w_trf_os w) t (g_recv (gs t))).1 t k Hvk) as [Hv2 Hw2].
  assert (calls_of t (answer w t h (gs t) v ts) = E t) as Hcalls.
  { rewrite HE. unfold answer. destruct v; [|by rewrite app_nil_r].
    pose proof (calls_of_call t t (g_buf (gs t)) w (w_doorbells w) (w_erdp w)) as Hc. by rewrite decide_True in Hc. }
  exists rt', ts, g'. split; [|split; [done|]].
  - by apply hid_answered_runs.
  - destruct (answer_reads w t h (gs t) v ts) as (Eos & Ets & Eev). fold k in Eos.
    assert (slot_addr n (g_sys (gs t)) 0 = block_at n (base t) (completed (g_sys g'))) as Hsa.
    { unfold slot_addr, block_at. cbn. by rewrite P3, Z.add_0_r, Hcp. }
    apply (busy_hid_step E N rt w gs t h q); try done; rewrite ?Eos, ?Ets.
    + apply hid_idle.
      * split; [cbn; apply list_lookup_insert_eq; by eapply lookup_lt_Some|rewrite Ets; apply lookup_insert_eq|
          cbn; congruence|exact Hi|rewrite Ets; cbn; lia].
      * split; [cbn; rewrite length_app; cbn; lia|rewrite Ets, <- Hsa; apply lookup_insert_eq|by rewrite Eos|by rewrite Eos].
      * unfold events_for. by rewrite Eev.
      * done.
      * rewrite HN. cbn. rewrite length_app. cbn. lia.
    + right. cbn. unfold k. lia.
    + cbn. lia.
    + intros key Hkey. cbn. by apply lookup_insert_ne.
    + intros p Hp. cbn. apply lookup_insert_ne. rewrite Hsa. intros <-. by eapply Hp.
    + intros c Hc1 Hc2. destruct (os_poll_other (os_poll (w_trf_os w) t (g_recv (gs t))).1 t k c Hc2) as [-> ->].
      by apply os_poll_other.
    + intros c Hc. cbn in Hc. assert (c ≠ k) as Hc2 by (unfold k; lia).
      destruct (os_poll_other (os_poll (w_trf_os w) t (g_recv (gs t))).1 t k c Hc2) as [-> _].
      destruct (os_poll_other (w_trf_os w) t (g_recv (gs t)) c) as [-> _]; [unfold k in *; lia|].
      apply (bz_fresh _ _ _ _ _ Hb). unfold k in *. lia.
    + intros u Hu. unfold answer. destruct v; [|done].
      pose proof (calls_of_call t u (g_buf (gs t)) w (w_doorbells w) (w_erdp w)) as Hc.
      by rewrite decide_False, app_nil_r in Hc by done.
Qed.

(** Nothing to do: every polling task has one block with the controller. *)
Record ready (rt : Runtime future) (w : world) (gs : nat → ghost) : Prop := {
  rd_busy : busy (λ t, calls_of t w) (λ t, zlen (pushed (g_sys (gs t)))) rt w gs;
  rd_queue : queue (task_queue rt) = [];
  rd_chan : trf_chan (w_events w) = {| queue := []; waker := Some trf_task |};
  rd_woken : woken (w_events w) = [];
}.

(** What holds at the head of the executor's loop; [r] is the event ring, which no task
    touches. *)
Definition serving (r : ConsumerRing TRB) (E : nat → list Z) (N : nat → Z) (es : list result) (st : state) : Prop :=
  es = [] ∧ ∃ gs, busy E N st.1 st.2 gs ∧
    (trf_chan (w_events st.2) = {| queue := []; waker := Some trf_task |} ∨ trf_task ∈ queue (task_queue st.1)) ∧
    woken (w_events st.2) = [] ∧ ev_ring (w_events st.2) = r.

Lemma serving_exec r E N es rt w t q :
  apart → serving r E N es (rt, w) → queue (task_queue rt) = t :: q →
  ∃ o st', exec poll t (with_queue rt {| queue := q; waker := waker (task_queue rt) |}, w) = Ret (o, st') ∧
    serving r E N (es ++ option_list o) st' ∧ (work st' < work (rt, w))%nat.
Proof.
  intros Ha (-> & gs & Hb & Hc & Hw & Hr) Hq. cbn [fst snd] in *. destruct (decide (t = trf_task)) as [->|Hne].
  { destruct (exec_transfer_ok E N rt w gs q Ha Hb Hq) as (rt' & w' & gs' & -> & Hb' & Hc' & Hwk & Hw' & Hr').
    exists None, (rt', w'). split; [done|]. split; [|done]. split; [done|]. exists gs'.
    split_and!; [done|by left|exact (eq_trans Hw' Hw)|exact (eq_trans Hr' Hr)]. }
  destruct (bz_queue _ _ _ _ _ Hb t) as [|[h Ht]]; [rewrite Hq; by left|done|].
  assert (∀ ch, ch = trf_chan (w_events w) →
    ch = {| queue := []; waker := Some trf_task |} ∨ trf_task ∈ q) as Hc'.
  { intros ch ->. destruct Hc as [Hc|Hin]; [by left|right]. rewrite Hq in Hin. apply elem_of_cons in Hin as [|]; [congruence|done]. }
  destruct (bz_hids _ _ _ _ _ Hb t h Ht) as [_ Ho _ _ _|e _ Ho _ _ _ _ _|v _ Hev Hcp Hn Hv _ HE HN].
  1,2: destruct (exec_hid_spurious E N rt w gs t h q Ha Hb Ht Hq Ho) as [-> Hb']; eexists None, _; (split; [done|]);
    (split; [split; [done|]; eexists; split; [exact Hb'|]; split_and!; [by apply Hc'|done..]|]);
    unfold work; cbn; rewrite Hq; cbn; lia.
  destruct (exec_hid_answered E N rt w gs t h q v Ha Hb Ht Hq Hcp Hn Hev Hv HE HN) as (rt' & ts & g' & -> & Hq' & Hb').
  assert (w_events (answer w t h (gs t) v ts) = w_events w) as Eev by (unfold answer; by destruct v).
  eexists None, _. split; [done|]. split.
  - split; [done|]. eexists. split; [exact Hb'|]. cbn [fst snd]. rewrite Eev, Hq'. split_and!; [by apply Hc'|done..].
  - unfold work. cbn [fst snd]. rewrite Eev, Hq', Hq. cbn. lia.
Qed.

(** Once nothing is left to run, everything has been served. *)
Lemma serving_done r E N st :
  serving r E N [] st → queue (task_queue st.1) = [] →
  ∃ gs, ready st.1 st.2 gs ∧ ev_ring (w_events st.2) = r ∧
    ∀ t h, hids !! t = Some h → calls_of t st.2 = E t ∧ zlen (pushed (g_sys (gs t))) = N t.
Proof.
  intros (_ & gs & Hb & Hc & Hw & Hr) Hq. rewrite Hq, elem_of_nil in Hc. destruct Hc as [Hc|[]].
  assert (∀ t h, hids !! t = Some h → hid_ok st.1 st.2 t h (gs t) (calls_of t st.2) (zlen (pushed (g_sys (gs t)))) ∧
    calls_of t st.2 = E t ∧ zlen (pushed (g_sys (gs t))) = N t) as Hall.
  { intros t h Ht. destruct (bz_hids _ _ _ _ _ Hb t h Ht) as [Hp Ho Hev HE HN|e _ _ Hev|v _ _ _ _ _ Hin].
    - split; [by apply hid_idle|done].
    - unfold events_for in Hev. by rewrite Hc in Hev.
    - rewrite Hq in Hin. by apply elem_of_nil in Hin. }
  exists gs. split; [|split; [done|intros t h Ht; by apply (Hall t h)]]. split; [|done..].
  destruct Hb. split; try done. intros t h Ht. by apply Hall.
Qed.

(** The events the controller has written and the kernel not read are the transfer events
    [es]. *)
Definition unread (size : Z) (s : event_system TRB) (es : list TransferEvent) : Prop :=
  zlen es = zlen (written s) - zlen (popped s) ∧
  ∀ k x, zlen (popped s) ≤ k → written s !! Z.to_nat k = Some x →
    into_event_trb (set_cycle_bit x (phase size k)) = EventTransfer <$> es !! Z.to_nat (k - zlen (popped s)).

Lemma unread_list size s es evs :
  unread size s es → zlen evs = zlen (written s) - zlen (popped s) →
  (∀ k x, zlen (popped s) ≤ k → written s !! Z.to_nat k = Some x →
     evs !! Z.to_nat (k - zlen (popped s)) = into_event_trb (set_cycle_bit x (phase size k))) →
  evs = EventTransfer <$> es.
Proof.
  intros [Hun1 Hun2] Hlen Hev. apply list_eq_same_length with (length es); [by rewrite length_fmap|lia|].
  intros i x y Hil Hx Hy. rewrite list_lookup_fmap in Hy.
  destruct (lookup_lt_is_Some_2 (written s) (length (popped s) + i)) as [z Hz]; [lia|].
  specialize (Hev (zlen (popped s) + Z.of_nat i) z). specialize (Hun2 (zlen (popped s) + Z.of_nat i) z).
  rewrite Z2Nat.inj_add, !Nat2Z.id in Hev, Hun2 by lia.
  replace (Z.to_nat (zlen (popped s) + Z.of_nat i - zlen (popped s))) with i in Hev, Hun2 by lia.
  rewrite Hun2 in Hev by (done || lia). rewrite Hev in Hx by (done || lia). congruence.
Qed.

Lemma transfers_only es :
  transfers (C := C) (P := P) (EventTransfer <$> es) = es ∧ commands (C := C) (P := P) (EventTransfer <$> es) = [] ∧
  ports (C := C) (P := P) (EventTransfer <$> es) = [].
Proof. induction es as [|e es (IH1 & IH2 & IH3)]; [done|]. cbn. split; [f_equal; exact IH1|]. by split. Qed.

Definition mine (h : HidClass) (es : list TransferEvent) : list TransferEvent :=
  filter (λ e, evt_key e = pipe_key h) es.

(** An event reports the one block a task has with the controller, and the controller has
    executed it. *)
Definition due (gs : nat → ghost) (e : TransferEvent) : Prop :=
  ∃ t h, hids !! t = Some h ∧ evt_key e = pipe_key h ∧
    trb_pointer e = block_at n (base t) (completed (g_sys (gs t))) ∧
    zlen (consumed (g_sys (gs t))) = zlen (pushed (g_sys (gs t))).

Lemma mine_one h es : NoDup (evt_key <$> es) → mine h es = [] ∨ ∃ e, e ∈ es ∧ mine h es = [e].
Proof.
  unfold mine. induction es as [|e es IH]; [by left|]. rewrite fmap_cons. intros [Hnin Hnd]%NoDup_cons. rewrite filter_cons.
  destruct (decide (evt_key e = pipe_key h)) as [Hk|Hk].
  - right. exists e. split; [by left|]. f_equal.
    destruct (IH Hnd) as [->|(e' & Hin & E')]; [done|]. exfalso. apply Hnin. apply list_elem_of_fmap. exists e'.
    split; [|done]. assert (e' ∈ filter (λ e, evt_key e = pipe_key h) es) as Hf by (rewrite E'; by left).
    apply list_elem_of_filter in Hf as [-> _]. done.
  - destruct (IH Hnd) as [->|(e' & Hin & ->)]; [by left|right]. exists e'. split; [by right|done].
Qed.

(** What the reports of an interrupt amount to for a task. *)
Definition calls_after (gs : nat → ghost) (w : world) (es : list TransferEvent) (t : nat) : list Z :=
  calls_of t w ++ match hids !! t with
                  | Some h => e ← mine h es; reported (good e) (g_buf (gs t))
                  | None => []
                  end.
Definition pushed_after (gs : nat → ghost) (es : list TransferEvent) (t : nat) : Z :=
  zlen (pushed (g_sys (gs t))) + match hids !! t with Some h => zlen (mine h es) | None => 0 end.

(** The system right after the events have been read. *)
Lemma serving_start rt w gs rt' w' es :
  apart → ready rt w gs → NoDup (evt_key <$> es) → Forall (due gs) es →
  runtime_ok rt' → slots rt' = slots rt →
  (∀ t, t ∈ queue (task_queue rt') → t = trf_task) → (es ≠ [] → trf_task ∈ queue (task_queue rt')) →
  w_trfs w' = w_trfs w → w_trf_os w' = w_trf_os w → w_calls w' = w_calls w →
  queue (trf_chan (w_events w')) = es → (es = [] → waker (trf_chan (w_events w')) = Some trf_task) →
  woken (w_events w') = [] →
  serving (ev_ring (w_events w')) (calls_after gs w es) (pushed_after gs es) [] (rt', w').
Proof.
  intros Ha [Hb Hq Hc _] Hnd Hdue Hrt' Hsl Hqu Hin Ht Ho Hca Hch Hwk Hw. split; [done|]. exists gs.
  split; [|split; [|done]].
  - split; cbn [fst snd].
    + done.
    + rewrite Hsl. exact (bz_loop _ _ _ _ _ Hb).
    + intros t Hin'. left. by apply Hqu.
    + rewrite Hch. intros e He. apply (proj1 (list.Forall_forall _ _) Hdue) in He as (t & h & ? & ? & _). by exists t, h.
    + intros t h Hth. unfold calls_after, pushed_after. rewrite Hth.
      destruct (bz_hids _ _ _ _ _ Hb t h Hth) as [[P1 P2 P3 P4 P5] [O1 O2 O3 O4] _ _ _|e _ _ Hev|v _ _ _ _ _ Hbad];
        [|unfold events_for in Hev; by rewrite Hc in Hev|rewrite Hq in Hbad; by apply elem_of_nil in Hbad].
      assert (pipe rt' w' t h (gs t)) as Hp by (split; rewrite ?Hsl, ?Ht; done).
      assert (outstanding w' t (gs t)) as Hot by (split; rewrite ?Ht, ?Ho; done).
      assert (calls_of t w' = calls_of t w) as Hcc by (unfold calls_of; by rewrite Hca).
      assert (events_for h w' = mine h es) as Hef by (unfold events_for; by rewrite Hch).
      destruct (mine_one h es Hnd) as [Hm|(e & He & Hm)]; rewrite Hm in *; cbn.
      * apply hid_idle; [done..|by rewrite app_nil_r|lia].
      * apply (proj1 (list.Forall_forall _ _) Hdue) in He as (t' & h' & Hth' & Hk' & Hptr & Hcons).
        assert (e ∈ mine h es) as Hk by (rewrite Hm; by left). apply list_elem_of_filter in Hk as [Hk _].
        assert (t' = t) as -> by (eapply (ap_keys Ha); [done|done|congruence]).
        apply (hid_reported _ _ _ _ _ _ _ e); [done..|by rewrite app_nil_r, Hcc|lia].
    + exact (bz_recv _ _ _ _ _ Hb).
    + rewrite Ht, Ho. exact (bz_fresh _ _ _ _ _ Hb).
  - cbn [fst snd]. destruct es as [|e es]; [left|right; by apply Hin].
    destruct (trf_chan (w_events w')) as [q o]. cbn in *. by rewrite Hch, Hwk.
Qed.

(** C2: an interrupt from end to end. Any number of mouse and keyboard tasks, each with one
    transfer with the controller, are waiting; the controller has executed some of the
    transfers and written their events, at most one per task. Then [on_xhc_interrupt]
    returns: every event went from the event ring through the channel of the transfer task
    and the one-shot channel to its task, no other; the task's callback got the report if the
    transfer succeeded, and the task has put its next block on the ring and waits again; the
    event ring is read up, no task is left to run, none ended, and the system is again in the
    state described, so that this repeats for ever. *)
Theorem interrupt_serves_all (size buf : Z) (s : event_system TRB) (rt : Runtime future) (w : world)
    (gs : nat → ghost) (es : list TransferEvent) (fuel : nat) :
  apart → ready rt w gs →
  1 ≤ size ≤ 2 ^ 16 → 0 ≤ buf → buf + TRB_SIZE * size < 2 ^ 64 →
  event_inv size s → ev_ring (w_events w) = e_ring s → unread size s es →
  NoDup (evt_key <$> es) → Forall (due gs) es → (3 * length es < fuel)%nat →
  ∃ rt' w' gs' raw, on_xhc_interrupt (S (Z.to_nat size)) fuel buf (rt, w) = Ret ([], (rt', w')) ∧
    ready rt' w' gs' ∧
    event_inv size {| e_ring := ev_ring (w_events w'); written := written s; popped := popped s ++ raw |} ∧
    zlen raw = zlen es ∧
    ∀ t h, hids !! t = Some h →
      calls_of t w' = calls_of t w ++ (e ← mine h es; reported (good e) (g_buf (gs t))) ∧
      zlen (pushed (g_sys (gs' t))) = zlen (pushed (g_sys (gs t))) + zlen (mine h es).
Proof.
  intros Ha Hrd Hs Hb0 Hbs Hi Hring Hun Hnd Hdue Hf. pose proof Hun as [Hun1 Hun2].
  destruct (handle_events_ok (C := C) (P := P) into_event_trb size buf s (w_events w)) as
    (ev & evs & Eh & Hlen & Hev & [Hwk Hcnt Htrf _ _] & raw & Hi' & Hraw); try done.
  { intros k x Hk Hx. rewrite (Hun2 k x Hk Hx). apply lookup_lt_Some in Hx as Hlt.
    destruct (lookup_lt_is_Some_2 es (Z.to_nat (k - zlen (popped s)))) as [e ->]; [lia|]. by exists (EventTransfer e). }
  assert (evs = EventTransfer <$> es) as -> by by eapply unread_list.
  destruct (transfers_only es) as (Htr & Hcm & Hpt).
  rewrite Htr in Htrf. destruct Htrf as (Hq1 & Hq2 & Hq3).
  rewrite (rd_chan _ _ _ Hrd) in Hq1, Hq2, Hq3. cbn in Hq1, Hq2, Hq3. rewrite (rd_woken _ _ _ Hrd) in *. rewrite length_fmap in *.
  assert (∀ t, t ∈ woken ev → t = trf_task) as Hw1.
  { intros t Ht. destruct (Hwk t Ht) as [Hn|[[_ H]|[[H _]|[H _]]]]; [by apply elem_of_nil in Hn| |done|done].
    rewrite (rd_chan _ _ _ Hrd) in H. by injection H as <-. }
  destruct (foldM_wake (woken ev) rt (bz_rt _ _ _ _ _ (rd_busy _ _ _ Hrd))) as (rt1 & Ew & Hrt1 & Hsl1 & Hqu1).
  rewrite (rd_queue _ _ _ Hrd) in Hqu1. cbn in Hqu1.
  set (w1 := set_outside (set_events w (clear_woken ev)) (w_doorbells w)
    (w_erdp w ++ [buf + TRB_SIZE * (zlen (written s) mod size)]) (w_calls w)).
  destruct (run_tasks_drains poll (serving (ev_ring ev) (calls_after gs w es) (pushed_after gs es)) work fuel (rt1, w1))
    as (res & [rt2 w2] & Er & Hj & Hq).
  - intros es' rt' x t q. by apply serving_exec.
  - apply (serving_start rt w gs rt1 w1 es); try done.
    + intros t. rewrite Hqu1. apply Hw1.
    + rewrite Hqu1. intros Hne. destruct (Hq3 Hne) as [_ H]. by apply H.
  - unfold work. cbn. rewrite Hqu1, Hq1. cbn in Hcnt. lia.
  - pose proof Hj as [-> _]. destruct (serving_done _ _ _ (rt2, w2) Hj Hq) as (gs' & Hr2 & Her & Hall). cbn [fst snd] in *.
    exists rt2, w2, gs', raw. split.
    { unfold on_xhc_interrupt. rewrite Eh, bind_Ret. rewrite Ew, bind_Ret. exact Er. }
    rewrite Her. split; [done|]. split; [done|]. split; [lia|]. intros t h Ht.
    destruct (Hall t h Ht) as [H1 H2]. unfold calls_after, pushed_after in *. by rewrite Ht in H1, H2.
Qed.

End service.

(** ** A mouse whose transfer has completed *)

Definition svc_mouse : HidClass := {| hid_slot_id := 1; hid_interface := 0; hid_dci := 3 |}.

Definition svc_ring : ProducerRing Z :=
  {| data := [2 ^ 96 + 513; 0; 0; trb_link 0x1000]; cycle_state := true; enque := 1; deque := 0; buf_ptr := 0x1000 |}.

Definition svc_ghost : ghost (TRB := Z) :=
  {| g_recv := 0; g_buf := 0x5000;
     g_sys := {| ring := svc_ring; ctl := {| ctl_idx := 1; ctl_ccs := true |}; pushed := [513];
                 consumed := [2 ^ 96 + 513]; completed := 0 |} |}.

Lemma svc_ring_inv : ring_inv 3 (g_sys svc_ghost).
Proof.
  set (r := {| data := [0; 0; 0; trb_link 0x1000]; cycle_state := true; enque := 0; deque := 0; buf_ptr := 0x1000 |}).
  apply (steps_inv 3 (start r)).
  - eapply rtc_l; [by apply (step_push (start r) 513 svc_ring 0x1000)|].
    eapply rtc_l; [by apply (step_consume _ {| ctl_idx := 1; ctl_ccs := true |} (Some (2 ^ 96 + 513)))|]. apply rtc_refl.
  - by apply (ring_inv_start 0x1000 4 r).
Qed.

Definition svc_report : TransferEvent :=
  {| slot_id := 1; endpoint_id := 3; trb_pointer := 0x1000; completion_code := inl Success |}.

Definition svc_events : event_system Z :=
  {| e_ring := {| c_data := [2 ^ 96 + 7; 0; 0; 0]; c_cycle_state := true; c_deque := 0 |};
     written := [7]; popped := [] |}.

Lemma svc_events_inv : event_inv 4 svc_events.
Proof.
  apply (esteps_inv 4 (estart 4)); [|by apply event_inv_start].
  eapply rtc_l; [by apply (estep_write (estart 4) 7)|]. apply rtc_refl.
Qed.

Definition svc_world : world (TRB := Z) (C := ()) (P := ()) (OC := oneshot_map ())
    (OT := oneshot_map (TransferEvent + TransferEvent)) :=
  {| w_events := {| ev_ring := e_ring svc_events; trf_chan := {| queue := []; waker := Some 1%nat |};
                    cmd_chan := {| queue := []; waker := Some 0%nat |}; port_chan := new_channel; woken := [] |};
     w_cmds := {| cmd_ring := demo_ring; listener := ∅ |};
     w_trfs := {| rings := {[ (1, 3) := svc_ring ]}; trf_listener := {[ 0x1000 := 0%nat ]}; ring_size := 4; channels := 1 |};
     w_cmd_os := ∅; w_trf_os := {[ 0%nat := (None, Some 2%nat) ]};
     w_doorbells := [(1, 3)]; w_erdp := []; w_calls := [] |}.

Definition svc_runtime : Runtime (future (G := ())) :=
  {| slots := [Some CommandLoop; Some TransferLoop; Some (HidLoop svc_mouse (HidWait 0 0x5000))];
     task_queue := new_channel |}.

Lemma svc_ready :
  ready 1 {[ 2%nat := svc_mouse ]} 3 (λ _, 0x1000) svc_runtime svc_world (λ _, svc_ghost).
Proof.
  split; [|done..]. split; [done|done| | | | |].
  - intros t Ht. by apply elem_of_nil in Ht.
  - intros e He. by apply elem_of_nil in He.
  - intros t h [<- <-]%lookup_singleton_Some. apply hid_idle; [split|split|..]; try done; [apply svc_ring_inv|cbn; lia].
  - intros t t' [h [<- _]%lookup_singleton_Some] [h' [<- _]%lookup_singleton_Some]. done.
  - intros c Hc. cbn in *. unfold cell. rewrite lookup_singleton_ne by lia. done.
Qed.

Lemma interrupt_serves_all_witness :
  ∃ rt' w', on_xhc_interrupt demo_raw (λ _, 0) (λ _, Some (EventTransfer svc_report)) (λ i, 0x5000 + 64 * Z.of_nat i)
      (λ _ g st, Ret (None, g, st)) 5 10 0x4000 (svc_runtime, svc_world) = Ret ([], (rt', w')) ∧
    calls_of 2 w' = [0x5000].
Proof.
  destruct (interrupt_serves_all demo_raw (λ _, 0) (λ _, Some (EventTransfer svc_report)) (λ i, 0x5000 + 64 * Z.of_nat i)
    (λ _ g st, Ret (None, g, st)) 1 {[ 2%nat := svc_mouse ]} 3 (λ _, 0x1000) 4 0x4000 svc_events svc_runtime svc_world
    (λ _, svc_ghost) [svc_report] 10) as (rt' & w' & gs' & raw & E & _ & _ & _ & Hall).
  - split; [reflexivity| |].
    + intros t t' h h' [<- _]%lookup_singleton_Some [<- _]%lookup_singleton_Some _. reflexivity.
    + intros t t' [h [<- _]%lookup_singleton_Some] [h' [<- _]%lookup_singleton_Some] Hne. destruct (Hne eq_refl).
  - exact svc_ready.
  - lia.
  - lia.
  - vm_compute. reflexivity.
  - exact svc_events_inv.
  - reflexivity.
  - split; [reflexivity|]. intros k x Hk Hx. apply lookup_lt_Some in Hx. cbn in Hk, Hx.
    assert (k = 0) as -> by lia. reflexivity.
  - apply NoDup_singleton.
  - constructor; [|constructor]. exists 2%nat, svc_mouse. split; [reflexivity|]. split; [reflexivity|]. split; reflexivity.
  - cbn. lia.
  - exists rt', w'. split; [exact E|]. destruct (Hall 2%nat svc_mouse) as [H _]; [reflexivity|]. exact H.
Defined.
