(* ===== verification/Descriptors.v ===== *)
(** segment.rs and interrupt.rs: segment descriptors and the global descriptor table,
    gates and the interrupt descriptor table, as the processor reads them.

    Descriptors are words behind the accessors of [Bitfield]. Loading a table and the
    segment registers is assembly, which Asm has: here, what it leaves in the registers is
    the result of the definitions. *)

From S2P Require Import Prelude Bitfield.

Definition KERNEL_CS : Z := Z.shiftl 1 3.
Definition KERNEL_SS : Z := Z.shiftl 2 3.

Inductive DescriptorType :=
  Upper8Bytes | LDTOrReadWrite | TSSAvailable | TSSBusy | CallGate | InterruptGate | TrapGate | ExecuteRead.

(** [type_ as u8] *)
Definition type_code (t : DescriptorType) : Z :=
  match t with
  | Upper8Bytes => 0 | LDTOrReadWrite => 2 | TSSAvailable => 9 | TSSBusy => 11
  | CallGate => 12 | InterruptGate => 14 | TrapGate => 15 | ExecuteRead => 10
  end.

(** ** What the processor reads *)

Definition field (w msb lsb : Z) : Z := (w / 2 ^ lsb) mod 2 ^ (msb - lsb + 1).

Definition seg_base (d : Z) : Z :=
  field d 31 16 + 2 ^ 16 * field d 39 32 + 2 ^ 24 * field d 63 56.

(** In units of 4 KiB when [granular]. *)
Definition seg_limit (d : Z) : Z := field d 15 0 + 2 ^ 16 * field d 51 48.

Record seg_view := {
  v_base : Z; v_limit : Z; v_type : Z; v_code_or_data : bool; v_dpl : Z; v_present : bool;
  v_long : bool; v_default_32 : bool; v_granular : bool;
}.

Definition view_segment (d : Z) : seg_view :=
  {| v_base := seg_base d; v_limit := seg_limit d; v_type := field d 43 40;
     v_code_or_data := Z.testbit d 44; v_dpl := field d 46 45; v_present := Z.testbit d 47;
     v_long := Z.testbit d 53; v_default_32 := Z.testbit d 54; v_granular := Z.testbit d 55 |}.

(** What the processor does with vector [n] of the table it was given: reads 16 bytes and
    finds the handler, unless the vector is outside or not present. *)
Record gate_view := { g_handler : Z; g_selector : Z; g_type : Z; g_dpl : Z; g_ist : Z }.

Definition dispatch (limit : Z) (table : list Z) (n : Z) : option gate_view :=
  if 16 * n + 15 <=? limit then
    let w := le_combine (take 16 (drop (Z.to_nat (16 * n)) table)) in
    if field w 47 47 =? 1 then
      Some {| g_handler := field w 15 0 + 2 ^ 16 * field w 63 48 + 2 ^ 32 * field w 95 64;
              g_selector := field w 31 16; g_type := field w 43 40; g_dpl := field w 46 45;
              g_ist := field w 34 32 |}
    else None
  else None.

Section descriptors.
Context {BF : Bitfield}.

(** ** Segments *)

Definition set_base (self base : Z) : Z :=
  let self := set_bit_range self 31 16 (as_u 16 base) in
  let self := set_bit_range self 39 32 (Z.land (as_u 16 (Z.shiftr base 16)) 0xff) in
  set_bit_range self 63 56 (Z.land (as_u 16 (Z.shiftr base 24)) 0xff).

Definition set_limit (self limit : Z) : Z :=
  let self := set_bit_range self 15 0 (Z.land (as_u 16 limit) 0xfff) in
  set_bit_range self 51 48 (Z.land (as_u 16 (Z.shiftr limit 16)) 0xf).

Definition set_code_segment (type_ : DescriptorType) (dpl base limit : Z) : Z :=
  let desc := 0 in
  let desc := set_base desc base in
  let desc := set_limit desc limit in
  let desc := set_bit_range desc 43 40 (type_code type_) in
  let desc := bf_set_bit desc 44 true in
  let desc := set_bit_range desc 46 45 dpl in
  let desc := bf_set_bit desc 47 true in
  let desc := bf_set_bit desc 52 false in
  let desc := bf_set_bit desc 53 true in
  let desc := bf_set_bit desc 54 false in
  bf_set_bit desc 55 true.

Definition set_data_segment (type_ : DescriptorType) (dpl base limit : Z) : Z :=
  let desc := set_code_segment type_ dpl base limit in
  let desc := bf_set_bit desc 53 false in
  bf_set_bit desc 54 true.

(** The table and the registers after [setup_segments]. *)
Record segments := { gdt : list Z; gdt_limit : Z; data_segments : Z; cs : Z; ss : Z }.

Definition setup_segments : outcome segments :=
  let gdt := [0; set_code_segment ExecuteRead 0 0 0xfffff; set_data_segment LDTOrReadWrite 0 0 0xfffff] in
  limit ← chk_u 16 (as_u 16 (8 * zlen gdt) - 1);
  Ret {| gdt := gdt; gdt_limit := limit; data_segments := 0; cs := KERNEL_CS; ss := KERNEL_SS |}.


(** The limit as [set_limit] stores it: bits 12 to 15 are lost. *)
Definition stored_limit (limit : Z) : Z := limit mod 2 ^ 12 + 2 ^ 16 * (limit / 2 ^ 16).

(** ** Gates *)

Record InterruptDescriptor := {
  offset_low : Z;
  segment_selector : Z;
  attr : Z;
  offset_middle : Z;
  offset_high : Z;
  reserved : Z;
}.

Definition InterruptDescriptorAttribute_new (dpl : Z) (type_ : DescriptorType) : Z :=
  let res := 0 in
  let res := bf_set_bit res 15 true in
  let res := set_bit_range res 14 13 dpl in
  let res := set_bit_range res 11 8 (type_code type_) in
  set_bit_range res 2 0 0.

Definition InterruptDescriptor_new (segment_selector attr offset : Z) : InterruptDescriptor :=
  {| segment_selector := segment_selector; attr := attr; reserved := 0;
     offset_low := as_u 16 (Z.land offset 0xffff);
     offset_middle := as_u 16 (Z.land (Z.shiftr offset 16) 0xffff);
     offset_high := as_u 32 (Z.shiftr offset 32) |}.

Definition ZERO_DESCRIPTOR : InterruptDescriptor :=
  {| offset_low := 0; segment_selector := 0; attr := 0; offset_middle := 0; offset_high := 0; reserved := 0 |}.

Inductive IVIndex := XHCI | LapicTimer.
Definition iv_code (i : IVIndex) : Z := match i with XHCI => 0x40 | LapicTimer => 0x41 end.

Definition IDT_init : list InterruptDescriptor := replicate 256 ZERO_DESCRIPTOR.

Definition set_idt_entry (idt : list InterruptDescriptor) (index : IVIndex) (entry : InterruptDescriptor)
    : outcome (list InterruptDescriptor) :=
  vset idt (iv_code index) entry.

(** [#[repr(C)]]: the 16 bytes of a gate in memory. *)
Definition gate_bytes (d : InterruptDescriptor) : list Z :=
  le_split 2 (offset_low d) ++ le_split 2 (segment_selector d) ++ le_split 2 (attr d) ++
  le_split 2 (offset_middle d) ++ le_split 4 (offset_high d) ++ le_split 4 (reserved d).

(** [load_idt]: the limit given to the processor, and the table it reads. *)
Definition idt_limit : Z := as_u 16 (16 * 256 - 1).
Definition idt_bytes (idt : list InterruptDescriptor) : list Z := concat (gate_bytes <$> idt).

(** The part of [KernelMain2] that fills the table: [xhci] and [lapic] are the addresses of
    the handlers, [get_cs] the code segment selector. *)
Definition install_handlers (get_cs xhci lapic : Z) : outcome (list InterruptDescriptor) :=
  idt ← set_idt_entry IDT_init XHCI
    (InterruptDescriptor_new get_cs (InterruptDescriptorAttribute_new 0 InterruptGate) xhci);
  set_idt_entry idt LapicTimer
    (InterruptDescriptor_new get_cs (InterruptDescriptorAttribute_new 0 InterruptGate) lapic).


(** ** Segments as the processor reads them *)

Lemma field_range w msb lsb : 0 ≤ lsb ≤ msb → field w msb lsb = bit_range w msb lsb.
Proof. intros. by rewrite bit_range_spec. Qed.

Lemma type_code_range t : 0 ≤ type_code t < 16.
Proof. destruct t; simpl; lia. Qed.

Lemma base_parts base :
  in_u 32 base →
  as_u 16 base + 2 ^ 16 * Z.land (as_u 16 (Z.shiftr base 16)) 0xff +
    2 ^ 24 * Z.land (as_u 16 (Z.shiftr base 24)) 0xff = base.
Proof.
  unfold in_u, as_u. intros Hb. change 0xff with (Z.ones 8). rewrite !Z.land_ones, !Z.shiftr_div_pow2 by lia.
  change (2 ^ 16) with 65536. change (2 ^ 24) with 16777216. change (2 ^ 8) with 256. change (2 ^ 32) with 4294967296 in Hb.
  Z.div_mod_to_equations. lia.
Qed.

Lemma limit_parts limit :
  in_u 20 limit →
  Z.land (as_u 16 limit) 0xfff + 2 ^ 16 * Z.land (as_u 16 (Z.shiftr limit 16)) 0xf = stored_limit limit.
Proof.
  unfold in_u, as_u, stored_limit. intros Hb. change 0xfff with (Z.ones 12). change 0xf with (Z.ones 4).
  rewrite !Z.land_ones, !Z.shiftr_div_pow2 by lia.
  change (2 ^ 16) with 65536. change (2 ^ 12) with 4096. change (2 ^ 4) with 16. change (2 ^ 20) with 1048576 in Hb.
  Z.div_mod_to_equations. lia.
Qed.

Lemma land_range a k : 0 ≤ k → 0 ≤ Z.land a (Z.ones k) < 2 ^ k.
Proof. intros. rewrite Z.land_ones by done. apply Z.mod_pos_bound. lia. Qed.

Lemma as_u_range w a : 0 ≤ w → 0 ≤ as_u w a < 2 ^ w.
Proof. intros. apply Z.mod_pos_bound. lia. Qed.

Lemma segment_view t dpl base limit (long : bool) :
  in_u 32 base → in_u 20 limit → 0 ≤ dpl < 4 →
  view_segment (if long then set_code_segment t dpl base limit else set_data_segment t dpl base limit) =
  {| v_base := base; v_limit := stored_limit limit; v_type := type_code t; v_code_or_data := true;
     v_dpl := dpl; v_present := true; v_long := long; v_default_32 := negb long; v_granular := true |}.
Proof.
  intros Hb Hl Hd. pose proof (type_code_range t) as Ht. rewrite <- (limit_parts limit Hl).
  rewrite <- (base_parts base Hb) at 3.
  pose proof (as_u_range 16 base) as H1. pose proof (land_range (as_u 16 (Z.shiftr base 16)) 8) as H2.
  pose proof (land_range (as_u 16 (Z.shiftr base 24)) 8) as H3.
  pose proof (land_range (as_u 16 (Z.shiftr limit 16)) 4) as H4.
  pose proof (land_range (as_u 16 limit) 12) as H5.
  change (Z.ones 8) with 0xff in *. change (Z.ones 4) with 0xf in *. change (Z.ones 12) with 0xfff in *.
  unfold view_segment, seg_base, seg_limit, set_data_segment, set_code_segment, set_base, set_limit. cbv zeta.
  generalize dependent (as_u 16 base). generalize dependent (Z.land (as_u 16 (Z.shiftr base 16)) 0xff).
  generalize dependent (Z.land (as_u 16 (Z.shiftr base 24)) 0xff).
  generalize dependent (Z.land (as_u 16 (Z.shiftr limit 16)) 0xf).
  generalize dependent (Z.land (as_u 16 limit) 0xfff). generalize dependent (type_code t).
  intros tc Htc l1 Hl1 l2 Hl2 b3 Hb3 b2 Hb2 b1 Hb1.
  rewrite !field_range by lia. rewrite <- !bf_bit_spec by lia.
  destruct long; f_equal;
    try (f_equal; [|f_equal]); try (f_equal; [|f_equal]); by bf_read.
Qed.

(** The segments the kernel installs, as the processor reads them. The code segment
    is present, of the highest privilege, 64-bit, executable, with base 0; the stack
    segment is a present read/write data segment. Their limit is not the 0xfffff asked
    for: [set_limit] loses bits 12 to 15 and it reads as 0xf0fff. *)
Lemma kernel_segments :
  ∃ s code data, setup_segments = Ret s ∧ gdt_limit s = 8 * zlen (gdt s) - 1 ∧
    gdt s !! Z.to_nat (cs s / 8) = Some code ∧ gdt s !! Z.to_nat (ss s / 8) = Some data ∧
    view_segment code = {| v_base := 0; v_limit := 0xf0fff; v_type := 10; v_code_or_data := true;
      v_dpl := 0; v_present := true; v_long := true; v_default_32 := false; v_granular := true |} ∧
    view_segment data = {| v_base := 0; v_limit := 0xf0fff; v_type := 2; v_code_or_data := true;
      v_dpl := 0; v_present := true; v_long := false; v_default_32 := true; v_granular := true |}.
Proof.
  eexists _, _, _. split; [done|]. cbn [gdt gdt_limit cs ss]. split_and!; [done..| |].
  - rewrite (segment_view ExecuteRead 0 0 0xfffff true); [done|split; done..].
  - rewrite (segment_view LDTOrReadWrite 0 0 0xfffff false); [done|split; done..].
Qed.

(** ** Gates as the processor reads them *)

Lemma field_bits w msb lsb i :
  0 ≤ lsb ≤ msb → 0 ≤ i → Z.testbit (field w msb lsb) i = (i <=? msb - lsb) && Z.testbit w (i + lsb).
Proof. intros. rewrite field_range by done. by apply bit_range_bits. Qed.

(** A field that lies inside a part of the word. *)
Lemma field_part A a B k m msb lsb :
  0 ≤ k → 0 ≤ m → 0 ≤ A < 2 ^ k → 0 ≤ a < 2 ^ m → k ≤ lsb ≤ msb → msb < k + m →
  field (A + 2 ^ k * (a + 2 ^ m * B)) msb lsb = field a (msb - k) (lsb - k).
Proof.
  intros Hk Hm HA Ha Hl Hh. apply Z.bits_inj'. intros i Hi. rewrite !field_bits by lia.
  replace (msb - k - (lsb - k)) with (msb - lsb) by lia.
  destruct (Z.leb_spec i (msb - lsb)); [simpl|done].
  replace (i + lsb) with (i + (lsb - k) + k) by lia. rewrite <- Z.div_pow2_bits by lia.
  assert ((A + 2 ^ k * (a + 2 ^ m * B)) / 2 ^ k = a + 2 ^ m * B) as ->.
  { rewrite Z.mul_comm, Z.div_add by lia. rewrite Z.div_small; lia. }
  rewrite <- (Z.mod_pow2_bits_low _ m) by lia. do 2 f_equal.
  rewrite Z.mul_comm, Z_mod_plus_full. by apply Z.mod_small.
Qed.

Lemma field_full a m : 0 < m → 0 ≤ a < 2 ^ m → field a (m - 1) 0 = a.
Proof.
  intros Hm Ha. unfold field. rewrite Z.pow_0_r, Z.div_1_r. replace (m - 1 - 0 + 1) with m by lia.
  by apply Z.mod_small.
Qed.

Record gate_ok (d : InterruptDescriptor) : Prop := {
  gk_low : 0 ≤ offset_low d < 2 ^ 16;
  gk_sel : 0 ≤ segment_selector d < 2 ^ 16;
  gk_attr : 0 ≤ attr d < 2 ^ 16;
  gk_middle : 0 ≤ offset_middle d < 2 ^ 16;
  gk_high : 0 ≤ offset_high d < 2 ^ 32;
  gk_reserved : 0 ≤ reserved d < 2 ^ 32;
}.

Lemma length_gate d : length (gate_bytes d) = 16%nat.
Proof. done. Qed.

Lemma gate_word d :
  gate_ok d →
  le_combine (gate_bytes d) = offset_low d + 2 ^ 16 * (segment_selector d + 2 ^ 16 * (attr d +
    2 ^ 16 * (offset_middle d + 2 ^ 16 * (offset_high d + 2 ^ 32 * reserved d)))).
Proof.
  intros [H1 H2 H3 H4 H5 H6]. unfold gate_bytes.
  rewrite !le_combine_app, !le_combine_split, !length_le_split.
  change (256 ^ Z.of_nat 2) with (2 ^ 16). change (256 ^ Z.of_nat 4) with (2 ^ 32).
  rewrite !Z.mod_small by done. done.
Qed.

Lemma table_chunk idt n d :
  idt !! n = Some d → take 16 (drop (16 * n) (idt_bytes idt)) = gate_bytes d.
Proof.
  unfold idt_bytes. revert n. induction idt as [|e idt IH]; intros [|n] H; [done..| |]; rewrite fmap_cons.
  - cbn in H. injection H as ->. cbn [concat]. rewrite Nat.mul_0_r, drop_0. by apply take_app_length'.
  - cbn in H. cbn [concat]. rewrite <- (IH n H). f_equal.
    replace (16 * S n)%nat with (length (gate_bytes e) + 16 * n)%nat by (rewrite length_gate; lia).
    by rewrite <- drop_drop, drop_app_length.
Qed.

Lemma dispatch_gate limit idt n d :
  idt !! Z.to_nat n = Some d → gate_ok d → 0 ≤ n → 16 * n + 15 ≤ limit →
  dispatch limit (idt_bytes idt) n =
  if field (attr d) 15 15 =? 1 then
    Some {| g_handler := offset_low d + 2 ^ 16 * offset_middle d + 2 ^ 32 * offset_high d;
            g_selector := segment_selector d; g_type := field (attr d) 11 8;
            g_dpl := field (attr d) 14 13; g_ist := field (attr d) 2 0 |}
  else None.
Proof.
  intros Hd Hok Hn Hl. unfold dispatch. rewrite (proj2 (Z.leb_le _ _)) by done.
  replace (Z.to_nat (16 * n)) with (16 * Z.to_nat n)%nat by lia. rewrite (table_chunk _ _ d) by done.
  rewrite gate_word by done. cbv zeta. destruct Hok as [H1 H2 H3 H4 H5 H6].
  set (w := offset_low d + _).
  assert (field w 15 0 = offset_low d) as ->.
  { rewrite <- (field_full (offset_low d) 16) by (done || lia).
    unfold field. rewrite !Z.div_1_r. subst w. by rewrite Z.mul_comm, Z_mod_plus_full. }
  assert (∀ msb lsb, 16 ≤ lsb ≤ msb → msb < 32 → field w msb lsb = field (segment_selector d) (msb - 16) (lsb - 16)) as E1.
  { intros. apply field_part; lia. }
  assert (∀ msb lsb, 32 ≤ lsb ≤ msb → msb < 48 → field w msb lsb = field (attr d) (msb - 32) (lsb - 32)) as E2.
  { intros. rewrite <- (field_part (offset_low d + 2 ^ 16 * segment_selector d) (attr d)
      (offset_middle d + 2 ^ 16 * (offset_high d + 2 ^ 32 * reserved d)) 32 16) by lia. f_equal. lia. }
  assert (field w 63 48 = offset_middle d) as ->.
  { trans (field (offset_middle d) (63 - 48) (48 - 48)); [|exact (field_full (offset_middle d) 16 ltac:(lia) H4)].
    rewrite <- (field_part (offset_low d + 2 ^ 16 * segment_selector d + 2 ^ 32 * attr d) (offset_middle d)
      (offset_high d + 2 ^ 32 * reserved d) 48 16 63 48) by lia. f_equal. lia. }
  assert (field w 95 64 = offset_high d) as ->.
  { trans (field (offset_high d) (95 - 64) (64 - 64)); [|exact (field_full (offset_high d) 32 ltac:(lia) H5)].
    rewrite <- (field_part (offset_low d + 2 ^ 16 * segment_selector d + 2 ^ 32 * attr d + 2 ^ 48 * offset_middle d)
      (offset_high d) (reserved d) 64 32 95 64) by lia. f_equal. lia. }
  rewrite (E1 31 16), (E2 47 47), (E2 43 40), (E2 46 45), (E2 34 32) by lia.
  by rewrite (field_full (segment_selector d) 16 ltac:(lia) H2 : field (segment_selector d) (31 - 16) (16 - 16) = _).
Qed.

Lemma attribute_fields dpl t :
  0 ≤ dpl < 4 →
  let a := InterruptDescriptorAttribute_new dpl t in
  field a 15 15 = 1 ∧ field a 14 13 = dpl ∧ field a 11 8 = type_code t ∧ field a 2 0 = 0 ∧ 0 ≤ a < 2 ^ 16.
Proof.
  intros Hd. pose proof (type_code_range t) as Ht. unfold InterruptDescriptorAttribute_new. cbv zeta.
  generalize dependent (type_code t). intros tc Htc. rewrite !field_range by lia. 
  split; [|split; [|split; [|split]]].
  1: rewrite bit_range_single by lia; rewrite !bit_set_range by (simpl; lia); by rewrite bit_set_same by lia.
  1-3: by bf_read.
  apply set_bit_range_bound; [lia..|simpl; lia|]; apply set_bit_range_bound; [lia..|simpl; lia|];
    apply set_bit_range_bound; [lia..|simpl; lia|]; apply bf_set_bit_bound; lia.
Qed.

(** The address of a handler comes back from the three parts of its gate. *)
Lemma offset_parts h :
  in_u 64 h →
  let d := InterruptDescriptor_new 0 0 h in
  offset_low d + 2 ^ 16 * offset_middle d + 2 ^ 32 * offset_high d = h ∧
  0 ≤ offset_low d < 2 ^ 16 ∧ 0 ≤ offset_middle d < 2 ^ 16 ∧ 0 ≤ offset_high d < 2 ^ 32.
Proof.
  unfold in_u. intros Hh. cbn. unfold as_u. change 0xffff with (Z.ones 16).
  rewrite !Z.land_ones, !Z.shiftr_div_pow2 by lia.
  rewrite !Z.mod_mod by lia. split; [|split_and!; apply Z.mod_pos_bound; lia].
  change (2 ^ 16) with 65536. change (2 ^ 32) with 4294967296. change (2 ^ 64) with 18446744073709551616 in Hh.
  Z.div_mod_to_equations. lia.
Qed.

Lemma handler_gate sel h :
  in_u 64 h → in_u 16 sel →
  gate_ok (InterruptDescriptor_new sel (InterruptDescriptorAttribute_new 0 InterruptGate) h) ∧
  ∀ idt n limit, idt !! Z.to_nat n = Some (InterruptDescriptor_new sel (InterruptDescriptorAttribute_new 0 InterruptGate) h) →
    0 ≤ n → 16 * n + 15 ≤ limit →
    dispatch limit (idt_bytes idt) n =
      Some {| g_handler := h; g_selector := sel; g_type := 14; g_dpl := 0; g_ist := 0 |}.
Proof.
  intros Hh Hs. destruct (offset_parts h Hh) as (Hsum & H1 & H2 & H3).
  destruct (attribute_fields 0 InterruptGate) as (A1 & A2 & A3 & A4 & A5); [lia|].
  set (d := InterruptDescriptor_new _ _ _). assert (gate_ok d) as Hok by (split; done).
  split; [done|]. intros idt n limit Hn Hn0 Hl. rewrite (dispatch_gate limit idt n d) by done.
  subst d. cbn [attr InterruptDescriptor_new segment_selector]. rewrite A1, A2, A3, A4. simpl. do 2 f_equal. exact Hsum.
Qed.

(** After the handlers are installed, the processor enters exactly the xHCI handler on
    vector 0x40 and the timer handler on vector 0x41, through ring 0 interrupt gates with
    the kernel's code segment, wherever in the 64-bit address space they are; every other
    vector has no handler. *)
Lemma handlers_installed (sel xhci lapic : Z) :
  in_u 16 sel → in_u 64 xhci → in_u 64 lapic →
  ∃ idt, install_handlers sel xhci lapic = Ret idt ∧
    ∀ n, 0 ≤ n < 256 →
      dispatch idt_limit (idt_bytes idt) n =
        if n =? 0x40 then Some {| g_handler := xhci; g_selector := sel; g_type := 14; g_dpl := 0; g_ist := 0 |}
        else if n =? 0x41 then Some {| g_handler := lapic; g_selector := sel; g_type := 14; g_dpl := 0; g_ist := 0 |}
        else None.
Proof.
  intros Hs Hx Hl. unfold install_handlers, set_idt_entry.
  rewrite vset_ok by (vm_compute; split; congruence). rewrite bind_Ret.
  rewrite vset_ok by (rewrite length_insert; vm_compute; split; congruence).
  eexists. split; [done|]. intros n Hn.
  assert (16 * n + 15 ≤ idt_limit) by (change idt_limit with 4095; lia).
  assert (length IDT_init = 256%nat) as HL by done.
  destruct (Z.eqb_spec n 0x40) as [->|H1]; [|destruct (Z.eqb_spec n 0x41) as [->|H2]].
  - apply handler_gate; [done..| |lia|done].
    rewrite list_lookup_insert_ne by (vm_compute; congruence). apply list_lookup_insert_eq. rewrite HL. simpl. lia.
  - apply handler_gate; [done..| |lia|done]. apply list_lookup_insert_eq. rewrite length_insert, HL. simpl. lia.
  - rewrite (dispatch_gate _ _ _ ZERO_DESCRIPTOR); [done| |split; simpl; lia|lia|done].
    rewrite !list_lookup_insert_ne by (simpl; lia). apply lookup_replicate_2. lia.
Qed.

End descriptors.

Lemma handlers_installed_witness :
  ∃ idt, install_handlers 8 0xffff800012345678 0x100200 = Ret idt ∧
    dispatch idt_limit (idt_bytes idt) 0x40 =
      Some {| g_handler := 0xffff800012345678; g_selector := 8; g_type := 14; g_dpl := 0; g_ist := 0 |}.
Proof.
  destruct (handlers_installed 8 0xffff800012345678 0x100200) as (idt & E & H); [split; lia..|].
  exists idt. split; [exact E|]. rewrite (H 0x40) by lia. reflexivity.
Defined.
