(* ===== verification/TaskStart.v ===== *)
(** The part of [KernelMain2] (main.rs) that prepares the context of task B, and what the
    first switch to it does. *)

From S2P Require Import Prelude Descriptors Task.

(** The context as 64-bit words; [fxsave_area[6]] is the lower half of a word. [stack_end] is
    the end of the stack's buffer, [c3] the page table of the kernel. *)
Definition task_b_context (taskB stack_end c3 : Z) : outcome (list Z) :=
  let ctx := TaskContext_new in
  let ctx := <[1%nat := taskB]> ctx in
  let ctx := <[12%nat := 1]> ctx in
  let ctx := <[13%nat := 42]> ctx in
  let ctx := <[0%nat := c3]> ctx in
  let ctx := <[2%nat := 0x202]> ctx in
  let ctx := <[4%nat := KERNEL_CS]> ctx in
  let ctx := <[5%nat := KERNEL_SS]> ctx in
  sp ← usize_sub (Z.ldiff stack_end 0xf) 8;
  let ctx := <[14%nat := sp]> ctx in
  Ret (<[27%nat := 0x1f80]> ctx).

(** What task B starts with. *)
Definition start_reg (sp : Z) (r : reg) : Z := match r with RSP => sp | RDI => 1 | RSI => 42 | _ => 0 end.

Record starts (taskB sp c3 : Z) (s : cpu) : Prop := {
  st_rip : rip s = taskB;
  st_regs : ∀ r, regs s r = start_reg sp r;
  st_cr3 : cr3 s = c3;
  st_rflags : rflags s = 0x202;
  st_sregs : ∀ r, sregs s r = match r with CS => KERNEL_CS | SS => KERNEL_SS | _ => 0 end;
  st_mxcsr : fx s !! 3%nat = Some 0x1f80;
}.

Lemma load_words_lookup m a n i : 0 ≤ i < n → load_words m a n !! Z.to_nat i = Some (m (a + 8 * i)).
Proof.
  intros Hi. unfold load_words. change (map ?f ?l) with (f <$> l). rewrite list_lookup_fmap, lookup_seqZ_lt by lia. cbn.
  do 3 f_equal. lia.
Qed.

(** A state in which a call of [switch_context] would leave that context behind. *)
Definition before_start (taskB sp c3 : Z) : cpu :=
  {| gpr := {| rax := 0; rbx := 0; rcx := 0; rdx := 0; rdi := 1; rsi := 42; rsp := sp - 8; rbp := 0; r8 := 0; r9 := 0;
               r10 := 0; r11 := 0; r12 := 0; r13 := 0; r14 := 0; r15 := 0 |};
     seg := {| cs := KERNEL_CS; ss := KERNEL_SS; fs := 0; gs := 0 |};
     rip := 0; rflags := 0x202; cr3 := c3; fx := <[3%nat := 0x1f80]> (replicate 64 0);
     mem := λ _, taskB |}.

Lemma task_b_context_ok taskB stack_end c3 :
  16 ≤ stack_end < 2 ^ 64 →
  let sp := stack_end - stack_end mod 16 - 8 in
  ∃ w, task_b_context taskB stack_end c3 = Ret w ∧ length w = 88%nat ∧ sp mod 16 = 8 ∧
    ∀ m a, load_words m a 88 = w → saved m a (before_start taskB sp c3).
Proof.
  intros He sp. unfold task_b_context. change 0xf with (Z.ones 4). rewrite Z.ldiff_ones_r by lia.
  rewrite Z.shiftl_mul_pow2, Z.shiftr_div_pow2 by lia. change (2 ^ 4) with 16.
  assert (stack_end / 16 * 16 - 8 = sp) as Es by (unfold sp; pose proof (Z.div_mod stack_end 16); lia).
  assert (1 ≤ stack_end / 16) as H1 by (apply Z.div_le_lower_bound; lia).
  unfold usize_sub. rewrite Es, chk_u_ok, bind_Ret; [|rewrite <- Es; pose proof (Z.mul_div_le stack_end 16); lia].
  eexists. split; [reflexivity|]. split; [reflexivity|]. split.
  { rewrite <- Es. replace (stack_end / 16 * 16 - 8) with (8 + (stack_end / 16 - 1) * 16) by lia. by rewrite Z.mod_add. }
  intros m a E.
  assert (∀ i, 0 ≤ i < 88 → load_words m a 88 !! Z.to_nat i = Some (m (a + 8 * i))) as Hw by (intros; by apply load_words_lookup).
  rewrite E in Hw. clear E. split.
  - intros r. destruct r; cbn [reg_off after_ret];
      match goal with |- m (a + ?k) = _ => specialize (Hw (k / 8) ltac:(vm_compute; intuition congruence)) end;
      injection Hw as Hw; (etransitivity; [symmetry; exact Hw|]); try reflexivity. cbn. lia.
  - specialize (Hw 0 ltac:(lia)). injection Hw as Hw. etransitivity; [symmetry; exact Hw|reflexivity].
  - specialize (Hw 1 ltac:(lia)). injection Hw as Hw. etransitivity; [symmetry; exact Hw|reflexivity].
  - specialize (Hw 2 ltac:(lia)). injection Hw as Hw. etransitivity; [symmetry; exact Hw|reflexivity].
  - intros r. destruct r; cbn [sreg_off];
      match goal with |- m (a + ?k) mod _ = _ => specialize (Hw (k / 8) ltac:(vm_compute; intuition congruence)) end;
      injection Hw as Hw; (etransitivity; [apply (f_equal (λ z, z mod 2 ^ 16)); symmetry; exact Hw|reflexivity]).
  - apply list_eq_same_length with 64%nat; [done|done|]. intros i x y Hi Hx Hy.
    assert (load_words m (a + 0xc0) 64 !! Z.to_nat (Z.of_nat i) = Some (m (a + 0xc0 + 8 * Z.of_nat i))) as Hl
      by (apply load_words_lookup; lia). rewrite Nat2Z.id, Hx in Hl. injection Hl as ->.
    specialize (Hw (24 + Z.of_nat i) ltac:(lia)). replace (a + 8 * (24 + Z.of_nat i)) with (a + 0xc0 + 8 * Z.of_nat i) in Hw by lia.
    replace (Z.to_nat (24 + Z.of_nat i)) with (24 + i)%nat in Hw by lia.
    enough (Some (m (a + 0xc0 + 8 * Z.of_nat i)) = Some y) by congruence. rewrite <- Hw, <- Hy.
    do 64 (destruct i as [|i]; [reflexivity|]). lia.
Qed.

(** C36: task B starts. When the main task is first switched out with the prepared context as
    the next one, the processor enters [taskB] with the two arguments, on the new stack, aligned
    as the calling convention wants it at the entry of a function, with interrupts enabled, the
    kernel's segments and page table and the default floating point control word, and every
    other register zero; the main task is saved so that a later switch resumes it. *)
Theorem task_b_starts (taskB stack_end c3 : Z) (s : cpu) :
  16 ≤ stack_end < 2 ^ 64 → cpu_ok s → switch_areas s →
  task_b_context taskB stack_end c3 = Ret (load_words (mem s) (regs s RDI) 88) →
  let s' := run switch_context s in
  ∃ sp, starts taskB sp c3 s' ∧ sp mod 16 = 8 ∧ sp < stack_end ≤ sp + 24 ∧ Z.testbit (rflags s') 9 = true ∧
    saved (mem s') (regs s RSI) s.
Proof.
  intros He Hok Har E s'. destruct (task_b_context_ok taskB stack_end c3 He) as (w & Ew & _ & Hsp & Hsv).
  rewrite Ew in E. injection E as ->. specialize (Hsv _ _ eq_refl).
  destruct (switch_context_ok s _ Hok Har Hsv) as ([R1 R2 R3 R4 R5 R6] & Hs & _). fold s' in R1, R2, R3, R4, R5, R6, Hs.
  exists (stack_end - stack_end mod 16 - 8). pose proof (Z.mod_pos_bound stack_end 16 ltac:(lia)).
  split_and!; try done; try lia.
  - split; [by rewrite R3| |by rewrite R2|by rewrite R4| |by rewrite R6].
    + intros r. rewrite R1. destruct r; try reflexivity. cbn. lia.
    + intros r. rewrite R5. by destruct r.
  - by rewrite R4.
Qed.

Definition start_demo : cpu :=
  with_mem demo_cpu (store_words (mem demo_cpu) 0x20000 (match task_b_context 0x100500 0x30007 0x5000 with Ret w => w | _ => [] end)).

Lemma task_b_starts_witness : ∃ sp, starts 0x100500 sp 0x5000 (run switch_context start_demo) ∧ sp mod 16 = 8.
Proof.
  destruct (task_b_starts 0x100500 0x30007 0x5000 start_demo) as (sp & H & Hsp & _).
  - lia.
  - by apply demo_cpu_ok.
  - split; unfold apart, CONTEXT_SIZE; vm_compute; intuition congruence.
  - vm_compute. reflexivity.
  - exists sp. split; [exact H|exact Hsp].
Defined.
