(* ===== verification/Asm.v ===== *)
(** The assembly routines of segment.rs, interrupt.rs, paging.rs, main.rs and asm/mod.rs, over
    a small model of the processor with byte-addressed memory, and what setting up the
    descriptor tables through them leaves the processor with.

    Routines are called as the Rust code calls them: arguments in [rdi] and [rsi], the return
    address on the stack. Where their instructions lie is the parameter [text]. Addresses do
    not wrap; faults, privilege checks and the hidden parts of segment registers are not
    modelled. Port input is a parameter. *)

From S2P Require Import Prelude ByteMem Bitfield Descriptors.

Inductive reg := RAX | RBX | RDX | RDI | RSI | RSP | RBP | R12 | R13 | R14 | R15.
Inductive sreg := DS | ES | FS | GS | CS | SS.

Definition reg_eqb (a b : reg) : bool :=
  match a, b with
  | RAX, RAX | RBX, RBX | RDX, RDX | RDI, RDI | RSI, RSI | RSP, RSP | RBP, RBP | R12, R12 | R13, R13 | R14, R14 | R15, R15 => true
  | _, _ => false
  end.
Definition sreg_eqb (a b : sreg) : bool :=
  match a, b with
  | DS, DS | ES, ES | FS, FS | GS, GS | CS, CS | SS, SS => true
  | _, _ => false
  end.

Record machine := {
  gpr : reg → Z;
  seg : sreg → Z;
  mem : memory;
  rip : Z;
  gdtr : Z * Z;
  idtr : Z * Z;
  cr3 : Z;
  ports : list (Z * Z);
}.

Inductive instr :=
  | Push (r : reg)
  | Pop (r : reg)
  | MovRR (d s : reg)
  | Mov16RR (d s : reg)
  | Mov32RR (d s : reg)
  | Xor32 (r : reg)
  | SubI (r : reg) (n : Z)
  | Store16 (base : reg) (off : Z) (r : reg)
  | Store64 (base : reg) (off : Z) (r : reg)
  | Lgdt (base : reg)
  | Lidt (base : reg)
  | MovSR (d : sreg) (s : reg)
  | Mov16RS (d : reg) (s : sreg)
  | LeaLabel (d : reg) (label : nat)
  | MovCr3R (s : reg)
  | MovRCr3 (d : reg)
  | Out32
  | In32
  | Retf64
  | RetI.

Inductive routine :=
  | load_gdt_ | load_idt_ | set_ds_es_fs_gs | set_cs_ss | get_cs | set_cr3 | get_cr3 | io_out_32 | io_in_32.

(** [_load_gdt] and [_load_idt] differ in one instruction. *)
Definition load_table (i : instr) : list instr :=
  [ Push RBP; MovRR RBP RSP; SubI RSP 10; Store16 RSP 0 RDI; Store64 RSP 2 RSI; i; MovRR RSP RBP; Pop RBP; RetI ].

Definition load_gdt_code : list instr := load_table (Lgdt RSP).
Definition load_idt_code : list instr := load_table (Lidt RSP).

Definition set_ds_es_fs_gs_code : list instr := [ MovSR DS RDI; MovSR ES RDI; MovSR FS RDI; MovSR GS RDI; RetI ].

(** The label [.next] is the instruction number 7. *)
Definition set_cs_ss_code : list instr :=
  [ Push RBP; MovRR RBP RSP; MovSR SS RSI; LeaLabel RAX 7; Push RDI; Push RAX; Retf64; MovRR RSP RBP; Pop RBP; RetI ].

Definition get_cs_code : list instr := [ Xor32 RAX; Mov16RS RAX CS; RetI ].
Definition set_cr3_code : list instr := [ MovCr3R RDI; RetI ].
Definition get_cr3_code : list instr := [ MovRCr3 RAX; RetI ].
Definition io_out_32_code : list instr := [ Mov16RR RDX RDI; Mov32RR RAX RSI; Out32; RetI ].
Definition io_in_32_code : list instr := [ Mov16RR RDX RDI; In32; RetI ].

Definition code (r : routine) : list instr :=
  match r with
  | load_gdt_ => load_gdt_code
  | load_idt_ => load_idt_code
  | set_ds_es_fs_gs => set_ds_es_fs_gs_code
  | set_cs_ss => set_cs_ss_code
  | get_cs => get_cs_code
  | set_cr3 => set_cr3_code
  | get_cr3 => get_cr3_code
  | io_out_32 => io_out_32_code
  | io_in_32 => io_in_32_code
  end.

Section asm.
Context (text : routine → nat → Z) (port_input : list (Z * Z) → Z → Z).

Definition set_gpr (m : machine) (r : reg) (v : Z) : machine :=
  {| gpr := λ x, if reg_eqb x r then v else gpr m x; seg := seg m; mem := mem m; rip := rip m; gdtr := gdtr m;
     idtr := idtr m; cr3 := cr3 m; ports := ports m |}.
Definition set_seg (m : machine) (r : sreg) (v : Z) : machine :=
  {| gpr := gpr m; seg := λ x, if sreg_eqb x r then v else seg m x; mem := mem m; rip := rip m; gdtr := gdtr m;
     idtr := idtr m; cr3 := cr3 m; ports := ports m |}.
Definition set_mem (m : machine) (v : memory) : machine :=
  {| gpr := gpr m; seg := seg m; mem := v; rip := rip m; gdtr := gdtr m; idtr := idtr m; cr3 := cr3 m; ports := ports m |}.
Definition set_rip (m : machine) (v : Z) : machine :=
  {| gpr := gpr m; seg := seg m; mem := mem m; rip := v; gdtr := gdtr m; idtr := idtr m; cr3 := cr3 m; ports := ports m |}.
Definition set_tables (m : machine) (g i : Z * Z) : machine :=
  {| gpr := gpr m; seg := seg m; mem := mem m; rip := rip m; gdtr := g; idtr := i; cr3 := cr3 m; ports := ports m |}.
Definition set_control (m : machine) (c : Z) (p : list (Z * Z)) : machine :=
  {| gpr := gpr m; seg := seg m; mem := mem m; rip := rip m; gdtr := gdtr m; idtr := idtr m; cr3 := c; ports := p |}.

Definition word_at (m : machine) (a n : Z) : Z := le_combine (load (mem m) a n).

Definition push (m : machine) (v : Z) : machine :=
  let sp := gpr m RSP - 8 in set_gpr (set_mem m (store (mem m) sp (le_split 8 v))) RSP sp.

Definition low16 (old v : Z) : Z := old - old mod 2 ^ 16 + v mod 2 ^ 16.

(** An instruction of routine [r]; [m] has [rip] at the next one. *)
Definition exec (r : routine) (m : machine) (i : instr) : machine :=
  match i with
  | Push s => push m (gpr m s)
  | Pop d => set_gpr (set_gpr m RSP (gpr m RSP + 8)) d (word_at m (gpr m RSP) 8)
  | MovRR d s => set_gpr m d (gpr m s)
  | Mov16RR d s => set_gpr m d (low16 (gpr m d) (gpr m s))
  | Mov32RR d s => set_gpr m d (gpr m s mod 2 ^ 32)
  | Xor32 d => set_gpr m d 0
  | SubI d n => set_gpr m d (gpr m d - n)
  | Store16 b off s => set_mem m (store (mem m) (gpr m b + off) (le_split 2 (gpr m s)))
  | Store64 b off s => set_mem m (store (mem m) (gpr m b + off) (le_split 8 (gpr m s)))
  | Lgdt b => set_tables m (word_at m (gpr m b) 2, word_at m (gpr m b + 2) 8) (idtr m)
  | Lidt b => set_tables m (gdtr m) (word_at m (gpr m b) 2, word_at m (gpr m b + 2) 8)
  | MovSR d s => set_seg m d (gpr m s mod 2 ^ 16)
  | Mov16RS d s => set_gpr m d (low16 (gpr m d) (seg m s))
  | LeaLabel d l => set_gpr m d (text r l)
  | MovCr3R s => set_control m (gpr m s) (ports m)
  | MovRCr3 d => set_gpr m d (cr3 m)
  | Out32 => set_control m (cr3 m) (ports m ++ [(gpr m RDX mod 2 ^ 16, gpr m RAX mod 2 ^ 32)])
  | In32 => set_gpr m RAX (port_input (ports m) (gpr m RDX mod 2 ^ 16) mod 2 ^ 32)
  | Retf64 =>
      let sp := gpr m RSP in
      set_rip (set_seg (set_gpr m RSP (sp + 16)) CS (word_at m (sp + 8) 8 mod 2 ^ 16)) (word_at m sp 8)
  | RetI => let sp := gpr m RSP in set_rip (set_gpr m RSP (sp + 8)) (word_at m sp 8)
  end.

(** The instruction of [r] at an address. *)
Definition index_of (r : routine) (a : Z) : option nat :=
  snd <$> list_find (λ i, text r i = a) (seq 0 (length (code r))).

(** Runs [r] until control leaves it. *)
Fixpoint run (r : routine) (fuel : nat) (m : machine) : outcome machine :=
  match index_of r (rip m) with
  | None => Ret m
  | Some i =>
      match fuel, code r !! i with
      | S fuel, Some ins => run r fuel (exec r (set_rip m (text r (S i))) ins)
      | _, _ => OutOfFuel
      end
  end.

(** A call with two arguments that returns to [ret]. *)
Definition call (r : routine) (ret a1 a2 : Z) (m : machine) : outcome machine :=
  run r (length (code r)) (set_rip (push (set_gpr (set_gpr m RDI a1) RSI a2) ret) (text r 0)).

(** ** Calls *)

(** Instructions of a routine have different addresses. *)
Definition text_ok : Prop :=
  ∀ r i j, (i < length (code r))%nat → (j < length (code r))%nat → text r i = text r j → i = j.

Definition outside (a : Z) : Prop := ∀ r i, (i < length (code r))%nat → text r i ≠ a.

Hypothesis Htext : text_ok.

Lemma index_of_text r i : (i < length (code r))%nat → index_of r (text r i) = Some i.
Proof using Htext.
  intros Hi. unfold index_of.
  rewrite (proj2 (list_find_Some _ _ i i)); [done|]. split; [by apply lookup_seq|]. split; [done|].
  intros j x [-> Hx]%lookup_seq Hj Heq. simpl in Heq. apply Htext in Heq; lia.
Qed.

Lemma run_step r n m i ins :
  rip m = text r i → code r !! i = Some ins → run r (S n) m = run r n (exec r (set_rip m (text r (S i))) ins).
Proof using Htext.
  intros Hr Hi. apply lookup_lt_Some in Hi as Hl. cbn [run]. by rewrite Hr, index_of_text, Hi.
Qed.

Lemma run_return r n m : outside (rip m) → run r n m = Ret m.
Proof.
  intros Ho. assert (index_of r (rip m) = None) as E.
  { unfold index_of. apply fmap_None, list_find_None. apply list.Forall_forall. intros i Hi%elem_of_seq. apply Ho. lia. }
  destruct n; cbn [run]; by rewrite E.
Qed.

Lemma word_same mm a b n v k : a = b → k = Z.of_nat n →
  le_combine (load (store mm a (le_split n v)) b k) = v mod 256 ^ k.
Proof.
  intros -> ->. rewrite <- (length_le_split n v) at 2. rewrite load_store. apply le_combine_split.
Qed.

Lemma word_other mm a n v b k : ranges_apart a (Z.of_nat n) b k →
  le_combine (load (store mm a (le_split n v)) b k) = le_combine (load mm b k).
Proof. intros H. rewrite load_store_apart; [done|]. by rewrite length_le_split. Qed.

(** What a routine leaves as its caller had it; it uses at most 40 bytes of stack. *)
Record returned (ret : Z) (m m' : machine) : Prop := {
  rt_rip : rip m' = ret;
  rt_rsp : gpr m' RSP = gpr m RSP;
  rt_saved : ∀ r, r ∈ [RBX; RBP; R12; R13; R14; R15] → gpr m' r = gpr m r;
  rt_mem : ∀ a, ¬ (gpr m RSP - 40 ≤ a < gpr m RSP) → mem m' a = mem m a;
}.



Lemma mod_u n v k : 256 ^ k = 2 ^ n → in_u n v → v mod 256 ^ k = v.
Proof. intros -> H. by apply Z.mod_small. Qed.

Ltac machine_cbv :=
  cbv beta iota zeta delta [exec set_rip set_gpr set_seg set_mem set_tables set_control push word_at gpr seg mem rip gdtr
       idtr cr3 ports reg_eqb sreg_eqb].

Ltac read_words :=
  repeat first [rewrite word_same by lia; first [rewrite (mod_u 64) by done | rewrite (mod_u 16) by done]
               |rewrite word_other by (unfold ranges_apart; lia)].

Ltac asm_step := erewrite run_step by reflexivity; machine_cbv; read_words.

Ltac asm_returns :=
  rewrite run_return by done; eexists; split; [reflexivity|];
  split; [split; cbn [gpr seg mem rip gdtr idtr cr3 ports]; [done|lia| |]|cbn [gpr seg mem rip gdtr idtr cr3 ports]];
  [intros r Hin; repeat (apply elem_of_cons in Hin as [->|Hin]; [done|]); by apply elem_of_nil in Hin
  |intros a Ha; by rewrite !store_out by (rewrite length_le_split; lia)
  |].

Ltac asm_run :=
  match goal with m : machine |- _ => destruct m as [g sg mm ip gd id c3 po]; cbn [gpr seg] in * end;
  unfold call; cbn [length code load_table load_gdt_code load_idt_code set_ds_es_fs_gs_code set_cs_ss_code get_cs_code
    set_cr3_code get_cr3_code io_out_32_code io_in_32_code]; machine_cbv; repeat asm_step; asm_returns.

Lemma load_gdt_ok ret limit base m :
  outside ret → in_u 64 ret → in_u 16 limit → in_u 64 base → in_u 64 (gpr m RBP) →
  ∃ m', call load_gdt_ ret limit base m = Ret m' ∧ returned ret m m' ∧ seg m' = seg m ∧
    cr3 m' = cr3 m ∧ gdtr m' = (limit, base) ∧ idtr m' = idtr m.
Proof using Htext. intros Ho Hr H1 H2 Hb. asm_run. done. Qed.

Lemma load_idt_ok ret limit base m :
  outside ret → in_u 64 ret → in_u 16 limit → in_u 64 base → in_u 64 (gpr m RBP) →
  ∃ m', call load_idt_ ret limit base m = Ret m' ∧ returned ret m m' ∧ seg m' = seg m ∧
    cr3 m' = cr3 m ∧ gdtr m' = gdtr m ∧ idtr m' = (limit, base).
Proof using Htext. intros Ho Hr H1 H2 Hb. asm_run. done. Qed.

Lemma set_ds_es_fs_gs_ok ret v a2 m :
  outside ret → in_u 64 ret → in_u 16 v →
  ∃ m', call set_ds_es_fs_gs ret v a2 m = Ret m' ∧ returned ret m m' ∧
    (∀ r, seg m' r = match r with CS | SS => seg m r | _ => v end) ∧ cr3 m' = cr3 m ∧ gdtr m' = gdtr m ∧ idtr m' = idtr m.
Proof using Htext.
  intros Ho Hr H1. asm_run. split; [|done]. intros []; try done; by apply Z.mod_small.
Qed.

Lemma set_cs_ss_ok ret cs ss m :
  outside ret → in_u 64 ret → in_u 16 cs → in_u 16 ss → in_u 64 (gpr m RBP) → in_u 64 (text set_cs_ss 7) →
  ∃ m', call set_cs_ss ret cs ss m = Ret m' ∧ returned ret m m' ∧
    (∀ r, seg m' r = match r with CS => cs | SS => ss | _ => seg m r end) ∧ cr3 m' = cr3 m ∧ gdtr m' = gdtr m ∧ idtr m' = idtr m.
Proof using Htext.
  intros Ho Hr H1 H2 Hb Hn. assert (in_u 64 cs) as H1' by (unfold in_u in *; lia).
  asm_run. split; [|done]. intros []; try done; by apply Z.mod_small.
Qed.

Lemma get_cs_ok ret a1 a2 m :
  outside ret → in_u 64 ret → in_u 16 (seg m CS) →
  ∃ m', call get_cs ret a1 a2 m = Ret m' ∧ returned ret m m' ∧ gpr m' RAX = seg m CS ∧
    seg m' = seg m ∧ cr3 m' = cr3 m ∧ gdtr m' = gdtr m ∧ idtr m' = idtr m.
Proof using Htext.
  intros Ho Hr H1. asm_run. split; [|done]. unfold low16. rewrite Z.mod_0_l by lia. apply Z.mod_small. exact H1.
Qed.

Lemma set_cr3_ok ret v a2 m :
  outside ret → in_u 64 ret →
  ∃ m', call set_cr3 ret v a2 m = Ret m' ∧ returned ret m m' ∧ cr3 m' = v ∧ seg m' = seg m ∧ gdtr m' = gdtr m ∧ idtr m' = idtr m.
Proof using Htext. intros Ho Hr. asm_run. done. Qed.

Lemma get_cr3_ok ret a1 a2 m :
  outside ret → in_u 64 ret →
  ∃ m', call get_cr3 ret a1 a2 m = Ret m' ∧ returned ret m m' ∧ gpr m' RAX = cr3 m ∧ cr3 m' = cr3 m ∧ seg m' = seg m.
Proof using Htext. intros Ho Hr. asm_run. done. Qed.

Lemma low16_mod a b : in_u 16 b → low16 a b mod 2 ^ 16 = b.
Proof.
  unfold in_u, low16. intros Hb. rewrite (Z.mod_small b) by done.
  pose proof (Z.div_mod a (2 ^ 16) ltac:(lia)). replace (a - a mod 2 ^ 16 + b) with (b + a / 2 ^ 16 * 2 ^ 16) by lia.
  rewrite Z.mod_add by lia. by apply Z.mod_small.
Qed.

(** The port functions [Pci] is built on. *)
Lemma io_out_32_ok ret addr data m :
  outside ret → in_u 64 ret → in_u 16 addr → in_u 32 data →
  ∃ m', call io_out_32 ret addr data m = Ret m' ∧ returned ret m m' ∧ ports m' = ports m ++ [(addr, data)].
Proof using Htext.
  intros Ho Hr H1 H2. asm_run. do 2 f_equal. rewrite low16_mod by done. f_equal.
  rewrite (Z.mod_small data) by done. by apply Z.mod_small.
Qed.

Lemma io_in_32_ok ret addr a2 m :
  outside ret → in_u 64 ret → in_u 16 addr →
  ∃ m', call io_in_32 ret addr a2 m = Ret m' ∧ returned ret m m' ∧ ports m' = ports m ∧
    gpr m' RAX = port_input (ports m) addr mod 2 ^ 32.
Proof using Htext. intros Ho Hr H1. asm_run. split; [done|]. by rewrite low16_mod. Qed.

(** ** The descriptor tables *)

Context {BF : Bitfield}.
(** The addresses of the tables and of the call sites. *)
Context (gdt_at idt_at : Z) (site : nat → Z).

Definition gdt_bytes (gdt : list Z) : list Z := concat (le_split 8 <$> gdt).

(** [setup_segments] with its assembly. *)
Definition setup_segments_asm (m : machine) : outcome machine :=
  s ← setup_segments;
  let m := set_mem m (store (mem m) gdt_at (gdt_bytes (gdt s))) in
  m ← call load_gdt_ (site 0) (gdt_limit s) gdt_at m;
  m ← call set_ds_es_fs_gs (site 1) 0 (gpr m RSI) m;
  call set_cs_ss (site 2) KERNEL_CS KERNEL_SS m.

(** The part of [KernelMain2] that sets up interrupts, with [load_idt]; [set_idt_entry]
    writes to the table in memory. *)
Definition setup_interrupts_asm (xhci lapic : Z) (m : machine) : outcome machine :=
  m ← call get_cs (site 3) (gpr m RDI) (gpr m RSI) m;
  idt ← set_idt_entry IDT_init XHCI
    (InterruptDescriptor_new (gpr m RAX) (InterruptDescriptorAttribute_new 0 InterruptGate) xhci);
  m ← call get_cs (site 4) (gpr m RDI) (gpr m RSI) m;
  idt ← set_idt_entry idt LapicTimer
    (InterruptDescriptor_new (gpr m RAX) (InterruptDescriptorAttribute_new 0 InterruptGate) lapic);
  let m := set_mem m (store (mem m) idt_at (idt_bytes idt)) in
  call load_idt_ (site 5) idt_limit idt_at m.

(** What the processor finds for a selector and for an interrupt vector. *)
Definition segment_of (m : machine) (sel : Z) : option seg_view :=
  if 8 * (sel / 8) + 7 <=? (gdtr m).1 then Some (view_segment (word_at m ((gdtr m).2 + 8 * (sel / 8)) 8)) else None.
Definition gate_of (m : machine) (n : Z) : option gate_view :=
  dispatch (idtr m).1 (load (mem m) (idtr m).2 ((idtr m).1 + 1)) n.

Record tables_ok (m : machine) : Prop := {
  tk_site : ∀ i, outside (site i) ∧ in_u 64 (site i);
  tk_label : in_u 64 (text set_cs_ss 7);
  tk_rbp : in_u 64 (gpr m RBP);
  tk_gdt : in_u 64 gdt_at;
  tk_idt : in_u 64 idt_at;
  tk_apart : ranges_apart gdt_at 24 idt_at 4096;
  tk_stack_gdt : ranges_apart (gpr m RSP - 40) 40 gdt_at 24;
  tk_stack_idt : ranges_apart (gpr m RSP - 40) 40 idt_at 4096;
}.

Lemma returned_load ret m m' a n :
  returned ret m m' → ranges_apart (gpr m RSP - 40) 40 a n → load (mem m') a n = load (mem m) a n.
Proof.
  intros Hr Ha. unfold load. apply list_fmap_ext. intros i x Hx%lookup_seqZ. apply (rt_mem _ _ _ Hr).
  unfold ranges_apart in Ha. lia.
Qed.

Lemma length_idt_bytes idt : length (idt_bytes idt) = (16 * length idt)%nat.
Proof. unfold idt_bytes. induction idt as [|d idt IH]; [done|]. rewrite fmap_cons, concat_cons, length_app, IH. cbn. lia. Qed.

Lemma segment_bound (data : bool) t : in_u 64 (if data then set_data_segment t 0 0 0xfffff else set_code_segment t 0 0 0xfffff).
Proof.
  pose proof (type_code_range t). unfold in_u.
  destruct data; unfold set_data_segment, set_code_segment, set_base, set_limit; cbv zeta;
    repeat first [apply bf_set_bit_bound; [lia|]
                 |apply set_bit_range_bound; [lia|lia|first [lia|vm_compute; split; congruence]|]]; lia.
Qed.

(** What the two parts of the set-up leave alone. *)
Record kept (m m' : machine) : Prop := {
  kp_rsp : gpr m' RSP = gpr m RSP;
  kp_saved : ∀ r, r ∈ [RBX; RBP; R12; R13; R14; R15] → gpr m' r = gpr m r;
}.

Lemma returned_kept ret m m1 m' : kept m m1 → returned ret m1 m' → kept m m'.
Proof.
  intros [H1 H2] [_ R1 R2 _]. split; [congruence|]. intros r Hr. rewrite R2, H2 by done. done.
Qed.

Lemma kept_rbp m m' : kept m m' → gpr m' RBP = gpr m RBP.
Proof. intros [_ H]. apply H. right. by left. Qed.

Lemma setup_segments_asm_ok m :
  tables_ok m →
  ∃ s m', setup_segments = Ret s ∧ setup_segments_asm m = Ret m' ∧ kept m m' ∧
    (∀ r, seg m' r = match r with CS => KERNEL_CS | SS => KERNEL_SS | _ => 0 end) ∧
    gdtr m' = (23, gdt_at) ∧ load (mem m') gdt_at 24 = gdt_bytes (gdt s).
Proof using Htext.
  intros [Hs Hl Hb Hg Hi _ Hsg _]. unfold setup_segments_asm.
  destruct setup_segments as [s| |] eqn:Es; [|discriminate Es..]. exists s. rewrite bind_Ret.
  assert (gdt_limit s = 23 ∧ zlen (gdt_bytes (gdt s)) = 24) as [El Eb].
  { unfold setup_segments in Es. inv_outcome. subst. cbn in Hs0. injection Hs0 as <-.
    split; reflexivity. }
  rewrite El. set (m0 := set_mem _ _).
  destruct (load_gdt_ok (site 0) 23 gdt_at m0) as (m1 & -> & R1 & S1 & _ & G1 & _); [apply Hs|apply Hs|by split|done|done|].
  rewrite bind_Ret.
  destruct (set_ds_es_fs_gs_ok (site 1) 0 (gpr m1 RSI) m1) as (m2 & -> & R2 & S2 & _ & G2 & _); [apply Hs|apply Hs|by split|].
  rewrite bind_Ret.
  assert (kept m m0) as K0 by done. assert (kept m m1) as K1 by (by eapply returned_kept).
  assert (kept m m2) as K2 by (by eapply returned_kept).
  destruct (set_cs_ss_ok (site 2) KERNEL_CS KERNEL_SS m2) as (m3 & -> & R3 & S3 & _ & G3 & _);
    [apply Hs|apply Hs|by split|by split|by rewrite (kept_rbp _ _ K2)|done|].
  exists m3. split; [done|]. split; [done|]. split; [by eapply returned_kept|]. split.
  { intros r. rewrite S3. destruct r; rewrite ?S2; done. }
  split; [congruence|].
  rewrite (returned_load _ _ _ _ _ R3) by (by rewrite (kp_rsp _ _ K2)).
  rewrite (returned_load _ _ _ _ _ R2) by (by rewrite (kp_rsp _ _ K1)).
  rewrite (returned_load _ _ _ _ _ R1) by done. unfold m0. cbn [mem set_mem]. rewrite <- Eb. apply load_store.
Qed.

Lemma setup_interrupts_asm_ok xhci lapic m :
  tables_ok m → in_u 16 (seg m CS) → in_u 64 xhci → in_u 64 lapic →
  ∃ idt m', install_handlers (seg m CS) xhci lapic = Ret idt ∧ setup_interrupts_asm xhci lapic m = Ret m' ∧ kept m m' ∧
    seg m' = seg m ∧ gdtr m' = gdtr m ∧ idtr m' = (idt_limit, idt_at) ∧
    load (mem m') idt_at 4096 = idt_bytes idt ∧ load (mem m') gdt_at 24 = load (mem m) gdt_at 24.
Proof using Htext.
  intros [Hs Hl Hb Hg Hi Hap Hsg Hsi] Hcs Hx Hla. destruct (handlers_installed (seg m CS) xhci lapic) as (idt & Ei & _); [done..|].
  exists idt. unfold setup_interrupts_asm.
  destruct (get_cs_ok (site 3) (gpr m RDI) (gpr m RSI) m) as (m1 & -> & R1 & A1 & S1 & _ & G1 & _); [apply Hs|apply Hs|done|].
  rewrite bind_Ret, A1. assert (kept m m1) as K1 by (by eapply (returned_kept _ m m m1)).
  pose proof Ei as Ei'. unfold install_handlers in Ei'. apply bind_Ret_inv in Ei' as (idt1 & Ei1 & Ei2).
  rewrite Ei1, bind_Ret.
  destruct (get_cs_ok (site 4) (gpr m1 RDI) (gpr m1 RSI) m1) as (m2 & -> & R2 & A2 & S2 & _ & G2 & _); [apply Hs|apply Hs|by rewrite S1|].
  rewrite bind_Ret, A2, S1, Ei2, bind_Ret. assert (kept m m2) as K2 by (by eapply returned_kept).
  set (m3 := set_mem _ _). assert (kept m m3) as K3 by (by split; [apply (kp_rsp _ _ K2)|apply (kp_saved _ _ K2)]).
  destruct (load_idt_ok (site 5) idt_limit idt_at m3) as (m4 & -> & R4 & S4 & _ & G4 & I4);
    [apply Hs|apply Hs|by split|done|by rewrite (kept_rbp _ _ K3)|].
  assert (zlen (idt_bytes idt) = 4096) as Hlen.
  { rewrite length_idt_bytes. unfold set_idt_entry in Ei1, Ei2. apply vset_inv in Ei1 as [_ ->], Ei2 as [_ ->].
    by rewrite !length_insert. }
  exists m4. split; [done|]. split; [done|]. split; [by eapply returned_kept|].
  split; [by rewrite S4; cbn [m3 set_mem seg]; rewrite S2, S1|].
  split; [by rewrite G4; cbn [m3 set_mem gdtr]; rewrite G2, G1|]. split; [done|].
  rewrite !(returned_load _ _ _ _ _ R4) by (by rewrite (kp_rsp _ _ K3)). unfold m3. cbn [mem set_mem]. split.
  - rewrite <- Hlen. apply load_store.
  - rewrite load_store_apart by (rewrite Hlen; unfold ranges_apart in *; lia).
    rewrite (returned_load _ _ _ _ _ R2) by (by rewrite (kp_rsp _ _ K1)). by rewrite (returned_load _ _ _ _ _ R1).
Qed.

Lemma tables_ok_kept m m' : kept m m' → tables_ok m → tables_ok m'.
Proof.
  intros K [H1 H2 H3 H4 H5 H6 H7 H8]. pose proof (kp_rsp _ _ K) as Hsp.
  split; rewrite ?Hsp, ?(kept_rbp _ _ K); done.
Qed.

(** An entry of the table of three descriptors, in memory. *)
Lemma gdt_word m k d0 d1 d2 d :
  load (mem m) gdt_at 24 = gdt_bytes [d0; d1; d2] → (k < 3)%nat → [d0; d1; d2] !! k = Some d → in_u 64 d →
  word_at m (gdt_at + 8 * Z.of_nat k) 8 = d.
Proof.
  intros E Hk Hd Hu. unfold word_at. rewrite (load_slice _ gdt_at (8 * Z.of_nat k) 8 24), E by lia.
  transitivity (le_combine (le_split 8 d)).
  - destruct k as [|[|[|]]]; [..|lia]; injection Hd as <-; reflexivity.
  - rewrite le_combine_split. apply Z.mod_small. exact Hu.
Qed.

(** C35: the processor's tables. After [setup_segments] and the installation of the interrupt
    handlers, run as the machine code they are, the segment registers hold the kernel's
    selectors, and through the tables in memory the processor finds for them the 64-bit code
    segment and the data segment of ring 0, and for the vectors 0x40 and 0x41 exactly the two
    handlers, with that code segment, and no other; the routines return to their callers with
    the stack pointer and the callee-saved registers as they were. *)
Theorem tables_installed (xhci lapic : Z) (m : machine) :
  tables_ok m → in_u 64 xhci → in_u 64 lapic →
  ∃ m1 m2, setup_segments_asm m = Ret m1 ∧ setup_interrupts_asm xhci lapic m1 = Ret m2 ∧ kept m m2 ∧
    (∀ r, seg m2 r = match r with CS => KERNEL_CS | SS => KERNEL_SS | _ => 0 end) ∧
    segment_of m2 (seg m2 CS) = Some {| v_base := 0; v_limit := 0xf0fff; v_type := 10; v_code_or_data := true;
      v_dpl := 0; v_present := true; v_long := true; v_default_32 := false; v_granular := true |} ∧
    segment_of m2 (seg m2 SS) = Some {| v_base := 0; v_limit := 0xf0fff; v_type := 2; v_code_or_data := true;
      v_dpl := 0; v_present := true; v_long := false; v_default_32 := true; v_granular := true |} ∧
    ∀ n, 0 ≤ n < 256 → gate_of m2 n =
      if n =? 0x40 then Some {| g_handler := xhci; g_selector := KERNEL_CS; g_type := 14; g_dpl := 0; g_ist := 0 |}
      else if n =? 0x41 then Some {| g_handler := lapic; g_selector := KERNEL_CS; g_type := 14; g_dpl := 0; g_ist := 0 |}
      else None.
Proof using Htext.
  intros Ht Hx Hl. destruct (setup_segments_asm_ok m Ht) as (s & m1 & Es & E1 & K1 & S1 & G1 & D1).
  destruct (setup_interrupts_asm_ok xhci lapic m1) as (idt & m2 & Ei & E2 & K2 & S2 & G2 & I2 & T2 & D2);
    [by eapply tables_ok_kept|rewrite S1; by split|done..|].
  destruct (handlers_installed (seg m1 CS) xhci lapic) as (idt' & Ei' & Hd); [rewrite S1; by split|done..|].
  rewrite Ei in Ei'. injection Ei' as <-. rewrite S1 in Hd.
  rewrite D1 in D2. unfold setup_segments in Es. cbn in Es. injection Es as <-. cbn [gdt] in D2.
  exists m1, m2. split; [done|]. split; [done|]. split; [|split; [|split; [|split]]].
  - split; [rewrite (kp_rsp _ _ K2); apply (kp_rsp _ _ K1)|].
    intros r Hr. rewrite (kp_saved _ _ K2), (kp_saved _ _ K1) by done. done.
  - by rewrite S2.
  - unfold segment_of. rewrite S2, S1, G2, G1. change (KERNEL_CS / 8) with (Z.of_nat 1). cbn [fst snd]. simpl (_ <=? _).
    rewrite (gdt_word m2 1 _ _ _ _ D2) by (done || apply (segment_bound false) || lia). f_equal.
    rewrite (segment_view ExecuteRead 0 0 0xfffff true); [done|split; done..].
  - unfold segment_of. rewrite S2, S1, G2, G1. change (KERNEL_SS / 8) with (Z.of_nat 2). cbn [fst snd]. simpl (_ <=? _).
    rewrite (gdt_word m2 2 _ _ _ _ D2) by (done || apply (segment_bound true) || lia). f_equal.
    rewrite (segment_view LDTOrReadWrite 0 0 0xfffff false); [done|split; done..].
  - intros n Hn. unfold gate_of. rewrite I2. cbn [fst snd]. change (idt_limit + 1) with 4096. rewrite T2. by apply Hd.
Qed.

End asm.

(** ** A concrete machine *)

Definition asm_routine_no (r : routine) : Z :=
  match r with
  | load_gdt_ => 0 | load_idt_ => 1 | set_ds_es_fs_gs => 2 | set_cs_ss => 3 | get_cs => 4 | set_cr3 => 5 | get_cr3 => 6
  | io_out_32 => 7 | io_in_32 => 8
  end.

(** Routines at multiples of 64 from 0x100000, instructions of four bytes. *)
Definition asm_text (r : routine) (i : nat) : Z := 0x100000 + 64 * asm_routine_no r + 4 * Z.of_nat i.
Definition asm_site (i : nat) : Z := 0x102000 + Z.of_nat (i mod 8).

Definition asm_machine : machine :=
  {| gpr := λ r, match r with RSP => 0x180000 | _ => 7 end; seg := λ _, 0x38; mem := λ _, 0; rip := 0x102000;
     gdtr := (0, 0); idtr := (0, 0); cr3 := 0; ports := [] |}.

Lemma asm_text_ok : text_ok asm_text.
Proof. intros r i j _ _. unfold asm_text. lia. Qed.

Lemma asm_tables_ok : tables_ok asm_text 0x120000 0x121000 asm_site asm_machine.
Proof.
  split; try (split; done); try (by left); try (by right).
  intros i. pose proof (Nat.mod_upper_bound i 8 ltac:(lia)). unfold asm_site, outside, in_u, asm_text. split; [|lia].
  intros r k Hk. assert (k < 16)%nat by (destruct r; cbn in Hk; lia). assert (asm_routine_no r < 9) by (by destruct r). lia.
Qed.

Lemma tables_installed_witness :
  ∃ m1 m2, setup_segments_asm asm_text (λ _ _, 0) 0x120000 asm_site asm_machine = Ret m1 ∧
    setup_interrupts_asm asm_text (λ _ _, 0) 0x121000 asm_site 0x100800 0x100900 m1 = Ret m2 ∧
    gate_of m2 0x41 = Some {| g_handler := 0x100900; g_selector := 8; g_type := 14; g_dpl := 0; g_ist := 0 |}.
Proof.
  destruct (tables_installed asm_text (λ _ _, 0) asm_text_ok 0x120000 0x121000 asm_site 0x100800 0x100900 asm_machine
    asm_tables_ok) as (m1 & m2 & E1 & E2 & _ & _ & _ & _ & Hg); [split; lia|split; lia|].
  exists m1, m2. split; [exact E1|]. split; [exact E2|]. rewrite Hg; [reflexivity|lia].
Defined.
