(* ===== verification/Acpi.v ===== *)
(** acpi.rs: the ACPI tables, from the root pointer to the FADT, and busy waiting on the
    power management timer; the calibration of the local APIC timer in timer.rs that uses
    it.

    Physical memory is a function from addresses to bytes, a table its address. The
    counters of the hardware are the sequence of values successive reads return. *)

From S2P Require Import Prelude Events Timer.

Section memory.
Context (mem : Z → Z).

Definition bytes_at (addr n : Z) : list Z := (λ i, mem (addr + i)) <$> range 0 n.
Definition u32_at (addr : Z) : Z := le_combine (bytes_at addr 4).
Definition u64_at (addr : Z) : Z := le_combine (bytes_at addr 8).

(** ** Tables *)

(** [sum_bytes_unchecked], the object by its address. *)
Definition sum_bytes_unchecked (obj until : Z) : Z :=
  fold_left (λ a b, as_u 8 (Z.land (a + b) 0xff)) (bytes_at obj until) 0.

Definition sum_bytes (size obj until : Z) : outcome Z :=
  _ ← assert_ (until <=? size);
  Ret (sum_bytes_unchecked obj until).

(** The bytes [String::from_utf8] accepts. *)
Definition continuation (b : Z) : bool := (0x80 <=? b) && (b <=? 0xbf).
Fixpoint utf8 (l : list Z) : bool :=
  match l with
  | [] => true
  | a :: l1 =>
      if a <=? 0x7f then utf8 l1
      else match l1 with
      | [] => false
      | b :: l2 =>
          if (0xc2 <=? a) && (a <=? 0xdf) then continuation b && utf8 l2
          else match l2 with
          | [] => false
          | c :: l3 =>
              if (0xe0 <=? a) && (a <=? 0xef) then
                continuation b && (negb (a =? 0xe0) || (0xa0 <=? b)) && (negb (a =? 0xed) || (b <=? 0x9f)) &&
                continuation c && utf8 l3
              else match l3 with
              | [] => false
              | d :: l4 =>
                  (0xf0 <=? a) && (a <=? 0xf4) && continuation b && (negb (a =? 0xf0) || (0x90 <=? b)) &&
                  (negb (a =? 0xf4) || (b <=? 0x8f)) && continuation c && continuation d && utf8 l4
              end
          end
      end
  end.

(** "RSD PTR ", "XSDT" and "FACP" *)
Definition RSD_PTR : list Z := [82; 83; 68; 32; 80; 84; 82; 32].
Definition XSDT_SIG : list Z := [88; 83; 68; 84].
Definition FACP_SIG : list Z := [70; 65; 67; 80].

(** The fields of [RSDP] (36 bytes) and [DescriptionHeader] (36 bytes) in memory. *)
Definition rsdp_signature (p : Z) : list Z := bytes_at p 8.
Definition rsdp_revision (p : Z) : Z := mem (p + 15).
Definition xsdt_address (p : Z) : Z := u64_at (p + 24).
Definition header_signature (p : Z) : list Z := bytes_at p 4.
Definition header_length (p : Z) : Z := u32_at (p + 4).

Definition RSDP_is_valid (self : Z) : outcome bool :=
  if negb (utf8 (rsdp_signature self)) then Panic UnwrapNone
  else if negb (bool_decide (rsdp_signature self = RSD_PTR)) then Ret false
  else if negb (rsdp_revision self =? 2) then Ret false
  else
    s ← sum_bytes 36 self 20;
    if negb (s =? 0) then Ret false
    else
      s ← sum_bytes 36 self 36;
      if negb (s =? 0) then Ret false else Ret true.

Definition header_is_valid (self : Z) (expected_signature : list Z) : bool :=
  bool_decide (header_signature self = expected_signature) &&
  (sum_bytes_unchecked self (header_length self) =? 0).

Definition count (xsdt : Z) : outcome Z :=
  n ← usize_sub (header_length xsdt) 36;
  Ret (n / 8).

Definition entry (xsdt index : Z) : outcome Z :=
  c ← count xsdt;
  _ ← assert_ (index <? c);
  table_begin ← usize_add xsdt 36;
  off ← usize_mul index 8;
  p ← usize_add table_begin off;
  Ret (u64_at p).

(** [find_map] over the entries. *)
Fixpoint find_fadt (xsdt : Z) (idxs : list Z) : outcome (option Z) :=
  match idxs with
  | [] => Ret None
  | i :: idxs =>
      e ← entry xsdt i;
      if header_is_valid e FACP_SIG then Ret (Some e) else find_fadt xsdt idxs
  end.

(** [initialize]: the address of the FADT. *)
Definition acpi_initialize (rsdp : Z) : outcome Z :=
  ok ← RSDP_is_valid rsdp;
  if negb ok then Panic ExplicitPanic
  else
    let xsdt_header := xsdt_address rsdp in
    if negb (header_is_valid xsdt_header XSDT_SIG) then Panic ExplicitPanic
    else
      c ← count xsdt_header;
      o ← find_fadt xsdt_header (range 0 c);
      unwrap o.

Definition pm_tmr_blk (fadt : Z) : Z := u32_at (fadt + 76).
Definition fadt_flags (fadt : Z) : Z := u32_at (fadt + 112).

(** *** What a well-formed table is *)

Definition checksum_ok (addr n : Z) : Prop := foldr Z.add 0 (bytes_at addr n) mod 256 = 0.
Definition rsdp_ok (p : Z) : Prop :=
  rsdp_signature p = RSD_PTR ∧ rsdp_revision p = 2 ∧ checksum_ok p 20 ∧ checksum_ok p 36.
Definition table_ok (p : Z) (sig : list Z) : Prop :=
  header_signature p = sig ∧ checksum_ok p (header_length p).
Definition entries (xsdt : Z) : list Z :=
  (λ i, u64_at (xsdt + 36 + i * 8)) <$> range 0 ((header_length xsdt - 36) / 8).

#[local] Instance checksum_ok_dec a n : Decision (checksum_ok a n).
Proof. unfold checksum_ok. apply _. Defined.
#[local] Instance rsdp_ok_dec p : Decision (rsdp_ok p).
Proof. unfold rsdp_ok. apply _. Defined.
#[local] Instance table_ok_dec p sig : Decision (table_ok p sig).
Proof. unfold table_ok. apply _. Defined.

(** The byte-wise sum that stays within a byte is the sum modulo 256. *)
Lemma sum_bytes_unchecked_eq obj n :
  sum_bytes_unchecked obj n = foldr Z.add 0 (bytes_at obj n) mod 256.
Proof.
  assert (∀ l a, fold_left (λ a b, as_u 8 (Z.land (a + b) 0xff)) l (a mod 256) = (a + foldr Z.add 0 l) mod 256) as H.
  { induction l as [|b l IH]; intros a; cbn [fold_left foldr]; [by rewrite Z.add_0_r|].
    change 0xff with (Z.ones 8) in *. rewrite Z.land_ones by lia. unfold as_u in *. change (2 ^ 8) with 256 in *.
    rewrite Zmod_mod, Zplus_mod_idemp_l, IH. f_equal. lia. }
  apply (H _ 0).
Qed.

Lemma sum_bytes_ok size obj n :
  n ≤ size → sum_bytes size obj n = Ret (foldr Z.add 0 (bytes_at obj n) mod 256).
Proof.
  intros Hn. unfold sum_bytes. rewrite (proj2 (Z.leb_le _ _) Hn). cbn [assert_].
  by rewrite bind_Ret, sum_bytes_unchecked_eq.
Qed.

Lemma header_is_valid_eq p sig : header_is_valid p sig = bool_decide (table_ok p sig).
Proof.
  apply Bool.eq_iff_eq_true. unfold header_is_valid.
  by rewrite andb_true_iff, !bool_decide_eq_true, Z.eqb_eq, sum_bytes_unchecked_eq.
Qed.

Lemma RSDP_is_valid_eq p :
  utf8 (rsdp_signature p) = true → RSDP_is_valid p = Ret (bool_decide (rsdp_ok p)).
Proof.
  intros Hu. unfold RSDP_is_valid. rewrite Hu, !sum_bytes_ok by lia. rewrite !bind_Ret. cbn [negb].
  assert (bool_decide (rsdp_ok p) = bool_decide (rsdp_signature p = RSD_PTR) && (rsdp_revision p =? 2) &&
    (foldr Z.add 0 (bytes_at p 20) mod 256 =? 0) && (foldr Z.add 0 (bytes_at p 36) mod 256 =? 0)) as ->.
  { apply Bool.eq_iff_eq_true. rewrite !andb_true_iff, !bool_decide_eq_true, !Z.eqb_eq. unfold rsdp_ok. tauto. }
  by destruct (bool_decide _), (_ =? 2), (foldr Z.add 0 (bytes_at p 20) mod 256 =? 0),
    (foldr Z.add 0 (bytes_at p 36) mod 256 =? 0).
Qed.

Lemma entry_ok xsdt i :
  0 ≤ xsdt → 36 ≤ header_length xsdt < 2 ^ 32 → xsdt + header_length xsdt ≤ 2 ^ 64 →
  0 ≤ i < (header_length xsdt - 36) / 8 → entry xsdt i = Ret (u64_at (xsdt + 36 + i * 8)).
Proof.
  intros Hx Hl Hb Hi. unfold entry, count. rewrite (usize_sub_ok (header_length xsdt)), !bind_Ret by lia.
  rewrite (proj2 (Z.ltb_lt _ _)) by lia. cbn [assert_]. rewrite bind_Ret.
  assert (i * 8 + 8 ≤ header_length xsdt - 36) by (Z.div_mod_to_equations; lia).
  rewrite (usize_add_ok xsdt), bind_Ret by lia. rewrite usize_mul_ok, bind_Ret by lia.
  by rewrite usize_add_ok, bind_Ret by lia.
Qed.

Lemma find_fadt_eq xsdt idxs :
  0 ≤ xsdt → 36 ≤ header_length xsdt < 2 ^ 32 → xsdt + header_length xsdt ≤ 2 ^ 64 →
  Forall (λ i, 0 ≤ i < (header_length xsdt - 36) / 8) idxs →
  find_fadt xsdt idxs =
    Ret (snd <$> list_find (λ e, table_ok e FACP_SIG) ((λ i, u64_at (xsdt + 36 + i * 8)) <$> idxs)).
Proof.
  intros Hx Hl Hb. induction 1 as [|i idxs Hi _ IH]; [done|]. cbn [find_fadt fmap list_fmap list_find].
  rewrite entry_ok, bind_Ret by done. rewrite header_is_valid_eq.
  destruct (decide (table_ok _ _)) as [E|E]; [by rewrite bool_decide_true|]. rewrite bool_decide_false by done.
  rewrite IH. by destruct (list_find _ _) as [[]|].
Qed.

(** C21: from the root pointer the kernel takes the first entry of the XSDT that is a FADT
    with a correct checksum. It stops with a panic exactly if the root pointer or the XSDT
    has a wrong signature, revision or checksum, or no entry is such a table. *)
Theorem acpi_finds_fadt (rsdp : Z) :
  utf8 (rsdp_signature rsdp) = true → 0 ≤ xsdt_address rsdp →
  36 ≤ header_length (xsdt_address rsdp) < 2 ^ 32 →
  xsdt_address rsdp + header_length (xsdt_address rsdp) ≤ 2 ^ 64 →
  acpi_initialize rsdp =
    if bool_decide (rsdp_ok rsdp ∧ table_ok (xsdt_address rsdp) XSDT_SIG) then
      match list_find (λ e, table_ok e FACP_SIG) (entries (xsdt_address rsdp)) with
      | Some (_, e) => Ret e
      | None => Panic UnwrapNone
      end
    else Panic ExplicitPanic.
Proof.
  intros Hu Hx Hl Hb. unfold acpi_initialize. rewrite RSDP_is_valid_eq, bind_Ret by done.
  rewrite bool_decide_and, header_is_valid_eq. destruct (bool_decide (rsdp_ok rsdp)); [|done].
  cbn [negb andb]. destruct (bool_decide (table_ok _ _)); [|done]. cbn [negb].
  unfold count. rewrite usize_sub_ok, !bind_Ret by lia. rewrite find_fadt_eq, bind_Ret; [|done..|].
  - unfold entries. by destruct (list_find _ _) as [[]|].
  - apply list.Forall_forall. intros i Hi. apply elem_of_seqZ in Hi. lia.
Qed.

End memory.

(** ** Waiting *)

Definition PM_TIMER_FREQ : Z := 3579545.

(** [rd k] is what the [k]-th read of the timer port returns. *)
Section wait.
Context (rd : nat → Z).

(** [while p(read) {}], from read number [k]; the number of the next read. *)
Definition poll_while (fuel : nat) (p : Z → bool) (k : nat) : outcome nat :=
  loop fuel (λ k, if p (rd k) then Ret (inl (S k)) else Ret (inr (S k))) k.

(** Returns how many reads were made. *)
Definition wait_millis (fuel : nat) (flags msec : Z) : outcome nat :=
  let pm_timer_is_32 := negb (Z.land (Z.shiftr flags 8) 1 =? 0) in
  let start := rd 0%nat in
  f ← u32_mul PM_TIMER_FREQ msec;
  let end_ := as_u 32 (start + f / 1000) in
  let end_ := if pm_timer_is_32 then end_ else Z.land end_ 0x00ffffff in
  k ← (if end_ <? start then poll_while fuel (λ v, start <=? v) 1 else Ret 1%nat);
  poll_while fuel (λ v, v <? end_) k.

End wait.

Section waiting.
(** [t k] is how far the timer has counted, without wrapping, at read [k]; the port shows
    its low [width] bits. *)
Context (t : nat → Z) (flags : Z).

Definition width : Z := if Z.land (Z.shiftr flags 8) 1 =? 0 then 24 else 32.
Definition port (k : nat) : Z := t k mod 2 ^ width.
Definition ticks (msec : Z) : Z := PM_TIMER_FREQ * msec / 1000.

Context (t_mono : ∀ k, t k ≤ t (S k)).

Lemma t_le i j : (i ≤ j)%nat → t i ≤ t j.
Proof. induction 1; [done|]. etrans; [done|apply t_mono]. Qed.

Lemma width_pos : 0 < 2 ^ width.
Proof. unfold width. by destruct (_ =? _). Qed.

(** The port within one lap of the counter that starts at a multiple [B] of its size. *)
Lemma port_lap B q k : B = 2 ^ width * q → B ≤ t k < B + 2 ^ width → port k = t k - B.
Proof.
  intros -> Hk. unfold port. symmetry. apply (Z.mod_unique_pos _ _ q); lia.
Qed.

Lemma poll_while_inv rd fuel p k n :
  poll_while rd fuel p k = Ret n →
  ∃ j, n = S j ∧ (k ≤ j)%nat ∧ p (rd j) = false.
Proof.
  unfold poll_while. revert k. induction fuel as [|fuel IH]; intros k; [done|]. cbn [loop].
  destruct (p (rd k)) eqn:E; rewrite bind_Ret; intros H.
  - destruct (IH _ H) as (j & -> & ? & ?). exists j. split_and!; [done|lia|done].
  - exists k. injection H as <-. done.
Qed.

Lemma poll_while_run rd fuel (p : Z → bool) k j :
  (k ≤ j)%nat → p (rd j) = false → (∀ i, (k ≤ i < j)%nat → p (rd i) = true) → (j - k < fuel)%nat →
  poll_while rd fuel p k = Ret (S j).
Proof.
  unfold poll_while. revert k. induction fuel as [|fuel IH]; intros k Hk Hj Hi Hf; [lia|]. cbn [loop].
  destruct (decide (k = j)) as [->|Hne]; [by rewrite Hj, bind_Ret|].
  rewrite Hi, bind_Ret by lia. apply IH; [lia|done|intros; apply Hi; lia|lia].
Qed.

Lemma wait_bounds msec :
  0 ≤ msec < 1200 → u32_mul PM_TIMER_FREQ msec = Ret (PM_TIMER_FREQ * msec) ∧ 0 ≤ ticks msec < 2 ^ width.
Proof.
  intros Hm. unfold ticks, PM_TIMER_FREQ. split; [apply chk_u_ok; lia|].
  assert (2 ^ 24 ≤ 2 ^ width) by (unfold width; by destruct (_ =? _)).
  split; [apply Z.div_pos; lia|]. apply Z.lt_le_trans with (2 ^ 24); [|done].
  apply Z.div_lt_upper_bound; lia.
Qed.

(** [wait_millis] with its end point computed. *)
Lemma wait_millis_eq fuel msec :
  0 ≤ msec < 1200 →
  wait_millis port fuel flags msec =
    (let e := (port 0 + ticks msec) mod 2 ^ width in
     k ← (if 2 ^ width <=? port 0 + ticks msec then poll_while port fuel (λ v, port 0 <=? v) 1 else Ret 1%nat);
     poll_while port fuel (λ v, v <? e) k).
Proof.
  intros Hm. destruct (wait_bounds msec Hm) as [E Hd]. unfold wait_millis. rewrite E, bind_Ret. fold (ticks msec).
  pose proof (Z.mod_pos_bound (t 0%nat) (2 ^ width) width_pos) as Hp. fold (port 0) in Hp.
  assert ((if negb (Z.land (Z.shiftr flags 8) 1 =? 0) then as_u 32 (port 0 + ticks msec)
    else Z.land (as_u 32 (port 0 + ticks msec)) 0xffffff) = (port 0 + ticks msec) mod 2 ^ width) as ->.
  { unfold width, as_u. destruct (_ =? 0); simpl negb; cbn iota; [|done].
    change 0xffffff with (Z.ones 24). rewrite Z.land_ones by lia.
    change (2 ^ 32) with (2 ^ 24 * 2 ^ 8). rewrite Z.rem_mul_r by lia.
    rewrite Z.mul_comm, Z_mod_plus_full. by rewrite Zmod_mod. }
  cbv zeta. destruct (Z.leb_spec (2 ^ width) (port 0 + ticks msec)).
  - rewrite (proj2 (Z.ltb_lt _ _)); [done|].
    rewrite <- (Z.mod_unique_pos (port 0 + ticks msec) (2 ^ width) 1 (port 0 + ticks msec - 2 ^ width)) by lia. lia.
  - rewrite (Z.mod_small (port 0 + ticks msec)) by lia. by rewrite (proj2 (Z.ltb_ge _ _)) by lia.
Qed.

(** The lap in which the wait starts. *)
Lemma first_lap : ∃ q, t 0 - port 0 = 2 ^ width * q ∧ 0 ≤ port 0 < 2 ^ width.
Proof.
  exists (t 0%nat / 2 ^ width). split; [|apply Z.mod_pos_bound, width_pos].
  unfold port. pose proof (Z.div_mod (t 0%nat) (2 ^ width)). pose proof width_pos. lia.
Qed.

(** Waiting never ends early, however the reads are spread. *)
Lemma wait_not_early fuel msec n :
  0 ≤ msec < 1200 → wait_millis port fuel flags msec = Ret n → ticks msec ≤ t (pred n) - t 0.
Proof.
  intros Hm. rewrite wait_millis_eq by done. cbv zeta. destruct (wait_bounds msec Hm) as [_ Hd].
  destruct first_lap as (q & HB & Hp). set (B := t 0%nat - port 0) in *.
  destruct (Z.leb_spec (2 ^ width) (port 0 + ticks msec)) as [Hw|Hw]; intros H; inv_outcome.
  - apply poll_while_inv in Hs as (j1 & -> & Hj1 & Hp1). apply poll_while_inv in H as (j2 & -> & Hj2 & Hp2). simpl.
    apply Z.leb_gt in Hp1. apply Z.ltb_ge in Hp2.
    rewrite <- (Z.mod_unique_pos (port 0 + ticks msec) (2 ^ width) 1 (port 0 + ticks msec - 2 ^ width)) in Hp2 by lia.
    pose proof (t_le 0 j1 ltac:(lia)). pose proof (t_le j1 j2 ltac:(lia)).
    assert (B + 2 ^ width ≤ t j1).
    { apply Z.le_ngt. intros Hlt. rewrite (port_lap B q j1) in Hp1; lia. }
    apply Z.le_ngt. intros Hlt. rewrite (port_lap (B + 2 ^ width) (q + 1) j2) in Hp2; lia.
  - apply poll_while_inv in H as (j & -> & Hj & Hpj). simpl. apply Z.ltb_ge in Hpj.
    rewrite Z.mod_small in Hpj by lia. pose proof (t_le 0 j ltac:(lia)).
    apply Z.le_ngt. intros Hlt. rewrite (port_lap B q j) in Hpj; lia.
Qed.

Context (δ : Z) (t_step : ∀ k, t (S k) ≤ t k + δ) (t_live : ∀ x, ∃ k, x ≤ t k).

(** The first read at or after [T]. *)
Lemma first_reach T k :
  ∃ j, (k ≤ j)%nat ∧ T ≤ t j ∧ (∀ i, (k ≤ i < j)%nat → t i < T) ∧ (j = k ∨ t j < T + δ).
Proof.
  destruct (t_live T) as [m Hm].
  assert (T ≤ t (k + m)%nat) as Hkm by (pose proof (t_le m (k + m) ltac:(lia)); lia). clear Hm.
  revert k Hkm. induction m as [|m IH]; intros k Hkm.
  { exists k. rewrite Nat.add_0_r in Hkm. split_and!; [lia|done|lia|by left]. }
  destruct (Z.le_gt_cases T (t k)) as [Hle|Hgt]; [exists k; split_and!; [lia|done|lia|by left]|].
  destruct (IH (S k)) as (j & Hj & HT & Hbefore & Hlate); [by replace (S k + m)%nat with (k + S m)%nat by lia|].
  exists j. split_and!; [lia|done| |].
  - intros i Hi. destruct (decide (i = k)) as [->|]; [done|]. apply Hbefore. lia.
  - right. destruct Hlate as [->|?]; [|done]. pose proof (t_step k). lia.
Qed.

(** If the reads are dense enough not to jump over the end of a lap, the wait ends, at
    most two reads late. *)
Lemma wait_in_time msec :
  0 ≤ msec < 1200 →
  (port 0 + ticks msec < 2 ^ width → port 0 + ticks msec + δ < 2 ^ width) →
  (2 ^ width ≤ port 0 + ticks msec → δ ≤ port 0 ∧ port 0 + ticks msec + 2 * δ ≤ 2 * 2 ^ width) →
  ∃ fuel n, wait_millis port fuel flags msec = Ret n ∧ t (pred n) - t 0 ≤ ticks msec + 2 * δ.
Proof.
  intros Hm Hfit Hwrap. destruct (wait_bounds msec Hm) as [_ Hd]. destruct first_lap as (q & HB & Hp).
  set (B := t 0%nat - port 0) in *. pose proof (t_mono 0). pose proof (t_step 0).
  destruct (Z.leb_spec (2 ^ width) (port 0 + ticks msec)) as [Hw|Hw].
  - destruct (Hwrap Hw) as [Hs He]. destruct (first_reach (B + 2 ^ width) 1) as (j1 & Hj1 & HT1 & Hb1 & Hl1).
    assert (t j1 < B + 2 ^ width + δ) by (destruct Hl1 as [->|?]; lia).
    destruct (first_reach (t 0%nat + ticks msec) (S j1)) as (j2 & Hj2 & HT2 & Hb2 & Hl2).
    assert (t j2 < t 0%nat + ticks msec + 2 * δ) by (pose proof (t_step j1); destruct Hl2 as [->|?]; lia).
    exists (S (j1 + j2)), (S j2). simpl. split; [|lia]. rewrite wait_millis_eq by done. cbv zeta.
    rewrite (proj2 (Z.leb_le _ _) Hw).
    rewrite <- (Z.mod_unique_pos (port 0 + ticks msec) (2 ^ width) 1 (port 0 + ticks msec - 2 ^ width)) by lia.
    rewrite (poll_while_run _ _ _ 1 j1), bind_Ret; [apply poll_while_run|..]; try lia.
    + rewrite (port_lap (B + 2 ^ width) (q + 1) j2) by lia. lia.
    + intros i Hi. specialize (Hb2 i Hi). pose proof (t_le j1 i ltac:(lia)).
      rewrite (port_lap (B + 2 ^ width) (q + 1) i) by lia. lia.
    + rewrite (port_lap (B + 2 ^ width) (q + 1) j1) by lia. lia.
    + intros i Hi. specialize (Hb1 i Hi). pose proof (t_le 0 i ltac:(lia)). rewrite (port_lap B q i) by lia. lia.
  - specialize (Hfit Hw). destruct (first_reach (t 0%nat + ticks msec) 1) as (j & Hj & HT & Hb & Hl).
    assert (t j ≤ t 0%nat + ticks msec + δ) by (destruct Hl as [->|?]; lia).
    exists (S j), (S j). simpl. split; [|lia]. rewrite wait_millis_eq by done. cbv zeta.
    rewrite (proj2 (Z.leb_gt _ _) Hw), bind_Ret, Z.mod_small by lia.
    apply poll_while_run; [done| |intros i Hi|lia].
    + rewrite (port_lap B q j) by lia. lia.
    + specialize (Hb i Hi). pose proof (t_le 0 i ltac:(lia)). rewrite (port_lap B q i) by lia. lia.
Qed.

End waiting.

(** C22: busy waiting on the power management timer. A wait of 1200 ms or more overflows
    and stops the kernel; a shorter one never returns before the ticks of that time have
    passed, however fast the port is read, on 24-bit and 32-bit timers and across the wrap
    of the counter; and it does return, at most two reads late, if no read jumps over the
    rest of the lap in which the wait ends. *)
Theorem wait_millis_waits (t : nat → Z) (flags msec : Z) :
  0 ≤ msec → (∀ k, t k ≤ t (S k)) →
  (1200 ≤ msec → ∀ rd fuel, wait_millis rd fuel flags msec = Panic Overflow) ∧
  (∀ fuel n, wait_millis (port t flags) fuel flags msec = Ret n → ticks msec ≤ t (pred n) - t 0%nat) ∧
  (∀ δ, msec < 1200 → (∀ k, t (S k) ≤ t k + δ) → (∀ x, ∃ k, x ≤ t k) →
     (port t flags 0 + ticks msec < 2 ^ width flags → port t flags 0 + ticks msec + δ < 2 ^ width flags) →
     (2 ^ width flags ≤ port t flags 0 + ticks msec →
        δ ≤ port t flags 0 ∧ port t flags 0 + ticks msec + 2 * δ ≤ 2 * 2 ^ width flags) →
     ∃ fuel n, wait_millis (port t flags) fuel flags msec = Ret n ∧
       t (pred n) - t 0%nat ≤ ticks msec + 2 * δ).
Proof.
  intros Hm Ht.
  assert (1200 ≤ msec → ∀ rd fuel, wait_millis rd fuel flags msec = Panic Overflow) as Hov.
  { intros H rd fuel. unfold wait_millis, u32_mul. rewrite chk_u_overflow; [done|].
    unfold PM_TIMER_FREQ. lia. }
  split_and!; [done| |].
  - intros fuel n E. destruct (Z.le_gt_cases 1200 msec); [by rewrite Hov in E|].
    by apply (wait_not_early t flags Ht fuel).
  - intros δ Hlt Hs Hl Hf Hw. by apply (wait_in_time t flags Ht δ).
Qed.

(** Otherwise it can be missed for ever: reads two ticks apart never see the last value of
    the lap, where a 1 ms wait that starts at [2^24 - 3580] ends. *)
Lemma wait_can_hang fuel : wait_millis (λ k, (2 ^ 24 - 3580 + 2 * Z.of_nat k) mod 2 ^ 24) fuel 0 1 = OutOfFuel.
Proof.
  unfold wait_millis, u32_mul. rewrite chk_u_ok by (unfold PM_TIMER_FREQ; lia). rewrite bind_Ret. cbv beta zeta.
  change (negb (Z.land (Z.shiftr 0 8) 1 =? 0)) with false. cbn iota.
  change ((2 ^ 24 - 3580 + 2 * Z.of_nat 0) mod 2 ^ 24) with 16773636.
  change (Z.land (as_u 32 (16773636 + PM_TIMER_FREQ * 1 / 1000)) 0xffffff) with 16777215.
  change (16777215 <? 16773636) with false. cbn iota. rewrite bind_Ret. unfold poll_while.
  generalize 1%nat as k. induction fuel as [|fuel IH]; intros k; [done|].
  cbn [loop]. rewrite (proj2 (Z.ltb_lt _ _)), bind_Ret; [apply IH|].
  change (2 ^ 24) with 16777216. Z.div_mod_to_equations. lia.
Qed.

(** ** The local APIC timer *)

Definition DIVIDE_CONF_ADDR : Z := 0xfee003e0.
Definition LVT_TIMER_ADDR : Z := 0xfee00320.
Definition INITIAL_COUNT_ADDR : Z := 0xfee00380.
Definition COUNT_MAX : Z := 0xffffffff.
Definition LAPIC_VECTOR : Z := 0x41.

(** [current_count] is the value of the count register after the wait. The result is
    [LAPIC_TIMER_FREQ] and the register writes in order. *)
Definition initialize_lapic_timer (current_count : Z) : outcome (Z * list (Z * Z)) :=
  let w := [(DIVIDE_CONF_ADDR, 11); (LVT_TIMER_ADDR, Z.shiftl 1 16)] in
  let w := w ++ [(INITIAL_COUNT_ADDR, COUNT_MAX)] in
  elapsed ← u32_sub COUNT_MAX current_count;
  let w := w ++ [(INITIAL_COUNT_ADDR, 0)] in
  freq ← u32_mul elapsed 10;
  let w := w ++ [(LVT_TIMER_ADDR, Z.lor (Z.shiftl 2 16) LAPIC_VECTOR)] in
  Ret (freq, w ++ [(INITIAL_COUNT_ADDR, freq / TIMER_FREQ)]).

(** ** A concrete firmware *)

(** Root pointer at 0, XSDT at 64 with two entries, the second of which is the FADT. *)
Definition demo_rsdp : list Z :=
  [82; 83; 68; 32; 80; 84; 82; 32; 223; 0; 0; 0; 0; 0; 0; 2; 0; 0; 0; 0; 36; 0; 0; 0; 64; 0; 0; 0; 0; 0; 0; 0; 156; 0; 0; 0].
Definition demo_xsdt : list Z :=
  [88; 83; 68; 84; 52; 0; 0; 0; 1; 187] ++ replicate 26 0 ++ [60; 1; 0; 0; 0; 0; 0; 0; 144; 0; 0; 0; 0; 0; 0; 0].
Definition demo_fadt : list Z :=
  [70; 65; 67; 80; 116; 0; 0; 0; 6; 93] ++ replicate 66 0 ++ [8; 6; 0; 0] ++ replicate 32 0 ++ [0; 1; 0; 0].

Definition demo_mem (a : Z) : Z :=
  default 0 ((demo_rsdp ++ replicate 28 0 ++ demo_xsdt ++ replicate 28 0 ++ demo_fadt) !! Z.to_nat a).

Lemma acpi_finds_fadt_witness : acpi_initialize demo_mem 0 = Ret 144 ∧ pm_tmr_blk demo_mem 144 = 0x608.
Proof.
  split; [|vm_compute; reflexivity].
  rewrite (acpi_finds_fadt demo_mem 0); [vm_compute; reflexivity|vm_compute; reflexivity|vm_compute; discriminate|
    split; [vm_compute; discriminate|vm_compute; reflexivity]|vm_compute; discriminate].
Defined.

Lemma wait_millis_waits_witness :
  (∀ rd fuel, wait_millis rd fuel 0 1200 = Panic Overflow) ∧
  ∃ fuel n, wait_millis (port (λ k, 2 ^ 24 - 100 + 3 * Z.of_nat k) 0) fuel 0 1 = Ret n ∧
    3579 ≤ 3 * Z.of_nat (pred n) ≤ 3579 + 6.
Proof.
  split; [apply (wait_millis_waits (λ k, Z.of_nat k) 0 1200); [lia|lia|lia]|].
  destruct (wait_millis_waits (λ k, 2 ^ 24 - 100 + 3 * Z.of_nat k) 0 1) as (_ & Hearly & Hin);
    [lia|intros k; lia|].
  destruct (Hin 3) as (fuel & n & E & Hle);
    [lia|intros k; lia|intros x; exists (Z.to_nat x); lia|vm_compute; discriminate|
     intros _; split; vm_compute; discriminate|].
  exists fuel, n. split; [exact E|]. specialize (Hearly fuel n E).
  change (ticks 1) with 3579 in *. lia.
Defined.

(** The calibrated period: a tenth of what the timer counted in 100 ms, that is one tick of
    the kernel's clock. A count of 429496730 or more overflows. *)
Lemma lapic_calibrated cur :
  in_u 32 cur →
  initialize_lapic_timer cur =
    let elapsed := COUNT_MAX - cur in
    if elapsed <=? 429496729 then
      Ret (elapsed * 10, [(DIVIDE_CONF_ADDR, 11); (LVT_TIMER_ADDR, 0x10000); (INITIAL_COUNT_ADDR, COUNT_MAX);
        (INITIAL_COUNT_ADDR, 0); (LVT_TIMER_ADDR, 0x20041); (INITIAL_COUNT_ADDR, elapsed / 10)])
    else Panic Overflow.
Proof.
  intros Hc. unfold in_u, COUNT_MAX in *. unfold initialize_lapic_timer, u32_sub, u32_mul, COUNT_MAX.
  rewrite chk_u_ok, bind_Ret by lia. cbv zeta. destruct (Z.leb_spec (0xffffffff - cur) 429496729).
  - rewrite chk_u_ok, bind_Ret by lia. unfold TIMER_FREQ.
    change 100 with (10 * 10). rewrite Z.div_mul_cancel_r by lia. done.
  - rewrite chk_u_overflow by lia. done.
Qed.
