(* ===== verification/Xhci.v ===== *)
(** usb/xhci.rs, usb/device.rs and usb/util.rs: bringing up the USB host controller. Taking
    it over from the firmware, resetting and starting it, and the memory it is given: the
    device context table, scratchpad pages and device contexts, allocated on the kernel
    heap of [ObjectAlloc].

    Registers are device I/O: what is read is an argument (a sequence where the code
    polls), what is written a result. Contexts are known by their address and size; the
    sizes of the crate's context types are the parameter [size_of_device]. *)

From S2P Require Import Prelude Bitfield FrameAlloc ObjectAlloc.

(** ** usb/util.rs *)

Definition find_lsb (bits : Z) : Z :=
  match list_find (λ i, Z.land (Z.shiftr bits i) 1 = 1) (range 0 15) with
  | Some (_, i) => i
  | None => 16
  end.

(** The heap, the address and the contents. Writing through the null pointer of a failed
    allocation is undefined. *)
Definition aligned_zeros (s : Heap) (len align : Z) : outcome (Heap * Z * list Z) :=
  size ← usize_mul len 8;
  '(s, p) ← alloc s {| layout_size := size; layout_align := align |};
  if p =? null then Panic Undefined
  else Ret (s, p, replicate (Z.to_nat len) 0).

(** ** usb/device.rs *)

Inductive ContextSize := Csz32Bytes | Csz64Bytes.

Definition context_bytes (value : ContextSize) : Z :=
  match value with Csz32Bytes => 32 | Csz64Bytes => 64 end.

(** [AlignedAlloc<N>::allocate], and the collections that call it: [None] of the heap ends
    in the allocation error handler, which stops the kernel. *)
Definition AlignedAlloc_allocate (N : Z) (s : Heap) (layout : Layout) : outcome (Heap * Z) :=
  '(s, p) ← alloc s {| layout_size := layout_size layout; layout_align := Z.max (layout_align layout) N |};
  if p =? null then Panic ExplicitPanic else Ret (s, p).

Inductive DeviceContext := DC32Byte (addr : Z) | DC64Byte (addr : Z).

Definition get_address (self : DeviceContext) : Z :=
  match self with DC32Byte a | DC64Byte a => a end.

Definition get_size (self : DeviceContext) : ContextSize :=
  match self with DC32Byte _ => Csz32Bytes | DC64Byte _ => Csz64Bytes end.

Record Dcbaa := {
  dcbaa : list Z;
  contexts : gmap Z DeviceContext;
  ctx_size : ContextSize;
  scratchpad_buf_arr : option (list Z);
}.

Section device.
Context (size_of_device : ContextSize → Z).

(** [DeviceContext::new] *)
Definition DeviceContext_new (s : Heap) (size : ContextSize) : outcome (Heap * DeviceContext) :=
  '(s, p) ← AlignedAlloc_allocate 64 s {| layout_size := size_of_device size; layout_align := 4 |};
  Ret (s, match size with Csz32Bytes => DC32Byte p | Csz64Bytes => DC64Byte p end).

Definition init_context_at (s : Heap) (self : Dcbaa) (slot_id : Z) : outcome (Heap * Dcbaa) :=
  '(s, ctx) ← DeviceContext_new s (ctx_size self);
  table ← vset (dcbaa self) slot_id (get_address ctx);
  Ret (s, {| dcbaa := table; contexts := <[slot_id := ctx]> (contexts self); ctx_size := ctx_size self;
             scratchpad_buf_arr := scratchpad_buf_arr self |}).

End device.

Definition page_layout (page_size : Z) : Layout := {| layout_size := page_size; layout_align := page_size |}.

(** The loop of [make_scratchpad]. *)
Definition scratchpad_page (page_size : Z) (st : Heap * list Z) (_ : Z) : outcome (Heap * list Z) :=
  let '(s, page_ptrs) := st in
  '(s, page) ← alloc s (page_layout page_size);
  if page =? null then Panic ExplicitPanic else Ret (s, page_ptrs ++ [page]).

(** The address of the array and its contents. *)
Definition make_scratchpad (s : Heap) (num_scratch_pads page_size : Z) : outcome (Heap * Z * list Z) :=
  '(s, arr) ← AlignedAlloc_allocate 64 s {| layout_size := num_scratch_pads * 8; layout_align := 8 |};
  '(s, ptrs) ← foldM (scratchpad_page page_size) (range 0 num_scratch_pads) (s, []);
  Ret (s, arr, ptrs).

(** The register values are read from [hcsparams1], [hccparams1], [hcsparams2] and
    [pagesize]; the last two results are written to [config] and [dcbaap]. *)
Definition init_dcbaa (s : Heap) (max_slots : Z) (csz : bool) (num_scratch_pads pagesize : Z)
    : outcome (Heap * Dcbaa * (Z * Z)) :=
  let ctx_size := if csz then Csz64Bytes else Csz32Bytes in
  let pagesize_bit := find_lsb pagesize in
  let page_size := Z.shiftl 1 (12 + pagesize_bit) in
  n ← usize_add max_slots 1;
  '(s, p, table) ← aligned_zeros s n 64;
  '(s, table, arr) ←
    (if 0 <? num_scratch_pads then
       '(s, a, ptrs) ← make_scratchpad s num_scratch_pads page_size;
       table ← vset table 0 a;
       Ret (s, table, Some ptrs)
     else Ret (s, table, None));
  Ret (s, {| dcbaa := table; contexts := ∅; ctx_size := ctx_size; scratchpad_buf_arr := arr |}, (max_slots, p)).

(** ** usb/xhci.rs: taking over the controller *)

Section handoff.
(** The registers as bytes, and the values successive reads of [cap_specific] return. *)
Context (mem : Z → Z) (spec : nat → Z).

Definition cap_id (cap : Z) : Z := mem cap.
Definition next_cap_ptr (cap : Z) : Z := mem (cap + 1).
Definition cap_specific (cap : Z) : Z := mem (cap + 2) + 256 * mem (cap + 3).

(** [XhciCapability::next] *)
Definition next (cap : Z) : outcome (option Z) :=
  if next_cap_ptr cap =? 0 then Ret None
  else
    off ← usize_mul (next_cap_ptr cap) 4;
    p ← usize_add cap off;
    Ret (Some p).

(** The search loop of [ownership_handoff]: [None] when the list ends. *)
Definition find_legacy (fuel : nat) (cap : Z) : outcome (option Z) :=
  loop fuel (λ cap,
    if cap_id cap =? 1 then Ret (inr (Some cap))
    else
      n ← next cap;
      match n with
      | Some nxt => Ret (inl nxt)
      | None => Ret (inr None)
      end) cap.

(** Whether the value shows the controller as ours. *)
Definition owned (v : Z) : bool := (Z.land v 1 =? 0) && (Z.land (Z.shiftr v 8) 1 =? 1).

(** The writes made: address and value; [ctl_sts] is the control register before. *)
Definition ownership_handoff (fuel : nat) (mmio_base ex_cap_ptr ctl_sts : Z) : outcome (list (Z * Z)) :=
  off ← usize_mul ex_cap_ptr 4;
  cap ← usize_add mmio_base off;
  o ← find_legacy fuel cap;
  match o with
  | None => Ret []
  | Some cap =>
      if Z.land (Z.shiftr (cap_specific cap) 8) 1 =? 1 then Ret []
      else
        _ ← loop fuel (λ k, if owned (spec k) then Ret (inr ()) else Ret (inl (S k))) 0%nat;
        let ctl_sts := Z.lor (Z.land ctl_sts 0xffff1fee) 0xe0000000 in
        Ret [(cap + 2, Z.lor (cap_specific cap) 256); (cap + 4, ctl_sts)]
  end.

End handoff.

(** *** Reset and start *)

(** Updates of the registers. *)
Inductive hc_write :=
  | ClearEnables | ClearRunStop | SetReset | SetModeration (interval : Z) | EnableInterrupter
  | SetInterrupterEnable | SetRunStop.

(** [while c(read) {}] over the values successive reads return. *)
Definition spin (fuel : nat) (c : nat → bool) : outcome () :=
  loop fuel (λ k, if c k then Ret (inl (S k)) else Ret (inr ())) 0%nat.

(** [halted0] is the first look at [hc_halted]; the other arguments what the polls see. *)
Definition reset_hc (fuel : nat) (halted0 : bool) (halted hc_reset not_ready : nat → bool) : outcome (list hc_write) :=
  w ← (if halted0 then Ret []
       else _ ← spin fuel (λ k, negb (halted k)); Ret [ClearRunStop]);
  _ ← spin fuel hc_reset;
  _ ← spin fuel not_ready;
  Ret (ClearEnables :: w ++ [SetReset]).

Definition enable_xhci_interrupt_and_start (fuel : nat) (halted : nat → bool) : outcome (list hc_write) :=
  _ ← spin fuel halted;
  Ret [SetModeration 4000; EnableInterrupter; SetInterrupterEnable; SetRunStop].

(** ** Memory handed to the controller *)

Lemma layout_ok_64 n : 0 ≤ n < 2 ^ 62 → layout_ok {| layout_size := n; layout_align := 64 |}.
Proof. intros. unfold layout_ok. cbn. split; [done|]. split; [done|]. by exists 64. Qed.

Lemma n_frames_small n a : 0 ≤ n ≤ 4096 → n_frames {| layout_size := n; layout_align := a |} ≤ 1.
Proof.
  intros Hn. unfold n_frames, BYTES_PER_FRAME, KB. cbn [layout_size]. apply Z.lt_succ_r, Z.div_lt_upper_bound; lia.
Qed.

Lemma page_layout_ok : layout_ok (page_layout 4096).
Proof. unfold layout_ok. cbn. split; [done|]. split; [done|]. by exists 1. Qed.

(** The live allocations a list of pages stands for, the last one first. *)
Definition live_pages (ps : list Z) : list (Z * Layout) := (λ p, (p, page_layout 4096)) <$> reverse ps.

Lemma scratchpad_pages_ok is_ s gs L acc :
  heap_inv s gs L →
  (foldM (scratchpad_page 4096) is_ (s, acc) = Panic ExplicitPanic ∧ (n_free (MEM s) < length is_)%nat) ∨
  ∃ s' ps gs', foldM (scratchpad_page 4096) is_ (s, acc) = Ret (s', acc ++ ps) ∧ length ps = length is_ ∧
    heap_inv s' gs' (live_pages ps ++ L) ∧ Forall (λ p, p ≠ null ∧ p mod 4096 = 0) ps.
Proof.
  revert s gs L acc. induction is_ as [|i is_ IH]; intros s gs L acc HI.
  { right. exists s, [], gs. by rewrite app_nil_r. }
  destruct (alloc_page_ok s gs L (page_layout 4096) HI page_layout_ok) as (s1 & a & E & HP);
    [by apply n_frames_small|done|].
  assert (scratchpad_page 4096 (s, acc) i = if a =? null then Panic ExplicitPanic else Ret (s1, acc ++ [a])) as E1
    by (unfold scratchpad_page; by rewrite E, bind_Ret).
  cbn [foldM length]. rewrite E1. destruct HP as [(-> & _ & Hz)|(Hn & Ha & Hfr & gs1 & HI1)]; [left; split; [done|lia]|].
  rewrite (proj2 (Z.eqb_neq _ _) Hn), !bind_Ret.
  destruct (IH s1 gs1 _ (acc ++ [a]) HI1) as [[-> ?]|(s' & ps & gs' & -> & Hl & HI' & Hal)]; [left; split; [done|lia]|]. right.
  exists s', (a :: ps), gs'. rewrite <- app_assoc. split_and!; [done|simpl; lia| |by constructor].
  unfold live_pages in *. by rewrite reverse_cons, fmap_app, <- app_assoc.
Qed.

Lemma make_scratchpad_ok s gs L n :
  heap_inv s gs L → 0 ≤ n ≤ 255 →
  (make_scratchpad s n 4096 = Panic ExplicitPanic ∧ Z.of_nat (n_free (MEM s)) < n + 1) ∨
  ∃ s' arr ps gs', make_scratchpad s n 4096 = Ret (s', arr, ps) ∧ zlen ps = n ∧ arr ≠ null ∧ arr mod 64 = 0 ∧
    heap_inv s' gs' (live_pages ps ++ (arr, {| layout_size := n * 8; layout_align := 64 |}) :: L) ∧
    Forall (λ p, p ≠ null ∧ p mod 4096 = 0) ps.
Proof.
  intros HI Hn. unfold make_scratchpad, AlignedAlloc_allocate. cbn [layout_size layout_align]. change (Z.max 8 64) with 64.
  destruct (alloc_page_ok s gs L {| layout_size := n * 8; layout_align := 64 |} HI) as (s1 & arr & -> & HP);
    [apply layout_ok_64; lia|apply n_frames_small; lia|cbn; lia|]. rewrite !bind_Ret.
  destruct HP as [(-> & _ & Hz)|(Hnn & Ha & Hfr & gs1 & HI1)]; [left; split; [done|lia]|].
  rewrite (proj2 (Z.eqb_neq _ _) Hnn), !bind_Ret.
  destruct (scratchpad_pages_ok (range 0 n) s1 gs1 _ [] HI1) as [[-> Hz]|(s' & ps & gs' & -> & Hl & HI' & Hal)];
    rewrite range_length in *; [left; split; [done|lia]|].
  right. exists s', arr, ps, gs'. rewrite bind_Ret. split_and!; try done. lia.
Qed.

(** What [init_dcbaa] sets up: [tab] is the device context table, with a zero entry for
    every slot and, in entry 0, the scratchpad array if there is one. Everything the
    controller is told is a live, aligned allocation of its own. *)
Definition dcbaa_post (L : list (Z * Layout)) (max_slots num : Z) (csz : bool)
    (s : Heap) (d : Dcbaa) (w : Z * Z) : Prop :=
  ∃ gs tab, tab ≠ null ∧ tab mod 64 = 0 ∧ w = (max_slots, tab) ∧
    contexts d = ∅ ∧ ctx_size d = (if csz then Csz64Bytes else Csz32Bytes) ∧
    let L1 := (tab, {| layout_size := (max_slots + 1) * 8; layout_align := 64 |}) :: L in
    if num =? 0 then
      dcbaa d = replicate (Z.to_nat (max_slots + 1)) 0 ∧ scratchpad_buf_arr d = None ∧ heap_inv s gs L1
    else
      ∃ arr ps, dcbaa d = arr :: replicate (Z.to_nat max_slots) 0 ∧ arr ≠ null ∧ arr mod 64 = 0 ∧
        scratchpad_buf_arr d = Some ps ∧ zlen ps = num ∧ Forall (λ p, p ≠ null ∧ p mod 4096 = 0) ps ∧
        heap_inv s gs (live_pages ps ++ (arr, {| layout_size := num * 8; layout_align := 64 |}) :: L1).

(** How many frames the allocations of [init_dcbaa] can take: the table, and the scratchpad
    array with its pages. *)
Definition frames_needed (num : Z) : Z := if num =? 0 then 1 else num + 2.

(** Bringing up a controller with 4 KiB pages, fewer than 255 slots and at most 255
    scratchpad buffers, on any reachable heap: all memory the controller is given (table,
    scratchpad array, pages) is aligned, zeroed and disjoint from everything else that is
    live, and the registers get the right values. Only if fewer frames are free than are
    needed, the kernel can stop instead: for the table by writing through null, and else
    with a message. *)
Lemma init_dcbaa_ok (s : Heap) (gs : list cls) (L : list (Z * Layout)) (max_slots num : Z) (csz : bool) :
  heap_inv s gs L → 0 ≤ max_slots ≤ 254 → 0 ≤ num ≤ 255 →
  (∃ s' d w, init_dcbaa s max_slots csz num 1 = Ret (s', d, w) ∧ dcbaa_post L max_slots num csz s' d w) ∨
  (alloc s {| layout_size := (max_slots + 1) * 8; layout_align := 64 |} = Ret (s, null) ∧ n_free (MEM s) = 0%nat ∧
     init_dcbaa s max_slots csz num 1 = Panic Undefined) ∨
  (init_dcbaa s max_slots csz num 1 = Panic ExplicitPanic ∧ Z.of_nat (n_free (MEM s)) < frames_needed num).
Proof.
  intros HI Hs Hn. unfold init_dcbaa, aligned_zeros. change (Z.shiftl 1 (12 + find_lsb 1)) with 4096.
  rewrite usize_add_ok, bind_Ret by lia. rewrite usize_mul_ok, bind_Ret by lia.
  destruct (alloc_page_ok s gs L {| layout_size := (max_slots + 1) * 8; layout_align := 64 |} HI) as (s1 & tab & -> & HP);
    [apply layout_ok_64; lia|apply n_frames_small; lia|cbn; lia|]. rewrite !bind_Ret.
  destruct HP as [(-> & -> & Hz)|(Hnn & Ha & Hfr & gs1 & HI1)]; [by right; left|].
  rewrite (proj2 (Z.eqb_neq _ _) Hnn), !bind_Ret. destruct (Z.ltb_spec 0 num) as [Hpos|Hzero].
  - destruct (make_scratchpad_ok s1 gs1 _ num HI1 Hn) as [[-> Hz]|(s2 & arr & ps & gs2 & -> & Hl & Hna & Haa & HI2 & Hal)].
    { right; right. split; [done|]. unfold frames_needed. rewrite (proj2 (Z.eqb_neq _ _)) by lia. lia. } left. rewrite bind_Ret, vset_ok, !bind_Ret by (rewrite length_replicate; lia).
    eexists _, _, _. split; [done|]. exists gs2, tab. rewrite (proj2 (Z.eqb_neq _ _)) by lia.
    split_and!; try done. exists arr, ps. split_and!; try done. simpl.
    replace (Z.to_nat (max_slots + 1)) with (S (Z.to_nat max_slots)) by lia. done.
  - left. rewrite bind_Ret. eexists _, _, _. split; [done|]. exists gs1, tab. replace num with 0 by lia. done.
Qed.

(** C40: what a big controller needs the kernel's heap never serves. With 255 slots the
    device context table has exactly 2048 bytes, the allocation fails and the table is
    written through the null pointer; with 64-byte contexts a device context has 2048
    bytes and the first device stops the kernel; scratchpad pages larger than 4 KiB make
    the allocator panic. *)
Theorem big_controllers_fail (s : Heap) (csz : bool) (num pagesize : Z) (d : Dcbaa) (slot_id n page_size : Z)
    (size_of_device : ContextSize → Z) :
  init_dcbaa s 255 csz num pagesize = Panic Undefined ∧
  (size_of_device Csz64Bytes = 32 * context_bytes Csz64Bytes → ctx_size d = Csz64Bytes →
   init_context_at size_of_device s d slot_id = Panic ExplicitPanic) ∧
  (0 < n → 4096 < page_size → foldM (scratchpad_page page_size) (range 0 n) (s, []) = Panic ExplicitPanic).
Proof.
  split_and!.
  - done.
  - intros Hsz Hc. unfold init_context_at, DeviceContext_new, AlignedAlloc_allocate. rewrite Hc. cbn [layout_size].
    by rewrite Hsz.
  - intros Hn Hp.
    assert (∀ i, scratchpad_page page_size (s, []) i = Panic ExplicitPanic) as E.
    { intros i. unfold scratchpad_page, alloc. cbn [page_layout layout_size layout_align].
      rewrite (proj2 (Z.ltb_lt 2048 page_size)) by lia. unfold BYTES_PER_FRAME, KB.
      by rewrite (proj2 (Z.ltb_lt _ _)) by lia. }
    unfold range. rewrite seqZ_cons by lia. cbn [foldM]. by rewrite E.
Qed.

Lemma init_dcbaa_ok_witness :
  ∃ s' d w, init_dcbaa demo_heap 64 false 2 1 = Ret (s', d, w) ∧ dcbaa_post [] 64 2 false s' d w.
Proof.
  destruct demo_heap_inv as [gs HI].
  destruct (init_dcbaa_ok demo_heap gs [] 64 2 false HI) as [H|[(_ & H & _)|[_ H]]];
    [lia|lia|exact H|vm_compute in H; discriminate H..].
Defined.

Lemma big_controllers_fail_witness :
  init_context_at (λ c, 32 * context_bytes c) demo_heap
    {| dcbaa := [0; 0]; contexts := ∅; ctx_size := Csz64Bytes; scratchpad_buf_arr := None |} 1 = Panic ExplicitPanic.
Proof.
  destruct (big_controllers_fail demo_heap false 0 1
    {| dcbaa := [0; 0]; contexts := ∅; ctx_size := Csz64Bytes; scratchpad_buf_arr := None |} 1 1 8192
    (λ c, 32 * context_bytes c)) as (_ & H & _). apply H; reflexivity.
Defined.

(** ** Least set bit *)

(** The least set bit of a non-zero number. *)
Definition lsb (bits : Z) : Z := Z.log2 (Z.land bits (- bits)).

(** Checks a property of [n] numbers from [b] on. *)
Fixpoint check_from (p : Z → bool) (n : nat) (b : Z) : bool :=
  match n with O => true | S n => p b && check_from p n (b + 1) end.

Lemma check_from_ok p n b x : check_from p n b = true → b ≤ x < b + Z.of_nat n → p x = true.
Proof.
  revert b. induction n as [|n IH]; intros b; simpl; [lia|]. intros [Hb Hr]%andb_prop Hx.
  destruct (decide (x = b)) as [->|]; [done|]. apply (IH (b + 1)); [done|lia].
Qed.

Definition find_lsb_right (bits : Z) : bool :=
  find_lsb bits =? if (bits =? 0) || (bits =? 0x8000) then 16 else lsb bits.

Lemma find_lsb_table : check_from find_lsb_right (Z.to_nat 65536) 0 = true.
Proof. vm_compute. reflexivity. Qed.

(** [find_lsb] computes the least set bit of a 16-bit number, and 16 for zero; except
    that it never looks at bit 15, and also answers 16 for 0x8000. *)
Lemma find_lsb_equiv (bits : Z) :
  in_u 16 bits → find_lsb bits = if (bits =? 0) || (bits =? 0x8000) then 16 else lsb bits.
Proof.
  unfold in_u. intros Hb. apply Z.eqb_eq. change (find_lsb_right bits = true).
  apply (check_from_ok _ _ _ _ find_lsb_table). rewrite Z2Nat.id; lia.
Qed.

Lemma find_lsb_equiv_witness : find_lsb 24 = 3 ∧ find_lsb 0x8000 = 16.
Proof. split; [rewrite (find_lsb_equiv 24)|rewrite (find_lsb_equiv 0x8000)]; (reflexivity || (split; lia)). Defined.

(** ** Device contexts *)

(** A device of a controller with 32-byte contexts gets a context of its own, and its
    slot in the table points there. *)
Lemma init_context_at_ok size_of_device s gs L d slot :
  heap_inv s gs L → size_of_device Csz32Bytes = 32 * context_bytes Csz32Bytes →
  ctx_size d = Csz32Bytes → 0 ≤ slot < zlen (dcbaa d) →
  (init_context_at size_of_device s d slot = Panic ExplicitPanic ∧ n_free (MEM s) = 0%nat) ∨
  ∃ s' a gs', a ≠ null ∧ (n_free (MEM s) ≤ S (n_free (MEM s')))%nat ∧ a mod 64 = 0 ∧ heap_inv s' gs' ((a, {| layout_size := 1024; layout_align := 64 |}) :: L) ∧
    init_context_at size_of_device s d slot =
      Ret (s', {| dcbaa := <[Z.to_nat slot := a]> (dcbaa d); contexts := <[slot := DC32Byte a]> (contexts d);
                  ctx_size := Csz32Bytes; scratchpad_buf_arr := scratchpad_buf_arr d |}).
Proof.
  intros HI Hsz Hc Hs. unfold init_context_at, DeviceContext_new, AlignedAlloc_allocate. rewrite Hc. cbn [layout_size layout_align].
  rewrite Hsz. change (32 * context_bytes Csz32Bytes) with 1024. change (Z.max 4 64) with 64.
  destruct (alloc_page_ok s gs L {| layout_size := 1024; layout_align := 64 |} HI) as (s1 & a & -> & HP);
    [apply layout_ok_64; lia|apply n_frames_small; lia|done|]. rewrite !bind_Ret.
  destruct HP as [(-> & _ & Hz)|(Hn & Ha & Hfr & gs1 & HI1)]; [by left|]. rewrite (proj2 (Z.eqb_neq _ _) Hn), !bind_Ret.
  cbn [get_address]. rewrite vset_ok, !bind_Ret by done. right. exists s1, a, gs1. done.
Qed.

(** ** Taking over the controller *)

(** The capabilities the list at [cap] consists of. *)
Fixpoint chain (mem : Z → Z) (cap : Z) (l : list Z) : Prop :=
  match l with
  | [] => False
  | c :: l => c = cap ∧
      match l with
      | [] => next mem cap = Ret None
      | c' :: _ => next mem cap = Ret (Some c') ∧ chain mem c' l
      end
  end.

(** The first capability of the list that is the legacy support, if there is one. *)
Lemma find_legacy_ok mem fuel cap l :
  chain mem cap l → (length l < fuel)%nat →
  find_legacy mem fuel cap = Ret (snd <$> list_find (λ c, cap_id mem c = 1) l).
Proof.
  unfold find_legacy. revert cap l. induction fuel as [|fuel IH]; intros cap [|c l] Hc Hf; [done|simpl in Hf; lia|done|].
  simpl in Hc. destruct Hc as [-> Hc]. cbn [loop list_find].
  destruct (Z.eqb_spec (cap_id mem cap) 1) as [E|E]; [by rewrite decide_True, bind_Ret|]. rewrite decide_False by done.
  destruct l as [|c' l].
  - rewrite Hc, !bind_Ret. done.
  - destruct Hc as [-> Hc]. rewrite !bind_Ret. rewrite (IH c' (c' :: l)) by (done || simpl in *; lia).
    by destruct (list_find _ (c' :: l)) as [[]|].
Qed.

(** A poll ends with the first read that satisfies it. *)
Lemma spin_ok fuel c k :
  c k = false → (k < fuel)%nat → spin fuel c = Ret ().
Proof.
  intros Hk Hf. unfold spin.
  destruct (loop_total (λ i, (i ≤ k)%nat) (λ _ : (), True) (λ i, (k - i)%nat)
    (λ k, if c k then Ret (inl (S k)) else Ret (inr ())) fuel 0%nat) as ([] & E & _); [|lia|lia|done].
  intros i Hi. destruct (c i) eqn:E; eexists; (split; [done|]); [|done].
  assert (i ≠ k) by congruence. cbn. lia.
Qed.

(** Handing over: once the firmware has answered, the controller is ours and all its
    management interrupts are off and acknowledged. *)
Lemma ownership_handoff_ok mem spec fuel base ptr ctl l cap i k :
  in_u 32 ctl → 0 ≤ base → 0 ≤ ptr < 2 ^ 16 → base + 4 * ptr < 2 ^ 64 →
  chain mem (base + ptr * 4) l → (length l < fuel)%nat →
  list_find (λ c, cap_id mem c = 1) l = Some (i, cap) →
  Z.land (Z.shiftr (cap_specific mem cap) 8) 1 ≠ 1 → owned (spec k) = true → (k < fuel)%nat →
  ownership_handoff mem spec fuel base ptr ctl =
    Ret [(cap + 2, Z.lor (cap_specific mem cap) 256); (cap + 4, Z.lor (Z.land ctl 0xffff1fee) 0xe0000000)].
Proof.
  intros Hctl Hb Hp Hsum Hch Hf Hfind Hos Hown Hk. unfold ownership_handoff.
  rewrite usize_mul_ok, bind_Ret by lia. rewrite usize_add_ok, bind_Ret by lia.
  rewrite (find_legacy_ok _ _ _ l), bind_Ret by done. rewrite Hfind. cbn [fmap option_fmap option_map snd].
  rewrite (proj2 (Z.eqb_neq _ _) Hos).
  destruct (loop_total (λ i, (i ≤ k)%nat) (λ _ : (), True) (λ i, (k - i)%nat)
    (λ k, if owned (spec k) then Ret (inr ()) else Ret (inl (S k))) fuel 0%nat) as ([] & -> & _); [|lia|lia|done].
  intros j Hj. destruct (owned (spec j)) eqn:E; eexists; (split; [done|]); [done|].
  assert (j ≠ k) by congruence. cbn. lia.
Qed.

Lemma reset_hc_ok fuel halted0 halted hcr cnr k1 k2 k3 :
  halted k1 = true → hcr k2 = false → cnr k3 = false → (k1 < fuel)%nat → (k2 < fuel)%nat → (k3 < fuel)%nat →
  reset_hc fuel halted0 halted hcr cnr =
    Ret (if halted0 then [ClearEnables; SetReset] else [ClearEnables; ClearRunStop; SetReset]).
Proof.
  intros H1 H2 H3 F1 F2 F3. unfold reset_hc.
  rewrite (spin_ok fuel (λ k, negb (halted k)) k1) by (cbn; rewrite ?H1; done).
  rewrite (spin_ok fuel hcr k2), (spin_ok fuel cnr k3) by done. by destruct halted0.
Qed.
