(* ===== verification/InitDevice.v ===== *)
(** usb/action/init_device.rs: detecting devices on the root hub ports and giving them an
    address.

    The task is its sequence of awaited values: port status change events, each with the
    port register as it is read then, and the answers to its commands. Contexts of the
    xhci crate are records of the values the code sets, their sizes and the encoding of
    commands are parameters. *)

From S2P Require Import Prelude FrameAlloc ObjectAlloc Rings Usbd Runtime Transfer Xhci.

(** ** Port registers *)

(** The bits of the port status register that a write of one clears or disables. *)
Record Rw1c := { csc : bool; occ : bool; cec : bool; ped : bool; pec : bool; plc : bool; prc : bool; wrc : bool }.

Record Portsc := {
  current_connect_status : bool;
  port_speed : Z;
  port_reset : bool;
  change : Rw1c;
}.

(** What the functions write, given what they read. *)
Definition set_0_changes (p : Rw1c) : Rw1c :=
  {| csc := false; occ := false; cec := false; ped := false; pec := false; plc := false; prc := false; wrc := false |}.

Definition with_change (p : Portsc) (c : Rw1c) (reset : bool) : Portsc :=
  {| current_connect_status := current_connect_status p; port_speed := port_speed p; port_reset := reset; change := c |}.

Definition clear_csc (p : Portsc) : Portsc :=
  let c := set_0_changes (change p) in
  with_change p {| csc := true; occ := occ c; cec := cec c; ped := ped c; pec := pec c; plc := plc c;
                   prc := prc c; wrc := wrc c |} (port_reset p).

Definition clear_port_reset (p : Portsc) : Portsc :=
  let c := set_0_changes (change p) in
  with_change p {| csc := csc c; occ := occ c; cec := cec c; ped := ped c; pec := pec c; plc := plc c;
                   prc := true; wrc := wrc c |} (port_reset p).

Definition set_port_reset (p : Portsc) : Portsc := with_change p (set_0_changes (change p)) true.

(** The update in the loop over the ports at the start of [main_loop]. *)
Definition clear_at_boot (p : Portsc) : Portsc :=
  let c := change p in
  with_change p {| csc := true; occ := occ c; cec := cec c; ped := ped c; pec := pec c; plc := plc c;
                   prc := prc c; wrc := wrc c |} (port_reset p).

(** The bits of the register after a write: a one clears, a zero keeps. *)
Definition written_changes (old new : Rw1c) : Rw1c :=
  {| csc := csc old && negb (csc new); occ := occ old && negb (occ new); cec := cec old && negb (cec new);
     ped := ped old && negb (ped new); pec := pec old && negb (pec new); plc := plc old && negb (plc new);
     prc := prc old && negb (prc new); wrc := wrc old && negb (wrc new) |}.

(** The three functions change nothing but the bit they are for. *)
Lemma port_writes p :
  let c := change p in
  written_changes c (change (clear_csc p)) =
    {| csc := false; occ := occ c; cec := cec c; ped := ped c; pec := pec c; plc := plc c; prc := prc c; wrc := wrc c |} ∧
  written_changes c (change (clear_port_reset p)) =
    {| csc := csc c; occ := occ c; cec := cec c; ped := ped c; pec := pec c; plc := plc c; prc := false; wrc := wrc c |} ∧
  written_changes c (change (set_port_reset p)) = c.
Proof.
  destruct p as [? ? ? [[] [] [] [] [] [] [] []]]; done.
Qed.

(** The update at boot clears every change bit and, if the port is enabled, disables it. *)
Lemma boot_write_disables p :
  written_changes (change p) (change (clear_at_boot p)) =
    {| csc := false; occ := false; cec := false; ped := false; pec := false; plc := false; prc := false; wrc := false |}.
Proof. destruct p as [? ? ? [[] [] [] [] [] [] [] []]]; done. Qed.

(** ** The state machine *)

Record DeviceInitAction := { current_port : option Z; waiting_port : list Z }.

Definition DeviceInitAction_new : DeviceInitAction := {| current_port := None; waiting_port := [] |}.

(** What the task does, in order. *)
Inductive action :=
  | ClearCsc (port : Z) | ClearPortReset (port : Z) | SetPortReset (port : Z) | ClearAtBoot (port : Z)
  | InitDevice (port : Z).

#[export] Instance action_eq_dec : EqDecision action.
Proof. solve_decision. Defined.

(** The ports with a device when the task starts; the result of [init_device_async] is
    dropped. *)
Definition boot_ports (ports : list Portsc) : list action :=
  concat (imap (λ i p, if current_connect_status p then [ClearAtBoot (Z.of_nat i); InitDevice (Z.of_nat i)] else []) ports).

(** [reset_port] *)
Definition reset_port (port_id : Z) : list action := [SetPortReset port_id].

(** One turn of the loop: an event for port number [event_port], the port register read as
    [portsc]. *)
Definition on_event (self : DeviceInitAction) (event_port : Z) (portsc : Portsc)
    : outcome (DeviceInitAction * list action) :=
  port_id ← chk_u 8 (event_port - 1);
  let '(self, acts) :=
    if csc (change portsc) && current_connect_status portsc then
      ({| current_port := current_port self; waiting_port := waiting_port self ++ [port_id] |}, [ClearCsc port_id])
    else if prc (change portsc) then
      (self, ClearPortReset port_id ::
         if bool_decide (current_port self = Some port_id) then [InitDevice port_id] else [])
    else (self, []) in
  match current_port self, waiting_port self with
  | None, p :: rest => Ret ({| current_port := Some p; waiting_port := rest |}, acts ++ reset_port p)
  | _, _ => Ret (self, acts)
  end.

Fixpoint on_events (self : DeviceInitAction) (evs : list (Z * Portsc)) : outcome (DeviceInitAction * list action) :=
  match evs with
  | [] => Ret (self, [])
  | (p, r) :: evs =>
      '(self, acts) ← on_event self p r;
      '(self, rest) ← on_events self evs;
      Ret (self, acts ++ rest)
  end.

(** Ports on which a device was plugged in, in order. *)
Definition plugged (evs : list (Z * Portsc)) : list Z :=
  omap (λ e : Z * Portsc, if csc (change e.2) && current_connect_status e.2 then Some (e.1 - 1) else None) evs.

Definition resets (acts : list action) : list Z :=
  omap (λ a, match a with SetPortReset p => Some p | _ => None end) acts.
Definition inits (acts : list action) : list Z :=
  omap (λ a, match a with InitDevice p => Some p | _ => None end) acts.

(** After ports [ps] were plugged in. *)
Definition after_plugs (ps : list Z) : DeviceInitAction :=
  {| current_port := list.head ps; waiting_port := tail ps |}.

Lemma on_event_plugs ps e r :
  1 ≤ e ≤ 255 →
  ∃ acts, on_event (after_plugs ps) e r = Ret (after_plugs (ps ++ plugged [(e, r)]), acts) ∧
    option_list (list.head ps) ++ resets acts = option_list (list.head (ps ++ plugged [(e, r)])) ∧
    Forall (λ p, list.head ps = Some p) (inits acts).
Proof.
  intros He. unfold on_event. rewrite chk_u_ok, bind_Ret by lia. unfold plugged. simpl.
  destruct (csc (change r) && current_connect_status r).
  - destruct ps as [|p ps]; simpl; eexists; by repeat constructor.
  - rewrite app_nil_r. destruct (prc (change r)).
    + destruct ps as [|p ps]; simpl; [eexists; by repeat constructor|].
      destruct (bool_decide_reflect (Some p = Some (e - 1))); eexists; repeat constructor; by simplify_eq.
    + destruct ps as [|p ps]; simpl; eexists; by repeat constructor.
Qed.

Lemma on_events_plugs ps evs :
  Forall (λ e : Z * Portsc, 1 ≤ e.1 ≤ 255) evs →
  ∃ acts, on_events (after_plugs ps) evs = Ret (after_plugs (ps ++ plugged evs), acts) ∧
    option_list (list.head ps) ++ resets acts = option_list (list.head (ps ++ plugged evs)) ∧
    Forall (λ p, list.head (ps ++ plugged evs) = Some p) (inits acts).
Proof.
  intros Hevs. revert ps. induction Hevs as [|[e r] evs He _ IH]; intros ps; cbn [on_events].
  { exists []. cbn. by rewrite !app_nil_r. }
  destruct (on_event_plugs ps e r He) as (a1 & -> & R1 & I1). rewrite bind_Ret.
  destruct (IH (ps ++ plugged [(e, r)])) as (a2 & -> & R2 & I2). rewrite bind_Ret.
  assert (plugged ((e, r) :: evs) = plugged [(e, r)] ++ plugged evs) as -> by (unfold plugged; cbn; by destruct (_ && _)).
  exists (a1 ++ a2). rewrite <- app_assoc in *. split; [done|]. unfold resets, inits in *. rewrite !omap_app. split.
  - by rewrite app_assoc, R1.
  - apply Forall_app. split; [|done]. eapply Forall_impl; [exact I1|]. intros p Hp. by destruct ps.
Qed.

(** Of all devices plugged in while the kernel runs, only the first is ever reset and
    initialised. Whatever events arrive, the port of the first is selected and stays
    selected for ever; exactly this one port is reset, once, every initialisation is for
    it, and all later ports stay in the waiting list. *)
Lemma hotplug_first_only (evs : list (Z * Portsc)) :
  Forall (λ e : Z * Portsc, 1 ≤ e.1 ≤ 255) evs →
  ∃ st acts, on_events DeviceInitAction_new evs = Ret (st, acts) ∧
    current_port st = list.head (plugged evs) ∧ waiting_port st = tail (plugged evs) ∧
    resets acts = option_list (list.head (plugged evs)) ∧
    Forall (λ p, list.head (plugged evs) = Some p) (inits acts).
Proof.
  intros Hevs. destruct (on_events_plugs [] evs Hevs) as (acts & E & R & I).
  by exists (after_plugs (plugged evs)), acts.
Qed.

(** Two devices in a row: the second waits for ever. *)
Definition plug : Portsc :=
  {| current_connect_status := true; port_speed := 3; port_reset := false;
     change := {| csc := true; occ := false; cec := false; ped := false; pec := false; plc := false;
                  prc := false; wrc := false |} |}.
Definition reset_done : Portsc :=
  {| current_connect_status := true; port_speed := 3; port_reset := false;
     change := {| csc := false; occ := false; cec := false; ped := true; pec := false; plc := false;
                  prc := true; wrc := false |} |}.

Lemma hotplug_first_only_witness :
  ∃ st acts, on_events DeviceInitAction_new [(3, plug); (3, reset_done); (5, plug); (5, reset_done)] = Ret (st, acts) ∧
    waiting_port st = [4] ∧ resets acts = [2].
Proof.
  destruct (hotplug_first_only [(3, plug); (3, reset_done); (5, plug); (5, reset_done)]) as (st & acts & E & _ & W & R & _);
    [repeat constructor; simpl; lia|]. exists st, acts. split; [exact E|]. split; [exact W|exact R].
Defined.

(** ** Addressing a device *)

Record SlotContext := { root_hub_port_number : Z; route_string : Z; context_entries : Z; speed : Z }.

Record EndpointContext := {
  endpoint_type_control : bool;
  ep_max_packet_size : Z;
  max_burst_size : Z;
  tr_dequeue_pointer : Z;
  dequeue_cycle_state : bool;
  ep_interval : Z;
  max_primary_streams : Z;
  mult : Z;
  error_count : Z;
}.

(** An input context: which contexts it adds, the slot and the default control pipe. *)
Record InputContext := {
  ic_address : Z;
  add_context_flags : list Z;
  slot_ctx : SlotContext;
  control_pipe : EndpointContext;
}.

Definition config_slot_context (port_id : Z) (portsc : Portsc) : outcome SlotContext :=
  n ← chk_u 8 (as_u 8 port_id + 1);
  Ret {| root_hub_port_number := n; route_string := 0; context_entries := 1; speed := port_speed portsc |}.

Definition config_default_control_pipe (tr_deque_ptr : Z) (portsc : Portsc) : EndpointContext :=
  let max_packet_size := match port_speed portsc with
    | 1 => 64 | 2 => 8 | 3 => 64 | 4 => 512 | _ => 8
    end in
  {| endpoint_type_control := true; ep_max_packet_size := max_packet_size; max_burst_size := 0;
     tr_dequeue_pointer := tr_deque_ptr; dequeue_cycle_state := true; ep_interval := 0;
     max_primary_streams := 0; mult := 0; error_count := 3 |}.

Inductive command := EnableSlot | AddressDevice (input_context_pointer slot_id : Z) (bsr : bool).

Inductive InitError := CommandRingFull | AddressDeviceCommandFailed (code : CompletionCode + Z).

Section address.
Context {TRB : Type} `{!TrbOps TRB} (command_raw : command → TRB).
Context (size_of_device size_of_input : ContextSize → Z).

(** What the task works on. *)
Record bus := {
  bus_heap : Heap;
  bus_dcbaa : Dcbaa;
  bus_commands : CommandRing TRB nat;
  bus_transfers : TransferRingSet TRB;
  addressed : Channel Z;
  bus_woken : option nat;
}.

Definition prepare_input_ctx_for_address_device (s : Heap) (port_id deque_ptr : Z) (size : ContextSize) (portsc : Portsc)
    : outcome (Heap * InputContext) :=
  '(s, a) ← AlignedAlloc_allocate 64 s {| layout_size := size_of_input size; layout_align := 4 |};
  slot ← config_slot_context port_id portsc;
  Ret (s, {| ic_address := a; add_context_flags := [0; 1]; slot_ctx := slot;
             control_pipe := config_default_control_pipe deque_ptr portsc |}).

Definition drop_input_ctx (s : Heap) (size : ContextSize) (ic : InputContext) : outcome Heap :=
  dealloc s (ic_address ic) {| layout_size := size_of_input size; layout_align := 64 |}.

(** [enable_slot_async]: [chan] is the channel of the command, [answer] the slot it brings. *)
Definition enable_slot_async (b : bus) (chan : nat) (answer : Z) : outcome (bus * (Z + InitError)) :=
  '(cmds, r) ← push_command (bus_commands b) (command_raw EnableSlot) chan;
  let b := {| bus_heap := bus_heap b; bus_dcbaa := bus_dcbaa b; bus_commands := cmds;
              bus_transfers := bus_transfers b; addressed := addressed b; bus_woken := bus_woken b |} in
  match r with
  | inl _ => Ret (b, inl answer)
  | inr _ => Ret (b, inr CommandRingFull)
  end.

(** [address_device_async]: [ring] is where the new transfer ring is allocated. The input
    context, as the controller reads it, is part of the result. *)
Definition address_device_async (b : bus) (chan : nat) (ring port_id slot_id : Z) (bsr : bool) (portsc : Portsc)
    (answer : CompletionCode + Z) : outcome (bus * InputContext * (() + InitError)) :=
  '(s, d) ← init_context_at size_of_device (bus_heap b) (bus_dcbaa b) slot_id;
  '(trf, trf_ring_ptr) ← init_ring_at (bus_transfers b) ring slot_id 1;
  '(s, input_ctx) ← prepare_input_ctx_for_address_device s port_id trf_ring_ptr (ctx_size d) portsc;
  '(cmds, r) ← push_command (bus_commands b)
    (command_raw (AddressDevice (ic_address input_ctx) (as_u 8 slot_id) bsr)) chan;
  s ← drop_input_ctx s (ctx_size d) input_ctx;
  let b := {| bus_heap := s; bus_dcbaa := d; bus_commands := cmds; bus_transfers := trf;
              addressed := addressed b; bus_woken := bus_woken b |} in
  match r with
  | inr _ => Ret (b, input_ctx, inr CommandRingFull)
  | inl _ =>
      match answer with
      | inl Success => Ret (b, input_ctx, inl ())
      | _ => Ret (b, input_ctx, inr (AddressDeviceCommandFailed answer))
      end
  end.

Definition init_device_async (b : bus) (chan : nat) (ring port_id : Z) (portsc : Portsc) (slot_answer : Z)
    (address_answer : CompletionCode + Z) : outcome (bus * option InputContext * (() + InitError)) :=
  '(b, r) ← enable_slot_async b chan slot_answer;
  match r with
  | inr e => Ret (b, None, inr e)
  | inl slot_id =>
      '(b, ic, r) ← address_device_async b (S chan) ring port_id slot_id false portsc address_answer;
      match r with
      | inr e => Ret (b, Some ic, inr e)
      | inl () =>
          let '(ch, w) := send (addressed b) slot_id in
          Ret ({| bus_heap := bus_heap b; bus_dcbaa := bus_dcbaa b; bus_commands := bus_commands b;
                  bus_transfers := bus_transfers b; addressed := ch; bus_woken := w |}, Some ic, inl ())
      end
  end.

Lemma push_command_ok (c : CommandRing TRB nat) ps t chan :
  ring_inv 31 (as_system c ps) → zlen ps < 30 →
  ∃ c', push_command c t chan = Ret (c', inl chan) ∧ ring_inv 31 (as_system c' (ps ++ [t])).
Proof.
  intros Hi Hl. unfold push_command. destruct (push_ring_inv 31 (as_system c ps) t Hi) as (r & p & E & Hi'); [simpl; lia|].
  simpl in E. rewrite E, bind_Ret. by eexists.
Qed.

Lemma prepare_ok s gs L port deq sz portsc :
  heap_inv s gs L → 0 ≤ port ≤ 254 → 0 ≤ size_of_input sz ≤ 4096 → size_of_input sz ≠ 2048 →
  (prepare_input_ctx_for_address_device s port deq sz portsc = Panic ExplicitPanic ∧ n_free (MEM s) = 0%nat) ∨
  ∃ s' gs' a, heap_inv s' gs' ((a, {| layout_size := size_of_input sz; layout_align := 64 |}) :: L) ∧
    layout_ok {| layout_size := size_of_input sz; layout_align := 64 |} ∧
    prepare_input_ctx_for_address_device s port deq sz portsc =
      Ret (s', {| ic_address := a; add_context_flags := [0; 1];
                  slot_ctx := {| root_hub_port_number := port + 1; route_string := 0; context_entries := 1;
                                 speed := port_speed portsc |};
                  control_pipe := config_default_control_pipe deq portsc |}).
Proof.
  intros HI Hp Hs Hne. unfold prepare_input_ctx_for_address_device, AlignedAlloc_allocate. cbn [layout_size layout_align].
  change (Z.max 4 64) with 64. set (l := {| layout_size := _; layout_align := 64 |}).
  assert (layout_ok l) as Hl by (apply layout_ok_64; lia).
  destruct (alloc_page_ok s gs L l HI Hl) as (s1 & a & E & HP); [apply n_frames_small; lia|done|].
  rewrite E, !bind_Ret. destruct HP as [(-> & _ & Hz)|(Hn & _ & _ & gs1 & HI1)]; [by left|].
  rewrite (proj2 (Z.eqb_neq _ _) Hn), !bind_Ret. unfold config_slot_context. rewrite as_u_small by lia.
  rewrite chk_u_ok, !bind_Ret by lia. right. by exists s1, gs1, a.
Qed.


End address.
Arguments bus : clear implicits.

(** ** A concrete bus *)

Definition demo_commands : CommandRing Z nat :=
  {| cmd_ring := {| data := replicate 31 0 ++ [trb_link 0x1000]; cycle_state := true; enque := 0; deque := 0;
                    buf_ptr := 0x1000 |}; listener := ∅ |}.

Definition demo_bus : bus Z :=
  {| bus_heap := demo_heap;
     bus_dcbaa := {| dcbaa := replicate 9 0; contexts := ∅; ctx_size := Csz32Bytes; scratchpad_buf_arr := None |};
     bus_commands := demo_commands; bus_transfers := TransferRingSet_new 32;
     addressed := new_channel; bus_woken := None |}.

Definition demo_command (c : command) : Z := match c with EnableSlot => 9 | AddressDevice p s _ => p + s end.

