(* ===== verification/Desktop.v ===== *)
(** The desktop of main.rs, mouse.rs, taskB.rs and graphic/mod.rs: window frames, the mouse
    cursor, the windows of the two tasks and what they draw, on top of the layered window
    manager. The pixel format is the one [initialize_winmgr] takes from the screen. *)

From Stdlib Require Import Ascii String.
From S2P Require Import Prelude Graphics FrameBuffer FontData Font Window Console.

(** [as_bytes] of a string literal. *)
Definition as_bytes (s : string) : list Z := (λ a, Z.of_N (N_of_ascii a)) <$> list_ascii_of_string s.
Arguments as_bytes s%_string_scope.

(** ** Window frames *)

Definition draw_window (window : FrameBuffer) (title : list Z) : outcome FrameBuffer :=
  let win_w := horizontal_resolution (conf window) in
  let win_h := vertical_resolution (conf window) in
  window ← fill_rect window {| x := 0; y := 0 |} {| x := win_w; y := 1 |} (0xc6, 0xc6, 0xc6);
  w2 ← u32_sub win_w 2;
  window ← fill_rect window {| x := 1; y := 1 |} {| x := w2; y := 1 |} (0xff, 0xff, 0xff);
  window ← fill_rect window {| x := 0; y := 0 |} {| x := 1; y := win_h |} (0xc6, 0xc6, 0xc6);
  h2 ← u32_sub win_h 2;
  window ← fill_rect window {| x := 1; y := 1 |} {| x := 1; y := h2 |} (0xff, 0xff, 0xff);
  right ← i32_sub (as_s 32 win_w) 2;
  window ← fill_rect window {| x := right; y := 1 |} {| x := 1; y := h2 |} (0x84, 0x84, 0x84);
  edge ← i32_sub (as_s 32 win_w) 1;
  window ← fill_rect window {| x := edge; y := 0 |} {| x := 1; y := win_h |} (0, 0, 0);
  w4 ← u32_sub win_w 4;
  h4 ← u32_sub win_h 4;
  window ← fill_rect window {| x := 2; y := 2 |} {| x := w4; y := h4 |} (0xc6, 0xc6, 0xc6);
  w6 ← u32_sub win_w 6;
  window ← fill_rect window {| x := 3; y := 3 |} {| x := w6; y := 18 |} (0, 0, 0x84);
  bottom ← i32_sub (as_s 32 win_h) 2;
  window ← fill_rect window {| x := 1; y := bottom |} {| x := w2; y := 1 |} (0x84, 0x84, 0x84);
  under ← i32_sub (as_s 32 win_h) 1;
  window ← fill_rect window {| x := 0; y := under |} {| x := win_w; y := 1 |} (0, 0, 0);
  write_string window 24 4 title (0xff, 0xff, 0xff).

(** A pixel set by a text drawn at [(gx, gy)]. *)
Definition in_text (gx gy : Z) (str : list Z) (px py : Z) : Prop :=
  gx ≤ px ∧ glyph_bit (default 256 (str !! Z.to_nat ((px - gx) / 8))) ((px - gx) mod 8) (py - gy).

#[export] Instance in_text_dec gx gy str px py : Decision (in_text gx gy str px py).
Proof. unfold in_text. apply _. Defined.

(** The picture of a window of [w] by [h] pixels: a raised frame, a title bar with the
    title in it, and a grey interior. *)
Definition window_picture (w h : Z) (title : list Z) (px py : Z) : PixelColor :=
  if decide (in_text 24 4 title px py) then (0xff, 0xff, 0xff)
  else if decide (py = h - 1) then (0, 0, 0)
  else if decide (py = h - 2 ∧ 1 ≤ px < w - 1) then (0x84, 0x84, 0x84)
  else if decide (3 ≤ px < w - 3 ∧ 3 ≤ py < 21) then (0, 0, 0x84)
  else if decide (2 ≤ px < w - 2 ∧ 2 ≤ py < h - 2) then (0xc6, 0xc6, 0xc6)
  else if decide (px = w - 1) then (0, 0, 0)
  else if decide (px = w - 2 ∧ 1 ≤ py) then (0x84, 0x84, 0x84)
  else if decide (px = 1 ∧ 1 ≤ py) then (0xff, 0xff, 0xff)
  else if decide (px = 0) then (0xc6, 0xc6, 0xc6)
  else if decide (py = 1) then (0xff, 0xff, 0xff)
  else (0xc6, 0xc6, 0xc6).

(** ** The mouse *)

Definition MOUSE_CURSOR_SHAPE : list (list Z) := as_bytes <$> [
    "@              ";
    "@@             ";
    "@.@            ";
    "@..@           ";
    "@...@          ";
    "@....@         ";
    "@.....@        ";
    "@......@       ";
    "@.......@      ";
    "@........@     ";
    "@.........@    ";
    "@..........@   ";
    "@...........@  ";
    "@............@ ";
    "@......@@@@@@@@";
    "@......@       ";
    "@....@@.@      ";
    "@...@ @.@      ";
    "@..@   @.@     ";
    "@.@    @.@     ";
    "@@      @.@    ";
    "@       @.@    ";
    "@        @.@   ";
    "         @@@   " ]%string.

(** [match row[dx] as char] *)
Definition cursor_color (c : Z) : PixelColor :=
  if c =? 46 then (255, 255, 255) else if c =? 64 then (0, 0, 0) else (1, 1, 1).

Section cursor.
Context {W : Type} `{!PixelWriter W}.

Definition draw_cursor (writer : W) : outcome W :=
  foldM (λ writer dy,
    row ← vget MOUSE_CURSOR_SHAPE dy;
    foldM (λ writer dx,
      c ← vget row dx;
      write writer {| x := dx; y := dy |} (cursor_color c)) (range 0 15) writer) (range 0 24) writer.
End cursor.

(** The mouse callback of [KernelMain2]: the cursor window [id] of a display. *)
Definition on_mouse_report (m : LayeredWindowManager) (id dx dy : Z) : outcome LayeredWindowManager :=
  let display_width := horizontal_resolution (conf (screen m)) in
  let display_height := vertical_resolution (conf (screen m)) in
  win ← vget (layers m) id;
  p ← vec2_add (pos win) {| x := dx; y := dy |};
  let new_pos := clamp p {| x := 0; y := 0 |} {| x := as_s 32 display_width; y := as_s 32 display_height |} in
  l ← vset (layers m) id (window_move_to win new_pos);
  draw (with_layers m l).

(** ** The windows *)

(** [initialize_winmgr]: the default pixel format and the manager. *)
Definition initialize_winmgr (fb : FrameBufferRaw) : outcome (PixelFormat * LayeredWindowManager) :=
  fb ← from_raw fb;
  m ← LayeredWindowManager_new (Some (pixel_format (conf fb))) fb;
  Ret (pixel_format (conf fb), m).

(** What [initialize_windows] draws into the test window. *)
Definition test_window_content (back : FrameBuffer) : outcome FrameBuffer :=
  back ← write_string back 24 28 (as_bytes "Welcome to") (0, 0, 0);
  back ← write_string back 24 44 (as_bytes "Mikanami world!") (0, 0, 0);
  draw_window back (as_bytes "test window").

Definition initialize_windows (fmt : option PixelFormat) (m : LayeredWindowManager)
    : outcome (LayeredWindowManager * Z * Z) :=
  mouse_window ← Window_new fmt 15 24;
  let mouse_window := set_transparent_color mouse_window (Some (1, 1, 1)) in
  b ← write_with (buffer mouse_window) draw_cursor;
  b ← flush b;
  '(m, mouse) ← new_layer m (with_buffer mouse_window b);
  test_window ← Window_new fmt 160 68;
  let test_window := window_move_to test_window {| x := 100; y := 200 |} in
  b ← write_with (buffer test_window) test_window_content;
  b ← flush b;
  '(m, test) ← new_layer m (with_buffer test_window b);
  m ← up_down m test 1;
  m ← up_down m mouse 2;
  Ret (m, mouse, test).

(** [fmt] in decimal, at least [n] digits wide. *)
Fixpoint decimal_digits (fuel : nat) (v : Z) (acc : list Z) : list Z :=
  match fuel with
  | O => acc
  | S fuel => let acc := (48 + v mod 10) :: acc in if v <? 10 then acc else decimal_digits fuel (v / 10) acc
  end.
Definition to_decimal (v : Z) : list Z := decimal_digits 20 v [].
Definition to_decimal_padded (n : nat) (v : Z) : list Z :=
  let s := to_decimal v in replicate (n - length s) 48 ++ s.

(** The update of the test window in the main loop, before [draw]. *)
Definition draw_tick (m : LayeredWindowManager) (test tick : Z) : outcome LayeredWindowManager :=
  win ← vget (layers m) test;
  b ← write_with (buffer win) (λ back,
    back ← fill_rect back {| x := 24; y := 28 |} {| x := 8 * 10; y := 16 |} (0xc6, 0xc6, 0xc6);
    write_string back 24 28 (to_decimal tick) (0, 0, 0));
  l ← vset (layers m) test (with_buffer win b);
  draw (with_layers m l).

(** ** Task B *)

Definition initialize_taskB_window (fmt : option PixelFormat) (m : LayeredWindowManager)
    : outcome (LayeredWindowManager * Z) :=
  win ← Window_new fmt 160 52;
  let win := window_move_to win {| x := 100; y := 200 |} in
  b ← write_with (buffer win) (λ back, draw_window back (as_bytes "taskB!"));
  b ← flush b;
  '(m, h) ← new_layer m (with_buffer win b);
  m ← up_down m h 2;
  Ret (m, h).

(** One turn of the loop of [taskB]. *)
Definition taskB_turn (win : Window) (cnt : Z) : outcome (Window * Z) :=
  cnt ← i32_add cnt 1;
  let a := to_decimal_padded 10 cnt in
  b ← write_with (buffer win) (λ back,
    back ← draw_window back (as_bytes "taskB!");
    back ← fill_rect back {| x := 24; y := 28 |} {| x := 80; y := 16 |} (0xc6, 0xc6, 0xc6);
    write_string back 24 28 a (0, 0, 0));
  b ← flush b;
  Ret (with_buffer win b, cnt).

(** ** Pictures *)

(** Drawing steps on a well-formed buffer of a given size, pixel by pixel. *)
Record sized (fb : FrameBuffer) (w h : Z) : Prop := {
  sz_ok : fb_ok fb;
  sz_w : horizontal_resolution (conf fb) = w;
  sz_h : vertical_resolution (conf fb) = h;
}.

Definition overlaid (fb : FrameBuffer) (w h : Z) (S : Z → Z → Prop) `{∀ px py, Decision (S px py)} (c : PixelColor)
    (fb' : FrameBuffer) : Prop :=
  sized fb' w h ∧ ∀ px py, 0 ≤ px < w → 0 ≤ py < h →
    fb_pixel fb' px py = if decide (S px py) then c else fb_pixel fb px py.

Lemma painted_overlaid fb w h S `{∀ px py, Decision (S px py)} c fb' :
  sized fb w h → painted fb S c fb' → overlaid fb w h S c fb'.
Proof.
  intros [Hok Hw Hh] [Ho Hs Hi Hn]. simpl in *. injection Hs as Hs1 Hs2. split; [split; [done|congruence..]|].
  intros px py Hx Hy. assert (visible fb px py) by (unfold visible; simpl; lia).
  destruct (decide (S px py)); [by apply Hi|by apply Hn].
Qed.

Lemma fill_ok fb w h fx fy fw fh c :
  sized fb w h → 0 ≤ fx → 0 ≤ fw → fx + fw ≤ w → 0 ≤ fy → 0 ≤ fh → fy + fh ≤ h →
  ∃ fb', fill_rect fb {| x := fx; y := fy |} {| x := fw; y := fh |} c = Ret fb' ∧
    overlaid fb w h (λ px py, fx ≤ px < fx + fw ∧ fy ≤ py < fy + fh) c fb'.
Proof.
  intros Hs. intros. destruct (painted_fill_rect fb {| x := fx; y := fy |} {| x := fw; y := fh |} c) as (fb' & E & Hp);
    [apply Hs|simpl; rewrite ?(sz_w _ _ _ Hs), ?(sz_h _ _ _ Hs); lia..|].
  exists fb'. split; [done|]. by apply painted_overlaid.
Qed.

Lemma glyph_bit_unknown dx dy : ¬ glyph_bit 256 dx dy.
Proof. intros (_ & _ & H). change (FONTS !! Z.to_nat 256) with (@None (list Z)) in H. simpl in H. by rewrite Z.bits_0 in H. Qed.

Lemma text_ok fb w h gx gy str c :
  sized fb w h → Forall (λ c, 0 ≤ c < 256) str → 0 ≤ gx → gx + 8 * zlen str ≤ w → 0 ≤ gy → gy + 16 ≤ h →
  ∃ fb', write_string fb gx gy str c = Ret fb' ∧ overlaid fb w h (in_text gx gy str) c fb'.
Proof.
  intros Hs Hstr. intros. destruct (painted_string fb gx gy str c) as (fb' & E & Hp);
    [apply Hs|done|unfold cell_fits; simpl; rewrite ?(sz_w _ _ _ Hs), ?(sz_h _ _ _ Hs); lia|].
  exists fb'. split; [done|]. apply painted_overlaid; [done|]. revert Hp. apply painted_proper; try done.
  intros px py. unfold in_text. split.
  - intros [Hge Hb]. destruct (str !! Z.to_nat ((px - gx) / 8)) as [k|]; [by exists k|]. by apply glyph_bit_unknown in Hb.
  - intros (k & -> & Hge & Hb). done.
Qed.

(** Follows one drawing call. *)
Ltac overlay fill :=
  let fb := fresh "fb" in let E := fresh "E" in let S := fresh "S" in let P := fresh "P" in
  destruct fill as (fb & E & S & P); [eassumption|try lia..|]; rewrite E, ?bind_Ret; clear E.

(** Compares the topmost layer of both pictures. *)
Ltac layer P :=
  rewrite P by lia;
  match goal with
  | |- (if decide ?A then _ else _) = (if decide ?B then _ else _) =>
      destruct (decide A), (decide B); [reflexivity|exfalso; (done || lia)..|]
  end.

Lemma draw_window_ok fb w h title :
  sized fb w h → Forall (λ c, 0 ≤ c < 256) title → 30 ≤ w < 2 ^ 31 → 21 ≤ h < 2 ^ 31 → 24 + 8 * zlen title ≤ w →
  ∃ fb', draw_window fb title = Ret fb' ∧ sized fb' w h ∧
    ∀ px py, 0 ≤ px < w → 0 ≤ py < h → fb_pixel fb' px py = window_picture w h title px py.
Proof.
  intros Hs Ht Hw Hh Hlen. unfold draw_window. rewrite (sz_w _ _ _ Hs), (sz_h _ _ _ Hs). cbv zeta.
  unfold u32_sub. rewrite !as_s_small by (done || (split; lia)). rewrite !chk_u_ok, !i32_sub_ok by lia.
  overlay (fill_ok fb w h 0 0 w 1 (0xc6, 0xc6, 0xc6)).
  overlay (fill_ok fb0 w h 1 1 (w - 2) 1 (0xff, 0xff, 0xff)).
  overlay (fill_ok fb1 w h 0 0 1 h (0xc6, 0xc6, 0xc6)).
  overlay (fill_ok fb2 w h 1 1 1 (h - 2) (0xff, 0xff, 0xff)).
  overlay (fill_ok fb3 w h (w - 2) 1 1 (h - 2) (0x84, 0x84, 0x84)).
  overlay (fill_ok fb4 w h (w - 1) 0 1 h (0, 0, 0)).
  overlay (fill_ok fb5 w h 2 2 (w - 4) (h - 4) (0xc6, 0xc6, 0xc6)).
  overlay (fill_ok fb6 w h 3 3 (w - 6) 18 (0, 0, 0x84)).
  overlay (fill_ok fb7 w h 1 (h - 2) (w - 2) 1 (0x84, 0x84, 0x84)).
  overlay (fill_ok fb8 w h 0 (h - 1) w 1 (0, 0, 0)).
  destruct (text_ok fb9 w h 24 4 title (0xff, 0xff, 0xff)) as (fb10 & -> & S10 & P10); [done..|lia|lia|lia|lia|].
  exists fb10. split; [done|]. split; [done|]. intros px py Hx Hy. unfold window_picture.
  layer P10. layer P8. layer P7. layer P6. layer P5. layer P4. layer P3. layer P2. layer P1. layer P0.
  rewrite P by lia. by rewrite decide_True by lia.
Qed.

(** [draw_window] paints the whole window: whatever the buffer held before, it then
    shows exactly the picture of the frame, title bar, title and empty interior. *)
Lemma draw_window_picture (fb : FrameBuffer) (w h : Z) (title : list Z) :
  sized fb w h → Forall (λ c, 0 ≤ c < 256) title → 30 ≤ w < 2 ^ 31 → 21 ≤ h < 2 ^ 31 → 24 + 8 * zlen title ≤ w →
  ∃ fb', draw_window fb title = Ret fb' ∧ sized fb' w h ∧
    ∀ px py, 0 ≤ px < w → 0 ≤ py < h → fb_pixel fb' px py = window_picture w h title px py.
Proof. apply draw_window_ok. Qed.

(** ** The cursor *)

Definition cursor_char (px py : Z) : Z := default 0 (default [] (MOUSE_CURSOR_SHAPE !! Z.to_nat py) !! Z.to_nat px).

Lemma cursor_shape py :
  0 ≤ py < 24 →
  ∃ row, vget MOUSE_CURSOR_SHAPE py = Ret row ∧ ∀ px, 0 ≤ px < 15 → vget row px = Ret (cursor_char px py).
Proof.
  intros Hy. destruct (vget_range MOUSE_CURSOR_SHAPE py) as (row & E & Hr); [exact Hy|].
  exists row. split; [done|]. intros px Hx. unfold cursor_char. rewrite Hr. simpl.
  assert (length row = 15%nat) as Hl.
  { assert (forallb (λ r, length r =? 15)%nat MOUSE_CURSOR_SHAPE = true) as Hall by done.
    rewrite forallb_forall in Hall. apply Nat.eqb_eq, Hall, list_elem_of_In. by eapply list_elem_of_lookup_2. }
  destruct (vget_range row px) as (c & -> & ->); [lia|done].
Qed.

Section cursor_spec.
Context {W : Type} `{!PixelWriter W} `{!Canvas W}.

(** The part of the cursor drawn before pixel [dx] of row [dy]. *)
Definition cursor_upto (w : W) (dx dy : Z) (w' : W) : Prop :=
  canvas_ok w' ∧ canvas_size w' = canvas_size w ∧
  ∀ px py, visible w px py → pixel w' px py =
    if decide (0 ≤ px < 15 ∧ 0 ≤ py < dy ∨ 0 ≤ px < dx ∧ py = dy) then cursor_color (cursor_char px py) else pixel w px py.

Lemma draw_cursor_ok (w : W) :
  canvas_ok w → 15 ≤ (canvas_size w).1 → 24 ≤ (canvas_size w).2 →
  ∃ w', draw_cursor w = Ret w' ∧ cursor_upto w 0 24 w'.
Proof.
  intros Hw H1 H2. unfold draw_cursor.
  destruct (foldM_inv (λ i w', cursor_upto w 0 (Z.of_nat i) w') (λ writer dy,
    row ← vget MOUSE_CURSOR_SHAPE dy;
    foldM (λ writer dx, c ← vget row dx; write writer {| x := dx; y := dy |} (cursor_color c)) (range 0 15) writer)
    (range 0 24) w) as (w' & E & HI).
  - split; [done|]. split; [done|]. intros px py _. by rewrite decide_False by lia.
  - intros i dy w1 [-> Hdy]%range_lookup Hw1. rewrite Z.add_0_l in *.
    destruct (cursor_shape (Z.of_nat i)) as (row & -> & Hrow); [lia|]. rewrite bind_Ret.
    destruct (foldM_inv (λ j w', cursor_upto w (Z.of_nat j) (Z.of_nat i) w')
      (λ writer dx, c ← vget row dx; write writer {| x := dx; y := Z.of_nat i |} (cursor_color c))
      (range 0 15) w1 Hw1) as (w2 & E & HI); [|exists w2; split; [exact E|]; revert HI].
    + intros j dx w2 [-> Hdx]%range_lookup (Hok2 & Hs2 & Hp2). rewrite Z.add_0_l in *. rewrite Hrow, bind_Ret by lia.
      destruct (write_spec w2 {| x := Z.of_nat j; y := Z.of_nat i |} (cursor_color (cursor_char (Z.of_nat j) (Z.of_nat i))) Hok2)
        as (w3 & -> & Hok3 & Hs3 & Hp3); [simpl; rewrite Hs2; lia..|].
      exists w3. split; [done|]. split; [done|]. split; [congruence|]. intros px py Hv. rewrite Hs2 in Hp3.
      rewrite Hp3 by apply Hv. rewrite Hp2 by done. simpl x. simpl y.
      destruct (decide (px = Z.of_nat j ∧ py = Z.of_nat i)) as [[-> ->]|Hne]; [by rewrite decide_True by lia|].
      destruct (decide (0 ≤ px < 15 ∧ 0 ≤ py < Z.of_nat i ∨ 0 ≤ px < Z.of_nat j ∧ py = Z.of_nat i));
        [by rewrite decide_True by lia|by rewrite decide_False by lia].
    + intros (Hok2 & Hs2 & Hp2). split; [done|]. split; [done|]. intros px py Hv. rewrite Hp2 by done.
      rewrite range_length. change (Z.of_nat (Z.to_nat (15 - 0))) with 15.
      destruct (decide (0 ≤ px < 15 ∧ 0 ≤ py < Z.of_nat i ∨ 0 ≤ px < 15 ∧ py = Z.of_nat i));
        [by rewrite decide_True by lia|by rewrite decide_False by lia].
  - exists w'. split; [exact E|]. exact HI.
Qed.

End cursor_spec.

(** ** Configuration is kept by drawing *)

Lemma fill_rect_conf (fb : FrameBuffer) p s c fb' : fill_rect fb p s c = Ret fb' → conf fb' = conf fb.
Proof.
  apply foldM_conf. intros b dx b'. apply foldM_conf. intros d dy d' H. inv_outcome. by eapply write_conf.
Qed.

Lemma write_string_conf (fb : FrameBuffer) gx gy str c fb' : write_string fb gx gy str c = Ret fb' → conf fb' = conf fb.
Proof. apply foldM_conf. intros b i b' H. inv_outcome. by eapply write_ascii_conf. Qed.

Lemma draw_cursor_conf (fb fb' : FrameBuffer) : draw_cursor fb = Ret fb' → conf fb' = conf fb.
Proof.
  apply foldM_conf. intros b dy b' H. inv_outcome. revert H. apply foldM_conf. intros d dx d' H. inv_outcome. by eapply write_conf.
Qed.

Lemma draw_window_conf fb title fb' : draw_window fb title = Ret fb' → conf fb' = conf fb.
Proof.
  unfold draw_window. intros H. inv_outcome.
  repeat match goal with
  | H : fill_rect _ _ _ _ = Ret _ |- _ => apply fill_rect_conf in H
  | H : write_string _ _ _ _ _ = Ret _ |- _ => apply write_string_conf in H
  end. congruence.
Qed.

(** ** Windows with a picture *)

(** [f] paints the picture [pic] on any buffer of this size. *)
Definition paints (w h : Z) (f : FrameBuffer → outcome FrameBuffer) (pic : Z → Z → PixelColor) : Prop :=
  ∀ fb, sized fb w h → ∃ fb', f fb = Ret fb' ∧ conf fb' = conf fb ∧ fb_ok fb' ∧
    ∀ px py, 0 ≤ px < w → 0 ≤ py < h → fb_pixel fb' px py = pic px py.

Lemma paints_window w h title :
  Forall (λ c, 0 ≤ c < 256) title → 30 ≤ w < 2 ^ 31 → 21 ≤ h < 2 ^ 31 → 24 + 8 * zlen title ≤ w →
  paints w h (λ back, draw_window back title) (window_picture w h title).
Proof.
  intros Ht Hw Hh Hl fb Hs. destruct (draw_window_ok fb w h title) as (fb' & E & Hs' & Hp); [done..|].
  exists fb'. split; [done|]. split; [by eapply draw_window_conf|]. split; [apply Hs'|done].
Qed.

Lemma paints_cursor : paints 15 24 draw_cursor (λ px py, cursor_color (cursor_char px py)).
Proof.
  intros fb [Hok Hw Hh]. destruct (draw_cursor_ok fb) as (fb' & E & Hok' & _ & Hp); [exact Hok|simpl; lia..|].
  exists fb'. split; [done|]. split; [by eapply draw_cursor_conf|]. split; [done|]. intros px py Hx Hy.
  change (@pixel _ _ FrameBuffer_canvas) with fb_pixel in Hp. rewrite Hp by (unfold visible; simpl; lia).
  by rewrite decide_True by lia.
Qed.

(** Text drawn first is painted over. *)
Lemma paints_test_window : paints 160 68 test_window_content (window_picture 160 68 (as_bytes "test window")).
Proof.
  intros fb Hs. unfold test_window_content.
  destruct (text_ok fb 160 68 24 28 (as_bytes "Welcome to") (0, 0, 0) Hs) as (f1 & E1 & S1 & _);
    [by repeat constructor|lia|vm_compute; congruence|lia|lia|].
  destruct (text_ok f1 160 68 24 44 (as_bytes "Mikanami world!") (0, 0, 0) S1) as (f2 & E2 & S2 & _);
    [by repeat constructor|lia|vm_compute; congruence|lia|lia|].
  destruct (paints_window 160 68 (as_bytes "test window")) with (fb := f2) as (f3 & E3 & C3 & Hok & Hp);
    [by repeat constructor|lia|lia|vm_compute; congruence|done|].
  rewrite E1, bind_Ret, E2, bind_Ret, E3. exists f3. apply write_string_conf in E1, E2.
  split; [done|]. split; [congruence|done].
Qed.

Lemma window_start fmt w h f pic :
  0 ≤ w < 2 ^ 30 → 0 ≤ h < 2 ^ 30 → paints w h f pic →
  ∃ win b1 b2, Window_new (Some fmt) w h = Ret win ∧ width win = w ∧ height win = h ∧
    transparant_color win = None ∧ pos win = {| x := 0; y := 0 |} ∧
    write_with (buffer win) f = Ret b1 ∧ flush b1 = Ret b2 ∧ is_updated b2 = true ∧
    fb_ok (fore b2) ∧ conf (fore b2) = {| pixels_per_scanline := w; horizontal_resolution := w;
      vertical_resolution := h; pixel_format := fmt |} ∧ conf (back b2) = conf (fore b2) ∧ fb_ok (back b2) ∧
    ∀ px py, 0 ≤ px < w → 0 ≤ py < h → fb_pixel (fore b2) px py = pic px py.
Proof.
  intros Hw Hh Hf. destruct (FrameBuffer_new_ok fmt w h) as (fb & E & Hok & Hcf); [lia..|].
  destruct (Hf fb) as (fb' & Ef & Hc & Hok' & Hp); [by split; rewrite ?Hcf|].
  destruct (copy_ok fb {| x := 0; y := 0 |} fb' Hok Hok') as (fc & Ec & Hokc & Hcc & Hpc);
    [by rewrite Hc|rewrite ?Hc, ?Hcf; simpl; lia..|].
  unfold Window_new, BufferedCanvas_new. rewrite E, !bind_Ret.
  exists {| pos := {| x := 0; y := 0 |}; width := w; height := h; transparant_color := None;
            buffer := {| fore := fb; back := fb; is_updated := false |} |},
    {| fore := fb; back := fb'; is_updated := true |}, {| fore := fc; back := fb'; is_updated := true |}.
  unfold write_with, flush. simpl. rewrite Ef, Ec, !bind_Ret.
  split_and!; try done; [congruence|congruence|]. intros px py Hx Hy. rewrite Hpc by (rewrite Hcf; simpl; lia).
  rewrite decide_True; [simpl; rewrite !Z.sub_0_r; by apply Hp|]. unfold covers. rewrite Hc, Hcf. simpl. lia.
Qed.

Lemma new_layer_ok m win :
  zlen (layers m) < 2 ^ 63 → new_layer m win = Ret (with_layers m (layers m ++ [win]), zlen (layers m)).
Proof.
  intros H. unfold new_layer. rewrite length_app. cbn [length]. rewrite usize_sub_ok, bind_Ret by lia. do 2 f_equal. lia.
Qed.

(** What a window with a known picture contributes to the screen. *)
Lemma win_pixel_shown win pic px py {w h} :
  (∀ qx qy, 0 ≤ qx < w → 0 ≤ qy < h → fb_pixel (fore (buffer win)) qx qy = pic qx qy) → width win = w → height win = h →
  win_pixel win px py =
    if decide (x (pos win) ≤ px < x (pos win) + w ∧ y (pos win) ≤ py < y (pos win) + h) then
      if decide (transparant_color win = Some (pic (px - x (pos win)) (py - y (pos win)))) then None
      else Some (pic (px - x (pos win)) (py - y (pos win)))
    else None.
Proof.
  intros Hp Hw Hh. unfold win_pixel. rewrite Hw, Hh.
  destruct (decide (x (pos win) ≤ px < x (pos win) + w ∧ _)); [|done]. by rewrite Hp by lia.
Qed.

(** The screen with the two windows of [initialize_windows] over [old]. *)
Definition desktop_picture (old : Z → Z → PixelColor) (px py : Z) : PixelColor :=
  if decide ((0 ≤ px < 15 ∧ 0 ≤ py < 24) ∧ cursor_color (cursor_char px py) ≠ (1, 1, 1))
  then cursor_color (cursor_char px py)
  else if decide (100 ≤ px < 260 ∧ 200 ≤ py < 268)
  then window_picture 160 68 (as_bytes "test window") (px - 100) (py - 200)
  else old px py.

(** C29: the windows at start. On a fresh manager the cursor and the test window are
    created, drawn and stacked (the cursor on top) without a panic, and the next [draw]
    shows the cursor over the framed test window. The test window is empty: the two lines
    of welcome text are drawn before the frame, which paints over them. *)
Theorem initialize_windows_shows (m : LayeredWindowManager) :
  manager_ok m → layers m = [] → layer_stack m = [] →
  ∃ m', initialize_windows (Some (pixel_format (conf (screen m)))) m = Ret (m', 0, 1) ∧
    manager_ok m' ∧ layer_stack m' = [1; 0] ∧
    ∀ px py, composed m' px py = desktop_picture (fb_pixel (shadow m)) px py.
Proof.
  intros Hm Hl Hs. set (fmt := pixel_format (conf (screen m))).
  destruct (window_start fmt 15 24 _ _ ltac:(lia) ltac:(lia) paints_cursor)
    as (w1 & b1 & b1' & E1 & W1 & H1 & T1 & P1 & D1 & F1 & U1 & O1 & C1 & _ & _ & X1).
  destruct (window_start fmt 160 68 _ _ ltac:(lia) ltac:(lia) paints_test_window)
    as (w2 & b2 & b2' & E2 & W2 & H2 & T2 & P2 & D2 & F2 & U2 & O2 & C2 & _ & _ & X2).
  unfold initialize_windows. rewrite E1, bind_Ret. cbn [buffer set_transparent_color]. rewrite D1, bind_Ret, F1, bind_Ret.
  rewrite (new_layer_ok m) by (rewrite Hl; done). rewrite !bind_Ret, Hl.
  rewrite E2, bind_Ret. cbn [buffer window_move_to]. rewrite D2, bind_Ret, F2, bind_Ret.
  rewrite new_layer_ok by done. rewrite !bind_Ret. cbn [layers Window.with_layers app length].
  rewrite (up_down_ok _ 1 1) by lia. rewrite !bind_Ret. rewrite (up_down_ok _ 0 2) by lia. rewrite !bind_Ret.
  set (mw := with_buffer (set_transparent_color w1 (Some (1, 1, 1))) b1').
  set (tw := with_buffer (window_move_to w2 {| x := 100; y := 200 |}) b2').
  exists {| layers := [mw; tw]; layer_stack := [1; 0]; shadow := shadow m; screen := screen m |}.
  split; [unfold others; cbn [layer_stack with_stack Window.with_layers]; by rewrite Hs|].
  split; [|split; [done|]].
  - destruct Hm as [M1 M2 M3 M4 M5 M6 M7]. split; cbn; try done; [repeat constructor; lia|].
    apply list.Forall_cons; split; [|apply list.Forall_cons; split; [|constructor]];
      split; cbn; rewrite ?C1, ?C2, ?W1, ?W2, ?H1, ?H2, ?P1; cbn; try done; lia.
  - intros px py. unfold composed. cbn [layer_stack shadow]. cbn [omap list_omap].
    change (layer_pixel _ px py 1) with (if is_updated b2' then win_pixel tw px py else None).
    change (layer_pixel _ px py 0) with (if is_updated b1' then win_pixel mw px py else None).
    rewrite U1, U2. unfold desktop_picture.
    rewrite (win_pixel_shown tw _ px py X2 W2 H2), (win_pixel_shown mw _ px py X1 W1 H1).
    cbn [tw mw pos transparant_color with_buffer window_move_to set_transparent_color x y]. rewrite T2, P1. cbn [x y].
    rewrite !Z.sub_0_r, !Z.add_0_l. change (100 + 160) with 260. change (200 + 68) with 268.
    rewrite (decide_False (P := None = Some _)) by done.
    destruct (decide (0 ≤ px < 15 ∧ 0 ≤ py < 24)) as [Hin|Hin]; [|rewrite (decide_False (P := _ ∧ _ ≠ _)) by tauto].
    2: by destruct (decide (100 ≤ px < 260 ∧ 200 ≤ py < 268)).
    destruct (decide (cursor_color (cursor_char px py) = (1, 1, 1))) as [->|Hc].
    + rewrite (decide_True (P := Some _ = Some _)) by done. rewrite (decide_False (P := _ ∧ _ ≠ _)) by naive_solver. by destruct (decide (100 ≤ px < 260 ∧ 200 ≤ py < 268)).
    + rewrite (decide_False (P := Some _ = Some _)) by congruence. rewrite (decide_True (P := _ ∧ _ ≠ _)) by done. by destruct (decide (100 ≤ px < 260 ∧ 200 ≤ py < 268)).
Qed.

(** ** The pointer *)

(** A window after [vset]: the manager stays well-formed. *)
Lemma manager_ok_update m i win win' :
  manager_ok m → layers m !! Z.to_nat i = Some win → 0 ≤ i →
  (window_ok (pixel_format (conf (screen m))) win → window_ok (pixel_format (conf (screen m))) win') →
  manager_ok (with_layers m (<[Z.to_nat i := win']> (layers m))).
Proof.
  intros [M1 M2 M3 M4 M5 M6 M7] Hi Hi0 Hw. split; cbn; rewrite ?length_insert; try done.
  apply list.Forall_insert; [done|]. apply Hw. apply (proj1 (list.Forall_forall _ _) M7). by eapply list_elem_of_lookup_2.
Qed.

Definition report_ok (r : Z * Z) : Prop := -128 ≤ r.1 ≤ 127 ∧ -128 ≤ r.2 ≤ 127.

Definition on_mouse_reports (m : LayeredWindowManager) (id : Z) (rs : list (Z * Z)) : outcome LayeredWindowManager :=
  foldM (λ m r, on_mouse_report m id r.1 r.2) rs m.

(** Where the pointer is after a report. *)
Definition pointer_move (w h : Z) (p : Vec2) (r : Z * Z) : Vec2 :=
  {| x := Z.min (Z.max (x p + r.1) 0) w; y := Z.min (Z.max (y p + r.2) 0) h |}.

Record pointer_at (m : LayeredWindowManager) (id w h : Z) (p : Vec2) : Prop := {
  pa_ok : manager_ok m;
  pa_w : horizontal_resolution (conf (screen m)) = w;
  pa_h : vertical_resolution (conf (screen m)) = h;
  pa_id : 0 ≤ id < zlen (layers m);
  pa_win : ∃ win, layers m !! Z.to_nat id = Some win ∧ pos win = p ∧ 0 ≤ width win ≤ 2 ^ 29 ∧ 0 ≤ height win ≤ 2 ^ 29;
  pa_x : 0 ≤ x p ≤ w;
  pa_y : 0 ≤ y p ≤ h;
}.

Lemma on_mouse_report_ok m id w h p r :
  pointer_at m id w h p → 0 ≤ w ≤ 2 ^ 29 → 0 ≤ h ≤ 2 ^ 29 → report_ok r →
  ∃ m', on_mouse_report m id r.1 r.2 = Ret m' ∧ pointer_at m' id w h (pointer_move w h p r).
Proof.
  intros [Hok Hw Hh Hid (win & Hwin & Hpos & Hww & Hwh) Hx Hy] Hw30 Hh30 [Hdx Hdy]. unfold on_mouse_report.
  rewrite Hw, Hh, !as_s_small by (done || (split; lia)). rewrite (vget_ok _ id win), bind_Ret by (done || lia).
  unfold vec2_add. rewrite Hpos. cbn [x y]. rewrite !i32_add_ok by lia. rewrite !bind_Ret.
  rewrite vset_ok, bind_Ret by done. set (p' := clamp _ _ _).
  assert (p' = pointer_move w h p r) as Hp' by done.
  assert (0 ≤ x p' ≤ w ∧ 0 ≤ y p' ≤ h) as [Hx' Hy'] by (rewrite Hp'; unfold pointer_move; cbn; lia).
  destruct (draw_ok (with_layers m (<[Z.to_nat id:=window_move_to win p']> (layers m)))) as (m' & -> & El & _ & Hok' & Hc & _).
  { eapply manager_ok_update; [done..|lia|]. intros [W1 W2 W3 W4 W5 W6]. split; cbn; try done; lia. }
  exists m'. split; [done|]. rewrite <- Hp'. cbn in El, Hc. split; rewrite ?El, ?Hc, ?length_insert; try done.
  eexists. split; [apply list_lookup_insert_eq; lia|done].
Qed.

(** C30: the pointer stays on the display. After any sequence of mouse reports, none of
    which panics, the cursor is where its movements, each cut off at the edges, lead, with
    coordinates from 0 to the width and height inclusive; it can therefore rest one pixel
    past the right or bottom edge, where nothing of it is visible. *)
Theorem pointer_clamped (m : LayeredWindowManager) (id w h : Z) (p : Vec2) (rs : list (Z * Z)) :
  pointer_at m id w h p → 0 ≤ w ≤ 2 ^ 29 → 0 ≤ h ≤ 2 ^ 29 → Forall report_ok rs →
  ∃ m', on_mouse_reports m id rs = Ret m' ∧ pointer_at m' id w h (fold_left (pointer_move w h) rs p).
Proof.
  intros Hp Hw Hh Hrs. unfold on_mouse_reports. revert m p Hp. induction Hrs as [|r rs Hr _ IH]; intros m p Hp; cbn [foldM fold_left].
  { by exists m. }
  destruct (on_mouse_report_ok m id w h p r Hp Hw Hh Hr) as (m1 & -> & Hp1). rewrite bind_Ret. by apply IH.
Qed.

(** ** Numbers *)

Definition decimal_value (l : list Z) : Z := fold_left (λ v d, 10 * v + (d - 48)) l 0.

Lemma decimal_digits_spec fuel v acc :
  0 ≤ v < 10 ^ Z.of_nat fuel →
  ∃ l, decimal_digits fuel v acc = l ++ acc ∧ (length l ≤ fuel)%nat ∧ Forall (λ d, 48 ≤ d < 58) l ∧ decimal_value l = v.
Proof.
  revert v acc. induction fuel as [|fuel IH]; intros v acc Hv.
  { exists []. simpl in *. split_and!; [done..|]. unfold decimal_value. simpl. lia. }
  rewrite Nat2Z.inj_succ, Z.pow_succ_r in Hv by lia. pose proof (Z.mod_pos_bound v 10 ltac:(lia)). cbn [decimal_digits].
  destruct (Z.ltb_spec v 10).
  - exists [48 + v mod 10]. split_and!; [done|simpl; lia|repeat constructor; lia|].
    unfold decimal_value. simpl. rewrite Z.mod_small; lia.
  - destruct (IH (v / 10) (48 + v mod 10 :: acc)) as (l & -> & Hl & Hd & Hval).
    { split; [apply Z.div_pos; lia|apply Z.div_lt_upper_bound; lia]. }
    exists (l ++ [48 + v mod 10]). rewrite <- app_assoc. split; [done|]. rewrite length_app. split; [simpl; lia|].
    split; [apply Forall_app; split; [done|repeat constructor; lia]|].
    unfold decimal_value in *. rewrite fold_left_app. cbn [fold_left]. rewrite Hval.
    pose proof (Z.div_mod v 10 ltac:(lia)). lia.
Qed.

Lemma decimal_digits_fuel k n w acc :
  (n ≤ k)%nat → (0 < n)%nat → 0 ≤ w < 10 ^ Z.of_nat n → decimal_digits k w acc = decimal_digits n w acc.
Proof.
  revert n w acc. induction k as [|k IH]; intros [|n] w acc Hk Hn Hw; try lia.
  cbn [decimal_digits]. destruct (Z.ltb_spec w 10); [done|]. rewrite Nat2Z.inj_succ, Z.pow_succ_r in Hw by lia.
  destruct n as [|n]; [simpl in Hw; lia|].
  apply IH; [lia|lia|]. split; [apply Z.div_pos; lia|apply Z.div_lt_upper_bound; lia].
Qed.

(** Numbers below [10^n] have at most [n] digits, and the digits denote the number. *)
Lemma to_decimal_spec v n :
  (0 < n ≤ 20)%nat → 0 ≤ v < 10 ^ Z.of_nat n → (length (to_decimal v) ≤ n)%nat ∧
    Forall (λ d, 48 ≤ d < 58) (to_decimal v) ∧ decimal_value (to_decimal v) = v.
Proof.
  intros Hn Hv. unfold to_decimal. rewrite (decimal_digits_fuel 20 n) by (done || lia).
  destruct (decimal_digits_spec n v [] Hv) as (l & -> & H). by rewrite app_nil_r.
Qed.

Lemma to_decimal_padded_spec v :
  0 ≤ v < 10 ^ 10 → length (to_decimal_padded 10 v) = 10%nat ∧
    Forall (λ d, 48 ≤ d < 58) (to_decimal_padded 10 v) ∧ decimal_value (to_decimal_padded 10 v) = v.
Proof.
  intros Hv. destruct (to_decimal_spec v 10 ltac:(lia) Hv) as (Hl & Hd & Hval). unfold to_decimal_padded. cbv zeta.
  rewrite length_app, length_replicate. split; [lia|]. split; [apply Forall_app; split; [by apply Forall_replicate|done]|].
  unfold decimal_value in *. rewrite fold_left_app.
  assert (∀ k, fold_left (λ v d, 10 * v + (d - 48)) (replicate k 48) 0 = 0) as -> by (induction k; done). done.
Qed.

(** ** The tick of the main loop *)

Definition draw_ticks (m : LayeredWindowManager) (test : Z) (ticks : list Z) : outcome LayeredWindowManager :=
  foldM (λ m t, draw_tick m test t) ticks m.

(** The test window as [initialize_windows] leaves it: 160 by 68 pixels, drawn once. *)
Record test_window_at (m : LayeredWindowManager) (test : Z) : Prop := {
  tw_ok : manager_ok m;
  tw_id : 0 ≤ test < zlen (layers m);
  tw_win : ∃ win, layers m !! Z.to_nat test = Some win ∧ sized (back (buffer win)) 160 68 ∧ is_updated (buffer win) = true;
}.

(** Composition does not depend on back buffers. *)
Lemma composed_back m test win b px py :
  layers m !! Z.to_nat test = Some win → 0 ≤ test → is_updated (buffer win) = true → is_updated b = true →
  fore b = fore (buffer win) → Forall (λ id, 0 ≤ id) (layer_stack m) →
  composed (with_layers m (<[Z.to_nat test := with_buffer win b]> (layers m))) px py = composed m px py.
Proof.
  intros Hw Ht Hu Hb Hf Hst. unfold composed. cbn [layer_stack shadow Window.with_layers]. do 2 f_equal.
  apply list_omap_ext. apply Forall_Forall2_diag. eapply Forall_impl; [exact Hst|]. intros id Hid.
  unfold layer_pixel. cbn [layers Window.with_layers]. destruct (decide (Z.to_nat id = Z.to_nat test)) as [->|Hne].
  - rewrite list_lookup_insert_eq by (by eapply lookup_lt_Some). rewrite Hw. cbn.
    rewrite Hu, Hb. unfold win_pixel. cbn. by rewrite Hf.
  - by rewrite list_lookup_insert_ne by done.
Qed.

Lemma draw_tick_ok m test tick :
  test_window_at m test → 0 ≤ tick < 10 ^ 10 →
  ∃ m', draw_tick m test tick = Ret m' ∧ test_window_at m' test ∧ conf (screen m') = conf (screen m) ∧
    ∀ px py, on_screen (screen m) px py →
      fb_pixel (screen m') px py = composed m px py ∧ composed m' px py = composed m px py.
Proof.
  intros [Hok Hid (win & Hwin & Hsz & Hup)] Ht. unfold draw_tick.
  rewrite (vget_ok _ test win), bind_Ret by (done || lia). unfold write_with.
  destruct (fill_ok (back (buffer win)) 160 68 24 28 (8 * 10) 16 (0xc6, 0xc6, 0xc6) Hsz) as (f1 & E1 & S1 & _); [lia..|].
  destruct (to_decimal_spec tick 10) as (Hl & Hd & _); [lia|done|].
  destruct (text_ok f1 160 68 24 28 (to_decimal tick) (0, 0, 0) S1) as (f2 & E2 & S2 & _); [|lia..|].
  { eapply Forall_impl; [exact Hd|]. cbn. intros. lia. }
  rewrite E1, bind_Ret, E2, !bind_Ret. rewrite vset_ok, bind_Ret by done.
  set (b := {| fore := fore (buffer win); back := f2; is_updated := true |}).
  set (m1 := with_layers m (<[Z.to_nat test:=with_buffer win b]> (layers m))).
  assert (manager_ok m1) as Hok1.
  { eapply manager_ok_update; [done..|lia|]. intros [W1 W2 W3 W4 W5 W6]. by split. }
  assert (∀ px py, composed m1 px py = composed m px py) as Hcomp.
  { intros px py. apply composed_back; [done|lia|done..|]. eapply Forall_impl; [apply (mo_stack _ Hok)|]. simpl. lia. }
  destruct (draw_ok m1 Hok1) as (m' & E & El & Est & Hok' & Hc & Hp). exists m'. split; [exact E|]. split.
  { split; [done|rewrite El; cbn; by rewrite length_insert|]. exists (with_buffer win b). rewrite El. cbn.
    split; [apply list_lookup_insert_eq; lia|done]. }
  split; [done|]. intros px py Hv. destruct (Hp px py Hv) as [H1 H2]. rewrite H1, Hcomp. split; [done|].
  rewrite <- (Hcomp px py) at 1. unfold composed at 1. rewrite H2, Est. unfold layer_pixel. rewrite El.
  fold (layer_pixel m1 px py). unfold composed. by destruct (last _).
Qed.

(** The tick counter of the main loop is never seen. Each turn writes it to the back
    buffer of the test window, but nothing copies it to the front: whatever ticks are
    written, every picture the main loop draws is the one it would have drawn without. *)
Lemma tick_never_shown (m : LayeredWindowManager) (test : Z) (ticks : list Z) :
  test_window_at m test → ticks ≠ [] → Forall (λ t, 0 ≤ t < 10 ^ 10) ticks →
  ∃ m', draw_ticks m test ticks = Ret m' ∧
    ∀ px py, on_screen (screen m) px py → fb_pixel (screen m') px py = composed m px py.
Proof.
  intros Hm Hne Hts. destruct ticks as [|t ts]; [done|]. clear Hne. unfold draw_ticks. revert m t Hm Hts.
  induction ts as [|t' ts IH]; intros m t Hm [Ht Hts]%list.Forall_cons;
    destruct (draw_tick_ok m test t Hm Ht) as (m1 & E & Hm1 & Hc & Hp); cbn [foldM]; rewrite E, bind_Ret.
  - exists m1. split; [done|]. intros px py Hv. by apply Hp.
  - destruct (IH m1 t' Hm1 Hts) as (m2 & E2 & Hp2). exists m2. split; [exact E2|]. intros px py Hv.
    rewrite Hp2 by (unfold on_screen in *; by rewrite Hc). by apply Hp.
Qed.

(** ** Task B *)

Definition taskB_picture (cnt px py : Z) : PixelColor :=
  if decide (in_text 24 28 (to_decimal_padded 10 cnt) px py) then (0, 0, 0)
  else if decide (24 ≤ px < 104 ∧ 28 ≤ py < 44) then (0xc6, 0xc6, 0xc6)
  else window_picture 160 52 (as_bytes "taskB!") px py.

Lemma paints_taskB cnt :
  0 ≤ cnt < 10 ^ 10 →
  paints 160 52 (λ back,
    back ← draw_window back (as_bytes "taskB!");
    back ← fill_rect back {| x := 24; y := 28 |} {| x := 80; y := 16 |} (0xc6, 0xc6, 0xc6);
    write_string back 24 28 (to_decimal_padded 10 cnt) (0, 0, 0)) (taskB_picture cnt).
Proof.
  intros Hc fb Hs. destruct (draw_window_ok fb 160 52 (as_bytes "taskB!")) as (f1 & E1 & S1 & P1);
    [done|by repeat constructor|lia|lia|vm_compute; congruence|].
  destruct (fill_ok f1 160 52 24 28 80 16 (0xc6, 0xc6, 0xc6) S1) as (f2 & E2 & S2 & P2); [lia..|].
  destruct (to_decimal_padded_spec cnt Hc) as (Hl & Hd & _).
  destruct (text_ok f2 160 52 24 28 (to_decimal_padded 10 cnt) (0, 0, 0) S2) as (f3 & E3 & S3 & P3); [|lia..|].
  { eapply Forall_impl; [exact Hd|]. cbn. intros. lia. }
  exists f3. rewrite E1, bind_Ret, E2, bind_Ret, E3. apply draw_window_conf in E1. apply fill_rect_conf in E2.
  apply write_string_conf in E3. split; [done|]. split; [congruence|]. split; [apply S3|].
  intros px py Hx Hy. rewrite P3, P2, P1 by done. done.
Qed.

(** Task B counts on the screen. A turn increments the counter and leaves the front
    buffer of its window showing the frame with the new value as ten decimal digits; the
    turn after [2^31 - 1] panics. *)
Lemma taskB_counts (win : Window) (cnt : Z) :
  sized (back (buffer win)) 160 52 → conf (fore (buffer win)) = conf (back (buffer win)) → fb_ok (fore (buffer win)) →
  0 ≤ cnt < 2 ^ 31 →
  if cnt =? 2 ^ 31 - 1 then taskB_turn win cnt = Panic Overflow else
  ∃ win', taskB_turn win cnt = Ret (win', cnt + 1) ∧
    sized (back (buffer win')) 160 52 ∧ conf (fore (buffer win')) = conf (back (buffer win')) ∧ fb_ok (fore (buffer win')) ∧
    decimal_value (to_decimal_padded 10 (cnt + 1)) = cnt + 1 ∧
    ∀ px py, 0 ≤ px < 160 → 0 ≤ py < 52 → fb_pixel (fore (buffer win')) px py = taskB_picture (cnt + 1) px py.
Proof.
  intros Hs Hcf Hf Hc. unfold taskB_turn. destruct (Z.eqb_spec cnt (2 ^ 31 - 1)) as [->|Hne]; [done|].
  rewrite i32_add_ok, bind_Ret by lia. cbv zeta.
  destruct (paints_taskB (cnt + 1) ltac:(lia) _ Hs) as (b' & Eb & Hcb & Hokb & Hpb).
  unfold write_with, flush. rewrite Eb, !bind_Ret. cbn [fore back is_updated].
  pose proof Hs as [_ Hw Hh].
  destruct (copy_ok (fore (buffer win)) {| x := 0; y := 0 |} b' Hf Hokb) as (fc & Ec & Hokc & Hcc & Hpc);
    [by rewrite Hcb, Hcf|rewrite ?Hcb, ?Hw, ?Hh; simpl; lia..|].
  rewrite Ec, !bind_Ret. eexists. split; [done|]. cbn. split_and!; try done; [split; [done|congruence..]|congruence|..].
  { apply to_decimal_padded_spec. lia. }
  intros px py Hx Hy. rewrite Hpc by (rewrite Hcf, ?Hw, ?Hh; lia).
  rewrite decide_True by (unfold covers; rewrite Hcb, Hw, Hh; simpl; lia). simpl. rewrite !Z.sub_0_r. by apply Hpb.
Qed.

(** ** Concrete desktops *)

Definition blank (w h : Z) : FrameBuffer :=
  {| fb_data := Shadow (replicate (Z.to_nat (4 * (w * h))) 0);
     conf := {| pixels_per_scanline := w; horizontal_resolution := w; vertical_resolution := h;
                pixel_format := PixelBGRResv8BitPerColor |} |}.

Lemma blank_sized w h : 0 ≤ w < 2 ^ 31 → 0 ≤ h < 2 ^ 31 → sized (blank w h) w h.
Proof.
  intros Hw Hh. split; [|done..]. split; simpl; try lia. unfold bytes. simpl. rewrite length_replicate. lia.
Qed.

Lemma draw_window_picture_witness :
  ∃ fb', draw_window (blank 40 30) (as_bytes "A") = Ret fb' ∧ fb_pixel fb' 5 5 = (0, 0, 0x84).
Proof.
  destruct (draw_window_picture (blank 40 30) 40 30 (as_bytes "A")) as (fb' & E & _ & Hp);
    [apply blank_sized; lia|by repeat constructor|lia|lia|vm_compute; congruence|].
  exists fb'. split; [exact E|]. rewrite Hp by lia. vm_compute. reflexivity.
Defined.

Definition empty_desktop : LayeredWindowManager :=
  {| layers := []; layer_stack := []; shadow := blank 320 280; screen := blank 320 280 |}.

Lemma empty_desktop_ok : manager_ok empty_desktop.
Proof. split; [apply blank_sized; lia|apply blank_sized; lia|reflexivity|reflexivity|reflexivity|constructor|constructor]. Qed.

Lemma initialize_windows_shows_witness :
  ∃ m', initialize_windows (Some PixelBGRResv8BitPerColor) empty_desktop = Ret (m', 0, 1) ∧
    composed m' 0 0 = (0, 0, 0) ∧ composed m' 110 232 = (0xc6, 0xc6, 0xc6).
Proof.
  destruct (initialize_windows_shows empty_desktop empty_desktop_ok) as (m' & E & _ & _ & Hp); [reflexivity..|].
  exists m'. split; [exact E|]. rewrite !Hp. split; vm_compute; reflexivity.
Defined.

Definition plain_window (w h : Z) : Window :=
  {| pos := {| x := 0; y := 0 |}; width := w; height := h; transparant_color := None;
     buffer := {| fore := blank w h; back := blank w h; is_updated := true |} |}.

Definition one_window : LayeredWindowManager :=
  {| layers := [plain_window 160 68]; layer_stack := [0]; shadow := blank 320 280; screen := blank 320 280 |}.

Lemma one_window_ok : manager_ok one_window.
Proof.
  split; [apply blank_sized; lia|apply blank_sized; lia|reflexivity|reflexivity|reflexivity|..];
    (apply list.Forall_cons; split; [|constructor]).
  - change (0 ≤ 0 < 1). lia.
  - split; [apply blank_sized; lia|reflexivity|reflexivity|reflexivity|cbn; lia|cbn; lia].
Qed.

Lemma pointer_clamped_witness :
  ∃ m', on_mouse_reports one_window 0 [(100, 100); (127, 127); (127, 127)] = Ret m' ∧
    pointer_at m' 0 320 280 {| x := 320; y := 280 |}.
Proof.
  apply (pointer_clamped one_window 0 320 280 {| x := 0; y := 0 |} [(100, 100); (127, 127); (127, 127)]);
    [|lia|lia|repeat constructor; simpl; lia].
  split; [exact one_window_ok|reflexivity|reflexivity|change (0 ≤ 0 < 1); lia| |cbn; lia|cbn; lia].
  exists (plain_window 160 68). split; [reflexivity|]. split; [reflexivity|]. cbn [width height plain_window]. lia.
Defined.

Lemma tick_never_shown_witness :
  ∃ m', draw_ticks one_window 0 [5; 42] = Ret m' ∧ fb_pixel (screen m') 25 30 = (0, 0, 0).
Proof.
  destruct (tick_never_shown one_window 0 [5; 42]) as (m' & E & Hp).
  - split; [exact one_window_ok|change (0 ≤ 0 < 1); lia|]. exists (plain_window 160 68).
    split; [reflexivity|]. split; [apply blank_sized; lia|reflexivity].
  - discriminate.
  - repeat constructor; lia.
  - exists m'. split; [exact E|]. rewrite Hp by (change (0 ≤ 25 < 320 ∧ 0 ≤ 30 < 280); lia). vm_compute. reflexivity.
Defined.

Lemma taskB_counts_witness :
  ∃ win', taskB_turn (plain_window 160 52) 41 = Ret (win', 42) ∧ decimal_value (to_decimal_padded 10 42) = 42.
Proof.
  destruct (taskB_counts (plain_window 160 52) 41) as (win' & E & _ & _ & _ & Hv & _);
    [apply blank_sized; lia|reflexivity|apply blank_sized; lia|lia|].
  exists win'. split; [exact E|exact Hv].
Defined.
