(* ===== verification/Kernel.v ===== *)
(** main.rs: the kernel after its initialisation. The main loop, the two interrupt handlers
    and the timers they share run as an interleaving of atomic steps; and the choice of the
    xHCI controller among the PCI devices.

    The main loop touches the message queue and the timer manager only with interrupts
    disabled, so each such access is one step and the handlers run between any two of them.
    What a turn of the loop draws is in Desktop; what the USB driver does with the call
    that an [Xhci] message causes is in Transfer and Runtime, and is counted here. *)

From S2P Require Import Prelude Events Timer Bitfield Pci.

(** ** Finding the controller *)

Section controllers.
Context {S : Type} (cfg_read : S → Z → Z) (cfg_write : S → Z → Z → S).

(** [pci.scan_all_bus().unwrap()] and [pci.get_devices()]. *)
Definition scan_devices : IO (S := S) (PCIController * list PCIDevice) := λ io,
  '(rc, io) ← scan_all_bus cfg_read cfg_write PCIController_new io;
  match rc.1 with
  | inl _ => l ← get_devices rc.2; Ret ((rc.2, l), io)
  | inr _ => Panic UnwrapNone
  end.

(** The registers [scan_pci_devices] reads for each line that it prints. *)
Fixpoint list_devices (l : list PCIDevice) : IO (S := S) () :=
  match l with
  | [] => io_ret ()
  | dev :: l =>
      io_bind (read_class_code cfg_read cfg_write dev) (λ _,
      io_bind (read_header_type cfg_read cfg_write dev) (λ _,
      io_bind (read_vendor_id cfg_read cfg_write dev) (λ _, list_devices l)))
  end.

Definition scan_pci_devices : IO (S := S) PCIController :=
  io_bind scan_devices (λ cl, io_bind (list_devices cl.2) (λ _, io_ret cl.1)).

(** The [for] loop of [find_xhc_device]. *)
Fixpoint pick_xhc (l : list PCIDevice) (xhc_device : option PCIDevice)
    : IO (S := S) (option PCIDevice) :=
  match l with
  | [] => io_ret xhc_device
  | dev :: l =>
      io_bind (read_class_code cfg_read cfg_write dev) (λ c,
      if matches c 0x0c 0x03 0x30 then
        io_bind (read_vendor_id cfg_read cfg_write dev) (λ v,
        if v =? 0x8086 then io_ret (Some dev) else pick_xhc l (Some dev))
      else pick_xhc l xhc_device)
  end.

Definition find_xhc_device : IO (S := S) PCIDevice :=
  io_bind scan_devices (λ cl,
  io_bind (pick_xhc cl.2 None) (λ xhc_device, io_lift (unwrap xhc_device))).

(** The [any] over the devices. *)
Fixpoint intel_ehci_found (l : list PCIDevice) : IO (S := S) bool :=
  match l with
  | [] => io_ret false
  | dev :: l =>
      io_bind (read_vendor_id cfg_read cfg_write dev) (λ v,
      if v =? 0x8086 then
        io_bind (read_class_code cfg_read cfg_write dev) (λ c,
        if matches c 0x0c 0x03 0x20 then io_ret true else intel_ehci_found l)
      else intel_ehci_found l)
  end.

(** The class code a function shows. *)
Definition class_of (s : S) (d : PCIDevice) : ClassCode :=
  {| base := as_u 8 (Z.land (Z.shiftr (conf cfg_read s d 0x08) 24) 0xff);
     sub := as_u 8 (Z.land (Z.shiftr (conf cfg_read s d 0x08) 16) 0xff);
     interface := as_u 8 (Z.land (Z.shiftr (conf cfg_read s d 0x08) 8) 0xff) |}.

Definition is_xhc (s : S) (d : PCIDevice) : bool := matches (class_of s d) 0x0c 0x03 0x30.
Definition is_ehci (s : S) (d : PCIDevice) : bool := matches (class_of s d) 0x0c 0x03 0x20.
Definition is_intel (s : S) (d : PCIDevice) : bool := vendor cfg_read s d =? 0x8086.

Lemma reads_class s d : reads s (read_class_code cfg_read cfg_write d) (class_of s d).
Proof. eapply reads_bind; [apply reads_confreg|apply reads_ret]. Qed.

#[local] Opaque matches vendor class_of.

Lemma reads_list_devices s l : reads s (list_devices l) ().
Proof.
  induction l as [|d l IH]; [apply reads_ret|]. eapply reads_bind; [apply reads_class|].
  eapply reads_bind; [eapply reads_bind; [apply reads_confreg|apply reads_ret]|].
  eapply reads_bind; [apply reads_vendor|exact IH].
Qed.

(** What the loop picks: the first Intel controller, else the last controller. *)
Fixpoint preferred (s : S) (l : list PCIDevice) (best : option PCIDevice) : option PCIDevice :=
  match l with
  | [] => best
  | d :: l => if is_xhc s d then if is_intel s d then Some d else preferred s l (Some d)
              else preferred s l best
  end.

Lemma reads_pick_xhc s l best : reads s (pick_xhc l best) (preferred s l best).
Proof.
  revert best. induction l as [|d l IH]; intros best; [apply reads_ret|].
  cbn [pick_xhc preferred]. unfold is_xhc, is_intel.
  eapply reads_bind; [apply reads_class|]. destruct (matches _ _ _ _); [|apply IH].
  eapply reads_bind; [apply reads_vendor|]. destruct (_ =? _); [apply reads_ret|apply IH].
Qed.

Lemma preferred_spec s l best :
  match preferred s l best with
  | Some d => (d ∈ l ∧ is_xhc s d = true ∨ best = Some d ∧ Forall (λ x, is_xhc s x = false) l) ∧
      ∀ x, x ∈ l → is_xhc s x = true → is_intel s x = true → is_intel s d = true
  | None => best = None ∧ Forall (λ x, is_xhc s x = false) l
  end.
Proof.
  revert best. induction l as [|d l IH]; intros best; cbn [preferred].
  { destruct best; [|by split]. split; [right; by split|]. intros x Hx. by apply elem_of_nil in Hx. }
  destruct (is_xhc s d) eqn:Ex; [destruct (is_intel s d) eqn:Ei|].
  - split; [left; split; [by left|done]|done].
  - specialize (IH (Some d)). destruct (preferred s l (Some d)) as [d'|]; [|by destruct IH].
    destruct IH as [Hd Hall]. split.
    + left. destruct Hd as [[? ?]|[[= ->] _]]; split; try done; [by right|by left].
    + intros x [->|Hx]%elem_of_cons ? Hi; [congruence|by eapply Hall].
  - specialize (IH best). destruct (preferred s l best) as [d'|].
    + destruct IH as [Hd Hall]. split.
      * destruct Hd as [[? ?]|[? ?]]; [left; split; [by right|done]|right; split; [done|by constructor]].
      * intros x [->|Hx]%elem_of_cons ? Hi; [congruence|by eapply Hall].
    + destruct IH. split; [done|by constructor].
Qed.

Lemma intel_ehci_ok s l :
  reads s (intel_ehci_found l) (existsb (λ d, is_intel s d && is_ehci s d) l).
Proof.
  induction l as [|d l IH]; [apply reads_ret|]. cbn [intel_ehci_found existsb].
  unfold is_intel at 1, is_ehci at 1.
  eapply reads_bind; [apply reads_vendor|]. destruct (_ =? _); cbn [andb]; [|exact IH].
  eapply reads_bind; [apply reads_class|]. destruct (matches _ _ _ _); [apply reads_ret|exact IH].
Qed.

(** A scan either finds all there is, or stops the kernel because there are too many. *)
Lemma scan_devices_ok io :
  (∃ c io', scan_all_bus cfg_read cfg_write PCIController_new io = Ret ((inr DevicesAreFull, c), io') ∧
    scan_devices io = Panic UnwrapNone) ∨
  (∃ c l io', scan_devices io = Ret ((c, l), io') ∧ space io' = space io ∧
    get_devices c = Ret l ∧ ∀ d, d ∈ l ↔ reachable cfg_read (space io) d).
Proof.
  destruct (scan_all_bus_ok cfg_read cfg_write (space io) PCIController_new [] io holds_new)
    as (r & c & io' & l & E & Hs & Hc & Hf & Hr); [done|done|].
  unfold scan_devices. rewrite E, bind_Ret. cbn [fst snd]. destruct r as [[]|[]].
  - right. exists c, l, io'. rewrite (holds_get c l Hc), bind_Ret. split_and!; try done.
    rewrite list.Forall_forall in Hf. intros d. split; [apply Hf|].
    destruct Hr as (_ & Hw & Hcl). intros (b & Hb & Hd).
    eapply closed_reach; [|done..]. intros x Hx. apply Hw. by exists b.
  - left. by exists c, io'.
Qed.

Lemma scan_pci_devices_ok io :
  scan_pci_devices io = Panic UnwrapNone ∨
  ∃ c l io', scan_pci_devices io = Ret (c, io') ∧ space io' = space io ∧ get_devices c = Ret l ∧
    ∀ d, d ∈ l ↔ reachable cfg_read (space io) d.
Proof.
  unfold scan_pci_devices, io_bind.
  destruct (scan_devices_ok io) as [(c & io' & _ & ->)|(c & l & io' & -> & Hs & Hg & Hl)]; [by left|right].
  rewrite bind_Ret. cbn [fst snd]. destruct (reads_list_devices (space io) l io' Hs) as (io2 & -> & Hs2).
  by exists c, l, io2.
Qed.

(** C24: the choice of the controller. Whatever is on the buses, [find_xhc_device] returns
    an xHCI controller that a scan reaches, one of Intel's if there is any, and leaves
    the configuration space alone. It panics exactly if there is none, or if there are
    too many devices for the table. *)
Theorem find_xhc_device_finds (io : Ports) :
  match find_xhc_device io with
  | Ret (d, io') => space io' = space io ∧ reachable cfg_read (space io) d ∧
      is_xhc (space io) d = true ∧
      ∀ x, reachable cfg_read (space io) x → is_xhc (space io) x = true →
        is_intel (space io) x = true → is_intel (space io) d = true
  | Panic p => p = UnwrapNone ∧
      ((∀ x, reachable cfg_read (space io) x → is_xhc (space io) x = false) ∨
       ∃ c io', scan_all_bus cfg_read cfg_write PCIController_new io = Ret ((inr DevicesAreFull, c), io'))
  | OutOfFuel => False
  end.
Proof.
  unfold find_xhc_device, io_bind.
  destruct (scan_devices_ok io) as [(c & io' & E & ->)|(c & l & io' & -> & Hs & _ & Hl)].
  { split; [done|right; by exists c, io']. }
  rewrite bind_Ret. cbn [fst snd].
  destruct (reads_pick_xhc (space io) l None io' Hs) as (io2 & -> & Hs2). rewrite bind_Ret.
  pose proof (preferred_spec (space io) l None) as Hp. unfold io_lift.
  destruct (preferred (space io) l None) as [d|]; cbn [unwrap mbind outcome_bind].
  - destruct Hp as [[[Hd Hx]|[? _]] Hall]; [|done]. split_and!; try done; [by apply Hl|].
    intros x Hx'. by apply Hall, Hl.
  - destruct Hp as [_ Hf]. rewrite list.Forall_forall in Hf. split; [done|left].
    intros x Hx. by apply Hf, Hl.
Qed.

End controllers.
#[local] Transparent matches vendor class_of.

(** ** Main loop and interrupts *)

(** Where the main task is. [ReadTick v] is about to call [get_current_tick] and
    [ArmTimer v t] about to call [add_timer(t + period, v)]; [Poll] is the head of the
    loop, [Idle] is between enabling interrupts and [hlt], [Halted] in [hlt]. *)
Inductive main_pc :=
  | ReadTick (v : Z) (next : main_pc)
  | ArmTimer (v t : Z) (next : main_pc)
  | Poll
  | Idle
  | Halted
  | Dispatch (msg : option Message).

Section kernel.
Context {H : Type} `{!MaxHeap H}.

(** [usb_calls], [eois] and [switches] count the calls of [usb::on_xhc_interrupt], of
    [notify_end_of_interrupt] and of [switch_tasks]. *)
Record Kernel := {
  timer : TimerManager H;
  EVENTS : MessageQueue;
  pc : main_pc;
  usb_calls : nat;
  eois : nat;
  switches : nat;
}.

(** The state when interrupts are first enabled. *)
Definition boot : outcome Kernel :=
  m ← initialize_timer;
  Ret {| timer := m; EVENTS := new 1024; pc := ReadTick 1 (ReadTick 2 Poll);
         usb_calls := 0; eois := 0; switches := 0 |}.

Definition period (v : Z) : Z := if v =? 1 then 200 else 600.

Definition at_pc (k : Kernel) (p : main_pc) : Kernel :=
  {| timer := timer k; EVENTS := EVENTS k; pc := p; usb_calls := usb_calls k;
     eois := eois k; switches := switches k |}.

(** An interrupt ends a [hlt]. *)
Definition woken (p : main_pc) : main_pc := match p with Halted => Poll | _ => p end.

(** [notify_end_of_interrupt], and back to the interrupted task. *)
Definition notify_end_of_interrupt (k : Kernel) : Kernel :=
  {| timer := timer k; EVENTS := EVENTS k; pc := woken (pc k); usb_calls := usb_calls k;
     eois := S (eois k); switches := switches k |}.

Definition xhci_interrupt_handler (k : Kernel) : outcome Kernel :=
  '(q, _) ← push (EVENTS k) Xhci;
  Ret (notify_end_of_interrupt
    {| timer := timer k; EVENTS := q; pc := pc k; usb_calls := usb_calls k;
       eois := eois k; switches := switches k |}).

Definition switch_tasks (k : Kernel) : Kernel :=
  {| timer := timer k; EVENTS := EVENTS k; pc := pc k; usb_calls := usb_calls k;
     eois := eois k; switches := S (switches k) |}.

Definition lapic_interrupt_handler (k : Kernel) : outcome Kernel :=
  '(m, q, task_timer_timeout) ← tick_ (timer k) (EVENTS k) 1;
  let k := notify_end_of_interrupt
    {| timer := m; EVENTS := q; pc := pc k; usb_calls := usb_calls k;
       eois := eois k; switches := switches k |} in
  Ret (if (task_timer_timeout : bool) then switch_tasks k else k).

(** The [match] at the end of a turn. *)
Definition handle_message (k : Kernel) (msg : option Message) : Kernel :=
  match msg with
  | Some Xhci =>
      {| timer := timer k; EVENTS := EVENTS k; pc := Poll; usb_calls := S (usb_calls k);
         eois := eois k; switches := switches k |}
  | Some (TimerTimeout val) =>
      if val =? 1 then at_pc k (ReadTick 1 Poll)
      else if val =? 2 then at_pc k (ReadTick 2 Poll)
      else at_pc k Poll
  | None => at_pc k Poll
  end.

(** One step of the main task. *)
Definition main_step (k : Kernel) : outcome Kernel :=
  match pc k with
  | ReadTick v next => Ret (at_pc k (ArmTimer v (tick (timer k)) next))
  | ArmTimer v t next =>
      to ← usize_add t (period v);
      Ret {| timer := add_timer (timer k) to v; EVENTS := EVENTS k; pc := next;
             usb_calls := usb_calls k; eois := eois k; switches := switches k |}
  | Poll =>
      if cnt (EVENTS k) =? 0 then Ret (at_pc k Idle)
      else
        '(q, msg) ← pop (EVENTS k);
        Ret {| timer := timer k; EVENTS := q; pc := Dispatch msg; usb_calls := usb_calls k;
               eois := eois k; switches := switches k |}
  | Idle => Ret (at_pc k Halted)
  | Halted => Ret k
  | Dispatch msg => Ret (handle_message k msg)
  end.

Inductive action := MainStep | XhciIrq | LapicIrq.

Definition kernel_step (k : Kernel) (a : action) : outcome Kernel :=
  match a with
  | MainStep => main_step k
  | XhciIrq => xhci_interrupt_handler k
  | LapicIrq => lapic_interrupt_handler k
  end.

(** The states a schedule goes through, the first one included. *)
Fixpoint run_kernel (k : Kernel) (acts : list action) : outcome (list Kernel) :=
  match acts with
  | [] => Ret [k]
  | a :: acts => k' ← kernel_step k a; tr ← run_kernel k' acts; Ret (k :: tr)
  end.

(** ** What is in flight of a periodic timer *)

Definition waiting (v : Z) (m : TimerManager H) : nat :=
  length (filter (λ t, value t = v) (heap_elems (timers m))).

Definition queued (v : Z) (l : list Message) : nat :=
  length (filter (λ m, m = TimerTimeout v) l).

Fixpoint held (v : Z) (p : main_pc) : nat :=
  match p with
  | ReadTick u next | ArmTimer u _ next => (if decide (u = v) then 1 else 0) + held v next
  | Dispatch msg => if decide (msg = Some (TimerTimeout v)) then 1 else 0
  | _ => 0
  end.

(** The timer [v] as an entry of the heap, as a message, or in the main task's hands. *)
Definition in_flight (v : Z) (k : Kernel) : nat :=
  waiting v (timer k) + queued v (contents (EVENTS k)) + held v (pc k).

Definition queue_full (k : Kernel) : Prop := cnt (EVENTS k) = zlen (data (EVENTS k)).

Definition is_irq (a : action) : bool := match a with MainStep => false | _ => true end.
Definition is_lapic (a : action) : bool := match a with LapicIrq => true | _ => false end.
Definition occurrences (f : action → bool) (acts : list action) : nat :=
  length (filter (λ a, f a = true) acts).

(** Only the two periods of the program are armed, and ticks read are not in the future. *)
Fixpoint pc_ok (now : Z) (p : main_pc) : Prop :=
  match p with
  | ReadTick v next => (v = 1 ∨ v = 2) ∧ pc_ok now next
  | ArmTimer v t next => (v = 1 ∨ v = 2) ∧ 0 ≤ t ≤ now ∧ pc_ok now next
  | _ => True
  end.

(** Invariant of every schedule, after [n] timer interrupts and [e] interrupts in all. *)
Record kernel_inv (n e : nat) (k : Kernel) : Prop := {
  ki_queue : queue_ok (EVENTS k);
  ki_task : task_inv (timer k);
  ki_tick : tick (timer k) = Z.of_nat n;
  ki_pc : pc_ok (tick (timer k)) (pc k);
  ki_eois : eois k = e;
  ki_switches : switches k = (n / 3)%nat;
}.

Definition periodic (v : Z) : Prop := v = 1 ∨ v = 2.

Lemma pc_ok_mono n n' p : n ≤ n' → pc_ok n p → pc_ok n' p.
Proof. intros Hn. induction p; simpl; intuition lia. Qed.

Lemma pc_ok_woken n p : pc_ok n p → pc_ok n (woken p).
Proof. by destruct p. Qed.

Lemma held_woken v p : held v (woken p) = held v p.
Proof. by destruct p. Qed.

Lemma queued_app v l1 l2 : queued v (l1 ++ l2) = (queued v l1 + queued v l2)%nat.
Proof. unfold queued. by rewrite filter_app, length_app. Qed.

Lemma queued_take v n l : (queued v (take n l) ≤ queued v l)%nat.
Proof. rewrite <- (take_drop n l) at 2. rewrite queued_app. lia. Qed.

(** The messages of the expired timers. *)
Lemma queued_messages v ts :
  periodic v → queued v (messages ts) = length (filter (λ t, value t = v) ts).
Proof.
  intros Hv. induction ts as [|t ts IH]; [done|]. unfold messages in *.
  rewrite !filter_cons. unfold queued in *.
  assert (is_task t = (value t =? TASK_TIMER_VALUE)) as -> by done. unfold TASK_TIMER_VALUE.
  destruct (Z.eqb_spec (value t) 0) as [E|E].
  - rewrite (decide_False (P := true = false)), decide_False, IH; [done| |done]. destruct Hv; lia.
  - rewrite (decide_True (P := false = false)) by done. rewrite fmap_cons, filter_cons.
    destruct (decide (value t = v)) as [Ev|Hn].
    + rewrite decide_True by congruence. cbn [length]. by rewrite IH.
    + by rewrite decide_False, IH by congruence.
Qed.

Lemma waiting_split v (m : TimerManager H) now :
  waiting v m =
  (length (filter (λ t, value t = v) (filter (λ t, is_over t now = true) (heap_elems (timers m)))) +
   length (filter (λ t, value t = v) (filter (λ t, is_over t now = false) (heap_elems (timers m)))))%nat.
Proof.
  unfold waiting. induction (heap_elems (timers m)) as [|t l IH]; [done|].
  rewrite !filter_cons. destruct (is_over t now) eqn:E.
  - rewrite (decide_True (P := true = true)), (decide_False (P := true = false)) by done.
    rewrite filter_cons. case_decide; simpl; lia.
  - rewrite (decide_True (P := false = false)), (decide_False (P := false = true)) by done.
    rewrite filter_cons. case_decide; simpl; lia.
Qed.

Lemma waiting_renewed v now ts :
  periodic v → filter (λ t, value t = v) (renewed now ts) = [].
Proof.
  intros Hv. apply filter_none, Forall_replicate. cbn [task_timer value]. unfold TASK_TIMER_VALUE.
  destruct Hv; lia.
Qed.

(** A timer interrupt turns due timers into messages; only a full queue loses any. *)
Lemma tick_in_flight v m ev m' ev' b popped :
  periodic v → tick_post m ev 1 m' ev' b popped →
  (waiting v m' + queued v (sink_contents ev') ≤ waiting v m + queued v (sink_contents ev))%nat ∧
  ((length (sink_contents ev') < sink_capacity ev)%nat →
   waiting v m' + queued v (sink_contents ev') = waiting v m + queued v (sink_contents ev))%nat.
Proof.
  intros Hv [_ Hp _ He _ Hc _]. rewrite (waiting_split v m (tick m + 1)).
  assert (waiting v m' = length (filter (λ t, value t = v)
    (filter (λ t, is_over t (tick m + 1) = false) (heap_elems (timers m))))) as ->.
  { unfold waiting. by rewrite He, filter_app, waiting_renewed, app_nil_r. }
  assert (length (filter (λ t, value t = v)
    (filter (λ t, is_over t (tick m + 1) = true) (heap_elems (timers m)))) =
    queued v (messages popped)) as ->.
  { rewrite queued_messages by done. by rewrite Hp. }
  rewrite Hc. pose proof (queued_take v (sink_capacity ev) (sink_contents ev ++ messages popped)) as Hq.
  rewrite queued_app in Hq. split; [lia|]. rewrite length_take. intros Hl.
  rewrite take_ge, queued_app by lia. lia.
Qed.

(** Handling an interrupt or taking a step keeps what is in flight; it may only lose a
    timer when the queue is full afterwards. *)
Definition keeps (k k' : Kernel) : Prop := ∀ v, periodic v →
  (in_flight v k' ≤ in_flight v k)%nat ∧ (¬ queue_full k' → in_flight v k' = in_flight v k).

Lemma not_full_length k :
  queue_ok (EVENTS k) → ¬ queue_full k →
  (length (contents (EVENTS k)) < length (data (EVENTS k)))%nat.
Proof.
  intros Hq Hf. pose proof (contents_length _ Hq). pose proof (qo_cnt _ Hq).
  unfold queue_full in Hf. lia.
Qed.

Lemma div3_step n : (S n / 3)%nat = if Z.of_nat (S n) mod 3 =? 0 then S (n / 3) else (n / 3)%nat.
Proof.
  pose proof (Nat.div_mod_eq n 3). pose proof (Nat.mod_upper_bound n 3 ltac:(lia)).
  pose proof (Nat.div_mod_eq (S n) 3). pose proof (Nat.mod_upper_bound (S n) 3 ltac:(lia)).
  pose proof (Z.div_mod (Z.of_nat (S n)) 3 ltac:(lia)).
  pose proof (Z.mod_pos_bound (Z.of_nat (S n)) 3 ltac:(lia)).
  destruct (Z.eqb_spec (Z.of_nat (S n) mod 3) 0); lia.
Qed.

Lemma lapic_step_ok n e k :
  kernel_inv n e k → Z.of_nat n + 601 < 2 ^ 64 →
  ∃ k', lapic_interrupt_handler k = Ret k' ∧ kernel_inv (S n) (S e) k' ∧ keeps k k'.
Proof.
  intros [Hq Ht Htk Hpc He Hs] Hb. unfold lapic_interrupt_handler.
  destruct (tick_ok (timer k) (EVENTS k) 1) as (m & q & b & p & -> & Hp);
    [lia|lia|rewrite task_period_2; lia|done|]. rewrite bind_Ret.
  destruct (task_inv_tick _ _ _ _ _ _ Ht Hp) as [Ht' Hb'].
  pose proof (tp_tick _ _ _ _ _ _ _ Hp) as Htk'. destruct (tp_sink _ _ _ _ _ _ _ Hp) as [Hq' Hlen].
  eexists. split; [reflexivity|].
  assert (pc_ok (tick m) (woken (pc k))) as Hpc'.
  { apply pc_ok_woken. eapply pc_ok_mono; [|exact Hpc]. lia. }
  assert ((if b then S (switches k) else switches k) = (S n / 3)%nat) as Hs'.
  { rewrite div3_step, Hb', Htk', Htk, Hs. by replace (Z.of_nat n + 1) with (Z.of_nat (S n)) by lia. }
  split; [destruct b; split; simpl; try done; lia|].
  intros v Hv. destruct (tick_in_flight v _ _ _ _ _ _ Hv Hp) as [Hle Heq].
  unfold in_flight, queue_full. cbn [sink_contents sink_capacity MessageQueue_sink] in *.
  destruct b; cbn [timer EVENTS pc notify_end_of_interrupt switch_tasks]; rewrite held_woken;
    (split; [lia|]); intros Hf; rewrite Heq; try done;
    pose proof (contents_length _ Hq'); pose proof (qo_cnt _ Hq'); lia.
Qed.

Lemma xhci_step_ok n e k :
  kernel_inv n e k →
  ∃ k', xhci_interrupt_handler k = Ret k' ∧ kernel_inv n (S e) k' ∧ keeps k k'.
Proof.
  intros [Hq Ht Htk Hpc He Hs]. unfold xhci_interrupt_handler.
  destruct (push_sink (EVENTS k) Xhci Hq) as (q & b & -> & Hq' & Hlen & Hc). rewrite bind_Ret.
  eexists. split; [reflexivity|]. split.
  - split; simpl; try done; [by apply pc_ok_woken|by rewrite He].
  - intros v Hv. unfold in_flight. cbn [timer EVENTS pc notify_end_of_interrupt].
    rewrite held_woken, Hc. pose proof (sink_bounded (EVENTS k) Hq) as Hb. simpl in Hb.
    assert (queued v (contents (EVENTS k) ++ [Xhci]) = queued v (contents (EVENTS k))) as E.
    { rewrite queued_app. cbn. rewrite decide_False by done. cbn. lia. }
    assert (queued v (take (length (data (EVENTS k))) (contents (EVENTS k) ++ [Xhci])) =
      queued v (contents (EVENTS k))) as ->; [|done].
    destruct (decide (length (contents (EVENTS k)) = length (data (EVENTS k)))) as [El|El].
    + by rewrite <- El, take_app_length.
    + rewrite take_ge; [done|]. rewrite length_app. simpl. lia.
Qed.

Lemma main_step_ok n e k :
  kernel_inv n e k → Z.of_nat n + 600 < 2 ^ 64 →
  ∃ k', main_step k = Ret k' ∧ kernel_inv n e k' ∧ keeps k k'.
Proof.
  intros [Hq Ht Htk Hpc He Hs] Hb. unfold main_step.
  destruct (pc k) as [v next|v t next| | | |msg] eqn:Ep; simpl in Hpc.
  - eexists. split; [reflexivity|]. split; [split; simpl; try done; intuition lia|].
    intros u Hu. unfold in_flight. cbn [timer EVENTS pc at_pc held]. by rewrite Ep.
  - destruct Hpc as (Hv & Htv & Hn).
    assert (0 ≤ period v ≤ 600) by (unfold period; destruct (v =? 1); lia).
    rewrite usize_add_ok, bind_Ret by lia. eexists. split; [reflexivity|]. split.
    + split; simpl; try done. apply task_inv_add; [|done]. unfold TASK_TIMER_VALUE. lia.
    + intros u Hu. assert (waiting u (add_timer (timer k) (t + period v) v) =
        ((if decide (v = u) then 1 else 0) + waiting u (timer k))%nat) as E.
      { unfold waiting, add_timer. cbn [timers]. rewrite heap_push_spec, filter_cons.
        cbn [value]. by case_decide. }
      unfold in_flight. cbn [timer EVENTS pc]. rewrite E, Ep. cbn [held]. split; [lia|intros _; lia].
  - destruct (Z.eqb_spec (cnt (EVENTS k)) 0) as [E|E].
    + eexists. split; [reflexivity|]. split; [by split|].
      intros u Hu. unfold in_flight. cbn [timer EVENTS pc at_pc held]. by rewrite Ep.
    + pose proof (qo_cnt _ Hq) as Hc.
      destruct (pop_ok (EVENTS k) Hq ltac:(lia)) as (q & m & -> & Hq' & Ec & Hl). rewrite bind_Ret.
      eexists. split; [reflexivity|]. split; [by split|].
      intros u Hu. unfold in_flight. cbn [timer EVENTS pc held]. rewrite Ep, Ec.
      change (m :: contents q) with ([m] ++ contents q). rewrite queued_app.
      assert ((if decide (Some m = Some (TimerTimeout u)) then 1 else 0)%nat = queued u [m]) as ->.
      { unfold queued. rewrite filter_cons. repeat case_decide; simplify_eq; done. }
      cbn [held]. split; [lia|intros _; lia].
  - eexists. split; [reflexivity|]. split; [by split|].
    intros u Hu. unfold in_flight. cbn [timer EVENTS pc at_pc held]. by rewrite Ep.
  - eexists. split; [reflexivity|]. split; [split; try done; by rewrite Ep|]. intros u Hu. done.
  - eexists. split; [reflexivity|].
    assert (∀ u : Z, held u (pc (handle_message k msg)) = held u (Dispatch msg) ∨ ¬ periodic u) as Hh.
    { intros u. destruct msg as [[|w]|]; cbn [handle_message held pc]; [by left| |by left].
      unfold periodic. destruct (Z.eqb_spec w 1); [|destruct (Z.eqb_spec w 2)];
        cbn [at_pc pc held]; repeat case_decide; simplify_eq; lia || (left; congruence) || auto. }
    assert (timer (handle_message k msg) = timer k ∧ EVENTS (handle_message k msg) = EVENTS k ∧
      eois (handle_message k msg) = eois k ∧ switches (handle_message k msg) = switches k ∧
      pc_ok (tick (timer k)) (pc (handle_message k msg))) as (E1 & E2 & E3 & E4 & E5).
    { destruct msg as [[|w]|]; cbn [handle_message]; [done| |done].
      destruct (w =? 1); [|destruct (w =? 2)]; split_and!; simpl; auto. }
    split; [split; congruence|].
    intros u Hu. unfold in_flight. rewrite E1, E2, Ep. by destruct (Hh u) as [->|?].
Qed.

Lemma kernel_step_ok n e k a :
  kernel_inv n e k → Z.of_nat n + 601 < 2 ^ 64 →
  ∃ k', kernel_step k a = Ret k' ∧ keeps k k' ∧
    kernel_inv (n + (if is_lapic a then 1 else 0)) (e + (if is_irq a then 1 else 0)) k'.
Proof.
  intros Hk Hb. destruct a; simpl; rewrite ?Nat.add_0_r, ?Nat.add_1_r.
  - destruct (main_step_ok n e k Hk ltac:(lia)) as (k' & ? & ? & ?). eauto.
  - destruct (xhci_step_ok n e k Hk) as (k' & ? & ? & ?). eauto.
  - destruct (lapic_step_ok n e k Hk Hb) as (k' & ? & ? & ?). eauto.
Qed.

Lemma occurrences_cons f a acts :
  occurrences f (a :: acts) = ((if f a then 1 else 0) + occurrences f acts)%nat.
Proof. unfold occurrences. rewrite filter_cons. by destruct (f a). Qed.

(** A whole schedule, from any state that meets the invariant. *)
Lemma run_kernel_ok acts n e k :
  kernel_inv n e k → Z.of_nat (n + occurrences is_lapic acts) + 601 < 2 ^ 64 →
  ∃ tr, run_kernel k acts = Ret tr ∧ length tr = S (length acts) ∧ head tr = Some k ∧
    (∀ i k', tr !! i = Some k' →
      kernel_inv (n + occurrences is_lapic (take i acts)) (e + occurrences is_irq (take i acts)) k') ∧
    (∀ i k1 k2, tr !! i = Some k1 → tr !! S i = Some k2 → keeps k1 k2).
Proof.
  revert n e k. induction acts as [|a acts IH]; intros n e k Hk Hb.
  - exists [k]. split_and!; try done.
    intros [|i] k'; [|done]. intros [= <-]. cbn. by rewrite !Nat.add_0_r.
  - rewrite occurrences_cons in Hb. simpl.
    destruct (kernel_step_ok n e k a Hk) as (k1 & -> & Hkeep & Hk1); [lia|]. rewrite bind_Ret.
    destruct (IH _ _ k1 Hk1) as (tr & -> & Hlen & Hhd & Hall & Hst); [lia|]. rewrite bind_Ret.
    exists (k :: tr). split; [done|]. split; [simpl; lia|]. split; [done|]. split.
    + intros [|i] k' Hi; simpl in Hi.
      * injection Hi as <-. cbn. by rewrite !Nat.add_0_r.
      * cbn [take]. rewrite !occurrences_cons, !Nat.add_assoc. by apply Hall.
    + intros [|i] ka kb Ha Hb'; simpl in Ha, Hb'; [|by eapply Hst].
      injection Ha as <-. destruct tr as [|k1' tr]; [done|]. simpl in Hhd, Hb'. by simplify_eq.
Qed.

Lemma boot_ok : ∃ k, boot = Ret k ∧ kernel_inv 0 0 k ∧ ∀ v, periodic v → in_flight v k = 1%nat.
Proof.
  unfold boot. destruct initialize_timer as [m| |] eqn:E; [|by vm_compute in E..].
  rewrite bind_Ret. eexists. split; [reflexivity|].
  destruct (task_inv_init m E) as [Hi Ht]. split.
  - split; cbn [timer EVENTS pc eois switches]; [apply new_ok; lia|done|done|simpl; auto|done|done].
  - intros v Hv. unfold in_flight. cbn [timer EVENTS pc held].
    assert (waiting v m = 0%nat) as ->.
    { unfold initialize_timer in E. inv_outcome. subst m. unfold waiting, add_timer. cbn [timers].
      rewrite heap_push_spec. cbn [TimerManager_new timers]. rewrite heap_new_spec, filter_cons.
      cbn [value]. rewrite decide_False; [done|]. unfold TASK_TIMER_VALUE. destruct Hv; lia. }
    change (queued v (contents (new 1024))) with 0%nat.
    destruct Hv as [-> | ->]; reflexivity.
Qed.

(** What is in flight never grows along a trace, and is constant while the queue has room. *)
Lemma trace_in_flight (tr : list Kernel) v :
  periodic v → (∀ i k1 k2, tr !! i = Some k1 → tr !! S i = Some k2 → keeps k1 k2) →
  ∀ d i k1 k2, tr !! i = Some k1 → tr !! (i + d)%nat = Some k2 →
    (in_flight v k2 ≤ in_flight v k1)%nat ∧
    ((∀ j k, (i < j)%nat → tr !! j = Some k → ¬ queue_full k) → in_flight v k2 = in_flight v k1).
Proof.
  intros Hv Hst. induction d as [|d IH]; intros i k1 k2 H1 H2.
  - rewrite Nat.add_0_r in H2. by simplify_eq.
  - destruct (lookup_lt_is_Some_2 tr (i + d)%nat) as [k Hk].
    { apply lookup_lt_Some in H2. lia. }
    destruct (IH i k1 k H1 Hk) as [Hle Heq]. rewrite Nat.add_succ_r in H2.
    destruct (Hst _ _ _ Hk H2 v Hv) as [Hle' Heq']. split; [lia|].
    intros Hf. rewrite Heq' by (eapply Hf; [|exact H2]; lia). by apply Heq.
Qed.

(** C8: the main loop and the interrupt handlers, under every interleaving of their
    steps. No schedule panics. After any part of it, the time is the number of timer
    interrupts, every interrupt has been acknowledged once, and the tasks were switched
    once for every three ticks. Each of the two periodic timers is in flight at most once
    (waiting, as a message, or being re-armed), exactly once if the message queue was
    never full, and a timer that is lost is lost for good. *)
Theorem periodic_timers_survive (acts : list action) :
  Z.of_nat (occurrences is_lapic acts) + 601 < 2 ^ 64 →
  ∃ k0 tr, boot = Ret k0 ∧ run_kernel k0 acts = Ret tr ∧ length tr = S (length acts) ∧
  ∀ i k, tr !! i = Some k →
    tick (timer k) = Z.of_nat (occurrences is_lapic (take i acts)) ∧
    eois k = occurrences is_irq (take i acts) ∧
    switches k = (occurrences is_lapic (take i acts) / 3)%nat ∧
    ∀ v, periodic v →
      (in_flight v k ≤ 1)%nat ∧
      ((∀ j k', tr !! j = Some k' → ¬ queue_full k') → in_flight v k = 1%nat) ∧
      (in_flight v k = 0%nat → ∀ j k', (i ≤ j)%nat → tr !! j = Some k' → in_flight v k' = 0%nat).
Proof.
  intros Hb. destruct boot_ok as (k0 & -> & Hk0 & Hone).
  destruct (run_kernel_ok acts 0 0 k0 Hk0) as (tr & E & Hlen & Hhd & Hall & Hst); [lia|].
  exists k0, tr. split_and!; try done. intros i k Hi.
  destruct (Hall i k Hi) as [_ _ Ht _ He Hs]. split_and!; try done. intros v Hv.
  assert (tr !! 0%nat = Some k0) as H0 by (by destruct tr).
  destruct (trace_in_flight tr v Hv Hst i 0 k0 k H0 Hi) as [Hle Heq]. rewrite Hone in * by done.
  split_and!; [done|intros Hf; apply Heq; intros j k' _; apply Hf|].
  intros Hz j k' Hij Hj. replace j with (i + (j - i))%nat in Hj by lia.
  destruct (trace_in_flight tr v Hv Hst _ _ _ _ Hi Hj) as [? _]. lia.
Qed.

End kernel.
Arguments Kernel : clear implicits.

(** ** Concrete runs *)

(** What is seen in the last state of a run of the kernel with the heap of Timer. *)
Definition observe {B} (f : Kernel sorted_heap → B) (acts : list action) : outcome (option B) :=
  k ← boot; tr ← run_kernel k acts; Ret (option_map f (last tr)).

(** The main task arms both timers, the first one expires on the 201st tick, is handled
    and armed again. *)
Definition demo_schedule : list action :=
  replicate 6 MainStep ++ replicate 201 LapicIrq ++ replicate 4 MainStep.

Example demo_schedule_runs :
  observe (λ k, (sh_list (timers (timer k)), pc k, switches k)) demo_schedule =
  Ret (Some ([{| timeout := 203; value := 0 |}; {| timeout := 401; value := 1 |};
              {| timeout := 600; value := 2 |}], Poll, 67%nat)).
Proof. vm_compute. reflexivity. Qed.

Lemma periodic_timers_survive_witness :
  ∃ (k0 : Kernel sorted_heap) tr, boot = Ret k0 ∧ run_kernel k0 demo_schedule = Ret tr ∧
    length tr = 212%nat ∧ ∀ k, tr !! 211%nat = Some k → switches k = 67%nat.
Proof.
  destruct (periodic_timers_survive (H := sorted_heap) demo_schedule)
    as (k0 & tr & E0 & E & Hlen & Hall); [vm_compute; reflexivity|].
  exists k0, tr. split_and!; [exact E0|exact E|exact Hlen|].
  intros k Hk. destruct (Hall _ _ Hk) as (_ & _ & Hs & _). exact Hs.
Defined.

(** 1024 controller interrupts before the main task looks fill the queue; the message of
    timer 1 is refused, nobody re-arms it and it never fires again. *)
Example lost_timer :
  observe (in_flight 1)
    (replicate 4 MainStep ++ replicate 1024 XhciIrq ++ replicate 201 LapicIrq) =
  Ret (Some 0%nat).
Proof. vm_compute. reflexivity. Qed.

Example demo_xhc :
  (λ r, r.1) <$> find_xhc_device map_read map_write (demo_io 1) = Ret (PCIDevice_new 1 0 2).
Proof. vm_compute. reflexivity. Qed.

(** An interrupt after the test of [cnt] and before [hlt]: the task halts although a
    message is queued, until the next interrupt. *)
Lemma halts_with_message :
  observe (λ k, (pc k, contents (EVENTS k))) (replicate 5 MainStep ++ [XhciIrq; MainStep]) =
  Ret (Some (Halted, [Xhci])).
Proof. vm_compute. reflexivity. Qed.
