(* ===== verification/Driver.v ===== *)
(** usb/usbd.rs, the driver task: reading a new device's descriptors, configuring its
    endpoints and starting the mouse or keyboard driver, which polls the device for ever.

    The devices on the bus are a state that changes with the requests made to them, and a
    pair of parameters, [control_in] and [control_out]: how control transfers complete in a
    state, and what state a request without data leads to (see Transfer for how transfers
    are made). What the controller wrote to the slot's output context is an argument, as is
    where memory is allocated. The xhci crate's [set_context_entries] is a parameter: the
    field has five bits, and what the crate does with a value that has more is left open. *)

From S2P Require Import Prelude Bitfield Rings Usbd Transfer.

(** ** Endpoint contexts *)

Inductive EndpointType :=
  | IsochOut | BulkOut | InterruptOut | Control | IsochIn | BulkIn | InterruptIn.

#[export] Instance EndpointType_eq_dec : EqDecision EndpointType.
Proof. solve_decision. Defined.

(** The [match (direction, transfer_type)]. *)
Definition endpoint_type (direction transfer_type : Z) : outcome EndpointType :=
  match direction, transfer_type with
  | 0, 1 => Ret IsochOut
  | 0, 2 => Ret BulkOut
  | 0, 3 => Ret InterruptOut
  | _, 0 => Ret Control
  | 1, 1 => Ret IsochIn
  | 1, 2 => Ret BulkIn
  | 1, 3 => Ret InterruptIn
  | _, _ => Panic ExplicitPanic
  end.

(** The fields of an endpoint context that are set. *)
Record EpContext := {
  ec_type : EndpointType;
  ec_max_packet_size : Z;
  ec_max_burst_size : Z;
  ec_tr_dequeue_pointer : Z;
  ec_dequeue_cycle_state : bool;
  ec_interval : Z;
  ec_max_primary_streams : Z;
  ec_mult : Z;
  ec_error_count : Z;
}.

(** The input context of a Configure Endpoint command. *)
Record ConfigInput := {
  ci_flags : list Z;
  ci_route_string : Z;
  ci_root_hub_port_number : Z;
  ci_interrupter_target : Z;
  ci_speed : Z;
  ci_context_entries : Z;
  ci_endpoints : gmap Z EpContext;
}.

Section enable.
Context {TRB : Type} `{!TrbOps TRB}.
(** What the setter of the crate leaves in the five bits of Context Entries. *)
Context (set_context_entries : Z → outcome Z).

(** What the loops over interfaces and endpoints build: added contexts, endpoint contexts,
    the transfer rings, how many rings were allocated, and [context_entries]. *)
Record enabling := {
  en_flags : list Z;
  en_contexts : gmap Z EpContext;
  en_rings : TransferRingSet TRB;
  en_count : nat;
  en_entries : Z;
}.

(** The body of [if let Descriptor::Endpoint(ep) = ep]. The crate's [endpoint_mut] panics
    for index 0, the slot's. *)
Definition enable_endpoint (slot : Z) (ring_at : nat → Z) (st : enabling) (ep : EndpointDescriptor)
    : outcome enabling :=
  let direction := Z.shiftr (endpoint_addr ep) 7 in
  dci ← calc_dci ep;
  if dci =? 0 then Panic AssertFailed
  else
    ty ← endpoint_type direction (Z.land (ep_bm_attributes ep) 3);
    '(rs, ring_ptr) ← init_ring_at (en_rings st) (ring_at (en_count st)) slot dci;
    Ret {| en_flags := en_flags st ++ [dci];
           en_contexts := <[dci := {| ec_type := ty; ec_max_packet_size := max_packet_size ep;
             ec_max_burst_size := 0; ec_tr_dequeue_pointer := ring_ptr; ec_dequeue_cycle_state := true;
             ec_interval := interval ep; ec_max_primary_streams := 0; ec_mult := 0;
             ec_error_count := 3 |}]> (en_contexts st);
           en_rings := rs; en_count := S (en_count st);
           en_entries := Z.max (en_entries st) (dci + 1) |}.

Definition enable_descriptor (slot : Z) (ring_at : nat → Z) (st : enabling) (d : Descriptor)
    : outcome enabling :=
  match d with Endpoint ep => enable_endpoint slot ring_at st ep | _ => Ret st end.

Definition enable_interface (self : UsbDevice) (ring_at : nat → Z) (st : enabling) (intf : UsbInterface)
    : outcome enabling :=
  sel ← vget (alternates_selected self) (interface_num intf);
  alt ← vget (alternates intf) sel;
  foldM (enable_descriptor (Usbd.slot_id self) ring_at) (endpoints alt) st.

(** [enable_endpoints] up to the command: the input context and the new rings. [port] and
    [speed] are read from the slot's output context. *)
Definition prepare_endpoints (self : UsbDevice) (ring_at : nat → Z) (port speed : Z)
    (rs : TransferRingSet TRB) : outcome (ConfigInput * TransferRingSet TRB) :=
  sel ← unwrap (config_selected self);
  conf ← vget (configs self) sel;
  st ← foldM (enable_interface self ring_at) (interfaces conf)
    {| en_flags := [0]; en_contexts := ∅; en_rings := rs; en_count := 0; en_entries := 1 |};
  entries ← set_context_entries (as_u 8 (en_entries st));
  Ret ({| ci_flags := en_flags st; ci_route_string := 0; ci_root_hub_port_number := port;
          ci_interrupter_target := 0; ci_speed := speed; ci_context_entries := entries;
          ci_endpoints := en_contexts st |}, en_rings st).

(** The command follows; its completion is awaited and not looked at. [raw] encodes the
    command for the input context at [ctx] and the slot, [chan] is its channel. *)
Definition enable_endpoints (raw : Z → Z → TRB) (self : UsbDevice) (ring_at : nat → Z) (port speed ctx : Z)
    (chan : nat) (rs : TransferRingSet TRB) (cmds : CommandRing TRB nat)
    : outcome (ConfigInput * TransferRingSet TRB * CommandRing TRB nat * (() + Usbd.XhciError)) :=
  '(ic, rs) ← prepare_endpoints self ring_at port speed rs;
  '(cmds, r) ← push_command cmds (raw ctx (as_u 8 (Usbd.slot_id self))) chan;
  Ret (ic, rs, cmds, match r with inl _ => inl () | inr _ => inr Usbd.RingIsFull end).

(** ** Specification of the contexts *)

(** The device context index, as xHCI numbers the endpoints. *)
Definition dci (e : EndpointDescriptor) : Z := 2 * (endpoint_addr e mod 16) + endpoint_addr e / 128.

(** The endpoint type from the descriptor: direction bit and transfer type. *)
Definition type_of (e : EndpointDescriptor) : EndpointType :=
  let to_host := Z.testbit (endpoint_addr e) 7 in
  match ep_bm_attributes e mod 4 with
  | 0 => Control
  | 1 => if to_host then IsochIn else IsochOut
  | 2 => if to_host then BulkIn else BulkOut
  | _ => if to_host then InterruptIn else InterruptOut
  end.

Definition context_of (e : EndpointDescriptor) (ring : Z) : EpContext :=
  {| ec_type := type_of e; ec_max_packet_size := max_packet_size e; ec_max_burst_size := 0;
     ec_tr_dequeue_pointer := ring; ec_dequeue_cycle_state := true; ec_interval := interval e;
     ec_max_primary_streams := 0; ec_mult := 0; ec_error_count := 3 |}.

Definition endpoint_ok (e : EndpointDescriptor) : Prop :=
  in_u 8 (endpoint_addr e) ∧ in_u 8 (ep_bm_attributes e) ∧ dci e ≠ 0.

Definition as_endpoint (d : Descriptor) : option EndpointDescriptor :=
  match d with Endpoint e => Some e | _ => None end.

(** The endpoints of the setting selected for an interface. *)
Definition endpoints_of (sel : list Z) (intf : UsbInterface) : list EndpointDescriptor :=
  match a ← sel !! Z.to_nat (interface_num intf); alternates intf !! Z.to_nat a with
  | Some alt => omap as_endpoint (endpoints alt)
  | None => []
  end.

(** The interface's number is within the table of selected settings and its setting exists. *)
Definition interface_ok (sel : list Z) (intf : UsbInterface) : Prop :=
  0 ≤ interface_num intf ∧ ∃ a alt, sel !! Z.to_nat (interface_num intf) = Some a ∧ 0 ≤ a ∧
    alternates intf !! Z.to_nat a = Some alt.

Lemma direction_bit e :
  in_u 8 (endpoint_addr e) →
  Z.shiftr (endpoint_addr e) 7 = if Z.testbit (endpoint_addr e) 7 then 1 else 0.
Proof.
  intros He. unfold in_u in He. rewrite Z.shiftr_div_pow2 by lia. change (2 ^ 7) with 128.
  assert (0 ≤ endpoint_addr e / 128 < 2) by (split; [apply Z.div_pos; lia|apply Z.div_lt_upper_bound; lia]).
  rewrite Z.testbit_eqb by lia. change (2 ^ 7) with 128. rewrite (Z.mod_small _ 2) by lia.
  destruct (Z.eqb_spec (endpoint_addr e / 128) 1); lia.
Qed.

(** The [panic!] of the source is unreachable. *)
Lemma endpoint_type_ok e :
  endpoint_ok e →
  endpoint_type (Z.shiftr (endpoint_addr e) 7) (Z.land (ep_bm_attributes e) 3) = Ret (type_of e).
Proof.
  intros (Ha & Hb & _). rewrite direction_bit by done. unfold type_of.
  change 3 with (Z.ones 2). rewrite Z.land_ones by lia. change (2 ^ 2) with 4.
  pose proof (Z.mod_pos_bound (ep_bm_attributes e) 4 ltac:(lia)).
  assert (ep_bm_attributes e mod 4 = 0 ∨ ep_bm_attributes e mod 4 = 1 ∨ ep_bm_attributes e mod 4 = 2 ∨
    ep_bm_attributes e mod 4 = 3) as [->|[->|[->| ->]]] by lia; by destruct (Z.testbit _ 7).
Qed.

Lemma init_ring_ok (rs : TransferRingSet TRB) addr slot ep :
  2 ≤ ring_size rs ≤ 2 ^ 32 →
  ∃ r, ProducerRing_new addr (ring_size rs) = Ret r ∧ buf_ptr r = addr ∧
    init_ring_at rs addr slot ep = Ret ({| rings := <[(slot, ep) := r]> (rings rs);
      trf_listener := trf_listener rs; ring_size := ring_size rs; channels := channels rs |}, addr).
Proof.
  intros Hs. unfold init_ring_at, ProducerRing_new. rewrite usize_sub_ok, bind_Ret by lia.
  rewrite vset_ok, !bind_Ret by (rewrite length_replicate; lia). eexists. by split_and!.
Qed.

(** The state after the endpoints [es], from [st0]. *)
Record enabled (slot : Z) (ring_at : nat → Z) (st0 : enabling) (es : list EndpointDescriptor) (st : enabling)
    : Prop := {
  eb_flags : en_flags st = en_flags st0 ++ (dci <$> es);
  eb_count : en_count st = (en_count st0 + length es)%nat;
  eb_entries : en_entries st = foldr Z.max (en_entries st0) ((λ e, dci e + 1) <$> es);
  eb_size : ring_size (en_rings st) = ring_size (en_rings st0);
  eb_contexts : ∀ i e, es !! i = Some e → dci e ∉ (dci <$> drop (S i) es) →
    en_contexts st !! dci e = Some (context_of e (ring_at (en_count st0 + i)%nat));
  eb_rings : ∀ i e, es !! i = Some e → dci e ∉ (dci <$> drop (S i) es) →
    ∃ r, ProducerRing_new (ring_at (en_count st0 + i)%nat) (ring_size (en_rings st0)) = Ret r ∧
      rings (en_rings st) !! (slot, dci e) = Some r;
  eb_context_others : ∀ d, d ∉ (dci <$> es) → en_contexts st !! d = en_contexts st0 !! d;
  eb_ring_others : ∀ k, (∀ e, e ∈ es → k ≠ (slot, dci e)) → rings (en_rings st) !! k = rings (en_rings st0) !! k;
}.

Lemma enabled_nil slot ring_at st : enabled slot ring_at st [] st.
Proof.
  split; rewrite ?app_nil_r, ?Nat.add_0_r; done.
Qed.

Lemma max_foldr z l x : foldr Z.max z (l ++ [x]) = Z.max (foldr Z.max z l) x.
Proof. induction l as [|y l IH]; simpl; [lia|rewrite IH; lia]. Qed.

Lemma enable_endpoint_ok slot ring_at st0 es st e :
  2 ≤ ring_size (en_rings st0) ≤ 2 ^ 32 → endpoint_ok e → enabled slot ring_at st0 es st →
  ∃ st', enable_endpoint slot ring_at st e = Ret st' ∧ enabled slot ring_at st0 (es ++ [e]) st'.
Proof.
  intros Hs He [Hf Hc Hn Hz Hx Hr Hxo Hro]. unfold enable_endpoint. pose proof He as (Ha & _ & Hd).
  rewrite (proj1 (calc_dci_ok e Ha)), bind_Ret. fold (dci e).
  rewrite (proj2 (Z.eqb_neq _ _) Hd), (endpoint_type_ok e He), bind_Ret.
  destruct (init_ring_ok (en_rings st) (ring_at (en_count st)) slot (dci e)) as (r & Hnew & _ & ->);
    [by rewrite Hz|]. rewrite bind_Ret.
  eexists. split; [reflexivity|].
  assert (∀ i x, (es ++ [e]) !! i = Some x → dci x ∉ (dci <$> drop (S i) (es ++ [e])) →
    es !! i = Some x ∧ dci x ∉ (dci <$> drop (S i) es) ∧ dci x ≠ dci e ∨ i = length es ∧ x = e) as Hsplit.
  { intros i x Hi Hnot. apply lookup_app_Some in Hi as [Hi|[Hle Hi]].
    - left. rewrite drop_app_le, fmap_app in Hnot by (apply lookup_lt_Some in Hi; lia).
      split_and!; [done|set_solver|set_solver].
    - right. destruct (i - length es)%nat as [|k] eqn:Ek; simpl in Hi; [|done]. simplify_eq. split; [lia|done]. }
  split; cbn [en_flags en_count en_entries en_rings en_contexts ring_size rings].
  - by rewrite Hf, fmap_app, app_assoc.
  - rewrite Hc, length_app. simpl. lia.
  - rewrite Hn, fmap_app. simpl. by rewrite max_foldr.
  - done.
  - intros i x Hi Hnot. destruct (Hsplit i x Hi Hnot) as [(Hi' & Hnot' & Hne)|[-> ->]].
    + rewrite lookup_insert_ne by done. by apply Hx.
    + rewrite lookup_insert_eq. by rewrite <- Hc.
  - intros i x Hi Hnot. destruct (Hsplit i x Hi Hnot) as [(Hi' & Hnot' & Hne)|[-> ->]].
    + rewrite lookup_insert_ne by congruence. by apply Hr.
    + rewrite lookup_insert_eq, <- Hc, <- Hz. by exists r.
  - intros d Hd'. rewrite fmap_app in Hd'. rewrite lookup_insert_ne by set_solver. apply Hxo. set_solver.
  - intros k Hk. rewrite lookup_insert_ne by (symmetry; apply Hk; set_solver). apply Hro. intros x Hx'. apply Hk. set_solver.
Qed.

Lemma enable_descriptors_ok slot ring_at ds st0 es st :
  2 ≤ ring_size (en_rings st0) ≤ 2 ^ 32 → Forall endpoint_ok (omap as_endpoint ds) →
  enabled slot ring_at st0 es st →
  ∃ st', foldM (enable_descriptor slot ring_at) ds st = Ret st' ∧
    enabled slot ring_at st0 (es ++ omap as_endpoint ds) st'.
Proof.
  intros Hs. revert es st. induction ds as [|d ds IH]; intros es st Hok Hi.
  { exists st. cbn. by rewrite app_nil_r. }
  destruct d as [b|b|e|b|b]; cbn [omap list_omap as_endpoint foldM enable_descriptor] in *;
    try (rewrite bind_Ret; by apply IH).
  apply list.Forall_cons in Hok as [He Hok].
  destruct (enable_endpoint_ok slot ring_at st0 es st e Hs He Hi) as (st1 & -> & Hi1). rewrite bind_Ret.
  destruct (IH (es ++ [e]) st1 Hok Hi1) as (st2 & E & Hi2). exists st2. split; [exact E|].
  by rewrite <- app_assoc in Hi2.
Qed.

Lemma enable_interfaces_ok (self : UsbDevice) ring_at intfs st0 es st :
  2 ≤ ring_size (en_rings st0) ≤ 2 ^ 32 →
  Forall (interface_ok (alternates_selected self)) intfs →
  Forall endpoint_ok (concat (endpoints_of (alternates_selected self) <$> intfs)) →
  enabled (Usbd.slot_id self) ring_at st0 es st →
  ∃ st', foldM (enable_interface self ring_at) intfs st = Ret st' ∧
    enabled (Usbd.slot_id self) ring_at st0
      (es ++ concat (endpoints_of (alternates_selected self) <$> intfs)) st'.
Proof.
  intros Hs. revert es st. induction intfs as [|intf intfs IH]; intros es st Hi Hok Hen.
  { exists st. cbn. by rewrite app_nil_r. }
  apply list.Forall_cons in Hi as [(Hn & a & alt & Ha & Ha0 & Halt) Hi].
  cbn [fmap list_fmap concat] in *. apply Forall_app in Hok as [Hok1 Hok2].
  assert (endpoints_of (alternates_selected self) intf = omap as_endpoint (endpoints alt)) as Ee.
  { unfold endpoints_of. by rewrite Ha; simpl; rewrite Halt. }
  rewrite Ee in *. cbn [foldM].
  assert (enable_interface self ring_at st intf =
    foldM (enable_descriptor (Usbd.slot_id self) ring_at) (endpoints alt) st) as ->.
  { unfold enable_interface. rewrite (vget_ok _ _ a), bind_Ret by (done || lia).
    by rewrite (vget_ok _ _ alt), bind_Ret by (done || lia). }
  destruct (enable_descriptors_ok (Usbd.slot_id self) ring_at (endpoints alt) st0 es st Hs Hok1 Hen) as (st1 & -> & Hen1).
  rewrite bind_Ret. destruct (IH _ st1 Hi Hok2 Hen1) as (st2 & E & Hen2). exists st2. split; [exact E|].
  by rewrite <- app_assoc in Hen2.
Qed.

Lemma dci_range e : in_u 8 (endpoint_addr e) → 0 ≤ dci e < 32.
Proof.
  intros He. destruct (calc_dci_ok e He) as [_ H]. unfold dci, in_u in *. split; [|exact H].
  pose proof (Z.mod_pos_bound (endpoint_addr e) 16 ltac:(lia)).
  assert (0 ≤ endpoint_addr e / 128) by (apply Z.div_pos; lia). lia.
Qed.

Lemma entries_range es :
  Forall endpoint_ok es → 1 ≤ foldr Z.max 1 ((λ e, dci e + 1) <$> es) ≤ 32.
Proof.
  induction 1 as [|e es (He & _) _ IH]; [simpl; lia|]. rewrite fmap_cons. cbn [foldr]. pose proof (dci_range e He). lia.
Qed.

Definition start_enabling (rs : TransferRingSet TRB) : enabling :=
  {| en_flags := [0]; en_contexts := ∅; en_rings := rs; en_count := 0; en_entries := 1 |}.

Lemma prepare_endpoints_ok (self : UsbDevice) ring_at port speed rs sel conf es :
  config_selected self = Some sel → vget (configs self) sel = Ret conf →
  Forall (interface_ok (alternates_selected self)) (interfaces conf) →
  es = concat (endpoints_of (alternates_selected self) <$> interfaces conf) → Forall endpoint_ok es →
  2 ≤ ring_size rs ≤ 2 ^ 32 →
  ∃ st, enabled (Usbd.slot_id self) ring_at (start_enabling rs) es st ∧
    prepare_endpoints self ring_at port speed rs =
      entries ← set_context_entries (foldr Z.max 1 ((λ e, dci e + 1) <$> es));
      Ret ({| ci_flags := 0 :: (dci <$> es); ci_route_string := 0; ci_root_hub_port_number := port;
              ci_interrupter_target := 0; ci_speed := speed;
              ci_context_entries := entries;
              ci_endpoints := en_contexts st |}, en_rings st).
Proof.
  intros Hsel Hconf Hin Hes Hok Hs. unfold prepare_endpoints. rewrite Hsel. cbn [unwrap].
  rewrite bind_Ret, Hconf, bind_Ret. rewrite Hes in Hok.
  destruct (enable_interfaces_ok self ring_at (interfaces conf) (start_enabling rs) [] (start_enabling rs) Hs Hin Hok
    (enabled_nil _ _ _)) as (st & E & Hen). unfold start_enabling in E at 1. rewrite E, bind_Ret.
  cbn [app] in Hen. rewrite <- Hes in Hen, Hok. exists st. split; [done|].
  rewrite (eb_flags _ _ _ _ _ Hen), (eb_entries _ _ _ _ _ Hen). cbn [start_enabling en_flags en_entries].
  rewrite as_u_small; [done|]. pose proof (entries_range es Hok). lia.
Qed.

Lemma entries_fit es :
  Forall endpoint_ok es → Forall (λ e, dci e ≠ 31) es → 1 ≤ foldr Z.max 1 ((λ e, dci e + 1) <$> es) ≤ 31.
Proof.
  induction 1 as [|e es (He & _) _ IH]; [simpl; lia|]. intros [Hne Hn]%list.Forall_cons.
  rewrite fmap_cons. cbn [foldr]. pose proof (dci_range e He). specialize (IH Hn). lia.
Qed.

(** A device with an endpoint 15 to the host makes the setter be called with 32, which its
    field does not hold. *)
Lemma endpoint_15_overflows (self : UsbDevice) ring_at port speed rs sel conf es e :
  config_selected self = Some sel → vget (configs self) sel = Ret conf →
  Forall (interface_ok (alternates_selected self)) (interfaces conf) →
  es = concat (endpoints_of (alternates_selected self) <$> interfaces conf) → Forall endpoint_ok es →
  2 ≤ ring_size rs ≤ 2 ^ 32 → e ∈ es → dci e = 31 → ∀ p, set_context_entries 32 = Panic p →
  prepare_endpoints self ring_at port speed rs = Panic p.
Proof.
  intros Hsel Hconf Hin Hes Hok Hs He Hd p Hp.
  destruct (prepare_endpoints_ok self ring_at port speed rs sel conf es Hsel Hconf Hin Hes Hok Hs) as (st & _ & ->).
  assert (32 ≤ foldr Z.max 1 ((λ e, dci e + 1) <$> es)) as Hge.
  { clear -He Hd. induction es as [|x es IH]; [by apply elem_of_nil in He|]. rewrite fmap_cons. cbn [foldr].
    apply elem_of_cons in He as [<-|He]; [lia|specialize (IH He); lia]. }
  pose proof (entries_range es Hok). assert (foldr Z.max 1 ((λ e, dci e + 1) <$> es) = 32) as -> by lia. by rewrite Hp.
Qed.

(** A device that numbers an interface beyond their count stops the kernel. *)
Lemma bad_interface_number (self : UsbDevice) ring_at port speed rs sel conf intf rest :
  config_selected self = Some sel → vget (configs self) sel = Ret conf → interfaces conf = intf :: rest →
  zlen (alternates_selected self) ≤ interface_num intf →
  prepare_endpoints self ring_at port speed rs = Panic IndexOutOfBounds.
Proof.
  intros Hsel Hconf Hin Hn. unfold prepare_endpoints. rewrite Hsel. cbn [unwrap].
  rewrite bind_Ret, Hconf, bind_Ret, Hin. cbn [foldM].
  assert (∀ st, enable_interface self ring_at st intf = Panic IndexOutOfBounds) as E.
  { intros st. unfold enable_interface. by rewrite vget_oob by lia. }
  by rewrite E.
Qed.

End enable.

(** ** The driver *)

(** [?] *)
Definition try_ {A B} (m : outcome (A + Usbd.XhciError)) (k : A → outcome (B + Usbd.XhciError))
    : outcome (B + Usbd.XhciError) :=
  r ← m; match r with inl a => k a | inr e => Ret (inr e) end.

(** What is spawned for a device. *)
Inductive started := StartMouse (h : HidClass) | StartKeyboard (h : HidClass) | NoDriver.

Section driver.
Context `{!Bitfield} {TRB : Type} `{!TrbOps TRB} (raw : Z → Z → TRB).
Context (set_context_entries : Z → outcome Z).
(** The devices on the bus: how requests to the one in a slot complete. *)
Context {D : Type} (control_in : D → Z → SetupData → Z → list Z + Usbd.XhciError).
Context (control_out : D → Z → SetupData → D * (() + Usbd.XhciError)).
(** Per slot: port and speed in its context; where rings and the input context are
    allocated; the channel of the command. *)
Context (slot_context : Z → Z * Z) (ring_at : Z → nat → Z) (input_at : Z → Z) (chan_of : Z → nat).

(** The callbacks that have not been given away, and what the driver's calls change. *)
Record UsbDriver := {
  mouse_callback : bool;
  keyboard_callback : bool;
  drv_devices : D;
  drv_rings : TransferRingSet TRB;
  drv_commands : CommandRing TRB nat;
}.

Definition b_num_configurations (d : list Z) : Z := bit_range (le_combine d) 143 136.

Definition read_device_descriptor (devs : D) (slot : Z) : list Z + Usbd.XhciError :=
  control_in devs slot {| request_type := GetDescriptor; setup_value := 0x0100; setup_index := 0;
                     setup_length := 18 |} 18.

(** The [for i_conf in 0..n] loop. *)
Fixpoint read_configs (devs : D) (slot : Z) (l : list Z) : outcome (list (list Descriptor) + Usbd.XhciError) :=
  match l with
  | [] => Ret (inl [])
  | i_conf :: l =>
      try_ (read_config (control_in devs slot) i_conf 64) (λ conf,
      try_ (read_configs devs slot l) (λ confs, Ret (inl (conf :: confs))))
  end.

Fixpoint construct_configs (fuel : nat) (confdesc_arr : list (list Descriptor))
    : outcome (list UsbConfiguration + Usbd.XhciError) :=
  match confdesc_arr with
  | [] => Ret (inl [])
  | conf :: rest =>
      o ← construct_configuration fuel conf;
      match o with
      | None => Ret (inr UnexpectedDescriptor)
      | Some conf => try_ (construct_configs fuel rest) (λ confs, Ret (inl (conf :: confs)))
      end
  end.

Definition construct_device (fuel : nat) (slot : Z) (confdesc_arr : list (list Descriptor))
    : outcome (UsbDevice + Usbd.XhciError) :=
  try_ (construct_configs fuel confdesc_arr) (λ conf_arr, Ret (inl (UsbDevice_new slot conf_arr))).

(** [initialize] of the mouse and keyboard drivers: the boot protocol. *)
Definition hid_initialize (devs : D) (self : HidClass) : D * (() + Usbd.XhciError) :=
  control_out devs (hid_slot_id self) {| request_type := SetProtocol; setup_value := 0;
    setup_index := as_u 16 (hid_interface self); setup_length := 0 |}.

Definition is_boot_hid (intf : UsbInterfaceAlternate) (proto : Z) : bool :=
  (class intf =? 3) && (subclass intf =? 1) && (protocol intf =? proto).

Definition with_devices (d : UsbDriver) (devs : D) : UsbDriver :=
  {| mouse_callback := mouse_callback d; keyboard_callback := keyboard_callback d; drv_devices := devs;
     drv_rings := drv_rings d; drv_commands := drv_commands d |}.

(** The [if], [else if] at the end of a turn. *)
Definition start_class (d : UsbDriver) (slot : Z) (intf : UsbInterfaceAlternate)
    : outcome ((UsbDriver * started) + Usbd.XhciError) :=
  if mouse_callback d && is_boot_hid intf 2 then
    let d := {| mouse_callback := false; keyboard_callback := keyboard_callback d; drv_devices := drv_devices d;
                drv_rings := drv_rings d; drv_commands := drv_commands d |} in
    o ← HidClass_new slot intf;
    mouse ← unwrap o;
    match hid_initialize (drv_devices d) mouse with
    | (devs, inl _) => Ret (inl (with_devices d devs, StartMouse mouse))
    | (_, inr e) => Ret (inr e)
    end
  else if keyboard_callback d && is_boot_hid intf 1 then
    let d := {| mouse_callback := mouse_callback d; keyboard_callback := false; drv_devices := drv_devices d;
                drv_rings := drv_rings d; drv_commands := drv_commands d |} in
    o ← HidClass_new slot intf;
    key ← unwrap o;
    match hid_initialize (drv_devices d) key with
    | (devs, inl _) => Ret (inl (with_devices d devs, StartKeyboard key))
    | (_, inr e) => Ret (inr e)
    end
  else Ret (inl (d, NoDriver)).

(** One turn of [main_loop] for the device in [slot]. *)
Definition configure_device (fuel : nat) (d : UsbDriver) (slot : Z)
    : outcome ((UsbDriver * ConfigInput * started) + Usbd.XhciError) :=
  match read_device_descriptor (drv_devices d) slot with
  | inr e => Ret (inr e)
  | inl dev_desc =>
      try_ (read_configs (drv_devices d) slot (range 0 (b_num_configurations dev_desc))) (λ confs,
      try_ (construct_device fuel slot confs) (λ dev,
      '(devs, dev, r) ← set_configuration (λ devs, control_out devs slot) (drv_devices d) dev 0;
      match r with
      | inr e => Ret (inr e)
      | inl _ =>
          '(ic, rs, cmds, r) ← enable_endpoints set_context_entries raw dev (ring_at slot) (slot_context slot).1
             (slot_context slot).2 (input_at slot) (chan_of slot) (drv_rings d) (drv_commands d);
          match r with
          | inr e => Ret (inr e)
          | inl _ =>
              conf ← vget (configs dev) 0;
              intf ← vget (interfaces conf) 0;
              alt ← vget (alternates intf) 0;
              try_ (start_class {| mouse_callback := mouse_callback d;
                      keyboard_callback := keyboard_callback d; drv_devices := devs; drv_rings := rs; drv_commands := cmds |} slot alt)
                (λ r, Ret (inl (r.1, ic, r.2)))
          end
      end))
  end.

(** [main_loop] on the slots that arrive: what was started, and the error that ended it. *)
Fixpoint main_loop (fuel : nat) (d : UsbDriver) (slots : list Z)
    : outcome (list started * option Usbd.XhciError) :=
  match slots with
  | [] => Ret ([], None)
  | slot :: slots =>
      r ← configure_device fuel d slot;
      match r with
      | inr e => Ret ([], Some e)
      | inl (d, _, s) => '(l, e) ← main_loop fuel d slots; Ret (s :: l, e)
      end
  end.

(** ** A well-behaved device *)

(** A device with one configuration: interfaces with their alternate settings. *)
Definition config_descs (c : list Z) (l : list (Z * list (list Z * list Descriptor))) : list Descriptor :=
  Configuration c :: concat ((λ i, intf_descs i.2) <$> l).

(** The endpoints of the first setting of every interface. *)
Definition first_endpoints (l : list (Z * list (list Z * list Descriptor))) : list EndpointDescriptor :=
  concat ((λ i, match i.2 with a :: _ => omap as_endpoint a.2 | [] => [] end) <$> l).

(** The requests that select the configuration described by [c], and the boot protocol of
    the interface described by [alt]. *)
Definition select_request (c : list Z) : SetupData :=
  {| request_type := SetConfigutation; setup_value := configuration_value c; setup_index := 0; setup_length := 0 |}.
Definition boot_request (alt : list Z) : SetupData :=
  {| request_type := SetProtocol; setup_value := 0; setup_index := interface_number alt; setup_length := 0 |}.

(** It sends its descriptors and can be told to use its configuration, which fits the
    buffer of 64 bytes; its interfaces are numbered from 0, and its endpoints have
    different indices, none of them that of endpoint 15 to the host. *)
Record usb_device (devs : D) (slot : Z) (dd c : list Z) (l : list (Z * list (list Z * list Descriptor))) : Prop := {
  ud_descriptor : read_device_descriptor devs slot = inl dd;
  ud_one : b_num_configurations dd = 1;
  ud_holds : holds_config (control_in devs slot) 0 (config_descs c l);
  ud_config : config_ok (config_descs c l);
  ud_fits : zlen (encode_all (config_descs c l)) ≤ 64;
  ud_tree : intfs_ok l;
  ud_numbers : ∀ i num alts, l !! i = Some (num, alts) → num = Z.of_nat i;
  ud_endpoints : Forall endpoint_ok (first_endpoints l);
  ud_distinct : NoDup (dci <$> first_endpoints l);
  ud_entries : Forall (λ e, dci e ≠ 31) (first_endpoints l);
  ud_select : (control_out devs slot (select_request c)).2 = inl ();
}.

Lemma intfs_ok_nonempty l i num alts :
  intfs_ok l → l !! i = Some (num, alts) → alts ≠ [].
Proof.
  revert i. induction l as [|[n' a'] l IH]; intros i Hok Hi; [done|]. destruct Hok as ((Hne & _) & Hok & _).
  destruct i as [|i]; simpl in Hi; [by simplify_eq|by eapply IH].
Qed.

(** The selection after [set_configuration] picks the first settings. *)
Lemma first_selected devs slot dd c l :
  usb_device devs slot dd c l →
  let sel := replicate (length l) 0 in
  Forall (interface_ok sel) ((λ i, intf_of i.1 i.2) <$> l) ∧
  concat (endpoints_of sel <$> ((λ i, intf_of i.1 i.2) <$> l)) = first_endpoints l.
Proof.
  intros Hd sel. pose proof (ud_numbers _ _ _ _ _ Hd) as Hn. pose proof (ud_tree _ _ _ _ _ Hd) as Ht.
  assert (∀ i x, l !! i = Some x → ∃ a rest, x.2 = a :: rest ∧ x.1 = Z.of_nat i ∧ sel !! i = Some 0) as Hx.
  { intros i [num alts] Hi. rewrite (Hn _ _ _ Hi). pose proof (intfs_ok_nonempty _ _ _ _ Ht Hi).
    destruct alts as [|a rest]; [done|]. exists a, rest. split_and!; try done.
    apply lookup_replicate_2. by eapply lookup_lt_Some. }
  split.
  - apply Forall_fmap, Forall_lookup. intros i x Hi. destruct (Hx i x Hi) as (a & rest & E2 & E1 & Hs).
    unfold interface_ok, intf_of, compose. cbn [interface_num alternates]. rewrite E1, E2, Nat2Z.id. split; [lia|].
    eexists 0, _. split; [done|]. by split.
  - unfold first_endpoints. rewrite <- list_fmap_compose. f_equal. apply list_fmap_ext.
    intros i x Hi. destruct (Hx i x Hi) as (a & rest & E2 & E1 & Hs).
    unfold compose, endpoints_of, intf_of. cbn [interface_num alternates]. rewrite E1, E2, Nat2Z.id, Hs. done.
Qed.

Lemma first_dci_ok eps e :
  head (omap as_endpoint eps) = Some e → in_u 8 (endpoint_addr e) → first_dci eps = Ret (Some (dci e)).
Proof.
  intros Hh He. induction eps as [|[] eps IH]; simpl in *; try done; [by apply IH..| |by apply IH|by apply IH].
  simplify_eq. by rewrite (proj1 (calc_dci_ok e He)).
Qed.

(** What the driver starts for a device whose first setting is [alt] and first endpoint [e]. *)
Definition chosen (d : UsbDriver) (slot : Z) (alt : list Z) (e : EndpointDescriptor) : bool * bool * started :=
  let hid := {| hid_slot_id := slot; hid_interface := interface_number alt; hid_dci := dci e |} in
  let boot := (interface_class alt =? 3) && (interface_subclass alt =? 1) in
  if mouse_callback d && (boot && (interface_protocol alt =? 2))
  then (false, keyboard_callback d, StartMouse hid)
  else if keyboard_callback d && (boot && (interface_protocol alt =? 1))
  then (mouse_callback d, false, StartKeyboard hid)
  else (mouse_callback d, keyboard_callback d, NoDriver).

(** The devices after the driver's last request. *)
Definition booted (devs : D) (slot : Z) (alt : list Z) (s : started) : D :=
  match s with NoDriver => devs | _ => (control_out devs slot (boot_request alt)).1 end.

Lemma start_class_ok d slot alt leaves e :
  (control_out (drv_devices d) slot (boot_request alt)).2 = inl () → head (omap as_endpoint leaves) = Some e →
  in_u 8 (endpoint_addr e) → in_u 8 (interface_number alt) →
  let '(m, k, s) := chosen d slot alt e in
  start_class d slot (UsbInterfaceAlternate_new alt leaves) =
    Ret (inl ({| mouse_callback := m; keyboard_callback := k; drv_devices := booted (drv_devices d) slot alt s;
                 drv_rings := drv_rings d; drv_commands := drv_commands d |}, s)).
Proof.
  intros Hout Hh He Hi. unfold chosen, start_class, is_boot_hid, HidClass_new, hid_initialize.
  cbn [class subclass protocol endpoints alt_interface_num UsbInterfaceAlternate_new].
  rewrite (first_dci_ok leaves e Hh He), !bind_Ret. cbn [mbind option_bind unwrap]. rewrite !bind_Ret.
  cbn [hid_slot_id hid_interface drv_devices]. unfold in_u in Hi. rewrite as_u_small by lia. fold (boot_request alt).
  unfold booted. destruct (control_out (drv_devices d) slot (boot_request alt)) as [devs o]. cbn [fst snd] in *. subst o.
  destruct (mouse_callback d && _) eqn:Em; [done|].
  destruct (keyboard_callback d && _) eqn:Ek; [done|]. by destruct d.
Qed.

Lemma interface_number_range alt : in_u 8 (interface_number alt).
Proof. unfold in_u, interface_number. rewrite bit_range_spec by lia. apply Z.mod_pos_bound. lia. Qed.

Lemma read_configs_one devs slot dd c l :
  usb_device devs slot dd c l →
  read_configs devs slot (range 0 (b_num_configurations dd)) = Ret (inl [config_descs c l]).
Proof.
  intros Hd. rewrite (ud_one _ _ _ _ _ Hd). change (range 0 1) with [0]. cbn [read_configs].
  rewrite (read_config_ok (control_in devs slot) 0 64 (config_descs c l)) by (lia || apply Hd).
  rewrite (proj2 (Z.leb_le _ _) (ud_fits _ _ _ _ _ Hd)). done.
Qed.

Lemma construct_device_one fuel devs slot dd c l :
  usb_device devs slot dd c l → (length l < fuel)%nat →
  construct_device fuel slot [config_descs c l] =
    Ret (inl (UsbDevice_new slot [UsbConfiguration_new c ((λ i, intf_of i.1 i.2) <$> l)])).
Proof.
  intros Hd Hf. unfold construct_device. cbn [construct_configs]. unfold config_descs.
  by rewrite (construct_configuration_ok c l fuel (ud_tree _ _ _ _ _ Hd) Hf).
Qed.

(** The device once its only configuration is selected. *)
Definition configured (slot : Z) (conf : UsbConfiguration) : UsbDevice :=
  {| Usbd.slot_id := slot; configs := [conf]; config_selected := Some 0;
     alternates_selected := replicate (length (interfaces conf)) 0 |}.

Lemma set_configuration_one devs slot c intfs :
  (control_out devs slot (select_request c)).2 = inl () →
  set_configuration (λ devs, control_out devs slot) devs (UsbDevice_new slot [UsbConfiguration_new c intfs]) 0 =
    Ret ((control_out devs slot (select_request c)).1, configured slot (UsbConfiguration_new c intfs), inl ()).
Proof.
  intros Hout. unfold set_configuration, UsbDevice_new. cbn [configs].
  rewrite (vget_ok [_] 0 (UsbConfiguration_new c intfs)), bind_Ret by done.
  cbn [configuration_val UsbConfiguration_new]. fold (select_request c).
  destruct (control_out devs slot (select_request c)) as [devs' o]. cbn [fst snd] in *. by subst o.
Qed.

Lemma distinct_tail (es : list EndpointDescriptor) i x :
  NoDup (dci <$> es) → es !! i = Some x → dci x ∉ (dci <$> drop (S i) es).
Proof.
  intros Hnd Hi. rewrite <- (take_drop_middle es i x Hi), fmap_app in Hnd.
  apply NoDup_app in Hnd as (_ & _ & Hnd). rewrite fmap_cons in Hnd. by apply NoDup_cons in Hnd as [? _].
Qed.

Lemma push_configure (cmds : CommandRing TRB nat) ps t chan :
  ring_inv 31 (as_system cmds ps) → zlen ps < 30 →
  ∃ cmds', push_command cmds t chan = Ret (cmds', inl chan) ∧ ring_inv 31 (as_system cmds' (ps ++ [t])).
Proof.
  intros Hi Hl. unfold push_command.
  destruct (push_ring_inv 31 (as_system cmds ps) t Hi) as (r & p & E & Hi'); [simpl; lia|].
  simpl in E. rewrite E, bind_Ret. by eexists.
Qed.

(** C25: configuring a device, from its first byte to its driver. If the device is well
    behaved ([usb_device]) and the command ring has room, a turn of the main loop reads
    and rebuilds its configuration and tells the device to use it, by the number in its
    descriptor; makes a transfer ring and a context for every endpoint of the first
    settings, of the type its descriptor asks for and pointing to that ring, and asks the
    controller to take over exactly these contexts; other rings are kept. Then the mouse or
    keyboard driver is started on the first endpoint, and the interface told to use the
    boot protocol, if the first interface is such a device and the callback has not been
    given away yet. The device gets these two requests, or the first of them only, and no
    others that could change it. *)
Theorem device_configured (fuel : nat) (d : UsbDriver) (slot : Z) (dd c alt : list Z)
    (l : list (Z * list (list Z * list Descriptor))) num leaves alts rest (e : EndpointDescriptor) (ps : list TRB) :
  let selected := (control_out (drv_devices d) slot (select_request c)).1 in
  (∀ n, 0 ≤ n < 32 → set_context_entries n = Ret n) →
  usb_device (drv_devices d) slot dd c l → l = (num, (alt, leaves) :: alts) :: rest → (length l < fuel)%nat →
  (control_out selected slot (boot_request alt)).2 = inl () →
  head (omap as_endpoint leaves) = Some e → 0 ≤ slot < 256 →
  2 ≤ ring_size (drv_rings d) ≤ 2 ^ 32 → ring_inv 31 (as_system (drv_commands d) ps) → zlen ps < 30 →
  let es := first_endpoints l in
  let '(m, k, s) := chosen d slot alt e in
  ∃ d' ic, configure_device fuel d slot = Ret (inl (d', ic, s)) ∧
    mouse_callback d' = m ∧ keyboard_callback d' = k ∧
    drv_devices d' = booted selected slot alt s ∧
    ring_inv 31 (as_system (drv_commands d') (ps ++ [raw (input_at slot) slot])) ∧
    ci_flags ic = 0 :: (dci <$> es) ∧
    ci_context_entries ic = foldr Z.max 1 ((λ e, dci e + 1) <$> es) ∧
    (ci_root_hub_port_number ic, ci_speed ic) = slot_context slot ∧
    (∀ i x, es !! i = Some x →
      ci_endpoints ic !! dci x = Some (context_of x (ring_at slot i)) ∧
      ∃ r, ProducerRing_new (ring_at slot i) (ring_size (drv_rings d)) = Ret r ∧
        rings (drv_rings d') !! (slot, dci x) = Some r) ∧
    (∀ key, (∀ x, x ∈ es → key ≠ (slot, dci x)) →
      rings (drv_rings d') !! key = rings (drv_rings d) !! key).
Proof.
  intros selected Hcrate Hd Hl Hf Hboot Hh Hslot Hs Hr Hps es. pose proof (ud_endpoints _ _ _ _ _ Hd) as Hok.
  destruct (chosen d slot alt e) as [[m k] s] eqn:Ech. unfold configure_device.
  rewrite (ud_descriptor _ _ _ _ _ Hd). unfold try_ at 1.
  rewrite (read_configs_one (drv_devices d) slot dd c l Hd), bind_Ret. unfold try_ at 1.
  rewrite (construct_device_one fuel (drv_devices d) slot dd c l Hd Hf), bind_Ret.
  rewrite (set_configuration_one (drv_devices d) slot c _ (ud_select _ _ _ _ _ Hd)), bind_Ret. fold selected.
  set (conf := UsbConfiguration_new c _). set (dev := configured slot conf).
  unfold enable_endpoints. destruct (first_selected (drv_devices d) slot dd c l Hd) as [Hin Hes].
  assert (alternates_selected dev = replicate (length l) 0) as Hsel.
  { unfold dev, conf. cbn [configured alternates_selected interfaces UsbConfiguration_new]. by rewrite length_fmap. }
  destruct (prepare_endpoints_ok set_context_entries dev (ring_at slot) (slot_context slot).1 (slot_context slot).2
    (drv_rings d) 0 conf es) as (st & Hen & ->); [done|done|by rewrite Hsel|rewrite Hsel; symmetry; exact Hes|done|done|].
  rewrite Hcrate, !bind_Ret by (pose proof (entries_fit es Hok (ud_entries _ _ _ _ _ Hd)); lia).
  change (Usbd.slot_id dev) with slot. rewrite as_u_small by lia.
  destruct (push_configure (drv_commands d) ps (raw (input_at slot) slot) (chan_of slot) Hr Hps) as (cmds & -> & Hr').
  rewrite !bind_Ret. rewrite (vget_ok (configs dev) 0 conf), bind_Ret by done.
  rewrite (vget_ok (interfaces conf) 0 (intf_of num ((alt, leaves) :: alts))), bind_Ret by (done || (unfold conf; by rewrite Hl)).
  rewrite (vget_ok _ 0 (UsbInterfaceAlternate_new alt leaves)), bind_Ret by done.
  pose proof (start_class_ok {| mouse_callback := mouse_callback d; keyboard_callback := keyboard_callback d;
    drv_devices := selected; drv_rings := en_rings st; drv_commands := cmds |} slot alt leaves e Hboot Hh) as Hst.
  unfold chosen in Hst, Ech. cbn [mouse_callback keyboard_callback drv_rings drv_commands drv_devices] in Hst. rewrite Ech in Hst.
  rewrite Hst.
  2:{ assert (e ∈ es) as Hin'; [|by apply (proj1 (list.Forall_forall _ _) Hok)].
      unfold es, first_endpoints. rewrite Hl. cbn. destruct (omap as_endpoint leaves); [done|]. simpl in Hh. set_solver. }
  2:{ apply interface_number_range. }
  unfold try_. rewrite bind_Ret. cbn [fst snd]. eexists _, _. split; [reflexivity|].
  cbn [mouse_callback keyboard_callback drv_rings drv_commands drv_devices ci_flags ci_context_entries ci_endpoints
    ci_root_hub_port_number ci_speed]. split_and!; try done.
  - by destruct (slot_context slot).
  - intros i x Hi. pose proof (distinct_tail es i x (ud_distinct _ _ _ _ _ Hd) Hi) as Hnot.
    split; [by apply (eb_contexts _ _ _ _ _ Hen)|by apply (eb_rings _ _ _ _ _ Hen)].
  - apply (eb_ring_others _ _ _ _ _ Hen).
Qed.

End driver.
Arguments UsbDriver : clear implicits.

(** ** Polling a mouse or keyboard *)

Section polling.
Context {TRB : Type} `{!TrbOps TRB} (into_raw : Allowed → TRB).

(** The spawned task: subscribe, wait for the completion, hand the report to the callback
    if the transfer went well, again. A round is the report's buffer and the transfer event
    that ends the wait; the result has the buffers handed over and whether the task is
    still running. It waits for ever if its block is not the one reported. *)
Fixpoint poll_hid (self : HidClass) (ts : TransferRingSet TRB) (rounds : list (Z * TransferEvent))
    : outcome (TransferRingSet TRB * list Z * bool) :=
  match rounds with
  | [] => Ret (ts, [], true)
  | (buf, evt) :: rounds =>
      '(ts, _, r) ← subscribe_once into_raw self ts buf [];
      match r with
      | inr _ => Ret (ts, [], false)
      | inl recv =>
          '(ts, note) ← on_trf_event ts evt;
          match note with
          | Some (c, res) =>
              if decide (c = recv) then
                '(ts, reports, running) ← poll_hid self ts rounds;
                Ret (ts, match res with inl _ => buf :: reports | inr _ => reports end, running)
              else Ret (ts, [], true)
          | None => Ret (ts, [], true)
          end
      end
  end.

(** The controller executes block number [k] and reports it with a completion code. *)
Definition completion (self : HidClass) (addr n k : Z) (code : CompletionCode + Z) : TransferEvent :=
  {| slot_id := hid_slot_id self; endpoint_id := hid_dci self;
     trb_pointer := addr + TRB_SIZE * (k mod n); completion_code := code |}.

Definition successful (code : CompletionCode + Z) : bool :=
  match code with inl Success | inl ShortPacket => true | _ => false end.

(** Nothing is outstanding on the endpoint's ring. *)
Definition idle_ring (self : HidClass) (ts : TransferRingSet TRB) (n : Z) (s : system TRB) : Prop :=
  rings ts !! (hid_slot_id self, hid_dci self) = Some (ring s) ∧ ring_inv n s ∧
  completed s = zlen (pushed s) ∧ zlen (consumed s) = zlen (pushed s).

(** One round: the ring is idle again, with one more block in its history. *)
Lemma poll_round self ts n s buf code rounds :
  idle_ring self ts n s → 2 ≤ n →
  ∃ ts' s', idle_ring self ts' n s' ∧ zlen (pushed s') = zlen (pushed s) + 1 ∧
    buf_ptr (ring s') = buf_ptr (ring s) ∧
    poll_hid self ts ((buf, completion self (buf_ptr (ring s)) n (zlen (pushed s)) code) :: rounds) =
      '(ts2, reports, running) ← poll_hid self ts' rounds;
      Ret (ts2, if successful code then buf :: reports else reports, running).
Proof.
  intros (Hl & Hi & Hc & Hcs) Hn. pose proof (ri_n _ _ Hi) as Hn1.
  destruct (push_transfer_trb_ok into_raw n s ts (hid_slot_id self) (hid_dci self) (Normal buf 8 true) Hi Hl)
    as (r & Hi1 & Hb1 & E1); [unfold room; lia|done|].
  set (ts1 := {| rings := _; trf_listener := _; ring_size := _; channels := _ |}) in E1.
  destruct (drain n _ Hi1) as (s2 & Hr2 & Hp2 & Hcs2 & Hring2 & Hc2).
  pose proof (steps_inv n _ _ Hr2 Hi1) as Hi2. cbn [extend pushed ring completed] in Hp2, Hring2, Hc2, Hcs2.
  assert (zlen (pushed s2) = zlen (pushed s) + 1) as Hp2' by (rewrite Hp2, length_app; simpl; lia).
  rewrite length_app in Hcs2. cbn [length] in Hcs2.
  set (evt := completion self (buf_ptr (ring s)) n (zlen (pushed s)) code).
  destruct (trf_event_routed n s2 ts1 evt (zlen (pushed s)) Hi2) as (r3 & ts3 & E3 & Hr3 & _ & _ & Hb3 & Hi3).
  { cbn [evt completion slot_id endpoint_id ts1 rings]. by rewrite lookup_insert_eq, Hring2. }
  { lia. }
  { cbn [evt completion trb_pointer]. by rewrite Hring2, Hb1. }
  exists ts3, {| ring := r3; ctl := ctl s2; pushed := pushed s2; consumed := consumed s2; completed := zlen (pushed s) + 1 |}.
  split; [|split; [|split]].
  - split_and!; [by rewrite Hr3; apply lookup_insert_eq|done|..]; cbn [completed pushed consumed]; lia.
  - cbn [pushed]. lia.
  - cbn [ring]. by rewrite Hb3, Hring2.
  - cbn [poll_hid]. unfold subscribe_once, try_push. rewrite E1, !bind_Ret. cbn [unwrap]. rewrite !bind_Ret.
    rewrite E3, bind_Ret. cbn [evt completion trb_pointer ts1 trf_listener completion_code].
    unfold slot_addr. rewrite Z.add_0_r, lookup_insert_eq. cbn [fmap option_fmap option_map].
    rewrite decide_True by done. destruct code as [[]|]; done.
Qed.

(** The controller answers every subscription, block after block. *)
Fixpoint answered (self : HidClass) (addr n k : Z) (rounds : list (Z * (CompletionCode + Z)))
    : list (Z * TransferEvent) :=
  match rounds with
  | [] => []
  | (buf, code) :: rounds => (buf, completion self addr n k code) :: answered self addr n (k + 1) rounds
  end.

Lemma poll_rounds self ts n s rounds :
  idle_ring self ts n s → 2 ≤ n →
  ∃ ts', poll_hid self ts (answered self (buf_ptr (ring s)) n (zlen (pushed s)) rounds) =
    Ret (ts', (filter (λ r, successful r.2 = true) rounds).*1, true).
Proof.
  intros Hi Hn. revert ts s Hi. induction rounds as [|[buf code] rounds IH]; intros ts s Hi; [by eexists|].
  cbn [answered].
  destruct (poll_round self ts n s buf code (answered self (buf_ptr (ring s)) n (zlen (pushed s) + 1) rounds) Hi Hn)
    as (ts1 & s1 & Hi1 & Hp1 & Hb1 & ->).
  destruct (IH ts1 s1 Hi1) as (ts2 & E2). rewrite Hb1, Hp1 in E2. rewrite E2, bind_Ret.
  exists ts2. rewrite filter_cons. cbn [snd]. by destruct (successful code).
Qed.

(** A mouse or keyboard is polled for ever. On a fresh ring of any size from three,
    with a controller that executes every transfer and reports it, the polling task never
    finds its ring full and never stops, however many rounds there are, and hands to the
    callback exactly the reports of the successful transfers, in order. *)
Lemma hid_polled_forever (self : HidClass) (ts : TransferRingSet TRB) (addr size : Z) (r : ProducerRing TRB)
    (rounds : list (Z * (CompletionCode + Z))) :
  3 ≤ size ≤ 2 ^ 32 → 0 ≤ addr → addr + TRB_SIZE * size < 2 ^ 64 →
  ProducerRing_new addr size = Ret r → rings ts !! (hid_slot_id self, hid_dci self) = Some r →
  ∃ ts', poll_hid self ts (answered self addr (size - 1) 0 rounds) =
    Ret (ts', (filter (λ r, successful r.2 = true) rounds).*1, true).
Proof.
  intros Hs Ha Hb Hnew Hl.
  pose proof (ring_inv_start addr size r ltac:(lia) Ha Hb Hnew) as Hi.
  destruct (poll_rounds self ts (size - 1) (start r) rounds) as (ts' & E); [|lia|].
  - split_and!; [exact Hl|exact Hi|done|done].
  - exists ts'. cbn [start ring pushed length] in E. unfold ProducerRing_new in Hnew. inv_outcome. by subst r.
Qed.

End polling.

(** ** Concrete runs *)

(** The keyboard of Usbd behind the driver. *)
Definition demo_descriptor : list Z := [18; 1; 0; 2; 0; 0; 0; 8; 1; 2; 3; 4; 0; 1; 0; 0; 0; 1].
(** The bus keeps the requests that were made. *)
Definition demo_control_in (log : list (Z * SetupData)) (slot : Z) (setup : SetupData) (n : Z) : list Z + Usbd.XhciError :=
  if setup_value setup =? 0x0100 then inl demo_descriptor else demo_device setup n.
Definition demo_control_out (log : list (Z * SetupData)) (slot : Z) (setup : SetupData)
    : list (Z * SetupData) * (() + Usbd.XhciError) :=
  (log ++ [(slot, setup)], inl ()).
(** The crate as its field is: five bits, and a panic for what does not fit. *)
Definition demo_set_context_entries (n : Z) : outcome Z := if n <? 32 then Ret n else Panic AssertFailed.

Definition demo_cmds : CommandRing Z nat :=
  {| cmd_ring := {| data := replicate 31 0 ++ [trb_link 0x1000]; cycle_state := true; enque := 0; deque := 0;
                    buf_ptr := 0x1000 |}; listener := ∅ |}.

Definition demo_driver : UsbDriver Z (list (Z * SetupData)) :=
  {| mouse_callback := true; keyboard_callback := true; drv_devices := []; drv_rings := TransferRingSet_new 32;
     drv_commands := demo_cmds |}.

Definition demo_tree : list (Z * list (list Z * list Descriptor)) := [(0, [(demo_intf, demo_leaves)])].

Lemma demo_usb_device : usb_device demo_control_in demo_control_out [] 1 demo_descriptor demo_conf demo_tree.
Proof.
  split; try done.
  - exact demo_config_ok.
  - split; [|done]. split; [done|]. repeat constructor.
  - intros [|[]] num alts Hi; by simplify_eq/=.
  - repeat constructor; vm_compute; congruence.
  - vm_compute. repeat constructor; set_solver.
  - repeat constructor; vm_compute; congruence.
Qed.

Lemma device_configured_witness :
  ∃ d' ic, configure_device (λ a s, a + s) demo_set_context_entries demo_control_in demo_control_out (λ _, (3, 2)) (λ _ i, 0x8000 + 512 * Z.of_nat i)
      (λ _, 0x4000) (λ _, 0%nat) 2 demo_driver 1 =
      Ret (inl (d', ic, StartKeyboard {| hid_slot_id := 1; hid_interface := 0; hid_dci := 3 |})) ∧
    mouse_callback d' = true ∧ keyboard_callback d' = false ∧
    drv_devices d' = [(1, {| request_type := SetConfigutation; setup_value := 1; setup_index := 0; setup_length := 0 |});
                      (1, {| request_type := SetProtocol; setup_value := 0; setup_index := 0; setup_length := 0 |})] ∧
    ci_flags ic = [0; 3] ∧ ci_context_entries ic = 4.
Proof.
  assert (ring_inv 31 (as_system demo_cmds [])) as Hr.
  { apply (ring_inv_start 0x1000 32 (cmd_ring demo_cmds)); [lia|lia|vm_compute; reflexivity|vm_compute; reflexivity]. }
  destruct (device_configured (λ a s, a + s) demo_set_context_entries demo_control_in demo_control_out (λ _, (3, 2))
    (λ _ i, 0x8000 + 512 * Z.of_nat i) (λ _, 0x4000) (λ _, 0%nat) 2 demo_driver 1 demo_descriptor demo_conf demo_intf
    demo_tree 0 demo_leaves [] []
    {| ep_length := 7; ep_descriptor_type := 5; endpoint_addr := 129; ep_bm_attributes := 3;
       max_packet_size := 8; interval := 10 |} []) as (d' & ic & E & Hm & Hk & Hdev & _ & Hf & He & _);
    [intros n Hn; unfold demo_set_context_entries; by rewrite (proj2 (Z.ltb_lt _ _)) by lia|
     exact demo_usb_device|reflexivity|simpl; lia|reflexivity|reflexivity|lia|vm_compute; split; congruence|exact Hr|simpl; lia|].
  exists d', ic. split; [exact E|]. split; [exact Hm|]. split; [exact Hk|]. split; [exact Hdev|].
  split; [exact Hf|exact He].
Defined.

Definition demo_hid : HidClass := {| hid_slot_id := 1; hid_interface := 0; hid_dci := 3 |}.

(** A ring of four at address 0x1000. *)
Definition demo_pipes : outcome (TransferRingSet Z * Z) := init_ring_at (TransferRingSet_new 4) 0x1000 1 3.

Lemma hid_polled_forever_witness :
  ∃ ts ts', demo_pipes = Ret (ts, 0x1000) ∧
    poll_hid demo_raw demo_hid ts (answered demo_hid 0x1000 3 0
      [(16, inl Success); (32, inl (OtherCode 4)); (48, inl ShortPacket); (64, inl Success); (80, inr 77); (96, inl Success)]) =
    Ret (ts', [16; 48; 64; 96], true).
Proof.
  destruct demo_pipes as [[ts p]| |] eqn:E; [|vm_compute in E; discriminate E..].
  destruct (ProducerRing_new (TRB := Z) 0x1000 4) as [r| |] eqn:Er; [|vm_compute in Er; discriminate Er..].
  destruct (hid_polled_forever demo_raw demo_hid ts 0x1000 4 r
    [(16, inl Success); (32, inl (OtherCode 4)); (48, inl ShortPacket); (64, inl Success); (80, inr 77); (96, inl Success)])
    as (ts' & H); [lia|lia|vm_compute; reflexivity|exact Er| |].
  - unfold demo_pipes, init_ring_at in E. cbn [ring_size TransferRingSet_new] in E. rewrite Er in E.
    injection E as <- _. reflexivity.
  - exists ts, ts'. split; [|exact H]. vm_compute in E. injection E as <- <-. reflexivity.
Defined.

(** One device that fails a request ends the main loop: the keyboard that follows is never
    configured. *)
Example error_ends_driver :
  let failing log slot setup n := if slot =? 1 then inr Usbd.TransferError else demo_control_in log slot setup n in
  main_loop (λ a s, a + s) demo_set_context_entries failing demo_control_out (λ _, (3, 2)) (λ _ i, 0x8000 + 512 * Z.of_nat i) (λ _, 0x4000)
    (λ _, 0%nat) 2 demo_driver [2] =
    Ret ([StartKeyboard {| hid_slot_id := 2; hid_interface := 0; hid_dci := 3 |}], None) ∧
  main_loop (λ a s, a + s) demo_set_context_entries failing demo_control_out (λ _, (3, 2)) (λ _ i, 0x8000 + 512 * Z.of_nat i) (λ _, 0x4000)
    (λ _, 0%nat) 2 demo_driver [1; 2] = Ret ([], Some Usbd.TransferError).
Proof. split; vm_compute; reflexivity. Qed.
