(* ===== verification/HeapInit.v ===== *)
(** memory_manager.rs, [init_allocators] and [run_allocator_tests]: the frame allocator and
    the heap built from the firmware's memory map, and the self-test the kernel runs on the
    heap at every start.

    [bytes] is the memory the test fills. The heap's free lists live in blocks that are
    free, which the test does not look at; they are [objects] of the heap's state. *)

From S2P Require Import Prelude MemoryMap FrameAlloc ObjectAlloc.

Abbreviation bytes := (gmap Z Z).

(** The slice of [size] bytes at [ptr]. *)
Definition block (ptr size : Z) : list Z := range ptr (ptr + size).

(** [x = (x * 129 + 111) as u8 as usize] *)
Definition next_value (x : Z) : outcome Z :=
  a ← usize_mul x 129;
  b ← usize_add a 111;
  Ret (as_u 8 b).

(** The loop that fills a slice, from the value [x] on. *)
Fixpoint write_pattern (m : bytes) (x : Z) (alloc : list Z) : outcome bytes :=
  match alloc with
  | [] => Ret m
  | y :: alloc =>
      x' ← next_value x;
      write_pattern (<[y := as_u 8 x]> m) x' alloc
  end.

(** The loop that asserts its contents. *)
Fixpoint check_pattern (m : bytes) (x : Z) (alloc : list Z) : outcome () :=
  match alloc with
  | [] => Ret ()
  | y :: alloc =>
      v ← (match m !! y with Some v => Ret v | None => Panic Undefined end);
      _ ← assert_ (v =? as_u 8 x);
      x' ← next_value x;
      check_pattern m x' alloc
  end.

(** The body of [for i in 0..10]. Writing through a null pointer is undefined. *)
Definition test_alloc (layout : Layout) (st : Heap * bytes * list Z) (i : Z)
    : outcome (Heap * bytes * list Z) :=
  let '(s, m, ptrs) := st in
  '(s, ptr) ← alloc s layout;
  if ptr =? null then Panic Undefined
  else
    m ← write_pattern m i (block ptr (layout_size layout));
    Ret (s, m, ptrs ++ [ptr]).

(** The body of [for (i, ptr) in ptrs.iter().enumerate()]. *)
Definition test_free (layout : Layout) (m : bytes) (s : Heap) (ip : Z * Z) : outcome Heap :=
  _ ← check_pattern m ip.1 (block ip.2 (layout_size layout));
  dealloc s ip.2 layout.

(** Ten objects of one layout. *)
Definition test_layout (st : Heap * bytes) (layout : Layout) : outcome (Heap * bytes) :=
  '(s, m, ptrs) ← foldM (test_alloc layout) (range 0 10) (st.1, st.2, []);
  s ← foldM (test_free layout m) (zip (range 0 10) ptrs) s;
  Ret (s, m).

Definition aligns : list Z := [1; 2; 4; 8; 16; 32; 64; 128].
Definition sizes : list Z := [1; 2; 4; 8; 16; 32; 64; 128].

(** The order of the two [for] loops. *)
Definition test_layouts : list Layout :=
  align ← aligns; size ← sizes; [{| layout_size := size; layout_align := align |}].

Definition run_allocator_tests (s : Heap) (m : bytes) : outcome (Heap * bytes) :=
  foldM test_layout test_layouts (s, m).

(** [m0], [h] and [m]: the memory of the bitmap and the rest before initialisation. *)
Definition init_allocators (fuel : nat) (m0 : BitMapMemoryManager) (h : memory) (m : bytes) (map : MemoryMap)
    : outcome (Heap * bytes) :=
  mem ← new_at fuel m0 map;
  s ← ObjectAllocator_new mem h;
  run_allocator_tests s m.

(** ** The pattern *)

Lemma next_value_ok x : 0 ≤ x < 256 → ∃ y, next_value x = Ret y ∧ 0 ≤ y < 256.
Proof.
  intros Hx. unfold next_value. rewrite usize_mul_ok, bind_Ret by lia. rewrite usize_add_ok, bind_Ret by lia.
  eexists. split; [done|]. unfold as_u. pose proof (Z.mod_pos_bound (x * 129 + 111) (2 ^ 8) ltac:(lia)). lia.
Qed.

(** A block filled by the pattern passes the check for as long as nobody else writes to it. *)
Definition filled (m : bytes) (x : Z) (l : list Z) : Prop :=
  ∀ m', (∀ y, y ∈ l → m' !! y = m !! y) → check_pattern m' x l = Ret ().

Lemma write_pattern_ok m x l :
  0 ≤ x < 256 → NoDup l →
  ∃ m', write_pattern m x l = Ret m' ∧ (∀ a, a ∉ l → m' !! a = m !! a) ∧ filled m' x l.
Proof.
  intros Hx Hnd. revert m x Hx. induction Hnd as [|y l Hy Hnd IH]; intros m x Hx; [by exists m|].
  cbn [write_pattern]. destruct (next_value_ok x Hx) as (x' & E & Hx'). rewrite E, bind_Ret.
  destruct (IH (<[y := as_u 8 x]> m) x' Hx') as (m' & -> & Hout & Hf). exists m'. split; [done|]. split.
  - intros a Ha. rewrite Hout by set_solver. apply lookup_insert_ne. set_solver.
  - intros m'' Hm. cbn [check_pattern]. rewrite Hm by by left. rewrite (Hout y Hy), lookup_insert_eq, bind_Ret.
    rewrite Z.eqb_refl. cbn [assert_]. rewrite bind_Ret, E, bind_Ret. apply Hf. intros z Hz. apply Hm. by right.
Qed.

Lemma filled_agree m m' x l : filled m x l → (∀ y, y ∈ l → m' !! y = m !! y) → filled m' x l.
Proof. intros Hf Hm m2 Hm2. apply Hf. intros y Hy. by rewrite Hm2, Hm. Qed.

Lemma elem_of_block y ptr size : y ∈ block ptr size ↔ ptr ≤ y < ptr + size.
Proof. unfold block, range. rewrite elem_of_seqZ. lia. Qed.

Lemma block_NoDup ptr size : NoDup (block ptr size).
Proof. apply NoDup_seqZ. Qed.

(** ** What a class has in stock *)

(** Every class has its first page and no other: its free objects and the live ones
    together are the objects of that page. *)
Definition stocked (gs : list cls) (L : list (Z * Layout)) : Prop :=
  ∀ i sz g, BLOCK_SZ !! i = Some sz → gs !! i = Some g →
    ∃ p, 0 < p ∧ g.1 ++ live_of i L ≡ₚ page_objs (p * BYTES_PER_FRAME) sz 1.

Lemma stocked_fresh gs : fresh gs → stocked gs [].
Proof. intros Hf i sz g Hi Hg. destruct (Hf i sz g Hi Hg) as (p & Hp & ->). exists p. cbn. by rewrite app_nil_r. Qed.

Lemma stocked_perm gs L L' : L ≡ₚ L' → stocked gs L → stocked gs L'.
Proof.
  intros HP Hs i sz g Hi Hg. destruct (Hs i sz g Hi Hg) as (p & Hp & E). exists p. split; [done|].
  unfold live_of. by rewrite <- HP.
Qed.

(** Objects move between free and live. *)
Lemma stocked_move gs L L' i g fr :
  stocked gs L → gs !! i = Some g → fr ++ live_of i L' ≡ₚ g.1 ++ live_of i L →
  (∀ j, j ≠ i → live_of j L' = live_of j L) → stocked (<[i := (fr, g.2)]> gs) L'.
Proof.
  intros Hs Hg HP Hj j sz g' Hsz Hg'. destruct (decide (j = i)) as [->|Hne].
  - rewrite list_lookup_insert_eq in Hg' by (by eapply lookup_lt_Some). injection Hg' as <-.
    destruct (Hs i sz g Hsz Hg) as (p & Hp & E). exists p. split; [done|]. cbn [fst]. by rewrite HP.
  - rewrite list_lookup_insert_ne in Hg' by done. rewrite Hj by done. by apply Hs.
Qed.

Lemma stocked_pop gs L l i g k x :
  stocked gs L → class_of l = Some i → gs !! i = Some g → g.1 !! k = Some x →
  stocked (<[i := (take k g.1 ++ drop (S k) g.1, g.2)]> gs) ((x, l) :: L).
Proof.
  intros Hs Hc Hg Hk. destruct (live_small_other i l L x Hc) as (H1 & H2 & _).
  apply (stocked_move gs L); [done|done| |done]. rewrite H2, <- Permutation_middle, app_comm_cons.
  f_equiv. rewrite <- delete_take_drop. symmetry. by apply delete_Permutation.
Qed.

Lemma stocked_push gs L l i g a :
  stocked gs ((a, l) :: L) → class_of l = Some i → gs !! i = Some g →
  stocked (<[i := (a :: g.1, g.2)]> gs) L.
Proof.
  intros Hs Hc Hg. destruct (live_small_other i l L a Hc) as (H1 & H2 & _).
  apply (stocked_move gs ((a, l) :: L)); [done|done| |].
  - rewrite H2. by rewrite <- Permutation_middle.
  - intros j Hj. by rewrite H1.
Qed.

(** How many objects of a page have the layout's alignment. *)
Definition fitting (l : Layout) (sz : Z) : nat := length (filter (λ x, is_aligned l x = true) (page_objs 0 sz 1)).

Lemma fitting_anywhere l sz p :
  layout_ok l →
  length (filter (λ x, is_aligned l x = true) (page_objs (p * BYTES_PER_FRAME) sz 1)) = fitting l sz.
Proof.
  intros (_ & Ha & Hd). unfold fitting, page_objs, objs.
  induction (seq 0 (Z.to_nat (BYTES_PER_FRAME / sz - 1))) as [|k ks IH]; [done|].
  rewrite !fmap_cons, !filter_cons.
  assert (is_aligned l (p * BYTES_PER_FRAME + 1 * sz + Z.of_nat k * sz) = is_aligned l (0 + 1 * sz + Z.of_nat k * sz)) as ->.
  { unfold is_aligned. f_equal. replace (p * BYTES_PER_FRAME + 1 * sz + Z.of_nat k * sz)
      with (0 + 1 * sz + Z.of_nat k * sz + p * BYTES_PER_FRAME) by lia.
    assert ((p * BYTES_PER_FRAME) mod layout_align l = 0) as E0 by (apply Z.mod_divide; [lia|by apply Z.divide_mul_r]).
    by rewrite Z.add_mod, E0, Z.add_0_r, Z.mod_mod by lia. }
  case_decide; cbn [length]; by rewrite IH.
Qed.

(** A layout the test uses: small, and one page has ten objects for it. *)
Definition tested (l : Layout) : Prop :=
  layout_ok l ∧ 0 < layout_size l ≤ 128 ∧
  ∃ i sz, class_of l = Some i ∧ BLOCK_SZ !! i = Some sz ∧ (10 <= fitting l sz)%nat.

(** As long as fewer than ten objects are live, one that fits is free. *)
Lemma stock_fits l gs L :
  tested l → stocked gs L → length gs = 6%nat → (length L < 10)%nat →
  ∃ i g k x, class_of l = Some i ∧ gs !! i = Some g ∧ list_find (λ y, is_aligned l y = true) g.1 = Some (k, x).
Proof.
  intros (Hl & _ & i & sz & Hc & Hsz & Hfit) Hs Hgs HL.
  destruct (class_lookup gs i sz Hgs Hsz) as [g Hg]. destruct (Hs i sz g Hsz Hg) as (p & Hp & HP).
  destruct (list_find (λ y, is_aligned l y = true) g.1) as [[k x]|] eqn:E; [by exists i, g, k, x|]. exfalso.
  assert (filter (λ x, is_aligned l x = true) g.1 = []) as En.
  { apply list_find_None in E. clear -E. induction E as [|x f Hx _ IH]; [done|]. by rewrite filter_cons, decide_False. }
  pose proof (fitting_anywhere l sz p Hl) as Hn. rewrite <- HP, filter_app, En in Hn. cbn [app] in Hn.
  pose proof (length_filter (λ x, is_aligned l x = true) (live_of i L)).
  assert (length (live_of i L) ≤ length L)%nat by (unfold live_of; rewrite length_fmap; apply length_filter). lia.
Qed.

(** ** One layout *)

Section round.
Context (l : Layout) (Ht : tested l).

Definition live (ptrs : list Z) : list (Z * Layout) := (λ p, (p, l)) <$> reverse ptrs.

(** After some of the allocations: [ptrs] are live and every block holds its pattern. *)
Record filling (s : Heap) (m : bytes) (is_ ptrs : list Z) : Prop := {
  fi_heap : ∃ gs, heap_inv s gs (live ptrs) ∧ stocked gs (live ptrs);
  fi_aligned : Forall (λ p, p mod layout_align l = 0) ptrs;
  fi_filled : Forall2 (λ i p, filled m i (block p (layout_size l))) is_ ptrs;
}.

Lemma live_snoc ptrs p : live (ptrs ++ [p]) = (p, l) :: live ptrs.
Proof. unfold live. by rewrite reverse_app. Qed.

Lemma live_ok ptrs :
  Forall (λ p, p mod layout_align l = 0) ptrs →
  Forall (λ al, layout_ok al.2 ∧ layout_size al.2 ≠ 2048 ∧ al.1 mod layout_align al.2 = 0) (live ptrs).
Proof using Ht.
  intros Hp. destruct Ht as (Hl & Hsz & _). unfold live. apply Forall_fmap, Forall_reverse. eapply Forall_impl; [exact Hp|].
  intros p Ha. unfold compose. cbn. split_and!; [done|lia|done].
Qed.

(** A new block does not touch the old ones. *)
Lemma live_apart s gs ptrs p q y :
  heap_inv s gs (live (ptrs ++ [p])) → Forall (λ p, p mod layout_align l = 0) (ptrs ++ [p]) →
  q ∈ ptrs → y ∈ block q (layout_size l) → y ∉ block p (layout_size l).
Proof using Ht.
  intros HI Ha Hq Hy. pose proof (live_disjoint s gs _ HI (live_ok _ Ha)) as Hd. rewrite live_snoc in Hd.
  assert ((q, l) ∈ live ptrs) as Hin.
  { unfold live. apply list_elem_of_fmap. exists q. split; [done|]. by apply elem_of_reverse. }
  apply list_elem_of_lookup in Hin as [j Hj].
  specialize (Hd 0%nat (S j) (p, l) (q, l) eq_refl Hj ltac:(lia)). unfold bytes_disjoint in Hd. cbn in Hd.
  rewrite elem_of_block in *. lia.
Qed.

Lemma test_alloc_ok s m is_ ptrs i :
  filling s m is_ ptrs → 0 ≤ i < 256 → (length ptrs < 10)%nat →
  ∃ s' m' p, test_alloc l (s, m, ptrs) i = Ret (s', m', ptrs ++ [p]) ∧ filling s' m' (is_ ++ [i]) (ptrs ++ [p]).
Proof using Ht.
  intros [(gs & HI & Hst) Ha Hf] Hi Hlen.
  destruct (stock_fits l gs (live ptrs) Ht Hst (hi_gs _ _ _ HI)) as (c & g & k & p & Hc & Hg & Hk).
  { unfold live. by rewrite length_fmap, length_reverse. }
  destruct (alloc_fits s gs (live ptrs) l c g k p HI Hc Hg Hk) as (s' & E & Hp & Hpa & _ & HI').
  unfold test_alloc. rewrite E, bind_Ret. rewrite (proj2 (Z.eqb_neq _ _)) by (unfold null; lia).
  destruct (write_pattern_ok m i (block p (layout_size l)) Hi (block_NoDup _ _)) as (m' & -> & Hout & Hfp).
  rewrite bind_Ret. exists s', m', p. split; [done|].
  assert (Forall (λ p, p mod layout_align l = 0) (ptrs ++ [p])) as Ha' by (apply Forall_app; split; [done|by constructor]).
  split; [|done|].
  - eexists. rewrite live_snoc. split; [exact HI'|]. apply stocked_pop; [done..|].
    by apply list_find_Some in Hk as [? _].
  - apply Forall2_app; [|by repeat constructor].
    apply Forall2_same_length_lookup. split; [by eapply Forall2_length|].
    intros j i' q Hj Hq. apply (filled_agree m m'); [exact (Forall2_lookup_lr _ _ _ _ _ _ Hf Hj Hq)|].
    intros y Hy. apply Hout. eapply live_apart; [by rewrite live_snoc|exact Ha'|by eapply list_elem_of_lookup_2|exact Hy].
Qed.

Lemma test_allocs_ok is_ s m done ptrs :
  filling s m done ptrs → Forall (λ i, 0 ≤ i < 256) is_ → (length ptrs + length is_ <= 10)%nat →
  ∃ s' m' ptrs', foldM (test_alloc l) is_ (s, m, ptrs) = Ret (s', m', ptrs') ∧ filling s' m' (done ++ is_) ptrs'.
Proof using Ht.
  revert s m done ptrs. induction is_ as [|i is_ IH]; intros s m done ptrs Hf Hi Hlen.
  { exists s, m, ptrs. by rewrite app_nil_r. }
  apply list.Forall_cons in Hi as [Hi His]. cbn [foldM]. simpl in Hlen.
  destruct (test_alloc_ok s m done ptrs i Hf Hi) as (s' & m' & p & -> & Hf'); [lia|].
  rewrite bind_Ret. destruct (IH s' m' _ _ Hf' His) as (s2 & m2 & ptrs2 & -> & Hf2); [rewrite length_app; simpl; lia|].
  exists s2, m2, ptrs2. by rewrite <- app_assoc in Hf2.
Qed.

Lemma test_frees_ok m is_ ptrs s gs L :
  heap_inv s gs L → stocked gs L → L ≡ₚ (λ p, (p, l)) <$> ptrs →
  Forall2 (λ i p, filled m i (block p (layout_size l))) is_ ptrs →
  ∃ s' gs', foldM (test_free l m) (zip is_ ptrs) s = Ret s' ∧ heap_inv s' gs' [] ∧ stocked gs' [].
Proof using Ht.
  intros HI Hst HP Hf. revert s gs L HI Hst HP. induction Hf as [|i p is_ ptrs Hip Hf IH]; intros s gs L HI Hst HP.
  - apply Permutation_nil_r in HP as ->. by exists s, gs.
  - apply (heap_inv_perm _ _ _ _ HP) in HI. apply (stocked_perm _ _ _ HP) in Hst. cbn [zip zip_with foldM].
    assert (test_free l m s (i, p) = dealloc s p l) as -> by (unfold test_free; cbn [fst snd]; by rewrite Hip).
    rewrite fmap_cons in HI, Hst. destruct Ht as (_ & _ & c & sz & Hc & _).
    destruct (dealloc_small_ok s gs _ l c p HI Hc) as (s1 & g & -> & Hg & _ & HI1). rewrite bind_Ret.
    apply (IH s1 _ _ HI1); [by apply (stocked_push _ _ l)|done].
Qed.

Lemma test_layout_ok s m gs :
  heap_inv s gs [] → stocked gs [] →
  ∃ s' m' gs', test_layout (s, m) l = Ret (s', m') ∧ heap_inv s' gs' [] ∧ stocked gs' [].
Proof using Ht.
  intros HI Hst. unfold test_layout. cbn [fst snd].
  destruct (test_allocs_ok (range 0 10) s m [] []) as (s' & m' & ptrs & -> & [(gs1 & HI1 & Hst1) Ha Hf]).
  - split; [by exists gs|constructor|constructor].
  - apply list.Forall_forall. intros i Hi. apply elem_of_seqZ in Hi. lia.
  - done.
  - rewrite bind_Ret. cbn [app] in Hf.
    destruct (test_frees_ok m' (range 0 10) ptrs s' gs1 _ HI1 Hst1) as (s2 & gs2 & -> & HI2); [|exact Hf|].
    { unfold live. by rewrite reverse_Permutation. }
    rewrite bind_Ret. by exists s2, m', gs2.
Qed.

End round.

(** ** All layouts *)

Definition tested_b (l : Layout) : bool :=
  match find_block (layout_size l) with
  | Some (i, sz) =>
      (0 <? layout_size l) && (layout_size l <=? 128) && (0 <? layout_align l) &&
      (BYTES_PER_FRAME mod layout_align l =? 0) && (10 <=? fitting l sz)%nat
  | None => false
  end.

Lemma test_layouts_ok : Forall tested test_layouts.
Proof.
  assert (Forall (λ l, tested_b l = true) test_layouts) as H by (vm_compute; repeat constructor).
  eapply Forall_impl; [exact H|]. intros l Hb. cbv beta in Hb. unfold tested_b in Hb.
  destruct (find_block (layout_size l)) as [[i sz]|] eqn:Ef; [|done].
  apply andb_true_iff in Hb as [[[[H1 H2]%andb_true_iff H3]%andb_true_iff H4]%andb_true_iff H5].
  split; [|split; [lia|]].
  - unfold layout_ok. split; [lia|]. split; [lia|]. apply Z.mod_divide; lia.
  - exists i, sz. split; [unfold class_of; by rewrite Ef|]. split; [by apply find_block_class in Ef as [? _]|].
    by apply Nat.leb_le.
Qed.

Lemma run_allocator_tests_ok s m gs :
  heap_inv s gs [] → stocked gs [] →
  ∃ s' m' gs', run_allocator_tests s m = Ret (s', m') ∧ heap_inv s' gs' [].
Proof.
  unfold run_allocator_tests. pose proof test_layouts_ok as Hok. revert s m gs Hok.
  induction test_layouts as [|l ls IH]; intros s m gs Hok HI Hst; [by exists s, m, gs|].
  apply list.Forall_cons in Hok as [Hl Hok]. cbn [foldM].
  destruct (test_layout_ok l Hl s m gs HI Hst) as (s' & m' & gs' & -> & HI' & Hst').
  rewrite bind_Ret. by apply (IH s' m' gs' Hok HI').
Qed.

Lemma sorted_first cap pos ds d : sorted_from cap pos ds → d ∈ ds → pos ≤ first_frame d.
Proof.
  revert pos. induction ds as [|d' ds IH]; intros pos Hs Hd; [by apply elem_of_nil in Hd|].
  destruct Hs as (Hp & _ & Hn & _ & Hs). apply elem_of_cons in Hd as [->|Hd]; [done|].
  specialize (IH _ Hs Hd). lia.
Qed.

(** The frames of a memory map the allocator can give out one by one: those available, but
    neither frame 0 nor the last one. *)
Definition usable_frames (ds : list MemoryDescriptor) : nat :=
  length (filter (λ f, existsb (λ d, is_available d && in_block (first_frame d) (num_pages d) f) ds = true)
    (range 1 (managed_end ds - 1))).

Lemma n_free_usable mem ds :
  available_range mem = (1, managed_end ds) →
  (∀ f, 0 ≤ f < managed_end ds → (used mem f = false ↔ ∃ d, d ∈ ds ∧ is_available d = true ∧ covers d f)) →
  n_free mem = usable_frames ds.
Proof.
  intros Hr Hu. unfold n_free, usable_frames. apply Permutation_length, NoDup_Permutation;
    [apply NoDup_free_frames|apply list.NoDup_filter, NoDup_seqZ|].
  intros f. rewrite elem_of_free_frames, list_elem_of_filter. unfold range. rewrite elem_of_seqZ, Hr, existsb_exists. cbn [fst snd].
  split.
  - intros [Hf Hin]. split; [|lia]. apply Hu in Hf as (d & Hd & Ha & Hc); [|lia]. exists d.
    split; [by apply list_elem_of_In|]. rewrite Ha. cbn [andb]. by destruct (in_blockP (first_frame d) (num_pages d) f).
  - intros [(d & Hd%list_elem_of_In & [Ha Hb]%andb_prop) Hin]. split; [|lia]. apply Hu; [lia|]. exists d.
    split; [done|]. split; [done|]. by destruct (in_blockP (first_frame d) (num_pages d) f).
Qed.

(** C15: from the firmware's memory map to a working heap. For a memory map as the
    firmware leaves it (see [new_at_correct]) with some available memory: if six frames
    of it can be given out, the kernel's allocators are set up and their self-test passes;
    no assertion of it fails, no allocation of it is refused, and it leaves a heap that
    meets its invariant, with nothing allocated, on frames none of which the firmware
    reserved. With fewer frames, and only then, the kernel stops, as there is none for a
    page header. *)
Theorem allocators_initialised (m0 : BitMapMemoryManager) (h : memory) (m : bytes) (map : MemoryMap)
    pad tail ds fuel :
  buffer map = encode_entries pad ds ++ tail →
  descriptor_size map = 40 + zlen pad →
  zlen (buffer map) + descriptor_size map < 2 ^ 64 →
  end_of_map (descriptor_size map) tail →
  Forall (λ d, descriptor_ok d ∧ attribute d ≠ 0) ds → (length ds < fuel)%nat →
  sorted_from (capacity m0) 0 ds → capacity m0 < 2 ^ 51 →
  (∃ d, d ∈ ds ∧ is_available d = true ∧ 0 < num_pages d) →
  if (6 <=? usable_frames ds)%nat then
    ∃ mem s s' m' gs gs', new_at fuel m0 map = Ret mem ∧ ObjectAllocator_new mem h = Ret s ∧ heap_inv s gs [] ∧
      init_allocators fuel m0 h m map = Ret (s', m') ∧ heap_inv s' gs' [] ∧
      ∀ f, 0 ≤ f < (available_range mem).2 →
        (used mem f = false ↔ ∃ d, d ∈ ds ∧ is_available d = true ∧ covers d f)
  else init_allocators fuel m0 h m map = Panic UnwrapNone.
Proof.
  intros Hb Hd Hs He HF Hfuel Hsort Hc (d & Hin & Hav & Hpg).
  destruct (new_at_ok m0 map pad tail ds fuel Hb Hd Hs He HF Hfuel Hsort Hc)
    as (mem & E & Hwf & Hcap & Hr & Hu & Hhi).
  pose proof (managed_end_ge ds d Hin Hav). pose proof (sorted_first _ _ _ _ Hsort Hin) as Hf0.
  unfold init_allocators. rewrite E, bind_Ret, <- (n_free_usable mem ds Hr Hu).
  pose proof (ObjectAllocator_new_ok mem h Hwf) as Hnew. rewrite Hr in Hnew. cbn [fst snd] in Hnew.
  specialize (Hnew ltac:(lia) ltac:(lia)). destruct (6 <=? n_free mem)%nat; [|by rewrite Hnew].
  destruct Hnew as (s & gs & Es & HI & Hfr). rewrite Es, bind_Ret.
  destruct (run_allocator_tests_ok s m gs HI (stocked_fresh gs Hfr)) as (s' & m' & gs' & -> & HI').
  exists mem, s, s', m', gs, gs'. split_and!; try done. by rewrite Hr.
Qed.

(** ** A concrete start *)

(** Twenty frames are available, then come twelve the firmware keeps. *)
Definition demo_regions : list MemoryDescriptor :=
  [ {| type_ := EfiConventionalMemory; physical_start := 0; virtual_start := 0;
       num_pages := 20; attribute := 15 |};
    {| type_ := EfiRuntimeServicesData; physical_start := 81920; virtual_start := 0;
       num_pages := 12; attribute := 15 |} ].

Definition demo_firmware : MemoryMap :=
  {| buffer := encode_entries [0; 0; 0; 0; 0; 0; 0; 0] demo_regions; map_key := 0; descriptor_size := 48 |}.

Definition demo_bitmap : BitMapMemoryManager := {| alloc_map := replicate 8 0; available_range := (0, 0) |}.

Lemma demo_usable : usable_frames demo_regions = 18%nat.
Proof. vm_compute. reflexivity. Qed.

Lemma allocators_initialised_witness :
  ∃ s' m' gs', init_allocators 4 demo_bitmap ∅ ∅ demo_firmware = Ret (s', m') ∧ heap_inv s' gs' [].
Proof.
  pose proof (allocators_initialised demo_bitmap ∅ ∅ demo_firmware [0; 0; 0; 0; 0; 0; 0; 0] [] demo_regions 4) as H.
  rewrite demo_usable in H. change (6 <=? 18)%nat with true in H. cbn match in H.
  destruct H as (mem & s & s' & m' & gs & gs' & _ & _ & _ & E & HI & _).
  - by rewrite app_nil_r.
  - reflexivity.
  - vm_compute. reflexivity.
  - left. vm_compute. reflexivity.
  - repeat constructor; vm_compute; done.
  - vm_compute. lia.
  - vm_compute. repeat split; done.
  - vm_compute. reflexivity.
  - eexists. split; [left|]. split; [reflexivity|vm_compute; reflexivity].
  - exists s', m', gs'. split; [exact E|exact HI].
Defined.

(** Seven available frames are one too few: the first and the last are never handed out. *)
Definition small_regions : list MemoryDescriptor :=
  [ {| type_ := EfiConventionalMemory; physical_start := 0; virtual_start := 0;
       num_pages := 7; attribute := 15 |} ].

Example too_little_memory :
  usable_frames small_regions = 5%nat ∧
  init_allocators 4 demo_bitmap ∅ ∅
    {| buffer := encode_entries [0; 0; 0; 0; 0; 0; 0; 0] small_regions; map_key := 0; descriptor_size := 48 |} =
    Panic UnwrapNone.
Proof. vm_compute. done. Qed.
