(* ===== verification/Bringup.v ===== *)
(** usb/mod.rs [init_usb], usb/xhci.rs [initialize_xhci] and the kinds of transfer request
    blocks, usb/ring/event.rs [init_event_ring]: the controller from its base address
    register to the first interrupt, and the tasks that serve it.

    Register reads are fields of [hc_view]; writes are logged, in the order the code makes
    them. The components that are set up are those of Pci, Xhci, Rings, Transfer, Runtime. *)

From S2P Require Import Prelude Bitfield Pci FrameAlloc ObjectAlloc Rings Runtime Transfer Xhci.

(** ** Kinds of blocks *)

(** [trb::Type] *)
Inductive trb_type :=
  | T_Normal | T_SetupStage | T_DataStage | T_StatusStage | T_Isoch | T_Link | T_EventData | T_NoopTransfer
  | T_EnableSlot | T_DisableSlot | T_AddressDevice | T_ConfigureEndpoint | T_EvaluateContext | T_ResetEndpoint
  | T_StopEndpoint | T_SetTrDequeuePointer | T_ResetDevice | T_ForceEvent | T_NegotiateBandwidth
  | T_SetLatencyToleranceValue | T_GetPortBandwidth | T_ForceHeader | T_NoopCommand
  | T_GetExtendedProperty | T_SetExtendedProperty
  | T_TransferEvent | T_CommandCompletion | T_PortStatusChange | T_BandwidthRequest | T_Doorbell
  | T_HostController | T_DeviceNotification | T_MfindexWrap.

Section kinds.
(** [Type::from_u8] of the xhci crate. *)
Context `{!Bitfield} (from_u8 : Z → option trb_type).

(** A block is the integer of its four words; the payload of a variant is the block itself. *)
Definition raw_trb_type (raw : Z) : Z := bit_range raw 111 106.

Definition into_cmd_trb (raw : Z) : option trb_type :=
  t ← from_u8 (raw_trb_type raw);
  match t with
  | T_AddressDevice | T_Link | T_EnableSlot | T_DisableSlot | T_ConfigureEndpoint | T_EvaluateContext
  | T_ResetEndpoint | T_StopEndpoint | T_SetTrDequeuePointer | T_ResetDevice | T_ForceEvent
  | T_NegotiateBandwidth | T_SetLatencyToleranceValue | T_GetPortBandwidth | T_ForceHeader | T_NoopCommand
  | T_GetExtendedProperty | T_SetExtendedProperty => Some t
  | _ => None
  end.

Definition into_trans_trb (raw : Z) : option trb_type :=
  t ← from_u8 (raw_trb_type raw);
  match t with
  | T_Normal | T_SetupStage | T_DataStage | T_StatusStage | T_Isoch | T_Link | T_EventData | T_NoopTransfer => Some t
  | _ => None
  end.

Definition into_event_trb (raw : Z) : option trb_type :=
  t ← from_u8 (raw_trb_type raw);
  match t with
  | T_TransferEvent | T_CommandCompletion | T_PortStatusChange | T_BandwidthRequest | T_Doorbell
  | T_HostController | T_DeviceNotification | T_MfindexWrap => Some t
  | _ => None
  end.

(** Every known block is of exactly one of the three kinds, except that links are commands
    and transfers. *)
Lemma trb_kinds raw t :
  from_u8 (raw_trb_type raw) = Some t →
  (into_event_trb raw = Some t ∧ into_cmd_trb raw = None ∧ into_trans_trb raw = None) ∨
  (into_event_trb raw = None ∧
   (into_cmd_trb raw = Some t ∨ into_trans_trb raw = Some t) ∧
   (into_cmd_trb raw = Some t ∧ into_trans_trb raw = Some t ↔ t = T_Link)).
Proof.
  intros E. unfold into_event_trb, into_cmd_trb, into_trans_trb. rewrite E. cbn [mbind option_bind].
  destruct t; cbn; tauto || (right; intuition congruence).
Qed.

(** ** The event ring *)

(** One [EventRingSegmentTableEntry], as the integer of its two words. *)
Definition segment_entry (base size : Z) : Z := set_bit_range (set_bit_range 0 63 0 base) 79 64 size.

Lemma segment_entry_ok base size :
  in_u 64 base → in_u 16 size →
  bit_range (segment_entry base size) 63 0 = base ∧ bit_range (segment_entry base size) 79 64 = size.
Proof.
  intros Hb Hs. unfold in_u in *. unfold segment_entry. split; [|by apply get_set_same; lia].
  rewrite get_set_other by lia. apply get_set_same; lia.
Qed.

End kinds.

(** ** Bringing the controller up *)

(** What the registers show. [hv_mem] are the capability bytes, [hv_spec] and the other
    sequences what successive polls read. *)
Record hc_view := {
  hv_ex_cap_ptr : Z;
  hv_mem : Z → Z;
  hv_spec : nat → Z;
  hv_ctl_sts : Z;
  hv_halted0 : bool;
  hv_halted : nat → bool;
  hv_reset : nat → bool;
  hv_not_ready : nat → bool;
  hv_max_slots : Z;
  hv_csz : bool;
  hv_scratchpads : Z;
  hv_pagesize : Z;
  hv_still_halted : nat → bool;
}.

Inductive xhc_write :=
  | MmioWrite (addr value : Z)
  | HcWrite (w : hc_write)
  | SetDcbaa (slots_enabled table : Z)
  | SetCommandRing (ptr : Z)
  | SetEventRing (segments table entry dequeue : Z).

(** The tasks that are spawned. *)
Inductive usb_task := CommandTask | TransferTask | DeviceInitTask | DriverTask.

(** Where rings and the segment table are allocated. *)
Record places := { cmd_at : Z; event_at : Z; table_at : Z }.

Section bringup.
Context `{!Bitfield} {S : Type} (cfg_read : S → Z → Z) (cfg_write : S → Z → Z → S).
Context {TRB : Type} `{!TrbOps TRB} {C P : Type}.

(** The statics of usb/xhci.rs once initialised, the log of writes and the task queue. *)
Record xhc := {
  x_heap : Heap;
  x_dcbaa : Dcbaa;
  x_commands : CommandRing TRB nat;
  x_transfers : TransferRingSet TRB;
  x_events : EventRing (TRB := TRB) (C := C) (P := P);
  x_runtime : Runtime usb_task;
  x_log : list xhc_write;
}.

(** [init_event_ring] with the write it makes. *)
Definition init_event_ring (at_ : places) : EventRing (TRB := TRB) (C := C) (P := P) * xhc_write :=
  let ring := ConsumerRing_new 32 in
  ({| ev_ring := ring; trf_chan := new_channel; cmd_chan := new_channel; port_chan := new_channel; woken := [] |},
   SetEventRing 1 (table_at at_) (segment_entry (event_at at_) (zlen (c_data ring))) (event_at at_)).

(** [initialize_xhci] from the reset on. *)
Definition set_up (fuel : nat) (hv : hc_view) (at_ : places) (s : Heap) (rt : Runtime usb_task)
    (log : list xhc_write) : outcome xhc :=
  w1 ← reset_hc fuel (hv_halted0 hv) (hv_halted hv) (hv_reset hv) (hv_not_ready hv);
  '(s, d, w) ← init_dcbaa s (hv_max_slots hv) (hv_csz hv) (hv_scratchpads hv) (hv_pagesize hv);
  cmds ← init_command_ring 32 (cmd_at at_);
  let '(ev, w2) := init_event_ring at_ in
  w3 ← enable_xhci_interrupt_and_start fuel (hv_still_halted hv);
  rt ← spawn rt CommandTask;
  rt ← spawn rt TransferTask;
  rt ← spawn rt DeviceInitTask;
  Ret {| x_heap := s; x_dcbaa := d; x_commands := cmds; x_transfers := TransferRingSet_new 32; x_events := ev;
         x_runtime := rt;
         x_log := log ++ (HcWrite <$> w1) ++ [SetDcbaa w.1 w.2; SetCommandRing (buf_ptr (cmd_ring cmds)); w2] ++
                  (HcWrite <$> w3) |}.

Definition initialize_xhci (fuel : nat) (hv : hc_view) (at_ : places) (xhc_dev : PCIDevice)
    (intel_ehci_found : bool) (s : Heap) (rt : Runtime usb_task) : IO (S := S) xhc :=
  io_bind (read_bar cfg_read cfg_write xhc_dev 0) (λ xhc_bar,
  let mmio_base := Z.land xhc_bar (2 ^ 64 - 16) in
  io_bind (io_lift (ownership_handoff (hv_mem hv) (hv_spec hv) fuel mmio_base (hv_ex_cap_ptr hv) (hv_ctl_sts hv))) (λ ws,
  io_bind (if intel_ehci_found then
             io_bind (read_confreg cfg_read cfg_write xhc_dev 0xd4) (λ ports_available,
             write_confreg cfg_write xhc_dev 0xd0 ports_available)
           else io_ret ()) (λ _,
  io_lift (set_up fuel hv at_ s rt ((λ aw, MmioWrite aw.1 aw.2) <$> ws))))).

(** [init_usb]: a new executor, the controller, and the driver task. *)
Definition init_usb (fuel : nat) (hv : hc_view) (at_ : places) (xhc_dev : PCIDevice)
    (intel_ehci_found : bool) (s : Heap) : IO (S := S) xhc :=
  io_bind (initialize_xhci fuel hv at_ xhc_dev intel_ehci_found s new_executor_and_spawner) (λ x,
  io_lift (rt ← spawn (x_runtime x) DriverTask;
    Ret {| x_heap := x_heap x; x_dcbaa := x_dcbaa x; x_commands := x_commands x; x_transfers := x_transfers x;
           x_events := x_events x; x_runtime := rt; x_log := x_log x |})).

(** ** What bringing up achieves *)

(** The value [read_bar] of register 0 has: one word, or two if bit 2 says so. *)
Definition bar0 (sp : S) (d : PCIDevice) : Z :=
  let lo := conf cfg_read sp d 0x10 in
  if Z.land lo 4 =? 0 then lo else Z.lor (as_u 64 (Z.shiftl (conf cfg_read sp d 0x14) 32)) lo.

Lemma reads_bar0 sp d : reads sp (read_bar cfg_read cfg_write d 0) (bar0 sp d).
Proof.
  intros io <-. unfold read_bar, bar0. change (0 >=? 6) with false. cbv match.
  rewrite (io_bind_lift _ _ 0x10) by done. rewrite io_bind_read.
  destruct (Z.land (conf cfg_read (space io) d 0x10) 4 =? 0); [by eexists|]. change (0 =? 5) with false. cbv match.
  rewrite (io_bind_lift _ _ 0x14) by done. rewrite io_bind_read. by eexists.
Qed.

(** The controller answers every poll: the [n]-th look at each register is the one the
    code waits for, and the capability list [l] is finite. *)
Record responds (hv : hc_view) (base : Z) (l : list Z) (n : nat) : Prop := {
  re_ptr : 0 ≤ hv_ex_cap_ptr hv < 2 ^ 16;
  re_base : 0 ≤ base ∧ base + 4 * hv_ex_cap_ptr hv < 2 ^ 64;
  re_chain : chain (hv_mem hv) (base + hv_ex_cap_ptr hv * 4) l;
  re_owned : owned (hv_spec hv n) = true;
  re_halted : hv_halted hv n = true;
  re_reset : hv_reset hv n = false;
  re_ready : hv_not_ready hv n = false;
  re_running : hv_still_halted hv n = false;
}.

(** A controller the kernel supports: 4 KiB pages, fewer than 255 slots. *)
Record supported (hv : hc_view) : Prop := {
  su_pagesize : hv_pagesize hv = 1;
  su_slots : 0 ≤ hv_max_slots hv ≤ 254;
  su_scratchpads : 0 ≤ hv_scratchpads hv ≤ 255;
}.

(** The writes that take the controller over: none without a legacy capability or when
    the kernel owns it already. *)
Definition handoff_writes (hv : hc_view) (l : list Z) : list xhc_write :=
  match list_find (λ c, cap_id (hv_mem hv) c = 1) l with
  | None => []
  | Some (_, cap) =>
      if Z.land (Z.shiftr (cap_specific (hv_mem hv) cap) 8) 1 =? 1 then []
      else [MmioWrite (cap + 2) (Z.lor (cap_specific (hv_mem hv) cap) 256);
            MmioWrite (cap + 4) (Z.lor (Z.land (hv_ctl_sts hv) 0xffff1fee) 0xe0000000)]
  end.

Lemma handoff_returns hv base l n fuel :
  responds hv base l n → (length l < fuel)%nat → (n < fuel)%nat →
  ∃ ws, ownership_handoff (hv_mem hv) (hv_spec hv) fuel base (hv_ex_cap_ptr hv) (hv_ctl_sts hv) = Ret ws ∧
    (λ aw, MmioWrite aw.1 aw.2) <$> ws = handoff_writes hv l.
Proof.
  intros [Hp [Hb Hsum] Hch Hown _ _ _ _] Hl Hn. unfold ownership_handoff, handoff_writes.
  rewrite usize_mul_ok, bind_Ret by lia. rewrite usize_add_ok, bind_Ret by lia.
  rewrite (find_legacy_ok _ _ _ l), bind_Ret by done.
  destruct (list_find _ l) as [[i cap]|]; cbn [fmap option_fmap option_map snd]; [|by eexists].
  destruct (_ =? 1); [by eexists|].
  destruct (loop_total (λ i, (i ≤ n)%nat) (λ _ : (), True) (λ i, (n - i)%nat)
    (λ k, if owned (hv_spec hv k) then Ret (inr ()) else Ret (inl (Datatypes.S k))) fuel 0%nat) as ([] & -> & _);
    [|lia|lia|by eexists].
  intros j Hj. destruct (owned (hv_spec hv j)) eqn:E; eexists; (split; [done|]); [done|].
  assert (j ≠ n) by congruence. cbn. lia.
Qed.

(** Everything that is written to the controller, in order: reset while it is halted,
    addresses of the tables and rings, and only then interrupts and the start. *)
Definition set_up_writes (hv : hc_view) (at_ : places) (table : Z) : list xhc_write :=
  (HcWrite <$> if hv_halted0 hv then [ClearEnables; SetReset] else [ClearEnables; ClearRunStop; SetReset]) ++
  [SetDcbaa (hv_max_slots hv) table; SetCommandRing (cmd_at at_);
   SetEventRing 1 (table_at at_) (segment_entry (event_at at_) 32) (event_at at_)] ++
  (HcWrite <$> [SetModeration 4000; EnableInterrupter; SetInterrupterEnable; SetRunStop]).

(** The controller's half of the kernel's state, ready: the table is a live allocation
    (with what [dcbaa_post] says), the rings are new, and [tasks] wait to run in that order. *)
Record ready (L : list (Z * Layout)) (hv : hc_view) (at_ : places) (before : list xhc_write)
    (tasks : list usb_task) (x : xhc) : Prop := {
  rd_memory : ∃ table,
    dcbaa_post L (hv_max_slots hv) (hv_scratchpads hv) (hv_csz hv) (x_heap x) (x_dcbaa x) (hv_max_slots hv, table) ∧
    x_log x = before ++ set_up_writes hv at_ table;
  rd_commands : ring_inv 31 (start (cmd_ring (x_commands x))) ∧ buf_ptr (cmd_ring (x_commands x)) = cmd_at at_ ∧
    listener (x_commands x) = ∅;
  rd_transfers : x_transfers x = TransferRingSet_new 32;
  rd_events : ev_ring (x_events x) = e_ring (estart 32) ∧ woken (x_events x) = [];
  rd_tasks : slots (x_runtime x) = Some <$> tasks ∧ queue (task_queue (x_runtime x)) = seq 0 (length tasks);
  rd_runtime : runtime_ok (x_runtime x);
}.

(** The heap could not provide the scratchpad array and its pages, as fewer frames are free
    than [frames_needed]; or not even the table, as none is. *)
Definition out_of_memory (hv : hc_view) (s : Heap) (e : panic) : Prop :=
  e = ExplicitPanic ∧ Z.of_nat (n_free (MEM s)) < frames_needed (hv_scratchpads hv) ∨
  e = Undefined ∧ n_free (MEM s) = 0%nat ∧
    alloc s {| layout_size := (hv_max_slots hv + 1) * 8; layout_align := 64 |} = Ret (s, null).

Lemma set_up_ok fuel hv at_ s gs L base l n log :
  heap_inv s gs L → supported hv → responds hv base l n → (n < fuel)%nat →
  0 ≤ cmd_at at_ → cmd_at at_ + TRB_SIZE * 32 < 2 ^ 64 →
  (∃ e, set_up fuel hv at_ s new_executor_and_spawner log = Panic e ∧ out_of_memory hv s e) ∨
  ∃ x, set_up fuel hv at_ s new_executor_and_spawner log = Ret x ∧
    ready L hv at_ log [CommandTask; TransferTask; DeviceInitTask] x.
Proof.
  intros HI [Hpg Hsl Hsp] [_ _ _ _ Hh Hr Hc Hst] Hf Ha Hb. unfold set_up.
  rewrite (reset_hc_ok _ _ _ _ _ n n n), bind_Ret by done. rewrite Hpg.
  destruct (init_dcbaa_ok s gs L (hv_max_slots hv) (hv_scratchpads hv) (hv_csz hv) HI Hsl Hsp)
    as [(s' & d & w & -> & HP)|[(Ea & Hz & ->)|[-> Hz]]];
    [|left; exists Undefined; split; [done|by right]|left; exists ExplicitPanic; split; [done|by left]].
  right. rewrite bind_Ret. unfold init_command_ring.
  destruct (ProducerRing_new (cmd_at at_) 32) as [r| |] eqn:Er; [|discriminate Er..]. rewrite !bind_Ret.
  unfold enable_xhci_interrupt_and_start, init_event_ring. rewrite (spin_ok _ _ n), !bind_Ret by done.
  eexists. split; [reflexivity|].
  pose proof HP as (gs' & tab & _ & _ & -> & _). split; cbn; try done.
  - exists tab. split; [done|]. unfold ProducerRing_new in Er. inv_outcome. by subst.
  - split_and!; [by apply (ring_inv_start (cmd_at at_) 32 r)| |done].
    unfold ProducerRing_new in Er. inv_outcome. by subst.
Qed.

(** One more task. *)
Lemma ready_spawn L hv at_ before tasks t x :
  ready L hv at_ before tasks x →
  ∃ rt, spawn (x_runtime x) t = Ret rt ∧
    ready L hv at_ before (tasks ++ [t])
      {| x_heap := x_heap x; x_dcbaa := x_dcbaa x; x_commands := x_commands x; x_transfers := x_transfers x;
         x_events := x_events x; x_runtime := rt; x_log := x_log x |}.
Proof.
  intros [Hm Hc Ht He [Hs Hq] Hrt].
  destruct (wake_queue {| slots := slots (x_runtime x) ++ [Some t]; task_queue := task_queue (x_runtime x) |}
    (length (slots (x_runtime x)))) as (rt & Er & Hrt' & E1 & E2); [done|].
  exists rt. split; [exact Er|]. split; cbn; try done.
  rewrite E1, E2. cbn [slots task_queue]. rewrite Hs, Hq. split; [by rewrite fmap_app|].
  by rewrite length_fmap, length_app, seq_app.
Qed.

Lemma initialize_xhci_sets_up fuel hv at_ dev ehci s rt l n io :
  responds hv (Z.land (bar0 (space io) dev) (2 ^ 64 - 16)) l n → (length l < fuel)%nat → (n < fuel)%nat →
  ∃ io', initialize_xhci fuel hv at_ dev ehci s rt io =
      (x ← set_up fuel hv at_ s rt (handoff_writes hv l); Ret (x, io')) ∧
    space io' = if ehci then cfg_write (space io) (register_of dev 0xd0) (conf cfg_read (space io) dev 0xd4)
                else space io.
Proof.
  intros Hre Hl Hn. unfold initialize_xhci, io_bind at 1.
  destruct (reads_bar0 (space io) dev io eq_refl) as (io1 & -> & Hs1). rewrite <- Hs1.
  destruct (handoff_returns _ _ _ _ _ Hre Hl Hn) as (ws & Ew & <-).
  cbn [mbind outcome_bind]. rewrite Hs1. unfold io_lift at 1, io_bind at 1. rewrite Ew. cbn [mbind outcome_bind].
  rewrite <- Hs1. destruct ehci; by eexists.
Qed.

Lemma initialize_xhci_ok fuel hv at_ dev ehci s gs L l n io :
  heap_inv s gs L → supported hv → responds hv (Z.land (bar0 (space io) dev) (2 ^ 64 - 16)) l n →
  (length l < fuel)%nat → (n < fuel)%nat → 0 ≤ cmd_at at_ → cmd_at at_ + TRB_SIZE * 32 < 2 ^ 64 →
  (∃ e, initialize_xhci fuel hv at_ dev ehci s new_executor_and_spawner io = Panic e ∧ out_of_memory hv s e) ∨
  ∃ x io', initialize_xhci fuel hv at_ dev ehci s new_executor_and_spawner io = Ret (x, io') ∧
    ready L hv at_ (handoff_writes hv l) [CommandTask; TransferTask; DeviceInitTask] x ∧
    space io' = if ehci then cfg_write (space io) (register_of dev 0xd0) (conf cfg_read (space io) dev 0xd4)
                else space io.
Proof.
  intros HI Hsu Hre Hl Hn Ha Hb.
  destruct (initialize_xhci_sets_up fuel hv at_ dev ehci s new_executor_and_spawner l n io Hre Hl Hn) as (io' & -> & Hs).
  destruct (set_up_ok fuel hv at_ s gs L _ l n (handoff_writes hv l) HI Hsu Hre Hn Ha Hb) as [(e & -> & He)|(x & -> & Hx)].
  - left. by exists e.
  - right. by exists x, io'.
Qed.


End bringup.

(** ** A concrete controller *)

Definition demo_xhc_dev : PCIDevice := PCIDevice_new 0 20 0.

(** Its registers are at 0x1febf0000, and 0xd4 lists four ports that can be switched. *)
Definition demo_xhc_io : Ports (S := gmap Z Z) :=
  {| config_address := 0;
     space := list_to_map [(make_address 0 20 0 0x10, 0xfebf0004); (make_address 0 20 0 0x14, 1);
                           (make_address 0 20 0 0xd4, 15)] |}.

(** Two capabilities: protocols at 0x1febf0800, and sixteen bytes on the legacy support,
    which the firmware owns and gives away by the third look. *)
Definition demo_hv : hc_view :=
  {| hv_ex_cap_ptr := 0x200;
     hv_mem a := default 0 ((list_to_map [(0x1febf0800, 2); (0x1febf0801, 4); (0x1febf0810, 1); (0x1febf0812, 1)]
                             : gmap Z Z) !! a);
     hv_spec k := if (k <? 2)%nat then 0x101 else 0x100;
     hv_ctl_sts := 0x1f;
     hv_halted0 := false; hv_halted k := (1 <=? k)%nat; hv_reset k := (k <? 2)%nat; hv_not_ready k := (k <? 1)%nat;
     hv_max_slots := 64; hv_csz := false; hv_scratchpads := 2; hv_pagesize := 1;
     hv_still_halted k := (k <? 2)%nat |}.

Definition demo_places : places := {| cmd_at := 0x10000; event_at := 0x11000; table_at := 0x12000 |}.

