(* ===== verification/Reports.v ===== *)
(** usb/class/key.rs and the report structures of usb/class/mouse.rs and usb/class/keyboard.rs:
    the bytes a mouse or a keyboard sends, as the values the callbacks get. A report is the
    [repr(C)] structure in the buffer the controller wrote to. *)

From S2P Require Import Prelude.

Inductive Modifier := LCtrl | LShift | LAlt | LGui | RCtrl | RShift | RAlt | RGui.

#[export] Instance Modifier_eq_dec : EqDecision Modifier.
Proof. solve_decision. Defined.

(** [struct ModifierSet(u8)] *)
Definition ModifierSet : Type := Z.

Definition l_ctrl (self : ModifierSet) : bool := Z.land self 1 =? 1.
Definition l_shift (self : ModifierSet) : bool := Z.land (Z.shiftr self 1) 1 =? 1.
Definition l_alt (self : ModifierSet) : bool := Z.land (Z.shiftr self 2) 1 =? 1.
Definition l_gui (self : ModifierSet) : bool := Z.land (Z.shiftr self 3) 1 =? 1.
Definition r_ctrl (self : ModifierSet) : bool := Z.land (Z.shiftr self 4) 1 =? 1.
Definition r_shift (self : ModifierSet) : bool := Z.land (Z.shiftr self 5) 1 =? 1.
Definition r_alt (self : ModifierSet) : bool := Z.land (Z.shiftr self 6) 1 =? 1.
Definition r_gui (self : ModifierSet) : bool := Z.land (Z.shiftr self 7) 1 =? 1.

(** [ModifierSet::get] *)
Definition get (self : ModifierSet) : list Modifier :=
  let v := [] in
  let v := if l_ctrl self then v ++ [LCtrl] else v in
  let v := if l_shift self then v ++ [LShift] else v in
  let v := if l_alt self then v ++ [LAlt] else v in
  let v := if l_gui self then v ++ [LGui] else v in
  let v := if r_ctrl self then v ++ [RCtrl] else v in
  let v := if r_shift self then v ++ [RShift] else v in
  let v := if r_alt self then v ++ [RAlt] else v in
  if r_gui self then v ++ [RGui] else v.

Record MouseReport := { buttons : Z; dx : Z; dy : Z }.
Record KeyReport := { modifier : ModifierSet; rsvd : Z; keycodes : list Z }.

(** The structures at the start of a buffer; an [i8] is the byte in two's complement. *)
Definition MouseReport_at (buf : list Z) : outcome MouseReport :=
  b ← read_le buf 0 1;
  x ← read_le buf 1 1;
  y ← read_le buf 2 1;
  Ret {| buttons := b; dx := as_s 8 x; dy := as_s 8 y |}.

Definition KeyReport_at (buf : list Z) : outcome KeyReport :=
  m ← read_le buf 0 1;
  r ← read_le buf 1 1;
  ks ← foldM (λ acc i, k ← read_le buf (2 + i) 1; Ret (acc ++ [k])) (range 0 6) [];
  Ret {| modifier := m; rsvd := r; keycodes := ks |}.

(** ** What a device can say *)

(** The bit of a modifier key in the boot protocol. *)
Definition modifier_bit (m : Modifier) : Z :=
  match m with LCtrl => 0 | LShift => 1 | LAlt => 2 | LGui => 3 | RCtrl => 4 | RShift => 5 | RAlt => 6 | RGui => 7 end.

Definition modifier_byte (ms : list Modifier) : Z := foldr (λ m z, 2 ^ modifier_bit m + z) 0 ms.

Lemma bit_test a k : 0 ≤ k → (Z.land (Z.shiftr a k) 1 =? 1) = Z.testbit a k.
Proof.
  intros Hk. change (Z.land (Z.shiftr a k) 1) with (Z.land (Z.shiftr a k) (Z.ones 1)).
  rewrite Z.land_ones, Z.shiftr_div_pow2, Z.pow_1_r by lia. rewrite <- Z.testbit_spec' by done. by destruct (Z.testbit a k).
Qed.

(** The boolean tests of [get], as bits. *)
Lemma get_bits a :
  get a = filter (λ m, Z.testbit a (modifier_bit m) = true) [LCtrl; LShift; LAlt; LGui; RCtrl; RShift; RAlt; RGui].
Proof.
  assert (l_ctrl a = Z.testbit a 0) as E0 by (rewrite <- (bit_test a 0) by lia; by rewrite Z.shiftr_0_r).
  unfold get. rewrite E0. unfold l_shift, l_alt, l_gui, r_ctrl, r_shift, r_alt, r_gui. rewrite !bit_test by lia.
  repeat (rewrite filter_cons; cbn [modifier_bit]). rewrite filter_nil.
  destruct (Z.testbit a 0), (Z.testbit a 1), (Z.testbit a 2), (Z.testbit a 3), (Z.testbit a 4), (Z.testbit a 5),
    (Z.testbit a 6), (Z.testbit a 7); reflexivity.
Qed.

Lemma byte_bits a : in_u 8 a → modifier_byte (get a) = a.
Proof.
  intros [H0 H1]. assert (a ∈ seqZ 0 256) as Hin by (apply elem_of_seqZ; cbn; lia).
  assert (Forall (λ a, modifier_byte (get a) = a) (seqZ 0 256)) as HF by (apply (bool_decide_unpack _); vm_compute; done).
  by apply (proj1 (list.Forall_forall _ _) HF).
Qed.

Lemma read_byte_at buf i b : 0 ≤ i → buf !! Z.to_nat i = Some b → read_le buf i 1 = Ret b.
Proof.
  intros Hi Hl. pose proof (lookup_lt_Some _ _ _ Hl). unfold read_le. rewrite !(proj2 (Z.leb_le _ _)) by lia. cbn [andb].
  rewrite (drop_S _ _ _ Hl). change (take (Z.to_nat 1) (b :: ?l)) with [b]. cbn [le_combine]. f_equal. lia.
Qed.

(** C39: reports are well typed. Whatever eight bytes the controller writes, the buffers are
    valid values of the report types: the fields are in the range of their types and give the
    bytes back, the movements are the signed values of the second and third byte, and the
    modifier keys of a keyboard report are listed once each, in a fixed order, exactly those
    whose bit is set. *)
Theorem reports_well_typed (buf : list Z) :
  zlen buf = 8 → Forall (in_u 8) buf →
  (∃ r, MouseReport_at buf = Ret r ∧ in_u 8 (buttons r) ∧ in_s 8 (dx r) ∧ in_s 8 (dy r) ∧
     [buttons r; as_u 8 (dx r); as_u 8 (dy r)] = take 3 buf) ∧
  ∃ k, KeyReport_at buf = Ret k ∧ modifier k :: rsvd k :: keycodes k = buf ∧
    NoDup (get (modifier k)) ∧ (∀ m, m ∈ get (modifier k) ↔ Z.testbit (modifier k) (modifier_bit m) = true) ∧
    modifier_byte (get (modifier k)) = modifier k.
Proof.
  intros Hl Hb. destruct buf as [|b0 [|b1 [|b2 [|b3 [|b4 [|b5 [|b6 [|b7 [|]]]]]]]]]; cbn in Hl; try lia.
  assert (∀ x, in_u 8 x → in_s 8 (as_s 8 x) ∧ as_u 8 (as_s 8 x) = x) as Hbyte.
  { unfold in_u, in_s, as_s, as_u. cbn. intros x Hx. Z.div_mod_to_equations. lia. }
  apply list.Forall_cons in Hb as [H0 [H1 [H2 Hb]%list.Forall_cons]%list.Forall_cons].
  destruct (Hbyte b1 H1) as [S1 E1], (Hbyte b2 H2) as [S2 E2]. split.
  - eexists. unfold MouseReport_at. do 3 (erewrite read_byte_at by (reflexivity || lia)). rewrite !bind_Ret.
    split; [reflexivity|]. cbn [buttons dx dy]. by rewrite E1, E2.
  - eexists. unfold KeyReport_at. change (range 0 6) with [0; 1; 2; 3; 4; 5]. cbn [foldM].
    do 8 (erewrite read_byte_at by (reflexivity || lia)). rewrite !bind_Ret.
    split; [reflexivity|]. cbn [modifier rsvd keycodes]. split; [done|]. rewrite get_bits. split; [|split].
    + apply NoDup_filter. apply (bool_decide_unpack _). vm_compute. done.
    + intros m. rewrite list_elem_of_filter. split; [by intros [? _]|]. intros Hm. split; [done|].
      destruct m; repeat (first [by left|right]).
    + rewrite <- get_bits. by apply byte_bits.
Qed.

Lemma reports_well_typed_witness :
  ∃ r, MouseReport_at [1; 255; 2; 0; 0; 0; 0; 0] = Ret r ∧ dx r = -1 ∧ get 0x22 = [LShift; RShift].
Proof.
  destruct (reports_well_typed [1; 255; 2; 0; 0; 0; 0; 0]) as [(r & E & _) _]; [reflexivity| |].
  - repeat (constructor; [split; [lia|reflexivity]|]). constructor.
  - exists r. split; [exact E|]. injection E as <-. split; reflexivity.
Defined.
