(* ===== verification/LockOrder.v ===== *)
(** Every lock of the kernel at once: the statics behind [LazyInit], the windows and the
    channels, taken by the main task, by task B and by the two interrupt handlers on one
    processor. Programs are reduced to what they do to locks and to the interrupt flag;
    branches and loops are kept as alternatives and repetitions, so that every run of the
    code is among the traces.

    A lock that is held makes the caller wait ([SpinMutex::lock] halts and tries again,
    [Locks] has the protocol); a lock behind [LazyInit] is initialised once and must be before
    it is dereferenced. Drop order of guards is that of Rust: temporaries live to the end of
    their statement, those of an [if let] or [match] to the end of its body. Pushing a timer
    does not allocate after start-up, since the heap of timers holds three and has room for
    four. Panics other than those of [LazyInit] are not part of this file. *)

From S2P Require Import Prelude.

(** ** Locks and what is done to them *)

Inductive win := MouseWin | TestWin | ConsoleWin | TaskBWin.

Inductive lock :=
  | EXECUTOR | Future | SPAWNER | EVENT_RING | CMD_RING | TRF_RINGS | REGS | DCBAA
  | LAYERS | CONSOLE | WinLock (w : win) | Fore (w : win) | Back (w : win) | DEFAULT_PIXEL_FORMAT
  | ChanQueue | ChanWaker | TaskQueue | TaskWaker | FADT
  | GLOBAL_ALLOCATOR | Page | MEM | TIMER | EVENTS.

#[export] Instance win_eq_dec : EqDecision win.
Proof. solve_decision. Defined.
#[export] Instance lock_eq_dec : EqDecision lock.
Proof. solve_decision. Defined.

(** [Acquire l shared]: [read] of an [RwLock] when [shared]. [SaveCli] and [Restore] are the two
    ends of [without_interrupts]; [Switch] is [switch_tasks]. *)
Inductive op :=
  | Acquire (l : lock) (shared : bool)
  | Release (l : lock)
  | Init (l : lock)
  | Touch (l : lock)
  | Cli | Sti | SaveCli | Restore
  | Switch.

#[export] Instance op_eq_dec : EqDecision op.
Proof. solve_decision. Defined.

Inductive prog :=
  | Skip
  | Do (o : op)
  | Seq (p q : prog)
  | Alt (p q : prog)
  | Star (p : prog).

Inductive trace : prog → list op → Prop :=
  | trace_skip : trace Skip []
  | trace_do o : trace (Do o) [o]
  | trace_seq p q s t : trace p s → trace q t → trace (Seq p q) (s ++ t)
  | trace_left p q s : trace p s → trace (Alt p q) s
  | trace_right p q s : trace q s → trace (Alt p q) s
  | trace_stop p : trace (Star p) []
  | trace_again p s t : trace p s → trace (Star p) t → trace (Star p) (s ++ t).

#[local] Infix ">>" := Seq (at level 60, right associativity).

Definition maybe (p : prog) : prog := Alt Skip p.

(** A lock held around [p]; [lazy] is one of [LazyInit], dereferenced. *)
Definition locked (l : lock) (p : prog) : prog := Do (Acquire l false) >> p >> Do (Release l).
Definition reading (l : lock) (p : prog) : prog := Do (Acquire l true) >> p >> Do (Release l).
Definition lazy (l : lock) (p : prog) : prog := locked l (Do (Touch l) >> p).
Definition lazy_init (l : lock) (p : prog) : prog := locked l (p >> Do (Init l)).
Definition without_interrupts (p : prog) : prog := Do SaveCli >> p >> Do Restore.

(** ** memory_manager.rs *)

Definition mem_allocate : prog := lazy MEM Skip.

(** [alloc] or [dealloc] of the global allocator, and any number of them. *)
Definition heap_op : prog := lazy GLOBAL_ALLOCATOR (Alt mem_allocate (Alt Skip (locked Page (maybe mem_allocate)))).
Definition allocs : prog := Star heap_op.

Definition init_allocators : prog :=
  lazy_init MEM Skip >> lazy_init GLOBAL_ALLOCATOR (Star mem_allocate) >> allocs.

(** ** graphic/ *)

Definition FrameBuffer_new : prog := locked DEFAULT_PIXEL_FORMAT Skip >> allocs.
Definition Window_new : prog := FrameBuffer_new >> FrameBuffer_new.
Definition write_with (w : win) (p : prog) : prog := locked (Back w) p.
Definition flush (w : win) : prog := locked (Fore w) (locked (Back w) Skip).
Definition with_layers (p : prog) : prog := lazy LAYERS p.

Definition draw_window (w : win) : prog := reading (WinLock w) (maybe (locked (Fore w) Skip)).
Definition draw : prog :=
  Star (Alt (draw_window MouseWin) (Alt (draw_window TestWin) (Alt (draw_window ConsoleWin) (draw_window TaskBWin)))).

Definition initialize_winmgr : prog := locked DEFAULT_PIXEL_FORMAT Skip >> lazy_init LAYERS FrameBuffer_new.

(** ** console.rs *)

Definition put_string : prog := reading (WinLock ConsoleWin) (write_with ConsoleWin Skip >> flush ConsoleWin).
Definition print_ : prog := lazy CONSOLE (Star put_string).
Definition println : prog := print_ >> print_.

Definition Console_new : prog :=
  reading (WinLock ConsoleWin) Skip >> allocs >> reading (WinLock ConsoleWin) (write_with ConsoleWin Skip).
Definition init_console : prog :=
  with_layers (Window_new >> allocs >> lazy_init CONSOLE Console_new).

(** ** timer.rs, acpi.rs and interrupt.rs *)

(** The check of the RSDP's signature makes a string of it. *)
Definition acpi_initialize : prog := allocs >> lazy_init FADT Skip.
Definition wait_millis : prog := lazy FADT Skip.
Definition initialize_timer : prog :=
  wait_millis >> locked TIMER (Do (Init TIMER) >> Do (Touch TIMER) >> allocs).
Definition get_current_tick : prog := without_interrupts (lazy TIMER Skip).
Definition add_timer : prog := without_interrupts (lazy TIMER Skip).
Definition set_idt_entry : prog := println >> println.
Definition load_idt : prog := println.

(** ** usb/runtime.rs *)

Definition task_send : prog := locked TaskQueue allocs >> locked TaskWaker Skip.
Definition wake : prog := allocs >> task_send.
Definition send : prog := locked ChanQueue allocs >> locked ChanWaker (maybe wake).
Definition recv_poll : prog := locked ChanQueue (maybe (locked ChanWaker allocs)).
Definition spawn : prog := lazy SPAWNER (allocs >> task_send).

(** [Task::exec] of a future whose poll is [p]. *)
Definition exec_task (p : prog) : prog := locked Future (p >> allocs).

(** ** usb/xhci.rs, the tasks it spawns and those of usbd.rs and init_device.rs *)

Definition with_regs (p : prog) : prog := lazy REGS p.
Definition with_dcbaa (p : prog) : prog := lazy DCBAA p.
Definition with_trf_rings (p : prog) : prog := lazy TRF_RINGS p.
Definition push_command : prog := lazy CMD_RING (with_regs allocs).
Definition push_transfer_trb : prog := lazy TRF_RINGS allocs.
Definition control_request : prog := lazy TRF_RINGS (with_regs allocs).
Definition xhci_on_interrupt : prog := lazy EVENT_RING (with_regs (Star send)).

Definition command_task : prog := Star (recv_poll >> maybe (lazy CMD_RING (allocs >> maybe wake))).
Definition transfer_task : prog := Star (recv_poll >> maybe (lazy TRF_RINGS (allocs >> maybe wake))).

(** What happens between two [await]s of the device initialisation and of the USB driver. *)
Definition reset_port : prog := with_regs Skip >> println >> with_regs Skip.
Definition address_device : prog :=
  with_dcbaa allocs >> with_trf_rings allocs >> with_regs (with_dcbaa Skip >> allocs) >> push_command.
Definition init_device_task : prog :=
  Star (Alt (with_regs Skip) (Alt recv_poll (Alt reset_port (Alt println (Alt push_command
    (Alt address_device (Alt send allocs))))))).
Definition enable_endpoints : prog :=
  with_dcbaa Skip >> allocs >> with_dcbaa Skip >> Star (with_trf_rings allocs) >> println >> push_command.
Definition usb_driver_task : prog :=
  Star (Alt recv_poll (Alt println (Alt control_request (Alt enable_endpoints (Alt spawn allocs))))).

Definition mouse_callback : prog :=
  with_layers Skip >> locked (WinLock MouseWin) Skip >> with_layers draw >> allocs.
Definition key_callback : prog := println >> allocs.
Definition hid_task (callback : prog) : prog :=
  Star (Alt (allocs >> push_transfer_trb >> with_regs Skip) (Alt callback allocs)).

Definition usb_task : prog :=
  Alt command_task (Alt transfer_task (Alt init_device_task (Alt usb_driver_task
    (Alt (hid_task mouse_callback) (hid_task key_callback))))).

(** [usb::on_xhc_interrupt] *)
Definition on_xhc_interrupt : prog :=
  xhci_on_interrupt >>
  lazy EXECUTOR (Star (locked TaskQueue Skip >> locked TaskQueue Skip >> exec_task usb_task >> allocs >> maybe println) >>
                 locked TaskQueue Skip).

Definition initialize_xhci : prog :=
  maybe println >> println >> Star println >> allocs >>
  lazy_init EVENT_RING Skip >> lazy_init CMD_RING Skip >> lazy_init TRF_RINGS Skip >> lazy_init DCBAA Skip >>
  lazy_init REGS Skip >> Star (allocs >> task_send).

Definition init_usb : prog :=
  allocs >> lazy_init EXECUTOR Skip >> lazy_init SPAWNER Skip >> allocs >>
  lazy SPAWNER initialize_xhci >> allocs >> spawn.

(** ** main.rs *)

Definition initialize_windows : prog :=
  with_layers (Window_new >> write_with MouseWin Skip >> flush MouseWin >> allocs >>
               Window_new >> write_with TestWin Skip >> flush TestWin >> allocs).

Definition scan_pci_devices : prog := allocs >> Star println.

(** [KernelMain2] up to [set_interrupt_flag(true)]. *)
Definition boot : prog :=
  init_allocators >> Do Cli >> initialize_winmgr >> initialize_windows >> acpi_initialize >> initialize_timer >>
  init_console >> scan_pci_devices >> lazy_init EVENTS Skip >> set_idt_entry >> set_idt_entry >> load_idt >>
  allocs >> println >> init_usb >> print_ >> allocs >> Do Sti.

Definition add_timers : prog := get_current_tick >> add_timer >> get_current_tick >> add_timer.

(** One turn of the main loop. *)
Definition main_loop : prog :=
  Do Cli >> lazy EVENTS Skip >>
  Alt (Do Sti)
    (lazy EVENTS Skip >> Do Sti >>
     reading (WinLock TestWin) (get_current_tick >> write_with TestWin allocs) >>
     with_layers draw >>
     maybe (Alt on_xhc_interrupt (get_current_tick >> println >> add_timer))).

Definition KernelMain2 : prog := boot >> add_timers.

(** [panic] and [oom] print, and stop. *)
Definition panic_handler : prog := println.
Definition oom : prog := print_.

(** taskB.rs *)
Definition initialize_taskB_window : prog :=
  Window_new >> write_with TaskBWin Skip >> flush TaskBWin >> with_layers allocs.
Definition taskB_loop : prog :=
  allocs >> reading (WinLock TaskBWin) (write_with TaskBWin Skip >> flush TaskBWin) >> allocs.

Definition xhci_interrupt_handler : prog := lazy EVENTS Skip.
Definition lapic_interrupt_handler : prog := lazy TIMER (Star (lazy EVENTS Skip)) >> maybe (Do Switch).

(** ** The processor and its tasks *)

(** What a task or handler holds (with the mode), its interrupt flag, and the flags saved by
    [without_interrupts]. *)
Record ctx := { held : list (lock * bool); iff : bool; saved : list bool }.

#[export] Instance ctx_eq_dec : EqDecision ctx.
Proof. solve_decision. Defined.

Definition holds (c : ctx) (l : lock) : bool := existsb (λ h, bool_decide (h.1 = l)) (held c).

(** Whether [l] can be taken when [all] are the locks held. *)
Definition free_for (all : list (lock * bool)) (l : lock) (shared : bool) : bool :=
  forallb (λ h, negb (bool_decide (h.1 = l)) || (h.2 && shared)) all.

Fixpoint release (l : lock) (hs : list (lock * bool)) : option (list (lock * bool)) :=
  match hs with
  | [] => None
  | h :: hs => if decide (h.1 = l) then Some hs else hs' ← release l hs; Some (h :: hs')
  end.

Definition with_held (c : ctx) (hs : list (lock * bool)) : ctx := {| held := hs; iff := iff c; saved := saved c |}.
Definition with_iff (c : ctx) (b : bool) (sv : list bool) : ctx := {| held := held c; iff := b; saved := sv |}.

(** An operation runs, waits, or panics. *)
Inductive effect := Runs (inits : list lock) (c : ctx) | Waits | Faults.

Definition exec (all : list (lock * bool)) (inits : list lock) (c : ctx) (o : op) : effect :=
  match o with
  | Acquire l s => if free_for all l s then Runs inits (with_held c ((l, s) :: held c)) else Waits
  | Release l => match release l (held c) with Some hs => Runs inits (with_held c hs) | None => Faults end
  | Init l => if bool_decide (l ∈ inits) then Faults else Runs (l :: inits) c
  | Touch l => if bool_decide (l ∈ inits) then Runs inits c else Faults
  | Cli => Runs inits (with_iff c false (saved c))
  | Sti => Runs inits (with_iff c true (saved c))
  | SaveCli => Runs inits (with_iff c false (iff c :: saved c))
  | Restore => match saved c with b :: sv => Runs inits (with_iff c b sv) | [] => Faults end
  | Switch => Runs inits c
  end.

Record frame := { code : list op; fctx : ctx }.

(** A task, and the interrupt handler that runs on top of it, if any. *)
Record thread := { base : frame; hand : option frame }.

Record sys := { cur : nat; inits : list lock; threads : list thread }.

Definition frame_of (t : thread) : frame := default (base t) (hand t).
Definition set_frame (t : thread) (f : frame) : thread :=
  match hand t with
  | None => {| base := f; hand := None |}
  | Some _ => {| base := base t; hand := Some f |}
  end.

Definition thread_holds (t : thread) : list (lock * bool) :=
  held (fctx (base t)) ++ match hand t with Some f => held (fctx f) | None => [] end.
Definition all_holds (s : sys) : list (lock * bool) := flat_map thread_holds (threads s).

Definition set_thread (s : sys) (t : thread) : sys :=
  {| cur := cur s; inits := inits s; threads := <[cur s := t]> (threads s) |}.

(** What each task does over and over. *)
Definition loop_of (i : nat) : prog := if decide (i = 0%nat) then main_loop else taskB_loop.

Inductive step : sys → sys → Prop :=
  | step_op s t o rest ins c :
      threads s !! cur s = Some t → code (frame_of t) = o :: rest →
      exec (all_holds s) (inits s) (fctx (frame_of t)) o = Runs ins c →
      step s {| cur := if decide (o = Switch) then ((cur s + 1) mod length (threads s))%nat else cur s; inits := ins;
                threads := <[cur s := set_frame t {| code := rest; fctx := c |}]> (threads s) |}
  | step_next s t tr :
      threads s !! cur s = Some t → hand t = None → code (base t) = [] → trace (loop_of (cur s)) tr →
      step s (set_thread s {| base := {| code := tr; fctx := fctx (base t) |}; hand := None |})
  | step_interrupt s t tr :
      threads s !! cur s = Some t → hand t = None → iff (fctx (base t)) = true →
      trace (Alt xhci_interrupt_handler lapic_interrupt_handler) tr →
      step s (set_thread s {| base := base t; hand := Some {| code := tr; fctx := {| held := []; iff := false; saved := [] |} |} |})
  | step_iret s t f :
      threads s !! cur s = Some t → hand t = Some f → code f = [] →
      step s (set_thread s {| base := base t; hand := None |}).

(** The main task at the entry of [KernelMain2] (the handlers cannot run before [load_idt]),
    and task B as its context is prepared, with interrupts enabled. *)
Definition start_ctx (b : bool) : ctx := {| held := []; iff := b; saved := [] |}.
Inductive started : sys → Prop :=
  | started_intro tr0 tr1 :
      trace KernelMain2 tr0 → trace initialize_taskB_window tr1 →
      started {| cur := 0; inits := [];
                 threads := [ {| base := {| code := tr0; fctx := start_ctx false |}; hand := None |};
                              {| base := {| code := tr1; fctx := start_ctx true |}; hand := None |} ] |}.

(** ** Checking a program *)

Definition rank (l : lock) : Z :=
  match l with
  | EXECUTOR => 0 | Future => 1 | SPAWNER => 2 | EVENT_RING => 3 | CMD_RING => 4 | TRF_RINGS => 5 | REGS => 6 | DCBAA => 7
  | LAYERS => 8 | CONSOLE => 9 | WinLock _ => 10 | Fore _ => 11 | Back _ => 12 | DEFAULT_PIXEL_FORMAT => 13
  | ChanQueue => 14 | ChanWaker => 15 | TaskQueue => 16 | TaskWaker => 17 | FADT => 18
  | GLOBAL_ALLOCATOR => 19 | Page => 20 | MEM => 21 | TIMER => 22 | EVENTS => 23
  end.

(** The locks of the interrupt handlers. *)
Definition protected (l : lock) : bool := match l with TIMER | EVENTS => true | _ => false end.

Definition statics : list lock :=
  [MEM; GLOBAL_ALLOCATOR; LAYERS; FADT; TIMER; CONSOLE; EVENTS; EXECUTOR; SPAWNER; EVENT_RING; CMD_RING; TRF_RINGS; DCBAA; REGS].

Definition unprotected_only (hs : list (lock * bool)) : bool := forallb (λ h, negb (protected h.1)) hs.

(** Start-up, a task after it, or an interrupt handler. *)
Inductive mode := Booting | Running | Handling.

#[export] Instance mode_eq_dec : EqDecision mode.
Proof. solve_decision. Defined.

Record abs := { a_mode : mode; a_inits : list lock; a_ctx : ctx }.

#[export] Instance abs_eq_dec : EqDecision abs.
Proof. solve_decision. Defined.

Definition with_ctx (a : abs) (c : ctx) : abs := {| a_mode := a_mode a; a_inits := a_inits a; a_ctx := c |}.

Definition may_acquire (a : abs) (l : lock) : bool :=
  match a_mode a with
  | Booting => forallb (λ h, negb (bool_decide (h.1 = l))) (held (a_ctx a))
  | _ => forallb (λ h, rank h.1 <? rank l) (held (a_ctx a)) && eqb (protected l) (negb (iff (a_ctx a)))
  end.

Definition check_op (a : abs) (o : op) : option abs :=
  let c := a_ctx a in
  match o with
  | Acquire l s => if may_acquire a l then Some (with_ctx a (with_held c ((l, s) :: held c))) else None
  | Release l => hs ← release l (held c); Some (with_ctx a (with_held c hs))
  | Init l =>
      if bool_decide (a_mode a = Booting ∧ l ∉ a_inits a)
      then Some {| a_mode := Booting; a_inits := l :: a_inits a; a_ctx := c |} else None
  | Touch l => if bool_decide (l ∈ a_inits a) then Some a else None
  | Cli => if decide (a_mode a = Handling) then None else Some (with_ctx a (with_iff c false (saved c)))
  | Sti =>
      match a_mode a with
      | Booting =>
          if bool_decide (held c = [] ∧ Forall (λ l, l ∈ a_inits a) statics)
          then Some {| a_mode := Running; a_inits := statics; a_ctx := with_iff c true (saved c) |} else None
      | Running => if unprotected_only (held c) then Some (with_ctx a (with_iff c true (saved c))) else None
      | Handling => None
      end
  | SaveCli => if decide (a_mode a = Running) then Some (with_ctx a (with_iff c false (iff c :: saved c))) else None
  | Restore =>
      match a_mode a, saved c with
      | Running, b :: sv => if negb b || unprotected_only (held c) then Some (with_ctx a (with_iff c b sv)) else None
      | _, _ => None
      end
  | Switch => if bool_decide (a_mode a = Handling ∧ held c = []) then Some a else None
  end.

Fixpoint check_ops (a : abs) (s : list op) : option abs :=
  match s with
  | [] => Some a
  | o :: s => a ← check_op a o; check_ops a s
  end.

Fixpoint check (a : abs) (p : prog) : option abs :=
  match p with
  | Skip => Some a
  | Do o => check_op a o
  | Seq p q => a ← check a p; check a q
  | Alt p q =>
      a1 ← check a p; a2 ← check a q; if decide (a1 = a2) then Some a1 else None
  | Star p => a1 ← check a p; if decide (a1 = a) then Some a else None
  end.

Definition idle : abs := {| a_mode := Running; a_inits := statics; a_ctx := start_ctx true |}.
Definition boot_start : abs := {| a_mode := Booting; a_inits := []; a_ctx := start_ctx false |}.
Definition in_handler (c : ctx) : abs := {| a_mode := Handling; a_inits := statics; a_ctx := c |}.

(** Every program of the kernel passes. *)
Lemma programs_checked :
  check boot_start KernelMain2 = Some idle ∧ check idle initialize_taskB_window = Some idle ∧
  check idle main_loop = Some idle ∧ check idle taskB_loop = Some idle ∧
  check (in_handler (start_ctx false)) (Alt xhci_interrupt_handler lapic_interrupt_handler) =
    Some (in_handler (start_ctx false)).
Proof. vm_compute. done. Qed.

(** ** Soundness of the check *)

Lemma check_ops_app a s t : check_ops a (s ++ t) = (check_ops a s ≫= λ a, check_ops a t).
Proof. revert a. induction s as [|o s IH]; intros a; [done|]. simpl. destruct (check_op a o); [apply IH|done]. Qed.

Lemma check_trace p s : trace p s → ∀ a a', check a p = Some a' → check_ops a s = Some a'.
Proof.
  induction 1 as [|o|p q s t _ IHp _ IHq|p q s _ IH|p q s _ IH|p|p s t _ IHp _ IHs]; intros a a' Hc; simpl in *.
  - done.
  - rewrite Hc. done.
  - rewrite check_ops_app. destruct (check a p) as [a1|] eqn:E; [|done]. rewrite (IHp _ _ E). simpl in *. by apply IHq.
  - destruct (check a p) as [a1|] eqn:E1; [|done]. destruct (check a q); [|done]. simpl in Hc. case_decide; [|done].
    simplify_eq. by apply IH.
  - destruct (check a p) as [a1|]; [|done]. destruct (check a q) as [a2|] eqn:E2; [|done]. simpl in Hc. case_decide; [|done].
    simplify_eq. by apply IH.
  - destruct (check a p); [|done]. simpl in Hc. case_decide; [|done]. by simplify_eq.
  - destruct (check a p) as [a1|] eqn:E; [|done]. simpl in Hc. case_decide; [|done]. simplify_eq.
    rewrite check_ops_app, (IHp _ _ E). simpl. apply IHs. rewrite E. simpl. by rewrite decide_True.
Qed.

Definition unprotected (hs : list (lock * bool)) : Prop := ∀ l m, (l, m) ∈ hs → protected l = false.

Lemma unprotected_only_spec hs : unprotected_only hs = true ↔ unprotected hs.
Proof.
  unfold unprotected_only, unprotected. rewrite forallb_forall. split.
  - intros H l m Hin. specialize (H (l, m)). apply negb_true_iff, H. by apply list_elem_of_In.
  - intros H [l m] Hin. apply negb_true_iff. eapply H. by apply list_elem_of_In.
Qed.

(** A task's own state in a mode. *)
Record ctx_ok (md : mode) (c : ctx) : Prop := {
  ck_boot : md = Booting → iff c = false;
  ck_hand : md = Handling → iff c = false;
  ck_iff : iff c = true → unprotected (held c);
  ck_prot : md = Handling → ∀ l m, (l, m) ∈ held c → protected l = true;
}.

Lemma release_Some l hs hs' : release l hs = Some hs' → ∃ m, hs ≡ₚ (l, m) :: hs'.
Proof.
  revert hs'. induction hs as [|[l0 m0] hs IH]; intros hs' H; [done|]. simpl in H. case_decide as Hl.
  - simplify_eq/=. by exists m0.
  - destruct (release l hs) as [hs1|]; [|done]. simplify_eq/=. destruct (IH _ eq_refl) as [m Hp]. exists m.
    rewrite Hp. apply perm_swap.
Qed.

(** A checked operation does not fault; when it runs it does what the check says. *)
Lemma check_op_sound a o a' all ins :
  check_op a o = Some a' → (∀ l, l ∈ a_inits a → l ∈ ins) → (a_mode a = Booting → a_inits a = ins) →
  ctx_ok (a_mode a) (a_ctx a) →
  (exec all ins (a_ctx a) o = Waits ∧ (∃ l s, o = Acquire l s ∧ free_for all l s = false)) ∨
  ∃ ins', exec all ins (a_ctx a) o = Runs ins' (a_ctx a') ∧ (∀ l, l ∈ a_inits a' → l ∈ ins') ∧
    (a_mode a' = Booting → a_inits a' = ins') ∧ ctx_ok (a_mode a') (a_ctx a') ∧
    (a_mode a' ≠ a_mode a → a_mode a = Booting ∧ a_mode a' = Running ∧ held (a_ctx a') = [] ∧ a_inits a' = statics) ∧
    (a_mode a' = a_mode a → a_mode a ≠ Booting → a_inits a' = a_inits a ∧ ins' = ins) ∧
    (o = Switch → a' = a ∧ a_mode a = Handling ∧ held (a_ctx a) = []).
Proof.
  intros Hc Hi Hb [K1 K2 K3 K4]. destruct a as [md ai c]. cbn in *. destruct o as [l s|l|l|l| | | | |]; cbn in *.
  - destruct (free_for all l s) eqn:Ef; [right|left; by eauto 10]. destruct (may_acquire _ l) eqn:Em; [|done]. simplify_eq/=.
    exists ins. split_and!; try done. split; cbn; [done|done| |].
    + intros Ht l' m [[= -> ->]|Hin]%elem_of_cons; [|by eapply K3]. unfold may_acquire in Em. cbn in Em.
      destruct md; [by rewrite K1 in Ht| |by rewrite K2 in Ht].
      apply andb_prop in Em as [_ Em%eqb_prop]. by rewrite Em, Ht.
    + intros -> l' m [[= -> ->]|Hin]%elem_of_cons; [|by eapply K4]. unfold may_acquire in Em. cbn in Em.
      apply andb_prop in Em as [_ Em%eqb_prop]. by rewrite Em, K2.
  - right. destruct (release l (held c)) as [hs|] eqn:Er; [|done]. simplify_eq/=. exists ins. split_and!; try done.
    apply release_Some in Er as [m Hp]. split; cbn; [done|done| |].
    + intros Ht l' m' Hin. apply (K3 Ht l' m'). rewrite Hp. by right.
    + intros Hm l' m' Hin. apply (K4 Hm l' m'). rewrite Hp. by right.
  - right. destruct (bool_decide (md = Booting ∧ _)) eqn:Em; [|done]. apply bool_decide_eq_true in Em as [-> Hm].
    simplify_eq/=. rewrite Hb in Hm by done.
    exists (l :: ins). rewrite bool_decide_false by done. split_and!; try done.
    + intros l' [->|Hl]%elem_of_cons; [by left|right; by apply Hi].
    + intros _. by rewrite Hb.
  - right. destruct (bool_decide (l ∈ ai)) eqn:Em; [|done]. apply bool_decide_eq_true in Em.
    simplify_eq/=. exists ins. rewrite bool_decide_true by auto. by split_and!.
  - right. case_decide as Hm; [done|]. simplify_eq/=. exists ins. split_and!; try done; by split.
  - right. destruct md; [| |done].
    + case_bool_decide as Hm; [|done]. destruct Hm as [Hh Hs]. simplify_eq/=. exists ins. split_and!; try done.
      * intros l Hl. apply Hi. by apply (proj1 (list.Forall_forall _ _) Hs).
      * split; cbn; [done|done| |done]. rewrite Hh. intros _ l m Hin. by apply elem_of_nil in Hin.
    + destruct (unprotected_only (held c)) eqn:Eu; [|done]. simplify_eq/=. exists ins. split_and!; try done.
      split; cbn; [done|done| |done]. intros _. by apply unprotected_only_spec.
  - right. case_decide as Hm; [|done]. simplify_eq/=. exists ins. split_and!; try done; by split.
  - right. destruct md; [done| |done]. destruct (saved c) as [|b sv]; [done|].
    destruct (negb b || unprotected_only (held c)) eqn:Eu; [|done]. simplify_eq/=. exists ins. split_and!; try done.
    split; cbn; [done|done| |done]. intros ->. by apply unprotected_only_spec.
  - right. case_bool_decide as Hm; [|done]. destruct Hm as [-> Hm]. simplify_eq/=. exists ins. split_and!; try done.
Qed.

(** ** The invariant *)

Definition base_abs (boot : bool) (ins : list lock) (c : ctx) : abs :=
  {| a_mode := if boot then Booting else Running; a_inits := if boot then ins else statics; a_ctx := c |}.

Record thread_ok (boot : bool) (ins : list lock) (t : thread) : Prop := {
  tk_base : check_ops (base_abs boot ins (fctx (base t))) (code (base t)) = Some idle;
  tk_ctx : ctx_ok (if boot then Booting else Running) (fctx (base t));
  tk_hand : ∀ f, hand t = Some f → boot = false ∧ iff (fctx (base t)) = true ∧ ctx_ok Handling (fctx f) ∧
    check_ops (in_handler (fctx f)) (code f) = Some (in_handler (start_ctx false));
}.

Definition boots (boot : bool) (i : nat) : bool := boot && bool_decide (i = 0%nat).

Record inv (boot : bool) (s : sys) : Prop := {
  iv_cur : (cur s < length (threads s))%nat;
  iv_threads : ∀ i t, threads s !! i = Some t → thread_ok (boots boot i) (inits s) t;
  iv_inits : boot = false → ∀ l, l ∈ statics → l ∈ inits s;
  iv_boot : boot = true → cur s = 0%nat ∧ ∀ i t, threads s !! i = Some t → hand t = None ∧ (i ≠ 0%nat → thread_holds t = []);
  iv_excl : ∀ i j ti tj l m m', threads s !! i = Some ti → threads s !! j = Some tj → i ≠ j →
    (l, m) ∈ thread_holds ti → (l, m') ∈ thread_holds tj → m && m' = true;
  iv_others : ∀ i t, threads s !! i = Some t → i ≠ cur s → iff (fctx (base t)) = true ∧ unprotected (thread_holds t);
}.

(** The frame that runs, as the check sees it. *)
Definition frame_abs (boot : bool) (ins : list lock) (t : thread) : abs :=
  match hand t with Some f => in_handler (fctx f) | None => base_abs boot ins (fctx (base t)) end.
Definition frame_end (t : thread) : abs := match hand t with Some _ => in_handler (start_ctx false) | None => idle end.

Lemma frame_checked boot ins t :
  thread_ok boot ins t →
  check_ops (frame_abs boot ins t) (code (frame_of t)) = Some (frame_end t) ∧
  ctx_ok (a_mode (frame_abs boot ins t)) (a_ctx (frame_abs boot ins t)) ∧
  a_ctx (frame_abs boot ins t) = fctx (frame_of t).
Proof.
  intros [H1 H2 H3]. unfold frame_abs, frame_end, frame_of. destruct (hand t) as [f|]; cbn; [|done].
  by destruct (H3 f eq_refl) as (_ & _ & ? & ?).
Qed.


(** Locks held after an operation were held before, or were free for it. *)
Lemma exec_held all ins c o ins' c' h :
  exec all ins c o = Runs ins' c' → h ∈ held c' → h ∈ held c ∨ free_for all h.1 h.2 = true.
Proof.
  destruct o as [l s|l|l|l| | | | |]; cbn; intros E Hin; repeat case_match; simplify_eq/=; try by left.
  - apply elem_of_cons in Hin as [->|Hin]; [by right|by left].
  - left. match goal with H : release _ _ = Some _ |- _ => apply release_Some in H as [m Hp] end. rewrite Hp. by right.
Qed.

Lemma free_for_spec all l s : free_for all l s = true → ∀ m, (l, m) ∈ all → m && s = true.
Proof.
  intros H m Hin. unfold free_for in H. rewrite forallb_forall in H. specialize (H (l, m)).
  cbn in H. rewrite bool_decide_true in H by done. apply H. by apply list_elem_of_In.
Qed.

Lemma free_for_false all l s : free_for all l s = false → ∃ m, (l, m) ∈ all.
Proof.
  unfold free_for. induction all as [|[l' m'] all IH]; cbn; [done|]. intros H. apply andb_false_iff in H as [H|H].
  - apply orb_false_iff in H as [H%negb_false_iff%bool_decide_eq_true _]. cbn in H. subst. exists m'. by left.
  - destruct (IH H) as [m Hm]. exists m. by right.
Qed.

Lemma all_holds_thread s i t h : threads s !! i = Some t → h ∈ thread_holds t → h ∈ all_holds s.
Proof.
  intros Ht Hh. unfold all_holds. apply list_elem_of_In, in_flat_map. exists t.
  split; apply list_elem_of_In; [by eapply list_elem_of_lookup_2|done].
Qed.

Lemma all_holds_inv s h : h ∈ all_holds s → ∃ i t, threads s !! i = Some t ∧ h ∈ thread_holds t.
Proof.
  intros Hh. apply list_elem_of_In, in_flat_map in Hh as (t & Ht & Hh). apply list_elem_of_In, list_elem_of_lookup in Ht as [i Hi].
  exists i, t. split; [done|by apply list_elem_of_In].
Qed.

(** The running thread changes only its own frame. *)
Lemma set_frame_holds t f h :
  h ∈ thread_holds (set_frame t f) →
  h ∈ held (fctx f) ∨ (h ∈ thread_holds t ∧ (hand t ≠ None ∧ h ∈ held (fctx (base t)))).
Proof.
  unfold set_frame, thread_holds. destruct (hand t) as [g|]; cbn; rewrite ?app_nil_r; [|by left].
  intros [Hb|Hf]%elem_of_app; [right|by left]. split; [|done]. apply elem_of_app. by left.
Qed.

Lemma frame_holds t h : h ∈ held (fctx (frame_of t)) → h ∈ thread_holds t.
Proof.
  unfold frame_of, thread_holds. destruct (hand t); cbn; intros; apply elem_of_app; [by right|by left].
Qed.

(** What the invariant says of the next operation. *)
Lemma next_op boot s t o rest :
  inv boot s → threads s !! cur s = Some t → code (frame_of t) = o :: rest →
  let a := frame_abs (boots boot (cur s)) (inits s) t in
  ∃ a', check_op a o = Some a' ∧ check_ops a' rest = Some (frame_end t) ∧
    (∀ l, l ∈ a_inits a → l ∈ inits s) ∧ (a_mode a = Booting → a_inits a = inits s) ∧ ctx_ok (a_mode a) (a_ctx a) ∧
    a_ctx a = fctx (frame_of t).
Proof.
  intros Hi Ht Hc a. destruct (frame_checked _ _ _ (iv_threads _ _ Hi _ _ Ht)) as (H1 & H2 & H3).
  rewrite Hc in H1. cbn [check_ops] in H1. fold a in H1, H2, H3. destruct (check_op a o) as [a'|] eqn:E; [|done].
  exists a'. split_and!; try done.
  - subst a. unfold frame_abs, base_abs, in_handler. intros l. destruct (hand t) eqn:Eh; cbn.
    + destruct boot; [|by apply (iv_inits _ _ Hi)]. destruct (iv_boot _ _ Hi eq_refl) as [_ Hb].
      destruct (Hb _ _ Ht) as [Hn _]. congruence.
    + destruct (boots boot (cur s)) eqn:Eb; [done|]. destruct boot; [|by apply (iv_inits _ _ Hi)].
      destruct (iv_boot _ _ Hi eq_refl) as [H0 _]. unfold boots in Eb. by rewrite H0 in Eb.
  - subst a. unfold frame_abs, base_abs, in_handler. destruct (hand t); cbn; [done|]. by destruct (boots boot (cur s)).
Qed.

(** Where the mode ends up. *)
Definition still_booting (a' : abs) (boot : bool) : bool := boot && bool_decide (a_mode a' = Booting).

Lemma frame_abs_mode boot s t :
  inv boot s → threads s !! cur s = Some t →
  (a_mode (frame_abs (boots boot (cur s)) (inits s) t) = Booting ↔ boot = true) ∧
  (a_mode (frame_abs (boots boot (cur s)) (inits s) t) = Handling ↔ hand t ≠ None).
Proof.
  intros Hi Ht. unfold frame_abs, base_abs, boots. destruct (hand t) eqn:Eh; cbn.
  - split; [|done]. split; [done|]. intros ->. destruct (iv_boot _ _ Hi eq_refl) as [_ Hb].
    destruct (Hb _ _ Ht) as [Hn _]. congruence.
  - destruct boot; cbn; [|by split].
    destruct (iv_boot _ _ Hi eq_refl) as [-> _]. by rewrite bool_decide_true.
Qed.

Lemma thread_ok_inits ins ins' t : thread_ok false ins t → thread_ok false ins' t.
Proof. by intros [H1 H2 H3]. Qed.

Lemma boots_false boot s i : inv boot s → i ≠ cur s → boots boot i = false.
Proof.
  intros Hi Hne. unfold boots. destruct boot; [|done]. destruct (iv_boot _ _ Hi eq_refl) as [H0 _].
  rewrite bool_decide_false by congruence. done.
Qed.

(** The running thread after a checked operation. *)
Lemma thread_after boot s t o rest ins c :
  inv boot s → threads s !! cur s = Some t → code (frame_of t) = o :: rest →
  exec (all_holds s) (inits s) (fctx (frame_of t)) o = Runs ins c →
  ∃ boot', thread_ok (boots boot' (cur s)) ins (set_frame t {| code := rest; fctx := c |}) ∧
    (boot' = false → ∀ l, l ∈ statics → l ∈ ins) ∧ (boot' = true → boot = true ∧ hand t = None ∧ o ≠ Switch) ∧
    (boot = false → ins = inits s) ∧ (o = Switch → held c = [] ∧ hand t ≠ None).
Proof.
  intros Hi Ht Hc E. destruct (next_op boot s t o rest Hi Ht Hc) as (a' & Ho & Hr & Hin & Hbt & Hok & Ha).
  destruct (frame_abs_mode boot s t Hi Ht) as [Mb Mh]. set (a := frame_abs _ _ t) in *.
  destruct (check_op_sound a o a' (all_holds s) (inits s) Ho Hin Hbt Hok) as [[Ew _]|(ins' & Er & R1 & R2 & R3 & R4 & R5 & R6)];
    rewrite Ha in *; [congruence|]. rewrite E in Er. injection Er as -> ->.
  exists (still_booting a' boot). pose proof (iv_threads _ _ Hi _ _ Ht) as [T1 T2 T3].
  assert (a_mode a ≠ Booting → a_mode a' = a_mode a) as Hkeep.
  { intros Hnb. destruct (decide (a_mode a' = a_mode a)) as [|Hne]; [done|]. by destruct (R4 Hne). }
  assert (hand t = None → a' = base_abs (boots (still_booting a' boot) (cur s)) ins' (a_ctx a')) as Hbase.
  { intros Hh. unfold base_abs, boots, still_booting. destruct a' as [md ai c']. cbn in *.
    destruct boot; cbn.
    - destruct (iv_boot _ _ Hi eq_refl) as [-> _]. rewrite (bool_decide_true (0 = 0)%nat), andb_true_r by done.
      case_bool_decide as Hm; [by rewrite R2, Hm|].
      destruct (R4 ltac:(rewrite (proj2 Mb); done)) as (_ & -> & _ & ->). done.
    - assert (a_mode a = Running) as Hrun.
      { destruct (a_mode a) eqn:Em; [by discriminate (proj1 Mb eq_refl)|done|by destruct (proj1 Mh eq_refl Hh)]. }
      rewrite Hrun in *. rewrite (Hkeep ltac:(done)). destruct R5 as [-> _]; [by rewrite Hkeep|done|].
      unfold a, frame_abs. by rewrite Hh. }
  split_and!.
  - unfold set_frame. destruct (hand t) as [f|] eqn:Eh.
    + destruct (T3 f eq_refl) as (B1 & B2 & B3 & B4).
      assert (boot = false) as -> by (destruct boot; [|done]; destruct (iv_boot _ _ Hi eq_refl) as [_ Hb]; by destruct (Hb _ _ Ht); congruence).
      change (boots false (cur s)) with false in *. change (boots (still_booting a' false) (cur s)) with false.
      split; cbn; [done|done|]. intros g [= <-]. cbn. split; [done|]. split; [done|].
      assert (a_mode a = Handling) as Hm by (by apply Mh). specialize (Hkeep ltac:(congruence)).
      destruct R5 as [Ri _]; [by rewrite Hkeep|congruence|].
      assert (a' = in_handler (a_ctx a')) as Ea'.
      { destruct a' as [md ai c']. cbn in *. unfold in_handler. rewrite Hkeep, Hm, Ri. unfold a, frame_abs. by rewrite Eh. }
      split; [by rewrite <- Hm, <- Hkeep|]. rewrite <- Ea'. unfold frame_end in Hr. by rewrite Eh in Hr.
    + specialize (Hbase eq_refl). split; cbn; [|by rewrite Hbase in R3|done].
      rewrite <- Hbase. unfold frame_end in Hr. by rewrite Eh in Hr.
  - unfold still_booting. intros Hsb l Hl. destruct boot; cbn in Hsb.
    + apply bool_decide_eq_false in Hsb. destruct (R4 ltac:(rewrite (proj2 Mb); done)) as (_ & _ & _ & Es).
      apply R1. by rewrite Es.
    + assert (a_mode a ≠ Booting) as Hnb by (intros H%Mb; done).
      destruct R5 as [_ ->]; [by apply Hkeep|done|]. by apply (iv_inits _ _ Hi).
  - unfold still_booting. intros [-> Hm%bool_decide_eq_true]%andb_prop. split; [done|].
    destruct (iv_boot _ _ Hi eq_refl) as [_ Hb]. split; [by apply (Hb _ _ Ht)|].
    intros ->. destruct (R6 eq_refl) as (_ & Hh & _). apply Mh in Hh. by destruct (Hb _ _ Ht).
  - intros ->. assert (a_mode a ≠ Booting) as Hnb by (intros H%Mb; done). by apply R5; [apply Hkeep|].
  - intros ->. destruct (R6 eq_refl) as (-> & Hh & Hhe). rewrite Ha. split; [done|]. by apply Mh.
Qed.

Lemma lookup_set_cur (s : sys) t' i t :
  (cur s < length (threads s))%nat → <[cur s := t']> (threads s) !! i = Some t →
  (i = cur s ∧ t = t') ∨ (i ≠ cur s ∧ threads s !! i = Some t).
Proof.
  intros Hl. destruct (decide (i = cur s)) as [->|Hne].
  - rewrite list_lookup_insert_eq by done. intros [= ->]. by left.
  - rewrite list_lookup_insert_ne by done. by right.
Qed.

(** Replacing the running thread by one that holds no more than what was free. *)
Lemma inv_replace boot boot' s t t' ins cur' :
  inv boot s → threads s !! cur s = Some t → thread_ok (boots boot' (cur s)) ins t' →
  (boot' = false → ∀ l, l ∈ statics → l ∈ ins) → (boot' = true → boot = true ∧ hand t' = None ∧ cur' = cur s) →
  (cur' < length (threads s))%nat → (cur' ≠ cur s → iff (fctx (base t')) = true ∧ unprotected (thread_holds t')) →
  (∀ h, h ∈ thread_holds t' → h ∈ thread_holds t ∨ free_for (all_holds s) h.1 h.2 = true) →
  inv boot' {| cur := cur'; inits := ins; threads := <[cur s := t']> (threads s) |}.
Proof.
  intros Hi Ht Hok Hins Hbt Hlen Hsw Hh. pose proof (iv_cur _ _ Hi) as Hcur.
  assert (∀ j tj m m' l, threads s !! j = Some tj → j ≠ cur s → (l, m) ∈ thread_holds t' → (l, m') ∈ thread_holds tj → m' && m = true) as Hex.
  { intros j tj m m' l Hj Hne H1 H2. destruct (Hh _ H1) as [H1'|Hf].
    - eapply (iv_excl _ _ Hi j (cur s)); done.
    - apply (free_for_spec _ _ _ Hf). by eapply all_holds_thread. }
  split; cbn.
  - by rewrite length_insert.
  - intros i ti [[-> ->]|[Hne Hti]]%lookup_set_cur; [done| |done].
    assert (boots boot' i = false) as ->.
    { unfold boots. destruct boot'; [|done]. destruct (Hbt eq_refl) as (-> & _). destruct (iv_boot _ _ Hi eq_refl) as [H0 _].
      by rewrite bool_decide_false by congruence. }
    eapply thread_ok_inits. rewrite <- (boots_false boot s i Hi Hne). by apply (iv_threads _ _ Hi).
  - done.
  - intros ->. destruct (Hbt eq_refl) as (-> & Hn & ->). destruct (iv_boot _ _ Hi eq_refl) as [H0 Hb]. split; [done|].
    intros i ti [[-> ->]|[Hne Hti]]%lookup_set_cur; [by split|by apply Hb|done].
  - intros i j ti tj l m m' Hti Htj Hne H1 H2. apply lookup_set_cur in Hti as [[-> ->]|[Hne1 Hti]]; [| |done];
      apply lookup_set_cur in Htj as [[-> ->]|[Hne2 Htj]]; try done.
    + rewrite andb_comm. by eapply Hex.
    + by eapply Hex.
    + by eapply (iv_excl _ _ Hi i j).
  - intros i ti Hti Hne. apply lookup_set_cur in Hti as [[-> ->]|[Hne1 Hti]]; [| |done].
    + by apply Hsw.
    + by eapply (iv_others _ _ Hi i).
Qed.

Lemma inv_op boot s t o rest ins c :
  inv boot s → threads s !! cur s = Some t → code (frame_of t) = o :: rest →
  exec (all_holds s) (inits s) (fctx (frame_of t)) o = Runs ins c →
  ∃ boot', inv boot' {| cur := if decide (o = Switch) then ((cur s + 1) mod length (threads s))%nat else cur s; inits := ins;
    threads := <[cur s := set_frame t {| code := rest; fctx := c |}]> (threads s) |}.
Proof.
  intros Hi Ht Hc E. destruct (thread_after boot s t o rest ins c Hi Ht Hc E) as (boot' & T1 & T2 & T3 & _ & T5).
  exists boot'. pose proof (iv_cur _ _ Hi) as Hcur. eapply inv_replace; [done..| | | |].
  - intros Hb. destruct (T3 Hb) as (-> & Hn & Hsw). rewrite decide_False by done. split_and!; try done.
    unfold set_frame. by rewrite Hn.
  - case_decide; [|done]. apply Nat.mod_upper_bound. lia.
  - case_decide as Hd; [|done]. intros _. destruct (T5 Hd) as [Hh Hn].
    destruct (hand t) as [f|] eqn:Eh; [|done]. pose proof (iv_threads _ _ Hi _ _ Ht) as [_ Hctx Hhand].
    destruct (Hhand f Eh) as (_ & Hiff & _ & _). split; [unfold set_frame; by rewrite Eh|].
    intros l m Hin. apply set_frame_holds in Hin as [Hin|(_ & _ & Hin)]; cbn in Hin.
    + rewrite Hh in Hin. by apply elem_of_nil in Hin.
    + by eapply (ck_iff _ _ Hctx Hiff).
  - intros h Hin. apply set_frame_holds in Hin as [Hin|(Hin & _)]; [|by left].
    destruct (exec_held _ _ _ _ _ _ _ E Hin) as [Hin'|Hf]; [left; by apply frame_holds|by right].
Qed.

Lemma loop_checked i tr : trace (loop_of i) tr → check_ops idle tr = Some idle.
Proof.
  destruct programs_checked as (_ & _ & H1 & H2 & _). unfold loop_of. case_decide; intros Ht; by apply (check_trace _ _ Ht).
Qed.

Lemma locks_inv_step boot s s' : inv boot s → step s s' → ∃ boot', inv boot' s'.
Proof.
  intros Hi Hst. destruct Hst as [s t o rest ins c Ht Hc E|s t tr Ht Hh Hc Htr|s t tr Ht Hh Hf Htr|s t f Ht Hh Hc];
    [by eapply inv_op|..]; pose proof (iv_threads _ _ Hi _ _ Ht) as [T1 T2 T3]; pose proof (iv_cur _ _ Hi) as Hcur.
  - assert (boot = false) as ->.
    { destruct boot; [|done]. destruct (iv_boot _ _ Hi eq_refl) as [H0 _]. rewrite H0 in T1. by rewrite Hc in T1. }
    exists false. eapply inv_replace; try done; [|by apply (iv_inits _ _ Hi)|].
    + change (boots false (cur s)) with false in *. rewrite Hc in T1. cbn in T1. injection T1 as T1.
      split; cbn; [|done|done]. unfold base_abs. rewrite T1. by eapply loop_checked.
    + intros h Hin. left. unfold thread_holds in *. cbn in Hin. rewrite Hh. done.
  - assert (boot = false) as ->.
    { destruct boot; [|done]. destruct (iv_boot _ _ Hi eq_refl) as [H0 _]. rewrite H0 in T2. destruct T2 as [K _ _ _].
      by rewrite K in Hf. }
    exists false. eapply inv_replace; try done; [|by apply (iv_inits _ _ Hi)|].
    + change (boots false (cur s)) with false in *. split; cbn; [done|done|]. intros g [= <-]. split_and!; try done.
      * split; cbn; [done|done| |]; intros _ l m Hin; by apply elem_of_nil in Hin.
      * apply (check_trace _ _ Htr). by destruct programs_checked as (_ & _ & _ & _ & ?).
    + intros h Hin. left. unfold thread_holds in *. cbn in Hin. by rewrite Hh.
  - assert (boot = false) as ->.
    { destruct boot; [|done]. destruct (iv_boot _ _ Hi eq_refl) as [_ Hb]. destruct (Hb _ _ Ht). congruence. }
    exists false. eapply inv_replace; try done; [by apply (iv_inits _ _ Hi)|].
    intros h Hin. left. unfold thread_holds in *. cbn in Hin. rewrite app_nil_r in Hin. apply elem_of_app. by left.
Qed.

Lemma start_thread_ok (b : bool) tr :
  check_ops (if b then boot_start else idle) tr = Some idle →
  thread_ok b [] {| base := {| code := tr; fctx := start_ctx (negb b) |}; hand := None |}.
Proof.
  intros H. split; cbn [base hand code fctx]; [by destruct b| |done].
  destruct b; split; cbn; try done; intros _ l m Hin; by apply elem_of_nil in Hin.
Qed.

Lemma inv_start s : started s → inv true s.
Proof.
  intros [tr0 tr1 H0 H1]. destruct programs_checked as (P1 & P2 & _).
  apply (check_trace _ _ H0 boot_start idle), (start_thread_ok true) in P1 as T0. clear P1 H0.
  apply (check_trace _ _ H1 idle idle), (start_thread_ok false) in P2 as T1. clear P2 H1.
  split; cbn [cur inits threads].
  - simpl. lia.
  - intros [|[|]] t Ht; [by injection Ht as <-|by injection Ht as <-|done].
  - done.
  - intros _. split; [done|]. intros [|[|]] t Ht; [by injection Ht as <-|by injection Ht as <-|done].
  - intros [|[|]] j ti tj l m m' Hi Hj Hne Hl; try done; injection Hi as <-; by apply elem_of_nil in Hl.
  - intros [|[|]] t Ht Hne; try done; injection Ht as <-. split; [done|]. intros l m Hl. by apply elem_of_nil in Hl.
Qed.

Lemma reachable_inv s0 s : started s0 → rtc step s0 s → ∃ boot, inv boot s.
Proof.
  intros Hs Hr. apply inv_start in Hs. eapply (rtc_ind_r (λ s, ∃ boot, inv boot s) s0); [by exists true| |done].
  intros s1 s2 _ Hst [b Hb]. by eapply locks_inv_step.
Qed.

(** ** Progress *)

(** Whether a task can go on where it stands, once it is scheduled. *)
Definition can_run (s : sys) (t : thread) : Prop :=
  code (base t) = [] ∨
  ∃ o rest ins c, code (base t) = o :: rest ∧ exec (all_holds s) (inits s) (fctx (base t)) o = Runs ins c.

Lemma acquire_checked a l sh a' :
  check_op a (Acquire l sh) = Some a' → may_acquire a l = true.
Proof. cbn. by destruct (may_acquire a l). Qed.

Lemma may_acquire_held a l : may_acquire a l = true → ∀ m, (l, m) ∉ held (a_ctx a).
Proof.
  unfold may_acquire. intros H m Hin%list_elem_of_In.
  destruct (a_mode a); [|apply andb_prop in H as [H _]..]; rewrite forallb_forall in H; specialize (H _ Hin); cbn in H;
    [by rewrite bool_decide_true in H|lia..].
Qed.

Lemma may_acquire_running a l :
  a_mode a ≠ Booting → may_acquire a l = true →
  (∀ l' m, (l', m) ∈ held (a_ctx a) → rank l' < rank l) ∧ protected l = negb (iff (a_ctx a)).
Proof.
  unfold may_acquire. intros Hm H.
  assert (forallb (λ h, rank h.1 <? rank l) (held (a_ctx a)) && eqb (protected l) (negb (iff (a_ctx a))) = true) as H'
    by (by destruct (a_mode a)).
  apply andb_prop in H' as [H1 H2%eqb_prop]. split; [|done]. intros l' m Hin%list_elem_of_In.
  rewrite forallb_forall in H1. specialize (H1 _ Hin). cbn in H1. lia.
Qed.

(** With interrupts off the running thread never waits. *)
Lemma masked_never_waits boot s t l sh rest :
  inv boot s → threads s !! cur s = Some t → (hand t ≠ None ∨ iff (fctx (base t)) = false) →
  code (frame_of t) = Acquire l sh :: rest → free_for (all_holds s) l sh = true.
Proof.
  intros Hi Ht Hoff Hc. destruct (free_for (all_holds s) l sh) eqn:Ef; [done|exfalso].
  apply free_for_false in Ef as [m (i & ti & Hti & Hin)%all_holds_inv].
  destruct (next_op boot s t _ rest Hi Ht Hc) as (a' & Ho & _ & _ & _ & Hok & Ha). apply acquire_checked in Ho.
  pose proof (may_acquire_held _ _ Ho) as Hnh. rewrite Ha in Hnh.
  destruct (frame_abs_mode boot s t Hi Ht) as [Mb Mh]. pose proof (iv_threads _ _ Hi _ _ Ht) as [_ T2 T3].
  destruct (decide (i = cur s)) as [->|Hne].
  - assert (ti = t) as -> by congruence. unfold frame_of in Hnh, Ha. destruct (hand t) as [f|] eqn:Eh; cbn in *.
    + unfold thread_holds in Hin. rewrite Eh in Hin. apply elem_of_app in Hin as [Hin|Hin]; [|by eapply Hnh].
      destruct (T3 f eq_refl) as (_ & Hiff & _ & _). pose proof (ck_iff _ _ T2 Hiff _ _ Hin) as Hp.
      apply may_acquire_running in Ho as [_ Ho]; [|by rewrite (proj2 Mh)]. rewrite Ha in Ho.
      rewrite Hp in Ho. destruct Hok as [_ K _ _]. rewrite Ha in K. by rewrite (K (proj2 Mh ltac:(done))) in Ho.
    + unfold thread_holds in Hin. rewrite Eh, app_nil_r in Hin. by eapply Hnh.
  - destruct boot.
    + destruct (iv_boot _ _ Hi eq_refl) as [H0 Hb]. destruct (Hb _ _ Hti) as [_ Hz]. rewrite Hz in Hin by congruence.
      by apply elem_of_nil in Hin.
    + destruct (iv_others _ _ Hi _ _ Hti Hne) as [_ Hu]. specialize (Hu _ _ Hin).
      apply may_acquire_running in Ho as [_ Ho]; [|by intros H%Mb]. rewrite Ha, Hu in Ho.
      destruct Hoff as [Hh|Hf].
      * destruct Hok as [_ K _ _]. rewrite Ha in K. by rewrite (K (proj2 Mh Hh)) in Ho.
      * unfold frame_of in Ho, Ha. destruct (hand t) as [f|] eqn:Eh; cbn in *; [|by rewrite Hf in Ho].
        by destruct (T3 f eq_refl) as (_ & Hiff & _); congruence.
Qed.

(** The holder of a lock somebody waits for, after start-up. *)
Lemma holder_of s i t l sh rest :
  inv false s → threads s !! i = Some t → code (base t) = Acquire l sh :: rest → free_for (all_holds s) l sh = false →
  ∃ j tj m, threads s !! j = Some tj ∧ (l, m) ∈ held (fctx (base tj)).
Proof.
  intros Hi Ht Hc Ef. pose proof (iv_threads _ _ Hi _ _ Ht) as [T1 T2 T3]. change (boots false i) with false in *.
  rewrite Hc in T1. cbn [check_ops] in T1. destruct (check_op _ _) as [a'|] eqn:Eo in T1; [|done].
  apply acquire_checked, may_acquire_running in Eo as [Hrank Hp]; [|done]. cbn in Hrank, Hp.
  pose proof Ef as Ef'. apply free_for_false in Ef as [m (j & tj & Htj & Hin)%all_holds_inv].
  exists j, tj, m. split; [done|]. unfold thread_holds in Hin. destruct (hand tj) as [f|] eqn:Eh;
    [|by rewrite app_nil_r in Hin]. apply elem_of_app in Hin as [Hin|Hin]; [done|exfalso].
  pose proof (iv_threads _ _ Hi _ _ Htj) as [_ _ T3']. destruct (T3' f Eh) as (_ & Hiff & Hok & _).
  pose proof (ck_prot _ _ Hok eq_refl _ _ Hin) as Hpl. rewrite Hpl in Hp. symmetry in Hp. apply negb_true_iff in Hp.
  destruct (decide (i = cur s)) as [->|Hne].
  - rewrite (masked_never_waits false s t l sh rest Hi Ht) in Ef'; [done|by right|].
    unfold frame_of. destruct (hand t) as [g|] eqn:Eg; [|done]. destruct (T3 g eq_refl) as (_ & H & _). congruence.
  - destruct (iv_others _ _ Hi _ _ Ht Hne). congruence.
Qed.

(** The next operation of a task after start-up runs, or waits for a lock of higher rank than
    all it holds. *)
Lemma base_op s i t o rest :
  inv false s → threads s !! i = Some t → code (base t) = o :: rest →
  can_run s t ∨ ∃ l sh, o = Acquire l sh ∧ free_for (all_holds s) l sh = false ∧
    ∀ l' m, (l', m) ∈ held (fctx (base t)) → rank l' < rank l.
Proof.
  intros Hi Ht Hc. pose proof (iv_threads _ _ Hi _ _ Ht) as [T1 T2 _]. change (boots false i) with false in *.
  rewrite Hc in T1. cbn [check_ops] in T1.
  destruct (check_op (base_abs false (inits s) (fctx (base t))) o) as [a'|] eqn:Eo; [|done].
  destruct (check_op_sound _ _ _ (all_holds s) (inits s) Eo) as [[_ (l & sh & -> & Ef)]|(ins' & Er & _)];
    [by apply (iv_inits _ _ Hi)|done|done| |].
  - right. exists l, sh. split; [done|]. split; [done|]. by apply acquire_checked, may_acquire_running in Eo as [Hrank _].
  - left. right. by exists o, rest, ins', (a_ctx a').
Qed.

(** Waiting does not go in a circle: ranks increase along it. *)
Lemma waiting_ends n s i t l sh rest :
  inv false s → threads s !! i = Some t → code (base t) = Acquire l sh :: rest → free_for (all_holds s) l sh = false →
  24 - rank l < Z.of_nat n → ∃ j tj, threads s !! j = Some tj ∧ can_run s tj.
Proof.
  intros Hi. revert i t l sh rest. induction n as [|n IH]; intros i t l sh rest Ht Hc Ef Hn; [destruct l; cbn in Hn; lia|].
  destruct (holder_of s i t l sh rest Hi Ht Hc Ef) as (j & tj & m & Htj & Hin).
  destruct (code (base tj)) as [|o rest'] eqn:Ec; [by exists j, tj; split; [|left]|].
  destruct (base_op s j tj o rest' Hi Htj Ec) as [Hr|(l' & sh' & -> & Ef' & Hrank)]; [by exists j, tj|].
  eapply (IH j tj l' sh' rest'); try done. specialize (Hrank _ _ Hin). lia.
Qed.

(** The running thread's next operation: it does not fault, and waits only with interrupts on. *)
Lemma running_op boot s t o rest :
  inv boot s → threads s !! cur s = Some t → code (frame_of t) = o :: rest →
  exec (all_holds s) (inits s) (fctx (frame_of t)) o ≠ Faults ∧
  (hand t ≠ None ∨ iff (fctx (base t)) = false →
   ∃ ins c, exec (all_holds s) (inits s) (fctx (frame_of t)) o = Runs ins c).
Proof.
  intros Hi Ht Hc. destruct (next_op boot s t o rest Hi Ht Hc) as (a' & Ho & _ & H1 & H2 & Hok & Ha).
  destruct (check_op_sound _ _ _ (all_holds s) (inits s) Ho H1 H2 Hok) as [[Ew (l & sh & -> & Ef)]|(ins' & Er & _)];
    rewrite Ha in *.
  - split; [congruence|]. intros Hoff. by rewrite (masked_never_waits boot s t l sh rest Hi Ht Hoff Hc) in Ef.
  - split; [congruence|]. intros _. by exists ins', (a_ctx a').
Qed.

Lemma someone_runs boot s : inv boot s → ∃ j tj, threads s !! j = Some tj ∧ can_run s tj.
Proof.
  intros Hi. destruct (lookup_lt_is_Some_2 (threads s) (cur s) (iv_cur _ _ Hi)) as [t Ht].
  destruct (code (base t)) as [|o rest] eqn:Ec; [by exists (cur s), t; split; [|left]|]. destruct boot.
  - exists (cur s), t. split; [done|]. right. destruct (iv_boot _ _ Hi eq_refl) as [H0 Hb]. destruct (Hb _ _ Ht) as [Hh _].
    assert (frame_of t = base t) as Hf by (unfold frame_of; by rewrite Hh).
    pose proof (iv_threads _ _ Hi _ _ Ht) as [_ T2 _]. rewrite H0 in T2.
    destruct (running_op true s t o rest Hi Ht) as [_ (ins & c & E)];
      [by rewrite Hf|right; by apply (ck_boot _ _ T2)|]. rewrite Hf in E. by exists o, rest, ins, c.
  - destruct (base_op s (cur s) t o rest Hi Ht Ec) as [Hr|(l & sh & -> & Ef & _)]; [by exists (cur s), t|].
    eapply (waiting_ends 25 s (cur s) t l sh rest Hi Ht Ec Ef). destruct l; cbn; lia.
Qed.

(** C1: the kernel's locks. From the entry of [KernelMain2], through start-up and every later
    interleaving of the main task, task B and the two interrupt handlers: no static is used
    before its initialisation or initialised twice; no two tasks hold a lock in conflicting
    modes; a thread that runs with interrupts off (start-up, a handler, a section inside
    [without_interrupts]) never waits for a lock, so it cannot hang; and there is always a task
    that can go on, so that the tasks never wait for each other in a circle. *)
Theorem locks_never_deadlock s0 s :
  started s0 → rtc step s0 s →
  ∃ t, threads s !! cur s = Some t ∧
    (∀ o rest, code (frame_of t) = o :: rest →
       exec (all_holds s) (inits s) (fctx (frame_of t)) o ≠ Faults ∧
       (hand t ≠ None ∨ iff (fctx (base t)) = false →
        ∃ ins c, exec (all_holds s) (inits s) (fctx (frame_of t)) o = Runs ins c)) ∧
    (∀ i j ti tj l m m', threads s !! i = Some ti → threads s !! j = Some tj → i ≠ j →
       (l, m) ∈ thread_holds ti → (l, m') ∈ thread_holds tj → m = true ∧ m' = true) ∧
    ∃ j tj, threads s !! j = Some tj ∧ can_run s tj.
Proof.
  intros Hs Hr. destruct (reachable_inv s0 s Hs Hr) as [boot Hi].
  destruct (lookup_lt_is_Some_2 (threads s) (cur s) (iv_cur _ _ Hi)) as [t Ht]. exists t. split; [done|]. split; [|split].
  - intros o rest Hc. by apply (running_op boot s t o rest).
  - intros i j ti tj l m m' Hti Htj Hne H1 H2. apply andb_prop. by eapply (iv_excl _ _ Hi i j).
  - by eapply someone_runs.
Qed.

(** The panic handler prints through the console: when the panic comes from code that is
    printing, its first operation waits for a lock nobody will release. *)
Lemma panic_in_print_waits all ins c tr :
  (CONSOLE, false) ∈ all → trace panic_handler tr →
  ∃ rest, tr = Acquire CONSOLE false :: rest ∧ exec all ins c (Acquire CONSOLE false) = Waits.
Proof.
  intros Hin Htr. unfold panic_handler, println, print_, lazy, locked in Htr.
  inversion Htr as [| |p q s t Hp _| | | |]; subst. inversion Hp as [| |p' q' s' t' Hp' _| | | |]; subst.
  inversion Hp'; subst. eexists. split; [reflexivity|]. cbn.
  destruct (free_for all CONSOLE false) eqn:E; [|done]. by pose proof (free_for_spec _ _ _ E false Hin).
Qed.

(** ** A run through start-up *)

(** The shortest trace of a program. *)
Fixpoint some_trace (p : prog) : list op :=
  match p with
  | Skip | Star _ => []
  | Do o => [o]
  | Seq p q => some_trace p ++ some_trace q
  | Alt p _ => some_trace p
  end.

Lemma some_trace_ok p : trace p (some_trace p).
Proof. induction p; simpl; by constructor. Qed.

(** [n] operations of the running task. *)
Fixpoint exec_n (n : nat) (s : sys) : option sys :=
  match n with
  | O => Some s
  | S n =>
      t ← threads s !! cur s;
      match code (frame_of t) with
      | [] => None
      | o :: rest =>
          match exec (all_holds s) (inits s) (fctx (frame_of t)) o with
          | Runs ins c =>
              exec_n n {| cur := if decide (o = Switch) then ((cur s + 1) mod length (threads s))%nat else cur s; inits := ins;
                          threads := <[cur s := set_frame t {| code := rest; fctx := c |}]> (threads s) |}
          | _ => None
          end
      end
  end.

Lemma exec_n_steps n s s' : exec_n n s = Some s' → rtc step s s'.
Proof.
  revert s. induction n as [|n IH]; intros s H; simpl in H; [simplify_eq; apply rtc_refl|].
  destruct (threads s !! cur s) as [t|] eqn:Ht; [|done]. simpl in H. destruct (code (frame_of t)) as [|o rest] eqn:Hc; [done|].
  destruct (exec _ _ _ _) as [ins c| |] eqn:E; [|done..]. eapply rtc_l; [by eapply step_op|]. by apply IH.
Qed.

Definition start_sys : sys :=
  {| cur := 0; inits := [];
     threads := [ {| base := {| code := some_trace KernelMain2; fctx := start_ctx false |}; hand := None |};
                  {| base := {| code := some_trace initialize_taskB_window; fctx := start_ctx true |}; hand := None |} ] |}.

(** After start-up and the first timers. *)
Definition booted_sys : option sys := exec_n (length (some_trace KernelMain2)) start_sys.

Lemma booted_sys_ok : ∃ s, booted_sys = Some s ∧ Forall (λ l, l ∈ inits s) statics ∧ iff <$> (fctx ∘ base <$> threads s !! 0%nat) = Some true.
Proof.
  eexists. split; [vm_compute; reflexivity|]. split; [|reflexivity].
  repeat constructor; apply (bool_decide_unpack _); vm_compute; done.
Qed.

Lemma start_started : started start_sys.
Proof. unfold start_sys. constructor; apply some_trace_ok. Qed.

Lemma booted_steps s : booted_sys = Some s → rtc step start_sys s.
Proof. apply exec_n_steps. Qed.

Lemma locks_never_deadlock_witness :
  ∃ s, booted_sys = Some s ∧ ∃ j tj, threads s !! j = Some tj ∧ can_run s tj.
Proof.
  destruct booted_sys_ok as (s & E & _ & _). exists s. split; [exact E|].
  destruct (locks_never_deadlock start_sys s start_started (booted_steps s E)) as (t & _ & _ & _ & H). exact H.
Defined.
